(* ===== verification/_CoqProject ===== *)
-Q . S2P
Prelude.v
Std.v
Externals.v
Layout.v
Engine.v
Transform.v
Reassembly.v
SnowTypes.v
Transport.v
Session.v
SessionFacts.v
Concrete.v
SessionProps.v
Handler.v
Table.v
HandlerFacts.v
Reachable.v
Keeping.v
HandlerProps.v
Steps.v
Interleaving.v
Wire.v
Connection.v
DualStack.v
IpDiscovery.v
Delegates.v
Streams.v
Endpoint.v
Veq.v
VeqProps.v
Receive.v
Lifecycle.v
Handles.v
Users.v
Network.v
Program.v
Programs.v
UnitTests.v
Scenarios.v
