(* ===== verification/Prelude.v ===== *)
(** * veq: a verification development

    The crate [veq] (src/src/) gives two programs an encrypted, message-oriented
    session over UDP: a user binds a [VeqSocket], exchanges a [ConnectionInfo] with the
    peer by other means, calls [connect], and sends and receives byte messages of any
    length but zero on the [VeqSession] this returns.

    ** How the parts interact

    - [VeqSocket] (veq.rs) owns a [Handler] and two loops.  The receive loop reads
      datagrams from a socket (dualstack/) and calls [Handler::handle_incoming]; the
      transmit loop takes packets from the handler's outgoing channel, serializes them
      and sends them.
    - The [Handler] (handler.rs) keeps, by session identifier, the connections that are
      being made and those that are established, in four maps behind four locks.  A
      packet is given to the entry of its identifier.  [initiate] and [respond] make a
      pending entry and return a future; the packet that completes the handshake moves
      the entry to the established sessions and notifies the future.
    - A pending session (session.rs) has a task that sends its handshake message again
      and again; an established [Session] has a keepalive task and a heartbeat task,
      a queue of received messages and the wakers of the readers that wait.
    - Packets are sealed by a [LossyTransportState] (snow_types.rs), which numbers them
      and refuses numbers it has seen, on top of the noise engine of the crate snow.
    - A [Chunker] (transform.rs) cuts the messages of the user into chunks and puts them
      together again, over any [Bidirectional] delegate; in a [VeqSession] the delegate
      is the session of the handler.  A [VeqSession] can be cloned; the connection is
      closed when the last clone is dropped.
    - [discover_ips] (ip_discovery/mod.rs) finds the addresses put into the
      [ConnectionInfo]; the program in bin.rs exchanges them as text.

    ** Files

    What everything shares:
    - [Prelude]: outcomes of Rust computations, the state monad [M] of methods taking
      [&mut self], [u64] arithmetic, the tactic [unfold_monad], and [triple]s, the
      invariants of computations;
    - [Std]: [Vec] and slices with their panics, the ordered sets and maps over
      integers, socket addresses;
    - [Externals]: the crates the program calls, as classes of operations and classes of
      the documented laws the theorems use; [Layout] and [Engine] satisfy the laws.

    The model, a file or section per component, named as in the source:
    - [Transform] (transform.rs), [SnowTypes] (snow_types.rs), [Session] (session.rs),
      [Handler] (handler.rs), [DualStack] (dualstack/), [IpDiscovery]
      (ip_discovery/mod.rs), [Veq] (veq.rs), [Program] (bin.rs).
    A method [m] of a type [T] is [T_m], or [m] where the name is free.  An operation is
    a function from the state it locks to the state it leaves and its outcome.  What is
    shared through an [Arc] is a location of the [Runtime] (tasks, shared parts of
    sessions, the outgoing channel) or of the [World] (the runtime and the maps of a
    handler).  A spawned loop is an entry of the runtime and one definition per turn
    ([task_tick]); [JoinHandle::abort] removes it.  Random numbers, fresh identifiers,
    wakers and the choices of [select!] are arguments.  Where an operation takes several
    locks one after the other, each access is a definition, so that theorems can put
    another operation in between.  Operations run one after the other, each to its
    return, its wait or the end of its turn, except in [Steps], where they are sequences
    of accesses that interleave under any schedule, and in the theorems on races.

    The theory:
    - [Reassembly] (chunks), [Delegates] (the chunker over any delegate),
      [Streams] (the same when packets are lost), [Transport] (the lossy transport and
      the handshake), [SessionFacts] and [SessionProps] (sessions);
    - [Table], [HandlerFacts]: the four maps as one table of connections, and what each
      operation does to it; [Reachable]: the events of a handler and the states they
      reach; [Keeping]: what the operations of the handler keep, given what those of the
      runtime keep (the class [RuntimeKeeps]); [HandlerProps]: the properties of the
      handler; [Wire]: what it puts on the wire;
    - [Steps]: the operations of the handler once more, as processes cut at every access
      to what is shared, and schedules of operations that overlap; a process that runs
      alone is the operation of [Handler] ([solo_event]); [Interleaving]: what holds
      under every schedule;
    - [Connection]: the handshake of two handlers; [VeqProps]: the loops of the socket
      and delivery from user to user; [Receive]: the receive loop over a session;
      [Lifecycle]: how a connection starts and ends for its users; [Handles]: the
      session values a program owns, clones and drops; [Users]: two users who connect
      and talk;
    - [Endpoint]: what the runtime keeps of one session, said and heard, whatever
      happens around it; [Network]: the two ends of a session and any network between
      them; [Programs]: two running programs, from the connection strings to what they
      print;
    - [Concrete]: crates for which every law holds, on which the witnesses compute;
    - [UnitTests], [Scenarios]: the tests of the crate, translated and run by the
      kernel on the concrete crates, over the model's loops, tasks and a network of two
      sockets.

    ** What the theorems show

    - The whole program: two programs whose users paste each other's connection strings
      connect, and then, over any network and whatever else both do, the messages the
      second prints are lines typed at the first, unchanged, in order and each at most
      once ([programs_connect_and_print]); so it is for any session of two handlers
      ([received_was_sent], which takes the sends through the clones of a session one
      after the other: see [concurrent_sends_mix_messages]).  What a program does when
      its session has died ([disconnect_ends_program]).
    - Composition: two users who [connect] to each other are connected by three packets
      and then receive each other's messages, if not empty, unchanged and in order
      ([users_connect_and_talk], [messages_end_to_end]); when one drops the session the
      other is disconnected ([drop_disconnects_peer]).
    - Ownership: the last drop of a session's values and no other closes the connection
      ([last_drop_closes]); clones are one session for sends that do not overlap
      ([clones_are_one_session]).
    - The handler: it refines a machine on one table ([handler_refines_table]); every
      state that operations reach one after the other is consistent
      ([reachable_consistent]); everything queued for the network is well formed
      ([outgoing_well_formed]); closing and connecting again touch only their own
      connection ([close_removes_own], [initiate_replaces]).
    - The handler when operations overlap: entries point to what is theirs, a connection
      is in one place, no session that is alive is lost once the packets are processed,
      and no packet panics ([interleaved_consistent]); that an identifier has one entry is not kept, and the
      retransmission of a connection can be left without an owner
      ([two_calls_leak_task]).
    - Reassembly: in any order and interleaving chunks give exactly the messages sent,
      each once ([reassembly_complete], [reassembly_integrity]); the receive loop ends
      and is a reference reader ([recv_terminates], [recv_is_read_queue]); any input
      keeps the groups well formed ([add_chunk_wf]).
    - Transport: no number is accepted twice by [read_message] ([replay_protection]),
      the window is the greatest numbers seen ([window_is_greatest]), a window of one is
      an in-order reader ([read_refines_in_order]).
    - Sessions: delivery over a lossy network, the heartbeat, waking of readers.
    - Sockets, discovery and text: [dual_recv_from_either], [discover_ips_spec],
      [connection_string_roundtrip], [loops_go_on], [one_initiator].
    - What goes wrong, proved of the code as it is: forged packets that end a pending
      connection or block a session ([forged_initiation_drops_poker],
      [forged_nonce_blocks]); chunks that panic the receiver ([duplicate_chunk_panics],
      [malformed_chunk_panics]); races ([concurrent_sends_mix_messages],
      [receiver_lost_wakeup], [removal_race_leaks]); errors that lose a message or a
      waker ([empty_message_lost], [ready_keeps_first_waker], [responder_never_ok],
      [bad_response_stops_initiating], [keepalive_after_close],
      [write_message_overlong]).

    ** Bounds and fuel

    [usize] is 64 bits wide.  [u64] is [N] with the overflow behaviour of the build
    ([overflow_checks]); [alloc_slots] bounds one allocation.  The loops that are not
    structural have fuel: [chunks] and [shrink] their size, which every turn decreases;
    [waker_values] the size of the map; [Chunker_recv] an argument, for which
    [recv_terminates] shows that one more than the messages waiting is enough and that
    more changes nothing.

    ** Not modelled

    - Time: intervals, timeouts, how often a task runs.  Theorems are about any order
      of turns, or about the turns they name.
    - The scheduler of tokio and memory below the locks; a poisoned [std::sync::Mutex].
      The processes of [Steps] do not exclude each other while one awaits under the lock
      of the established sessions, which only adds schedules.
    - A receive that waits is a call abandoned and made again at the next poll, with a new
      [Receiving]; the code polls the [Receiving] it has.  The one left behind keeps its
      waker registered, so that more wakers are called than in the code.
    - Where an allocation fails the model panics, as a capacity overflow does; Rust aborts
      when the memory is not there.
    - The UDP sockets of the system, network interfaces, the resolver and STUN: they are
      parameters ([Udp], [Discovery]), as is the parsing of address strings.
    - The secrecy of the noise protocol: [sealed_for] states that what one end seals the
      other opens; no theorem speaks of what an attacker can open.
    - Logging; in bin.rs the parsing of the command line, the text of the prompts and
      errors of the terminal.  When [main] has ended no step of the program follows; the
      runtime shuts down with what its tasks have not done.
    - Schedules other than the one of [Scenarios] for the tests, and the full length of
      [test_large_payload], which [messages_end_to_end] covers. *)

From stdpp Require Export base gmap sets list strings fin_sets fin_maps.
From Stdlib.Strings Require Export Byte.
From Stdlib Require Export Lia.

#[global] Set Default Goal Selector "!".
#[global] Set Warnings "-clear-no-such-hyp".

(** ** Bytes *)

Abbreviation bytes := (list byte).

#[export] Instance byte_eq_dec : EqDecision byte := Byte.byte_eq_dec.

(** ** Outcomes of a Rust computation

    [Ok] and [Err] are the two constructors of [Result]; [Panic] is an unwinding
    panic ([unwrap] on [None], an index out of range, an arithmetic overflow in a
    build with overflow checks); [Pending] is an [async] call suspended at an
    [await]; [OutOfFuel] is the fuel of a bounded loop running out, which the
    termination theorems exclude. *)
Inductive outcome (E A : Type) : Type :=
  | Ok (a : A)
  | Err (e : E)
  | Panic
  | Pending
  | OutOfFuel.
Arguments Ok {E A} a.
Arguments Err {E A} e.
Arguments Panic {E A}.
Arguments Pending {E A}.
Arguments OutOfFuel {E A}.

#[export] Instance outcome_ret E : MRet (outcome E) := λ A a, Ok a.
#[export] Instance outcome_bind E : MBind (outcome E) := λ A B f m,
  match m with
  | Ok a => f a
  | Err e => Err e
  | Panic => Panic
  | Pending => Pending
  | OutOfFuel => OutOfFuel
  end.

#[export] Instance outcome_fmap E : FMap (outcome E) := λ A B f m,
  match m with
  | Ok a => Ok (f a)
  | Err e => Err e
  | Panic => Panic
  | Pending => Pending
  | OutOfFuel => OutOfFuel
  end.

(** [Result::unwrap] and [Option::unwrap] on a fallible value. *)
Definition unwrap {E A} (o : option A) : outcome E A :=
  match o with Some a => Ok a | None => Panic end.

(** [Result::unwrap] on the result of a call. *)
Definition unwrap_result {E F A} (m : outcome E A) : outcome F A :=
  match m with
  | Ok a => Ok a
  | Err _ | Panic => Panic
  | Pending => Pending
  | OutOfFuel => OutOfFuel
  end.

(** The computation returns a [Result], of either kind. *)
Definition returns {E A} (m : outcome E A) : Prop :=
  match m with Ok _ | Err _ => True | _ => False end.

(** [Option::ok_or] / a fallible call followed by [?]. *)
Definition ok_or {E A} (e : E) (o : option A) : outcome E A :=
  match o with Some a => Ok a | None => Err e end.

Definition map_err {E F A} (f : E → F) (m : outcome E A) : outcome F A :=
  match m with
  | Ok a => Ok a
  | Err e => Err (f e)
  | Panic => Panic
  | Pending => Pending
  | OutOfFuel => OutOfFuel
  end.

(** ** Stateful computations

    A method taking [&mut self] (or a lock guard) is a function from the state to
    the state it leaves and its outcome.  The state is returned on every outcome:
    what was written before an [Err] or a panic stays written. *)
Definition M (S E A : Type) : Type := S → S * outcome E A.

#[export] Instance M_ret S E : MRet (M S E) := λ A a s, (s, Ok a).
#[export] Instance M_bind S E : MBind (M S E) := λ A B f m s,
  match m s with
  | (s', Ok a) => f a s'
  | (s', Err e) => (s', Err e)
  | (s', Panic) => (s', Panic)
  | (s', Pending) => (s', Pending)
  | (s', OutOfFuel) => (s', OutOfFuel)
  end.

Definition get {S E} : M S E S := λ s, (s, Ok s).
Definition gets {S E A} (f : S → A) : M S E A := λ s, (s, Ok (f s)).
Definition modify {S E} (f : S → S) : M S E unit := λ s, (f s, Ok tt).
Definition lift {S E A} (m : outcome E A) : M S E A := λ s, (s, m).

(** Run a computation on a component of the state. *)
Definition zoom {S T E A} (proj : S → T) (upd : T → S → S) (m : M T E A) : M S E A :=
  λ s, let '(t, r) := m (proj s) in (upd t s, r).

(** [if let Err(e) = m { log }]: the error is swallowed. *)
Definition log_err {S E F} (m : M S E unit) : M S F unit := λ s,
  match m s with
  | (s', Ok _) => (s', Ok tt)
  | (s', Err _) => (s', Ok tt)
  | (s', Panic) => (s', Panic)
  | (s', Pending) => (s', Pending)
  | (s', OutOfFuel) => (s', OutOfFuel)
  end.

(** [match m { Ok(a) => .., Err(e) => .. }]: the error is a value. *)
Definition attempt {S E F A} (m : M S E A) : M S F (A + E) := λ s,
  match m s with
  | (s', Ok a) => (s', Ok (inl a))
  | (s', Err e) => (s', Ok (inr e))
  | (s', Panic) => (s', Panic)
  | (s', Pending) => (s', Pending)
  | (s', OutOfFuel) => (s', OutOfFuel)
  end.

(** ** Platform

    [overflow_checks] is the compiler flag of the build profile (on in debug
    builds, off in release builds); [alloc_slots] bounds the number of slots the
    allocator grants to one vector before the allocation panics, which is never
    more than [isize::MAX]. *)
Class Platform := {
  overflow_checks : bool;
  alloc_slots : N;
  alloc_slots_le : (alloc_slots ≤ 9223372036854775807)%N;
}.

Definition u64_max : N := 18446744073709551615.
Definition u64_modulus : N := 18446744073709551616.

(** [a + b] on [u64]. *)
Definition u64_add `{Platform} {E} (a b : N) : outcome E N :=
  if decide (a + b < u64_modulus)%N then Ok (a + b)%N
  else if overflow_checks then Panic
  else Ok ((a + b) mod u64_modulus)%N.

(** ** Automation *)

Create HintDb veq.

(** Run the monadic code of the goal (or of a hypothesis) as far as it computes:
    unfold the binds and returns. *)
Ltac unfold_monad :=
  unfold mbind, mret, M_bind, M_ret, outcome_bind, outcome_ret,
    get, gets, modify, lift, zoom, log_err, attempt; simpl.
Tactic Notation "unfold_monad" "in" hyp(H) :=
  unfold mbind, mret, M_bind, M_ret, outcome_bind, outcome_ret,
    get, gets, modify, lift, zoom, log_err, attempt in H; simpl in H.

(** Split every [match] of the goal and hypotheses, closing absurd branches. *)
Ltac split_matches := repeat (case_match; simplify_eq/=).

(** ** Lemmas on outcomes and computations *)

Section outcome_lemmas.
Context {E A B : Type}.

Lemma outcome_bind_Ok (m : outcome E A) (f : A → outcome E B) b :
  (m ≫= f) = Ok b ↔ ∃ a, m = Ok a ∧ f a = Ok b.
Proof.
  unfold mbind, outcome_bind. split.
  - destruct m; naive_solver.
  - intros (a & -> & ?). done.
Qed.

Lemma unwrap_Ok (o : option A) a : unwrap (E := E) o = Ok a ↔ o = Some a.
Proof. destruct o; simpl; naive_solver. Qed.

Lemma ok_or_Ok (e : E) (o : option A) a : ok_or e o = Ok a ↔ o = Some a.
Proof. destruct o; simpl; naive_solver. Qed.
End outcome_lemmas.

Section M_lemmas.
Context {S E A B : Type}.

Lemma M_bind_Ok (m : M S E A) (f : A → M S E B) s s' b :
  (m ≫= f) s = (s', Ok b) ↔ ∃ s1 a, m s = (s1, Ok a) ∧ f a s1 = (s', Ok b).
Proof.
  unfold mbind, M_bind. split.
  - destruct (m s) as [s1 []] eqn:Hm; intros; simplify_eq; eauto.
  - intros (s1 & a & -> & ?). done.
Qed.

Lemma M_bind_step (m : M S E A) (f : A → M S E B) s s1 a :
  m s = (s1, Ok a) → (m ≫= f) s = f a s1.
Proof. unfold mbind, M_bind. by intros ->. Qed.

(** An assertion kept by both parts of a sequence is kept by the sequence,
    whatever the outcome. *)
Lemma M_bind_preserves (P : S → Prop) (m : M S E A) (f : A → M S E B) s :
  P (m s).1 → (∀ s1 a, m s = (s1, Ok a) → P (f a s1).1) → P ((m ≫= f) s).1.
Proof.
  unfold mbind, M_bind. destruct (m s) as [s1 []] eqn:Hm; naive_solver.
Qed.
End M_lemmas.

(** ** Invariants of computations

    [triple I Q m]: run from a state with [I], [m] leaves a state with [I], whatever
    its outcome, and a value it returns satisfies [Q]. *)
Create HintDb triple.

Section triples.
Context {S E : Type} (I : S → Prop).

Definition triple {A} (Q : A → Prop) (m : M S E A) : Prop :=
  ∀ s, I s → I (m s).1 ∧ ∀ a, (m s).2 = Ok a → Q a.

Lemma triple_bind {A B} (P : A → Prop) (Q : B → Prop) (m : M S E A) (f : A → M S E B) :
  triple P m → (∀ a, P a → triple Q (f a)) → triple Q (m ≫= f).
Proof.
  intros Hm Hf s Hs. destruct (Hm s Hs) as [HI HP]. unfold mbind, M_bind.
  destruct (m s) as [s' []]; simpl in *; try by split. apply Hf; auto.
Qed.

Lemma triple_ret {A} (Q : A → Prop) a : Q a → triple Q (mret (M := M S E) a).
Proof. intros HQ s Hs. by split; [|intros b [= <-]]. Qed.

Lemma triple_lift {A} (Q : A → Prop) (o : outcome E A) :
  (∀ a, o = Ok a → Q a) → triple Q (lift o).
Proof. by intros HQ s Hs. Qed.

Lemma triple_gets {A} (Q : A → Prop) (f : S → A) :
  (∀ s, I s → Q (f s)) → triple Q (gets (E := E) f).
Proof. intros HQ s Hs. split; [done|]. intros a [= <-]. auto. Qed.

Lemma triple_modify (Q : unit → Prop) f :
  (∀ s, I s → I (f s)) → Q tt → triple Q (modify (E := E) f).
Proof. intros Hf HQ s Hs. split; [by apply Hf|]. by intros [] _. Qed.

Lemma triple_weaken {A} (P Q : A → Prop) (m : M S E A) :
  (∀ a, P a → Q a) → triple P m → triple Q m.
Proof. intros HPQ Hm s Hs. destruct (Hm s Hs). split; auto. Qed.

Lemma triple_keeps {A} (Q : A → Prop) (m : M S E A) s : triple Q m → I s → I (m s).1.
Proof. intros Hm Hs. by apply Hm. Qed.
End triples.

Section triples_errors.
Context {S E F : Type} (I : S → Prop).

Lemma triple_log_err (m : M S E unit) :
  triple I (λ _, True) m → triple (E := F) I (λ _, True) (log_err m).
Proof.
  intros Hm s Hs. destruct (Hm s Hs) as [HI _]. unfold log_err.
  by destruct (m s) as [s' []]; simpl in *.
Qed.

Lemma triple_attempt {A} (Q : A → Prop) (m : M S E A) :
  triple I Q m → triple (E := F) I (λ r, ∀ a, r = inl a → Q a) (attempt m).
Proof.
  intros Hm s Hs. destruct (Hm s Hs) as [HI HQ]. unfold attempt.
  destruct (m s) as [s' []]; simpl in *; split; try done; intros b Hb; simplify_eq; [|done].
  intros a' [= <-]. auto.
Qed.

Lemma triple_zoom {T A} (J : T → Prop) (Q : A → Prop) proj (upd : T → S → S) (m : M T E A) :
  (∀ s, I s → J (proj s)) → (∀ t s, I s → J t → I (upd t s)) →
  triple J Q m → triple I Q (zoom proj upd m).
Proof.
  intros Hproj Hupd Hm s Hs. destruct (Hm (proj s) (Hproj s Hs)) as [HJ HQ]. unfold zoom.
  destruct (m (proj s)) as [t r]. simpl in *. split; [by apply Hupd|done].
Qed.
End triples_errors.

Section u64_lemmas.
Context `{Platform}.

Lemma u64_add_small {E} a b :
  (a + b < u64_modulus)%N → u64_add (E := E) a b = Ok (a + b)%N.
Proof. intros. unfold u64_add. by rewrite decide_True. Qed.

Lemma u64_add_Ok {E} a b c :
  u64_add (E := E) a b = Ok c → c = ((a + b) mod u64_modulus)%N.
Proof.
  unfold u64_add. case_decide; [|case_match]; intros; simplify_eq; [|done].
  by rewrite N.mod_small.
Qed.
End u64_lemmas.
