(* ===== verification/Std.v ===== *)
(** * The parts of the Rust standard library the crate relies on

    [Vec] and slice operations with their panics, [BTreeSet]/[BTreeMap] over
    integer keys with their least element, and [SocketAddr]. *)

From S2P Require Import Prelude.

(** ** Vec and slices *)

Section vec.
Context {E A : Type}.
Implicit Types (l : list A) (i n : nat).

(** [Vec::remove]: panics when the index is out of range. *)
Definition vec_remove i l : outcome E (A * list A) :=
  match l !! i with
  | Some x => Ok (x, delete i l)
  | None => Panic
  end.

(** [Vec::insert]: panics when the index is beyond the end. *)
Definition vec_insert i (x : A) l : outcome E (list A) :=
  if decide (i ≤ length l) then Ok (take i l ++ x :: drop i l) else Panic.

(** [&l[..n]]: panics when [n] is beyond the end. *)
Definition slice_to n l : outcome E (list A) :=
  if decide (n ≤ length l) then Ok (take n l) else Panic.

(** Writing [src] over the first bytes of [dst], stopping at the shorter one
    ([for (d, s) in dst.iter_mut().zip(src.iter()) { *d = *s }]). *)
Definition zip_copy (dst src : list A) : list A :=
  take (length dst) src ++ drop (length src) dst.

(** [slice::chunks]: panics when the chunk size is 0.  Every turn drops at
    least one element, so the length of the slice is enough fuel. *)
Fixpoint chunks_fuel (fuel n : nat) l : list (list A) :=
  match fuel, l with
  | S fuel, _ :: _ => take n l :: chunks_fuel fuel n (drop n l)
  | _, _ => []
  end.

Definition chunks n l : outcome E (list (list A)) :=
  if decide (n = 0) then Panic else Ok (chunks_fuel (length l) n l).
End vec.

Section vec_lemmas.
Context {A : Type}.
Implicit Types (l : list A) (i n : nat).

(** [remove(i)] followed by [insert(i, x)] replaces slot [i]. *)
Lemma vec_remove_insert {E} i (x : A) l :
  i < length l →
  (vec_remove i l ≫= λ '(_, l'), vec_insert i x l') = Ok (E := E) (<[i := x]> l).
Proof.
  intros Hi. unfold vec_remove, vec_insert, mbind, outcome_bind.
  destruct (lookup_lt_is_Some_2 l i Hi) as [y Hy]. rewrite Hy.
  assert (length (delete i l) = length l - 1) as Hlen.
  { apply length_delete. eauto. }
  rewrite decide_True by lia. f_equal.
  rewrite delete_take_drop, insert_take_drop by done.
  rewrite take_app_le by (rewrite length_take; lia).
  rewrite take_take, Nat.min_id.
  rewrite drop_app_ge by (rewrite length_take; lia).
  by rewrite length_take, Nat.min_l, Nat.sub_diag, drop_0 by lia.
Qed.

Lemma vec_remove_oob {E} i l : length l ≤ i → vec_remove (E := E) i l = Panic.
Proof. intros. unfold vec_remove. by rewrite lookup_ge_None_2. Qed.

Lemma chunks_fuel_concat fuel n l :
  n ≠ 0 → length l ≤ fuel → concat (chunks_fuel fuel n l) = l.
Proof.
  intros Hn. revert l. induction fuel as [|fuel IH]; intros [|x l] Hl; simpl in *;
    [done|lia|done|].
  rewrite IH by (rewrite length_drop; simpl; lia).
  apply take_drop.
Qed.

Lemma chunks_concat {E} n l cs : chunks (E := E) n l = Ok cs → concat cs = l.
Proof.
  unfold chunks. case_decide; intros; simplify_eq. by apply chunks_fuel_concat.
Qed.

Lemma chunks_fuel_length fuel n l : length (chunks_fuel fuel n l) ≤ fuel.
Proof.
  revert l. induction fuel as [|fuel IH]; intros [|x l]; simpl; try lia.
  specialize (IH (drop n (x :: l))). lia.
Qed.

Lemma chunks_fuel_size fuel n l c :
  c ∈ chunks_fuel fuel n l → length c ≤ n.
Proof.
  revert l. induction fuel as [|fuel IH]; intros [|x l]; simpl;
    try by intros ?%elem_of_nil.
  intros [->|Hc]%elem_of_cons; [rewrite length_take; lia|eauto].
Qed.

Lemma chunks_fuel_nonempty fuel n l c :
  n ≠ 0 → c ∈ chunks_fuel fuel n l → c ≠ [].
Proof.
  intros Hn. revert l. induction fuel as [|fuel IH]; intros [|x l]; simpl;
    try by intros ?%elem_of_nil.
  intros [->|Hc]%elem_of_cons; [by destruct n|eauto].
Qed.

Lemma zip_copy_length (dst src : list A) : length (zip_copy dst src) = length dst.
Proof. unfold zip_copy. rewrite length_app, length_take, length_drop. lia. Qed.

Lemma zip_copy_prefix (dst src : list A) :
  length src ≤ length dst → take (length src) (zip_copy dst src) = src.
Proof.
  intros. unfold zip_copy. rewrite (take_ge src) by lia. by rewrite take_app_length.
Qed.
End vec_lemmas.

(** ** BTreeSet and BTreeMap over integer keys

    The finite sets and maps of the program are [gset N] and [gmap N V]; only the
    operations below depend on the key order. *)

Section ordered.
(** [BTreeSet::first]. *)
Definition set_first (s : gset N) : option N :=
  set_fold (λ x acc, Some (match acc with None => x | Some y => N.min x y end)) None s.

(** [BTreeSet::pop_first] (the set it leaves). *)
Definition set_pop_first (s : gset N) : gset N :=
  match set_first s with Some k => s ∖ {[ k ]} | None => s end.

(** [BTreeMap::first_key_value] (the key). *)
Definition map_first {V} (m : gmap N V) : option N := set_first (dom m).

(** [BTreeMap::pop_first]: the entry with the least key and the map it leaves. *)
Definition map_pop_first {V} (m : gmap N V) : option (N * V) * gmap N V :=
  match map_first m with
  | Some k => ((λ v, (k, v)) <$> m !! k, delete k m)
  | None => (None, m)
  end.
End ordered.

Section ordered_lemmas.
Implicit Types (s : gset N).

Lemma set_first_spec s :
  match set_first s with
  | Some k => k ∈ s ∧ ∀ x, x ∈ s → (k ≤ x)%N
  | None => s = ∅
  end.
Proof.
  unfold set_first. apply (set_fold_ind_L (λ acc (X : gset N),
    match acc with
    | Some k => k ∈ X ∧ ∀ x, x ∈ X → (k ≤ x)%N
    | None => X = ∅
    end)); [done|].
  intros x X [k|] Hx; simpl.
  - intros [Hk Hmin]. split; [destruct (N.min_spec x k) as [[_ ->]|[_ ->]]; set_solver|].
    intros y [->%elem_of_singleton|Hy]%elem_of_union; [lia|].
    specialize (Hmin y Hy). lia.
  - intros ->. split; [set_solver|].
    by intros y [->%elem_of_singleton|[]%not_elem_of_empty]%elem_of_union.
Qed.

Lemma set_first_Some s k :
  set_first s = Some k ↔ k ∈ s ∧ ∀ x, x ∈ s → (k ≤ x)%N.
Proof.
  pose proof (set_first_spec s) as Hs. destruct (set_first s) as [j|].
  - split; [by intros [= ->]|]. intros [Hk Hmin]. f_equal.
    destruct Hs as [Hj Hmin']. apply N.le_antisymm; auto.
  - split; [done|]. subst. set_solver.
Qed.

Lemma set_first_None s : set_first s = None ↔ s = ∅.
Proof.
  pose proof (set_first_spec s) as Hs. destruct (set_first s); [|done].
  set_solver.
Qed.

Lemma set_first_singleton k : set_first {[ k ]} = Some k.
Proof. apply set_first_Some. set_solver. Qed.

Lemma size_set_pop_first s : size (set_pop_first s) = size s - 1.
Proof.
  unfold set_pop_first. destruct (set_first s) as [k|] eqn:Hk.
  - apply set_first_Some in Hk as [Hk _].
    rewrite size_difference by set_solver. by rewrite size_singleton.
  - apply set_first_None in Hk as ->. by rewrite size_empty.
Qed.

Lemma set_pop_first_subseteq s : set_pop_first s ⊆ s.
Proof. unfold set_pop_first. case_match; set_solver. Qed.

Context {V : Type}.
Implicit Types (m : gmap N V).

Lemma map_first_None m : map_first m = None ↔ m = ∅.
Proof. unfold map_first. rewrite set_first_None. apply dom_empty_iff_L. Qed.

Lemma map_first_Some m k :
  map_first m = Some k ↔ is_Some (m !! k) ∧ ∀ j, is_Some (m !! j) → (k ≤ j)%N.
Proof.
  unfold map_first. rewrite set_first_Some. setoid_rewrite elem_of_dom. done.
Qed.

Lemma size_map_pop_first m : size (map_pop_first m).2 = size m - 1.
Proof.
  unfold map_pop_first. destruct (map_first m) as [k|] eqn:Hk; simpl.
  - apply map_first_Some in Hk as [[v Hv] _].
    rewrite map_size_delete_Some; [lia|eauto].
  - apply map_first_None in Hk as ->. by rewrite map_size_empty.
Qed.

Lemma map_pop_first_subseteq m : (map_pop_first m).2 ⊆ m.
Proof. unfold map_pop_first. case_match; [apply delete_subseteq|done]. Qed.
End ordered_lemmas.

(** ** Socket addresses ([std::net]) *)

Inductive IpAddr :=
  | IpV4 (octets : N)
  | IpV6 (octets : N).

Inductive SocketAddr :=
  | SocketAddrV4 (ip port : N)
  | SocketAddrV6 (ip port flowinfo scope_id : N).

#[export] Instance IpAddr_eq_dec : EqDecision IpAddr.
Proof. solve_decision. Defined.
#[export] Instance SocketAddr_eq_dec : EqDecision SocketAddr.
Proof. solve_decision. Defined.
#[export] Program Instance SocketAddr_countable : Countable SocketAddr :=
  inj_countable'
    (λ a, match a with
          | SocketAddrV4 i p => inl (i, p)
          | SocketAddrV6 i p f s => inr (i, p, f, s)
          end)
    (λ x, match x with
          | inl (i, p) => SocketAddrV4 i p
          | inr (i, p, f, s) => SocketAddrV6 i p f s
          end) _.
Next Obligation. by intros []. Qed.

Definition ip_is_unspecified (i : IpAddr) : bool :=
  match i with IpV4 0%N | IpV6 0%N => true | _ => false end.

Definition addr_ip (a : SocketAddr) : IpAddr :=
  match a with SocketAddrV4 i _ => IpV4 i | SocketAddrV6 i _ _ _ => IpV6 i end.

Definition addr_port (a : SocketAddr) : N :=
  match a with SocketAddrV4 _ p => p | SocketAddrV6 _ p _ _ => p end.

Definition addr_set_port (a : SocketAddr) (p : N) : SocketAddr :=
  match a with
  | SocketAddrV4 i _ => SocketAddrV4 i p
  | SocketAddrV6 i _ f s => SocketAddrV6 i p f s
  end.

Definition addr_is_ipv4 (a : SocketAddr) : bool :=
  match a with SocketAddrV4 _ _ => true | _ => false end.

Definition addr_is_ipv6 (a : SocketAddr) : bool :=
  match a with SocketAddrV6 _ _ _ _ => true | _ => false end.
