(* ===== verification/Externals.v ===== *)
(** * Interfaces of the third-party crates

    The crates the program calls are not part of its sources, so each is a class
    of operations the definitions of the development take as an argument, and the
    documented behaviour the theorems rely on is a class of laws of its own. *)

From S2P Require Import Prelude.

(** ** bincode

    [serialize] and [deserialize] on one type; [None] stands for a
    [bincode::Error], whose content the program only logs.  [wf] singles out the
    values whose integers are in the range of their Rust types. *)

Class WellFormed (T : Type) := wf : T → Prop.

Class Codec (T : Type) := {
  serialize : T → option bytes;
  deserialize : bytes → option T;
}.

(** A value read back is the value written. *)
Class CodecLaws (T : Type) `{Codec T, WellFormed T} := {
  codec_roundtrip x : wf x → ∃ bs, serialize x = Some bs ∧ deserialize bs = Some x;
}.

Lemma codec_deserialize_serialize `{CodecLaws T} (x : T) bs :
  wf x → serialize x = Some bs → deserialize bs = Some x.
Proof. intros (bs' & Hs & Hd)%codec_roundtrip ?. by simplify_eq. Qed.

(** ** Errors

    [anyhow::Error] and the error types converted into it: the program only logs
    them or maps them to one of its own. *)
Inductive Error :=
  | SnowError
  | BincodeError
  | ChannelError
  | Anyhow (msg : string).

(** ** snow

    The noise protocol engine.  A [HandshakeState] carries its random source, so
    writing is a function of the state; methods taking [&mut self] return the
    state they leave, on errors too.  Output buffers are given by their length. *)
Class Noise := {
  NoiseParams : Type;
  Builder : Type;
  HandshakeState : Type;
  StatelessTransportState : Type;

  parse_params : string → option NoiseParams;
  builder_new : NoiseParams → Builder;
  (** Public and private key, from the randomness drawn. *)
  generate_keypair : N → Builder → option (bytes * bytes);
  local_private_key : bytes → Builder → option Builder;
  remote_public_key : bytes → Builder → option Builder;
  build_initiator : N → Builder → option HandshakeState;
  build_responder : N → Builder → option HandshakeState;

  hs_write_message : bytes → nat → HandshakeState → HandshakeState * option bytes;
  hs_read_message : bytes → nat → HandshakeState → HandshakeState * option bytes;
  into_stateless_transport_mode : HandshakeState → option StatelessTransportState;

  st_write_message : StatelessTransportState → N → bytes → nat → option bytes;
  st_read_message : StatelessTransportState → N → bytes → nat → option bytes;
}.

(** The longest noise message and the length of an authentication tag. *)
Definition noise_max : nat := N.to_nat 65535.
Definition tag_len : nat := 16.

(** The transports [t1] and [t2] are the two ends of one session: what [t1] seals
    under a nonce, [t2] opens under this nonce.  The nonce [2^64 - 1] is reserved. *)
Record sealed_for `{Noise} (t1 t2 : StatelessTransportState) : Prop := {
  sealed_write nonce payload len :
    (nonce < u64_max)%N → length payload + tag_len ≤ noise_max →
    length payload + tag_len ≤ len →
    ∃ c, st_write_message t1 nonce payload len = Some c ∧
      length c = length payload + tag_len;
  sealed_bound nonce payload len c :
    st_write_message t1 nonce payload len = Some c → length c ≤ len ∧ length c ≤ noise_max;
  sealed_open nonce payload len c len' :
    st_write_message t1 nonce payload len = Some c → length payload ≤ len' →
    st_read_message t2 nonce c len' = Some payload;
}.

(** A plaintext, or a handshake message, longer than the buffer it is to be written to
    is an error. *)
Class NoiseBounds `{Noise} := {
  hs_write_length hs payload len hs' m :
    hs_write_message payload len hs = (hs', Some m) → length m ≤ len;
  st_read_length t nonce c len payload :
    st_read_message t nonce c len = Some payload → length payload ≤ len;
}.

(** The handshake of the protocol named [name], for a name whose pattern has two
    messages and the static keys of both sides known in advance (KK): between an
    initiator and a responder configured with each other's keys, stage by stage. *)
Class NoiseLaws `{Noise} (name : string) := {
  keypair : bytes → bytes → Prop;
  handshake_stage : nat → HandshakeState → HandshakeState → Prop;

  generated_keypair rng params pub priv :
    parse_params name = Some params →
    generate_keypair rng (builder_new params) = Some (pub, priv) → keypair pub priv;
  handshake_start params pub1 priv1 pub2 priv2 rng1 rng2 :
    parse_params name = Some params →
    keypair pub1 priv1 → keypair pub2 priv2 →
    ∃ b1 b2 hi hr,
      (local_private_key priv1 (builder_new params) ≫= remote_public_key pub2) = Some b1 ∧
      (local_private_key priv2 (builder_new params) ≫= remote_public_key pub1) = Some b2 ∧
      build_initiator rng1 b1 = Some hi ∧ build_responder rng2 b2 = Some hr ∧
      handshake_stage 0 hi hr;
  handshake_first hi hr :
    handshake_stage 0 hi hr →
    ∃ hi' hr' m p, hs_write_message [] noise_max hi = (hi', Some m) ∧
      hs_read_message m noise_max hr = (hr', Some p) ∧ length m ≤ noise_max ∧
      handshake_stage 1 hi' hr';
  handshake_second hi hr :
    handshake_stage 1 hi hr →
    ∃ hi' hr' m p, hs_write_message [] noise_max hr = (hr', Some m) ∧
      hs_read_message m noise_max hi = (hi', Some p) ∧ length m ≤ noise_max ∧
      handshake_stage 2 hi' hr';
  handshake_split hi hr :
    handshake_stage 2 hi hr →
    ∃ t1 t2, into_stateless_transport_mode hi = Some t1 ∧
      into_stateless_transport_mode hr = Some t2 ∧ sealed_for t1 t2 ∧ sealed_for t2 t1;
}.

#[global] Arguments noise_max : simpl never.

Lemma noise_max_N : N.of_nat noise_max = 65535%N.
Proof. apply N2Nat.id. Qed.

#[global] Opaque noise_max.

(** ** Channels

    An unbounded queue of which sending fails once every receiver is gone: the
    [mpsc] channel of tokio for outgoing packets, the channel of crossbeam for
    received messages.  The state of a channel is shared by all its handles. *)
Class Channel (A : Type) := {
  chan : Type;
  chan_new : chan;
  (** [send]: the channel left, and whether it returned [Ok]. *)
  chan_send : A → chan → chan * bool;
  (** [try_recv] (and [recv] when something is queued). *)
  chan_try_recv : chan → chan * option A;
}.
#[global] Arguments chan A {_}.

Class ChannelLaws (A : Type) `{Channel A} := {
  chan_open : chan A → bool;
  chan_contents : chan A → list A;
  chan_new_open : chan_open chan_new = true;
  chan_new_contents : chan_contents chan_new = [];
  chan_send_open a c : chan_open c = true →
    (chan_send a c).2 = true ∧ chan_open (chan_send a c).1 = true ∧
    chan_contents (chan_send a c).1 = chan_contents c ++ [a];
  chan_send_closed a c : chan_open c = false → chan_send a c = (c, false);
  chan_try_recv_open c : chan_open (chan_try_recv c).1 = chan_open c;
  chan_try_recv_contents c :
    match chan_contents c with
    | [] => chan_try_recv c = (c, None)
    | a :: q => (chan_try_recv c).2 = Some a ∧ chan_contents (chan_try_recv c).1 = q
    end;
}.

(** The [broadcast] channel of tokio, as used for a one-shot notification: one
    sender, one receiver. *)
Class Broadcast := {
  broadcast : Type;
  bc_channel : N → broadcast;
  (** [sender.send(())]: whether it returned [Ok]. *)
  bc_send : broadcast → broadcast * bool;
  (** [receiver.try_recv().is_ok()] *)
  bc_try_recv : broadcast → broadcast * bool;
  bc_drop_receiver : broadcast → broadcast;
}.

Class BroadcastLaws `{Broadcast} := {
  (** The number of unread notifications, [None] once the receiver is dropped. *)
  bc_pending : broadcast → option nat;
  bc_channel_pending n : bc_pending (bc_channel n) = Some 0;
  bc_send_alive b : bc_pending b = Some 0 →
    (bc_send b).2 = true ∧ bc_pending (bc_send b).1 = Some 1;
  bc_send_dropped b : bc_pending b = None → bc_send b = (b, false);
  bc_try_recv_none b : bc_pending b = Some 0 → bc_try_recv b = (b, false);
  bc_try_recv_some b n : bc_pending b = Some (S n) →
    (bc_try_recv b).2 = true ∧ bc_pending (bc_try_recv b).1 = Some n;
  bc_drop_pending b : bc_pending (bc_drop_receiver b) = None;
}.
