(* ===== verification/Layout.v ===== *)
(** * A concrete byte layout for the codec interface

    [Externals.Codec] leaves the byte format open.  This file builds values of it
    from parser/printer pairs for fixed-width little-endian integers, byte vectors
    prefixed by their length, and variants prefixed by a tag, the layout
    documented for bincode's default configuration.  The theorems of the
    development hold for every codec that satisfies the laws; the witnesses are
    evaluated with this one. *)

From S2P Require Import Prelude Externals.

(** A coder: print a value, parse one from the front of a byte string. *)
Record Coder (T : Type) := mkCoder {
  put : T → bytes;
  take_one : bytes → option (T * bytes);
}.
Arguments mkCoder {T}.
Arguments put {T}.
Arguments take_one {T}.

Definition coder_ok {T} (c : Coder T) (P : T → Prop) : Prop :=
  ∀ x rest, P x → take_one c (put c x ++ rest) = Some (x, rest).

Definition byte_of_N (n : N) : byte := default x00 (Byte.of_N (n mod 256)).

Fixpoint le_put (k : nat) (n : N) : bytes :=
  match k with
  | O => []
  | S k => byte_of_N n :: le_put k (n / 256)
  end.

Fixpoint le_take (k : nat) (bs : bytes) : option (N * bytes) :=
  match k, bs with
  | O, _ => Some (0%N, bs)
  | S _, [] => None
  | S k, b :: bs => '(n, rest) ← le_take k bs; Some (Byte.to_N b + 256 * n, rest)%N
  end.

Definition int_coder (k : nat) : Coder N := mkCoder (le_put k) (le_take k).

Definition vec_coder : Coder bytes := mkCoder
  (λ d, le_put 8 (N.of_nat (length d)) ++ d)
  (λ bs, '(n, rest) ← le_take 8 bs;
         if decide (n ≤ N.of_nat (length rest))%N
         then Some (take (N.to_nat n) rest, drop (N.to_nat n) rest) else None).

Definition pair_coder {A B} (a : Coder A) (b : Coder B) : Coder (A * B) := mkCoder
  (λ x, put a x.1 ++ put b x.2)
  (λ bs, '(x, rest) ← take_one a bs; '(y, rest) ← take_one b rest; Some ((x, y), rest)).

(** The coder of a type in bijection with another. *)
Definition iso_coder {A B} (f : A → B) (g : B → A) (b : Coder B) : Coder A := mkCoder
  (λ x, put b (f x))
  (λ bs, '(y, rest) ← take_one b bs; Some (g y, rest)).

(** A variant: a 4-byte tag, then the payload of the alternative. *)
Definition variant_coder {A} (tag : A → N) (body : A → bytes)
    (alt : N → bytes → option (A * bytes)) : Coder A := mkCoder
  (λ x, le_put 4 (tag x) ++ body x)
  (λ bs, '(t, rest) ← le_take 4 bs; alt t rest).

(** The codec of a coder; bytes after the value are ignored. *)
Definition coder_codec {T} (c : Coder T) : Codec T := {|
  serialize := λ x, Some (put c x);
  deserialize := λ bs, fst <$> take_one c bs;
|}.

Section coder_lemmas.
Lemma byte_of_N_to_N n : Byte.to_N (byte_of_N n) = (n mod 256)%N.
Proof.
  unfold byte_of_N. destruct (Byte.of_N (n mod 256)) as [b|] eqn:Hb; simpl.
  - by apply Byte.to_of_N.
  - apply Byte.of_N_None_iff in Hb. pose proof (N.mod_lt n 256). lia.
Qed.

Lemma le_take_put k n rest :
  (n < 256 ^ N.of_nat k)%N → le_take k (le_put k n ++ rest) = Some (n, rest).
Proof.
  revert n. induction k as [|k IH]; intros n Hn; simpl.
  - simpl in Hn. repeat f_equal. lia.
  - rewrite Nat2N.inj_succ, N.pow_succ_r' in Hn.
    rewrite IH by (apply N.Div0.div_lt_upper_bound; lia). simpl.
    rewrite byte_of_N_to_N, N.add_comm, <- N.div_mod by done. done.
Qed.

Lemma int_coder_ok k : coder_ok (int_coder k) (λ n, n < 256 ^ N.of_nat k)%N.
Proof. intros n rest. apply le_take_put. Qed.

Lemma vec_coder_ok : coder_ok vec_coder (λ d, N.of_nat (length d) < u64_modulus)%N.
Proof.
  intros d rest Hd. unfold vec_coder. cbn [put take_one]. rewrite <- app_assoc.
  rewrite le_take_put by done. cbn.
  rewrite decide_True by (rewrite length_app; lia).
  by rewrite Nat2N.id, take_app_length, drop_app_length.
Qed.

Lemma pair_coder_ok {A B} (a : Coder A) (b : Coder B) P Q :
  coder_ok a P → coder_ok b Q → coder_ok (pair_coder a b) (λ x, P x.1 ∧ Q x.2).
Proof.
  intros Ha Hb [x y] rest [Hx Hy]. simpl. rewrite <- app_assoc.
  rewrite Ha by done. simpl. by rewrite Hb.
Qed.

Lemma iso_coder_ok {A B} (f : A → B) (g : B → A) b P :
  (∀ x, g (f x) = x) → coder_ok b P → coder_ok (iso_coder f g b) (λ x, P (f x)).
Proof. intros Hgf Hb x rest Hx. simpl. rewrite Hb by done. simpl. by rewrite Hgf. Qed.

Lemma variant_coder_ok {A} (tag : A → N) body alt (P : A → Prop) :
  (∀ x, (tag x < 256 ^ 4)%N) →
  (∀ x rest, P x → alt (tag x) (body x ++ rest) = Some (x, rest)) →
  coder_ok (variant_coder tag body alt) P.
Proof.
  intros Htag Halt x rest Hx. unfold variant_coder. cbn [put take_one].
  rewrite <- app_assoc, le_take_put by apply (Htag x). cbn. auto.
Qed.

Lemma coder_codec_laws {T} `{WellFormed T} (c : Coder T) :
  coder_ok c wf → @CodecLaws T (coder_codec c) _.
Proof.
  intros Hc. split. intros x Hx. exists (put c x). split; [done|]. simpl.
  rewrite <- (app_nil_r (put c x)). by rewrite Hc.
Qed.
End coder_lemmas.

(** A release-build and a debug-build platform. *)
Definition release : Platform.
Proof. refine {| overflow_checks := false; alloc_slots := 1048576 |}. done. Defined.
Definition debug : Platform.
Proof. refine {| overflow_checks := true; alloc_slots := 1048576 |}. done. Defined.
