(* ===== verification/Engine.v ===== *)
(** * A concrete engine for the noise interface

    A handshake message carries the sender's key and a value drawn for the handshake;
    the session key is made of the two values drawn and the two keys.  Sealing appends
    the nonce and the head of the session key as a 16-byte tag; opening checks them.  It has none of the secrecy of the real engine, only the
    laws of [Externals.NoiseLaws] and [Externals.sealed_for], which shows that they
    can be satisfied together and lets the witnesses compute. *)

From S2P Require Import Prelude Externals Layout.

Record EngineState := mkEngineState {
  es_initiator : bool;
  es_own : bytes;
  es_remote : bytes;
  es_drawn : bytes;
  es_remote_drawn : bytes;
  es_stage : nat;
}.

Definition pad8 (key : bytes) : bytes := take 8 (key ++ replicate 8 x00).
Definition engine_tag (key : bytes) (nonce : N) : bytes := le_put 8 nonce ++ pad8 key.

Definition engine_key (s : EngineState) : bytes :=
  if es_initiator s
  then take 4 (es_drawn s) ++ take 4 (es_remote_drawn s) ++ es_own s ++ es_remote s
  else take 4 (es_remote_drawn s) ++ take 4 (es_drawn s) ++ es_remote s ++ es_own s.

Definition engine_seal (key : bytes) (nonce : N) (payload : bytes) (len : nat) : option bytes :=
  if decide (nonce < u64_max ∧ N.of_nat (length payload + tag_len) ≤ 65535)%N
  then if decide (length payload + tag_len ≤ len)
       then Some (payload ++ engine_tag key nonce) else None
  else None.

Definition engine_open (key : bytes) (nonce : N) (c : bytes) (len : nat) : option bytes :=
  let n := length c - tag_len in
  if decide (tag_len ≤ length c ∧ drop n c = engine_tag key nonce ∧ n ≤ len)
  then Some (take n c) else None.

(** The handshake messages: the stage, the sender's key, what the sender drew. *)
Definition engine_message (tag : byte) (s : EngineState) : bytes := tag :: es_own s ++ es_drawn s.

Definition at_stage (k : nat) (s : EngineState) : EngineState :=
  mkEngineState (es_initiator s) (es_own s) (es_remote s) (es_drawn s) (es_remote_drawn s) k.

Definition engine_write (payload : bytes) (len : nat) (s : EngineState)
    : EngineState * option bytes :=
  if decide (length (es_own s) + length (es_drawn s) < len) then
    match es_initiator s, es_stage s with
    | true, 0 => (at_stage 1 s, Some (engine_message x01 s))
    | false, 1 => (at_stage 2 s, Some (engine_message x02 s))
    | _, _ => (s, None)
    end
  else (s, None).

(** A message from the peer whose key is known; the rest is what the peer drew. *)
Definition engine_accept (tag : byte) (m : bytes) (k : nat) (s : EngineState)
    : EngineState * option bytes :=
  let head := tag :: es_remote s in
  if decide (take (length head) m = head)
  then (mkEngineState (es_initiator s) (es_own s) (es_remote s) (es_drawn s)
          (drop (length head) m) k, Some [])
  else (s, None).

Definition engine_read (m : bytes) (len : nat) (s : EngineState)
    : EngineState * option bytes :=
  match es_initiator s, es_stage s with
  | false, 0 => engine_accept x01 m 1 s
  | true, 1 => engine_accept x02 m 2 s
  | _, _ => (s, None)
  end.

Definition engine : Noise := {|
  NoiseParams := string;
  Builder := option bytes * option bytes;
  HandshakeState := EngineState;
  StatelessTransportState := bytes;
  parse_params := Some;
  builder_new := λ _, (None, None);
  generate_keypair := λ rng _, Some (le_put 8 rng, le_put 8 rng);
  local_private_key := λ k b, Some (Some k, b.2);
  remote_public_key := λ k b, Some (b.1, Some k);
  build_initiator := λ rng b,
    own ← b.1; remote ← b.2; Some (mkEngineState true own remote (le_put 8 rng) [] 0);
  build_responder := λ rng b,
    own ← b.1; remote ← b.2; Some (mkEngineState false own remote (le_put 8 rng) [] 0);
  hs_write_message := engine_write;
  hs_read_message := engine_read;
  into_stateless_transport_mode := λ s, if decide (es_stage s = 2) then Some (engine_key s) else None;
  st_write_message := engine_seal;
  st_read_message := engine_open;
|}.

(** Two engines configured with each other's keys, after [k] messages. *)
Definition engine_stage (k : nat) (hi hr : EngineState) : Prop :=
  ∃ own remote di dr, length own ≤ 32 ∧ length remote ≤ 32 ∧ length di = 8 ∧ length dr = 8 ∧
    hi = mkEngineState true own remote di (if decide (k = 2) then dr else []) k ∧
    hr = mkEngineState false remote own dr (if decide (k = 0) then [] else di) k.

Lemma length_le_put k n : length (le_put k n) = k.
Proof. revert n. induction k as [|k IH]; intros n; simpl; [done|by rewrite IH]. Qed.

Lemma engine_tag_length key nonce : length (engine_tag key nonce) = tag_len.
Proof.
  unfold engine_tag, pad8. rewrite length_app, length_le_put, length_take, length_app.
  rewrite length_replicate. unfold tag_len. lia.
Qed.

Lemma engine_seal_Some key nonce payload len c :
  engine_seal key nonce payload len = Some c →
  (N.of_nat (length payload + tag_len) ≤ 65535)%N ∧ length payload + tag_len ≤ len ∧
  c = payload ++ engine_tag key nonce.
Proof.
  unfold engine_seal.
  destruct (decide (nonce < u64_max ∧ _)%N) as [[_ Hmax]|]; [|done].
  destruct (decide (length payload + tag_len ≤ len)); [|done]. by intros [= <-].
Qed.

Lemma engine_sealed_for (key : bytes) : @sealed_for engine key key.
Proof.
  split; simpl.
  - intros nonce payload len Hn Hmax Hlen. unfold engine_seal.
    pose proof noise_max_N. rewrite decide_True by lia. rewrite decide_True by done.
    eexists. split; [done|]. by rewrite length_app, engine_tag_length.
  - intros nonce payload len c (Hmax & Hlen & ->)%engine_seal_Some. pose proof noise_max_N.
    rewrite length_app, engine_tag_length. lia.
  - intros nonce payload len c len' (Hmax & Hlen & ->)%engine_seal_Some Hlen'.
    unfold engine_open. rewrite length_app, engine_tag_length, Nat.add_sub.
    rewrite drop_app_length, take_app_length. rewrite decide_True; [done|].
    unfold tag_len. split_and!; [lia|done|lia].
Qed.

Lemma engine_bounds : @NoiseBounds engine.
Proof.
  split; simpl.
  - intros s payload len s' m. unfold engine_write.
    case_decide; [|done]. destruct (es_initiator s), (es_stage s) as [|[|]];
      try done; intros [= _ <-]; simpl;
      rewrite length_app; lia.
  - intros key nonce c len payload. unfold engine_open.
    case_decide as Hc; [|done]. intros [= <-]. rewrite length_take. lia.
Qed.

Lemma engine_write_message len s :
  length (es_own s) ≤ 32 → length (es_drawn s) = 8 → 41 ≤ len →
  engine_write [] len s =
    match es_initiator s, es_stage s with
    | true, 0 => (at_stage 1 s, Some (engine_message x01 s))
    | false, 1 => (at_stage 2 s, Some (engine_message x02 s))
    | _, _ => (s, None)
    end.
Proof. intros. unfold engine_write. by rewrite decide_True by lia. Qed.

(** What one engine wrote the other reads, and knows what was drawn. *)
Lemma engine_accept_message tag k s s' :
  es_own s = es_remote s' →
  engine_accept tag (engine_message tag s) k s' =
    (mkEngineState (es_initiator s') (es_own s') (es_remote s') (es_drawn s') (es_drawn s) k,
     Some []).
Proof.
  intros Hkey. unfold engine_accept, engine_message. rewrite Hkey. simpl.
  by rewrite take_app_length, drop_app_length, decide_True.
Qed.

Lemma engine_message_length tag s :
  length (es_own s) ≤ 32 → length (es_drawn s) = 8 →
  length (engine_message tag s) ≤ noise_max.
Proof. intros. pose proof noise_max_N. unfold engine_message. simpl. rewrite length_app. lia. Qed.

Definition engine_laws {name} : @NoiseLaws engine name.
Proof.
  refine {| keypair := λ pub priv, pub = priv ∧ length pub ≤ 32;
            handshake_stage := engine_stage : nat → @HandshakeState engine → @HandshakeState engine → Prop |}.
  - simpl. intros rng params pub priv _ [= <- <-]. split; [done|simpl; lia].
  - simpl. intros params p1 ? p2 ? rng1 rng2 _ [<- H1] [<- H2].
    eexists _, _, _, _. split_and!; [done..|]. exists p1, p2, (le_put 8 rng1), (le_put 8 rng2).
    by rewrite !length_le_put.
  - intros hi hr (own & remote & di & dr & H1 & H2 & H3 & H4 & -> & ->).
    pose proof noise_max_N. eexists _, _, _, _. split_and!.
    + simpl. rewrite engine_write_message by (simpl; lia). reflexivity.
    + simpl. unfold engine_read. simpl. by apply engine_accept_message.
    + by apply engine_message_length.
    + exists own, remote, di, dr. split_and!; [assumption..|reflexivity|reflexivity].
  - intros hi hr (own & remote & di & dr & H1 & H2 & H3 & H4 & -> & ->).
    pose proof noise_max_N. eexists _, _, _, _. split_and!.
    + simpl. rewrite engine_write_message by (simpl; lia). reflexivity.
    + simpl. unfold engine_read. simpl. by apply engine_accept_message.
    + by apply engine_message_length.
    + exists own, remote, di, dr. split_and!; [assumption..|reflexivity|reflexivity].
  - simpl. intros hi hr (own & remote & di & dr & _ & _ & _ & _ & -> & ->). simpl.
    eexists _, _. split_and!; [done..| |]; apply engine_sealed_for.
Defined.
