(* ===== verification/Transform.v ===== *)
(** * Chunker: splitting messages into packets and reassembling them

    Models [src/transform.rs].  A [ChunkGroup] collects the chunks of one message;
    the [Chunker] keeps the open groups, the completed messages and the number of
    the next group.  The three [Arc<Mutex<_>>] fields are shared by every clone of
    a chunker, so one [Chunker] record is the state all clones of it work on.
    [u64] and [usize] have the same width (64-bit targets): [as] casts between
    them are the identity. *)

From S2P Require Import Prelude Std Externals.

(** ** Data *)

Inductive VeqError := Disconnected.

Record ChunkedData := mkChunkedData {
  cd_group : N;
  cd_index : N;
  cd_group_length : N;
  cd_data : bytes;
}.

Record ChunkGroup := mkChunkGroup {
  cg_chunks : list (option ChunkedData);
  cg_size : N;
  cg_group_length : N;
}.

Record Chunker (D : Type) := mkChunker {
  delegate : D;
  chunk_size : N;
  current_group : N;
  chunk_groups : gmap N ChunkGroup;
  completed_chunks : list bytes;
}.
Arguments mkChunker {D}.
Arguments delegate {D}.
Arguments chunk_size {D}.
Arguments current_group {D}.
Arguments chunk_groups {D}.
Arguments completed_chunks {D}.

#[export] Instance ChunkedData_eq_dec : EqDecision ChunkedData.
Proof. solve_decision. Defined.

#[export] Instance ChunkedData_wf : WellFormed ChunkedData := λ c,
  (cd_group c < u64_modulus)%N ∧ (cd_index c < u64_modulus)%N ∧
  (cd_group_length c < u64_modulus)%N ∧ (N.of_nat (length (cd_data c)) < u64_modulus)%N.

(** The trait [Bidirectional]. *)
Class Bidirectional (D : Type) := {
  bsend : bytes → M D VeqError unit;
  brecv : M D VeqError bytes;
}.

(** [impl Bidirectional for Arc<Mutex<VecDeque<Vec<u8>>>>]. *)
#[export] Instance VecDeque_Bidirectional : Bidirectional (list bytes) := {|
  bsend d := λ q, (q ++ [d], Ok tt);
  brecv := λ q, match q with d :: q => (q, Ok d) | [] => ([], Panic) end;
|}.

(** ** Groups *)

Section chunk_group.
Context `{Platform} {E : Type}.

(** [ChunkGroup::new]: the vector of [group_length] empty slots is allocated at
    once.  A length the allocator does not grant is a [Panic], as the capacity overflow
    of [Vec] is; where the allocation itself fails Rust aborts the process, which is
    not told apart. *)
Definition ChunkGroup_new (group_length : N) : outcome E ChunkGroup :=
  if decide (group_length ≤ alloc_slots)%N
  then Ok (mkChunkGroup (replicate (N.to_nat group_length) None) 0 group_length)
  else Panic.

Definition ChunkGroup_add_chunk (chunk : ChunkedData) : M ChunkGroup E unit :=
  let i := N.to_nat (cd_index chunk) in
  g ← get;
  '(_, removed) ← lift (vec_remove i (cg_chunks g));
  modify (λ g, mkChunkGroup removed (cg_size g) (cg_group_length g));;
  inserted ← lift (vec_insert i (Some chunk) removed);
  modify (λ g, mkChunkGroup inserted (cg_size g) (cg_group_length g));;
  size ← lift (u64_add (cg_size g) 1);
  modify (λ g, mkChunkGroup (cg_chunks g) size (cg_group_length g)).

Definition ChunkGroup_is_complete (g : ChunkGroup) : bool :=
  bool_decide (cg_size g = cg_group_length g).

Fixpoint collect_chunks (chunks : list (option ChunkedData)) (output : bytes)
    : outcome E bytes :=
  match chunks with
  | [] => Ok output
  | chunk :: chunks =>
      c ← unwrap chunk;
      collect_chunks chunks (output ++ cd_data c)
  end.

Definition ChunkGroup_collect (g : ChunkGroup) : outcome E bytes :=
  collect_chunks (cg_chunks g) [].
End chunk_group.

(** ** The chunker *)

Section chunker.
Context `{Platform, Codec ChunkedData} {D : Type} {E : Type}.

Definition Chunker_new (delegate : D) (chunk_size : N) : Chunker D :=
  mkChunker delegate chunk_size 0 ∅ [].

Definition with_delegate (d : D) (c : Chunker D) : Chunker D :=
  mkChunker d (chunk_size c) (current_group c) (chunk_groups c) (completed_chunks c).
Definition with_current_group (n : N) (c : Chunker D) : Chunker D :=
  mkChunker (delegate c) (chunk_size c) n (chunk_groups c) (completed_chunks c).
Definition with_chunk_groups (m : gmap N ChunkGroup) (c : Chunker D) : Chunker D :=
  mkChunker (delegate c) (chunk_size c) (current_group c) m (completed_chunks c).
Definition with_completed (q : list bytes) (c : Chunker D) : Chunker D :=
  mkChunker (delegate c) (chunk_size c) (current_group c) (chunk_groups c) q.

(** [entry(id).or_insert_with(new)] *)
Definition entry_or_insert (id : N) (new : outcome E ChunkGroup)
    : M (gmap N ChunkGroup) E unit := λ m,
  match m !! id with
  | Some _ => (m, Ok tt)
  | None => (g ← lift new; modify (insert id g)) m
  end.

(** A method called through the [&mut ChunkGroup] the entry returned. *)
Definition on_group {A} (id : N) (f : M ChunkGroup E A) : M (gmap N ChunkGroup) E A :=
  λ m, match m !! id with
       | Some g => let '(g', r) := f g in (<[id := g']> m, r)
       | None => (m, Panic)
       end.

(** The first locked block of [Chunker::add_chunk]. *)
Definition insert_chunk (chunk : ChunkedData) : M (gmap N ChunkGroup) E bool :=
  entry_or_insert (cd_group chunk) (ChunkGroup_new (cd_group_length chunk));;
  on_group (cd_group chunk) (
    ChunkGroup_add_chunk chunk;;
    gets ChunkGroup_is_complete).

(** [chunk_groups.remove(&id).unwrap()], then the message is queued. *)
Definition complete_group (id : N) : M (Chunker D) E unit :=
  groups ← gets chunk_groups;
  g ← lift (unwrap (groups !! id));
  modify (λ c, with_chunk_groups (delete id (chunk_groups c)) c);;
  message ← lift (ChunkGroup_collect g);
  modify (λ c, with_completed (completed_chunks c ++ [message]) c).

(** Clean up old chunk groups. *)
Definition evict_old : M (Chunker D) E unit :=
  modify (λ c, if decide (10 < size (chunk_groups c))
               then with_chunk_groups (map_pop_first (chunk_groups c)).2 c
               else c).

Definition add_chunk (chunk : ChunkedData) : M (Chunker D) E unit :=
  let group_id := cd_group chunk in
  is_complete ← zoom chunk_groups with_chunk_groups (insert_chunk chunk);
  (if is_complete : bool then complete_group group_id else mret tt);;
  evict_old.

Definition next_ready_chunk : M (Chunker D) E (option bytes) := λ c,
  match completed_chunks c with
  | m :: q => (with_completed q c, Ok (Some m))
  | [] => (c, Ok None)
  end.

(** The chunks of one message: [enumerate] and the struct literal of [send]. *)
Definition make_chunks (group : N) (cs : list bytes) : list ChunkedData :=
  imap (λ i d, mkChunkedData group (N.of_nat i) (N.of_nat (length cs)) d) cs.
End chunker.

Section bidirectional.
Context `{Platform, Codec ChunkedData} {D : Type} `{Bidirectional D}.

Fixpoint send_all (ds : list bytes) : M (Chunker D) VeqError unit :=
  match ds with
  | [] => mret tt
  | d :: ds => zoom delegate with_delegate (bsend d);; send_all ds
  end.

(** [*self.current_group.lock().await]: the guard is dropped at the end of the
    statement. *)
Definition send_read_group : M (Chunker D) VeqError N := gets current_group.

(** The rest of [send], under the second guard. *)
Definition send_write_group (group : N) (cs : list bytes) : M (Chunker D) VeqError unit :=
  next ← lift (u64_add group 1);
  modify (with_current_group next);;
  ds ← lift (mapM (λ c, unwrap (serialize c)) (make_chunks group cs));
  send_all ds.

Definition Chunker_send (data : bytes) : M (Chunker D) VeqError unit :=
  n ← gets chunk_size;
  cs ← lift (chunks (N.to_nat n) data);
  group ← send_read_group;
  send_write_group group cs.

(** The receive loop; [fuel] bounds the packets taken from the delegate. *)
Fixpoint Chunker_recv (fuel : nat) : M (Chunker D) VeqError bytes :=
  match fuel with
  | O => lift OutOfFuel
  | S fuel =>
      ready ← next_ready_chunk;
      match ready with
      | Some ready => mret ready
      | None =>
          bs ← zoom delegate with_delegate brecv;
          chunked_data ← lift (unwrap (deserialize bs));
          add_chunk chunked_data;;
          Chunker_recv fuel
      end
  end.

#[export] Instance Chunker_Bidirectional (fuel : nat) : Bidirectional (Chunker D) := {|
  bsend := Chunker_send;
  brecv := Chunker_recv fuel;
|}.
End bidirectional.

#[global] Arguments ChunkGroup_new : simpl never.
#[global] Arguments ChunkGroup_add_chunk : simpl never.
#[global] Arguments ChunkGroup_is_complete : simpl never.
#[global] Arguments ChunkGroup_collect : simpl never.
#[global] Arguments insert_chunk : simpl never.
#[global] Arguments complete_group : simpl never.
#[global] Arguments add_chunk : simpl never.
