(* ===== verification/Reassembly.v ===== *)
(** * Reassembly: what the chunker of [Transform] guarantees

    Shared lemmas on the slots of a group and on one step of [add_chunk], the
    invariant of a chunker fed honest chunks, and the properties of the chunker. *)

From S2P Require Import Prelude Std Externals Layout Transform.

(** ** Slots of a group *)

(** The number of slots that hold a chunk. *)
Fixpoint filled (chunks : list (option ChunkedData)) : nat :=
  match chunks with
  | [] => 0
  | Some _ :: chunks => S (filled chunks)
  | None :: chunks => filled chunks
  end.

(** The group the honest chunks [cs] of one message build, of which those
    satisfying [seen] have arrived. *)
Record group_matches (cs : list ChunkedData) (seen : ChunkedData → Prop) (g : ChunkGroup) :
    Prop := {
  gm_length : length (cg_chunks g) = length cs;
  gm_group_length : cg_group_length g = N.of_nat (length cs);
  gm_size : cg_size g = N.of_nat (filled (cg_chunks g));
  gm_slot i ch : cg_chunks g !! i = Some (Some ch) → cs !! i = Some ch ∧ seen ch;
}.

Section slots.
Implicit Types (chunks : list (option ChunkedData)) (ch : ChunkedData).

Lemma filled_replicate n : filled (replicate n None) = 0.
Proof. by induction n. Qed.

Lemma filled_le chunks : filled chunks ≤ length chunks.
Proof. induction chunks as [|[ch|] chunks IH]; simpl; lia. Qed.

Lemma filled_insert chunks i ch :
  chunks !! i = Some None → filled (<[i := Some ch]> chunks) = S (filled chunks).
Proof.
  revert i. induction chunks as [|[c|] chunks IH]; intros [|i]; simpl;
    try done; intros Hi; rewrite ?IH; done.
Qed.

Lemma filled_full chunks i slot :
  filled chunks = length chunks → chunks !! i = Some slot → is_Some slot.
Proof.
  revert i. induction chunks as [|[c|] chunks IH]; intros i Hf Hi; simpl in *.
  - done.
  - destruct i as [|i]; simpl in *; simplify_eq; eauto.
  - pose proof (filled_le chunks) as Hle. lia.
Qed.

Lemma all_filled chunks :
  (∀ i slot, chunks !! i = Some slot → is_Some slot) → filled chunks = length chunks.
Proof.
  induction chunks as [|[c|] chunks IH]; simpl; intros Hall; [done| |].
  - f_equal. apply IH. intros i. apply (Hall (S i)).
  - by destruct (Hall 0 None eq_refl) as [? [=]].
Qed.

Lemma collect_chunks_spec {E} chunks out (cs : list ChunkedData) :
  chunks = Some <$> cs →
  collect_chunks (E := E) chunks out = Ok (out ++ concat (cd_data <$> cs)).
Proof.
  intros ->. revert out. induction cs as [|c cs IH]; intros out; simpl.
  - by rewrite app_nil_r.
  - by rewrite IH, <- app_assoc.
Qed.

Lemma collect_chunks_hole {E} chunks out i :
  chunks !! i = Some None → collect_chunks (E := E) chunks out = Panic.
Proof.
  revert i out. induction chunks as [|[c|] chunks IH]; intros [|i] out; simpl; try done.
  intros Hi. by eapply IH.
Qed.
End slots.

Section group_lemmas.
Context `{Platform} {E : Type}.

Lemma group_matches_new cs seen :
  (N.of_nat (length cs) ≤ alloc_slots)%N →
  ∃ g, ChunkGroup_new (E := E) (N.of_nat (length cs)) = Ok g ∧ group_matches cs seen g.
Proof.
  intros Hn. unfold ChunkGroup_new. rewrite decide_True by done.
  rewrite Nat2N.id. eexists. split; [done|]. split; simpl.
  - apply length_replicate.
  - done.
  - by rewrite filled_replicate.
  - by intros i ch [? _]%lookup_replicate_1.
Qed.

(** What [ChunkGroup::add_chunk] does on every index: replace the slot and count
    the chunk, or panic out of range. *)
Lemma ChunkGroup_add_chunk_in_range chunk g :
  N.to_nat (cd_index chunk) < length (cg_chunks g) →
  (cg_size g + 1 < u64_modulus)%N →
  ChunkGroup_add_chunk (E := E) chunk g =
    (mkChunkGroup (<[N.to_nat (cd_index chunk) := Some chunk]> (cg_chunks g))
       (cg_size g + 1) (cg_group_length g), Ok tt).
Proof.
  intros Hi Hs. unfold ChunkGroup_add_chunk. unfold_monad.
  pose proof (vec_remove_insert (E := E) _ (Some chunk) _ Hi) as Hri.
  unfold mbind, outcome_bind in Hri. 
  destruct (vec_remove _ _) as [[x l]| | | |]; try done.
  rewrite Hri. by rewrite u64_add_small by done.
Qed.

Lemma ChunkGroup_add_chunk_oob chunk g :
  length (cg_chunks g) ≤ N.to_nat (cd_index chunk) →
  ChunkGroup_add_chunk (E := E) chunk g = (g, Panic).
Proof.
  intros Hi. unfold ChunkGroup_add_chunk. unfold_monad. by rewrite vec_remove_oob.
Qed.

Lemma group_matches_add cs (seen : ChunkedData → Prop) chunk g :
  group_matches cs seen g →
  (N.of_nat (length cs) < u64_modulus)%N →
  cs !! N.to_nat (cd_index chunk) = Some chunk →
  ¬ seen chunk →
  ∃ g', ChunkGroup_add_chunk (E := E) chunk g = (g', Ok tt) ∧
    group_matches cs (λ c, c = chunk ∨ seen c) g' ∧
    cg_chunks g' = <[N.to_nat (cd_index chunk) := Some chunk]> (cg_chunks g).
Proof.
  intros [Hlen Hgl Hsz Hslot] Hmax Hc Hnew.
  set (i := N.to_nat (cd_index chunk)) in *.
  assert (i < length (cg_chunks g)) as Hi by (rewrite Hlen; by eapply lookup_lt_Some).
  assert (cg_chunks g !! i = Some None) as Hhole.
  { destruct (lookup_lt_is_Some_2 _ _ Hi) as [[ch|] Hch]; [|done].
    apply Hslot in Hch as Hch'. destruct Hch' as [Heq Hs]. naive_solver. }
  assert (filled (cg_chunks g) < length cs) as Hlt.
  { rewrite <- Hlen. pose proof (filled_insert _ _ chunk Hhole) as Hf.
    pose proof (filled_le (<[i:=Some chunk]> (cg_chunks g))) as Hle.
    rewrite length_insert in Hle. lia. }
  rewrite ChunkGroup_add_chunk_in_range by (unfold i in *; lia).
  eexists. split; [done|]. split; [|done]. split; simpl.
  - by rewrite length_insert.
  - done.
  - fold i. rewrite filled_insert by done. lia.
  - fold i. intros j ch. destruct (decide (i = j)) as [<-|Hne].
    + rewrite list_lookup_insert_eq by done. intros [= <-]. eauto.
    + rewrite list_lookup_insert_ne by done. intros Hj. apply Hslot in Hj. naive_solver.
Qed.

(** A group that counts as complete holds every chunk, so it collects to the
    concatenation of the data of the chunks. *)
Lemma group_matches_complete cs seen g :
  group_matches cs seen g →
  ChunkGroup_is_complete g = true →
  cg_chunks g = Some <$> cs ∧ (∀ ch, ch ∈ cs → seen ch) ∧
  ChunkGroup_collect (E := E) g = Ok (concat (cd_data <$> cs)).
Proof.
  intros [Hlen Hgl Hsz Hslot] Hcomp%bool_decide_eq_true.
  assert (filled (cg_chunks g) = length (cg_chunks g)) as Hfull by lia.
  assert (cg_chunks g = Some <$> cs) as Heq.
  { apply list_eq. intros i. rewrite list_lookup_fmap.
    destruct (cg_chunks g !! i) as [slot|] eqn:Hi.
    - destruct (filled_full _ _ _ Hfull Hi) as [ch ->].
      by destruct (Hslot _ _ Hi) as [-> _].
    - apply lookup_ge_None in Hi. by rewrite lookup_ge_None_2 by lia. }
  split_and!; [done| |].
  - intros ch [i Hi]%list_elem_of_lookup. apply (Hslot i).
    by rewrite Heq, list_lookup_fmap, Hi.
  - unfold ChunkGroup_collect. by rewrite (collect_chunks_spec _ [] cs).
Qed.

Lemma group_matches_incomplete cs seen g :
  group_matches cs seen g →
  ChunkGroup_is_complete g = false →
  (∀ i, i < length cs → ∃ ch, cg_chunks g !! i = Some (Some ch)) → False.
Proof.
  intros [Hlen Hgl Hsz Hslot] Hcomp%bool_decide_eq_false Hall.
  apply Hcomp. rewrite Hgl, Hsz, <- Hlen. f_equal. apply all_filled.
  intros i slot Hi. destruct (Hall i) as [ch Hch].
  - rewrite <- Hlen. by eapply lookup_lt_Some.
  - naive_solver.
Qed.

Lemma group_matches_weaken cs (P Q : ChunkedData → Prop) g :
  (∀ c, P c → Q c) → group_matches cs P g → group_matches cs Q g.
Proof. intros HPQ [???Hs]. split; naive_solver. Qed.
End group_lemmas.

(** ** Reassembly *)

(** The chunks [Chunker::send] makes of message [d] with group number [g]. *)
Definition message_chunks (n : nat) (g : N) (d : bytes) : list ChunkedData :=
  make_chunks g (chunks_fuel (length d) n d).

(** Add the chunks of a stream, in order. *)
Fixpoint add_chunks `{Platform} {D E} (chs : list ChunkedData) : M (Chunker D) E unit :=
  match chs with
  | [] => mret tt
  | ch :: chs => add_chunk ch;; add_chunks chs
  end.

Section make_chunks_lemmas.
Implicit Types (cs : list bytes) (g : N).

Lemma make_chunks_lookup g cs i ch :
  make_chunks g cs !! i = Some ch ↔
  ∃ d, cs !! i = Some d ∧ ch = mkChunkedData g (N.of_nat i) (N.of_nat (length cs)) d.
Proof.
  unfold make_chunks. rewrite list_lookup_imap. destruct (cs !! i); naive_solver.
Qed.

Lemma make_chunks_length g cs : length (make_chunks g cs) = length cs.
Proof. apply length_imap. Qed.

Lemma make_chunks_index g cs ch :
  ch ∈ make_chunks g cs →
  make_chunks g cs !! N.to_nat (cd_index ch) = Some ch ∧ cd_group ch = g ∧
  cd_group_length ch = N.of_nat (length (make_chunks g cs)).
Proof.
  rewrite make_chunks_length. intros [i Hi]%list_elem_of_lookup.
  pose proof Hi as (d & Hd & ->)%make_chunks_lookup. simpl. by rewrite Nat2N.id.
Qed.

Lemma make_chunks_data g cs : cd_data <$> make_chunks g cs = cs.
Proof.
  unfold make_chunks. rewrite fmap_imap. unfold compose. simpl.
  apply list_eq. intros i. rewrite list_lookup_imap. by destruct (cs !! i).
Qed.

Lemma message_chunks_index n g d ch :
  ch ∈ message_chunks n g d →
  message_chunks n g d !! N.to_nat (cd_index ch) = Some ch ∧ cd_group ch = g ∧
  cd_group_length ch = N.of_nat (length (message_chunks n g d)).
Proof. apply make_chunks_index. Qed.

Lemma message_chunks_data n g d :
  n ≠ 0 → concat (cd_data <$> message_chunks n g d) = d.
Proof.
  intros. unfold message_chunks. rewrite make_chunks_data. by apply chunks_fuel_concat.
Qed.

Lemma message_chunks_NoDup n g d : NoDup (message_chunks n g d).
Proof.
  apply NoDup_alt. intros i j ch (d1 & _ & ->)%make_chunks_lookup
    (d2 & _ & Heq)%make_chunks_lookup. simplify_eq. done.
Qed.

Lemma message_chunks_nil n g d : d ≠ [] → message_chunks n g d ≠ [].
Proof. unfold message_chunks. destruct d; [done|]. done. Qed.

Lemma message_chunks_length_le n g d : length (message_chunks n g d) ≤ length d.
Proof. unfold message_chunks. rewrite make_chunks_length. apply chunks_fuel_length. Qed.
End make_chunks_lemmas.

Section reassembly.
Context `{Platform} {D E : Type}.
(** The chunk size of the sender and the message of each group number. *)
Context (n : nat) (msgs : N → option bytes).
Hypothesis n_pos : n ≠ 0.
Hypothesis msgs_fit : ∀ g d, msgs g = Some d →
  (N.of_nat (length (message_chunks n g d)) ≤ alloc_slots)%N.

(** A chunk some [send] of the peer made. *)
Definition honest (ch : ChunkedData) : Prop :=
  ∃ d, msgs (cd_group ch) = Some d ∧ ch ∈ message_chunks n (cd_group ch) d.

(** What holds of a chunker that has been given the chunks [seen] and has
    completed the groups [dn], in this order. *)
Record chunker_inv (seen : list ChunkedData) (dn : list N) (c : Chunker D) : Prop := {
  ci_completed : Forall2 (λ g m, msgs g = Some m) dn (completed_chunks c);
  ci_done g d : g ∈ dn → msgs g = Some d → ∀ ch, ch ∈ message_chunks n g d → ch ∈ seen;
  ci_nodup : NoDup dn;
  ci_groups g grp : chunk_groups c !! g = Some grp →
    ∃ d, msgs g = Some d ∧
      group_matches (message_chunks n g d) (λ ch, ch ∈ seen) grp ∧
      ChunkGroup_is_complete grp = false;
  ci_disjoint g : g ∈ dn → chunk_groups c !! g = None;
  ci_size : size (chunk_groups c) ≤ 10;
}.

Definition evicted (m : gmap N ChunkGroup) : gmap N ChunkGroup :=
  if decide (10 < size m) then (map_pop_first m).2 else m.

Definition old_slots (m : gmap N ChunkGroup) (ch : ChunkedData) : list (option ChunkedData) :=
  match m !! cd_group ch with
  | Some g => cg_chunks g
  | None => replicate (N.to_nat (cd_group_length ch)) None
  end.

(** The chunker after an honest new chunk [ch] of message [d] that turned its
    group into [grp]. *)
Definition after_chunk (ch : ChunkedData) (d : bytes) (grp : ChunkGroup) (c : Chunker D)
    : Chunker D :=
  if ChunkGroup_is_complete grp
  then with_completed (completed_chunks c ++ [d])
         (with_chunk_groups (evicted (delete (cd_group ch) (chunk_groups c))) c)
  else with_chunk_groups (evicted (<[cd_group ch := grp]> (chunk_groups c))) c.

Definition after_done (ch : ChunkedData) (grp : ChunkGroup) (dn : list N) : list N :=
  if ChunkGroup_is_complete grp then dn ++ [cd_group ch] else dn.

Lemma fits_u64 g d :
  msgs g = Some d → (N.of_nat (length (message_chunks n g d)) < u64_modulus)%N ∧
    (N.of_nat (length (message_chunks n g d)) ≤ alloc_slots)%N.
Proof using All.
  intros Hd%msgs_fit. pose proof alloc_slots_le.
  unfold u64_modulus. lia.
Qed.

(** The first half of a step: the chunk is stored in its group. *)
Lemma insert_chunk_honest seen dn c ch d :
  chunker_inv seen dn c → ch ∉ seen →
  msgs (cd_group ch) = Some d → ch ∈ message_chunks n (cd_group ch) d →
  ∃ grp, insert_chunk (E := E) ch (chunk_groups c) =
      (<[cd_group ch := grp]> (chunk_groups c), Ok (ChunkGroup_is_complete grp)) ∧
    group_matches (message_chunks n (cd_group ch) d) (λ x, x = ch ∨ x ∈ seen) grp ∧
    cg_chunks grp = <[N.to_nat (cd_index ch) := Some ch]> (old_slots (chunk_groups c) ch).
Proof using All.
  intros Hinv Hnew Hd Hch.
  destruct (fits_u64 _ _ Hd) as [Hfit Halloc].
  pose proof (message_chunks_index _ _ _ _ Hch) as (Hidx & _ & Hlen).
  set (g := cd_group ch) in *. set (cs := message_chunks n g d) in *.
  fold cs in Hidx, Hlen. unfold insert_chunk, old_slots. fold g.
  destruct (chunk_groups c !! g) as [grp|] eqn:Hg.
  - destruct (ci_groups _ _ _ Hinv _ _ Hg) as (d' & Hd' & Hm & _). simplify_eq.
    destruct (group_matches_add (E := E) _ _ _ _ Hm Hfit Hidx Hnew) as (grp' & Hadd & Hm' & Hsl).
    exists grp'. split_and!; [|done..].
    unfold entry_or_insert, on_group. unfold_monad. rewrite Hg. simpl. by rewrite Hg, Hadd.
  - rewrite Hlen.
    destruct (group_matches_new (E := E) cs (λ x, x ∈ seen) Halloc) as (grp & Hgrp & Hm).
    destruct (group_matches_add (E := E) _ _ _ _ Hm Hfit Hidx Hnew) as (grp' & Hadd & Hm' & Hsl).
    exists grp'. split_and!; [|done|].
    + unfold entry_or_insert, on_group. unfold_monad. rewrite Hg, Hgrp. simpl.
      by rewrite lookup_insert_eq, Hadd, insert_insert_eq.
    + rewrite Hsl. f_equal. unfold ChunkGroup_new in Hgrp. case_decide; [|done].
      simplify_eq. done.
Qed.

(** One honest new chunk: it never panics, and either completes its message or
    is stored. *)
Lemma add_chunk_honest seen dn c ch d :
  chunker_inv seen dn c → ch ∉ seen →
  msgs (cd_group ch) = Some d → ch ∈ message_chunks n (cd_group ch) d →
  ∃ grp,
    group_matches (message_chunks n (cd_group ch) d) (λ x, x = ch ∨ x ∈ seen) grp ∧
    cg_chunks grp = <[N.to_nat (cd_index ch) := Some ch]> (old_slots (chunk_groups c) ch) ∧
    add_chunk (E := E) ch c = (after_chunk ch d grp c, Ok tt).
Proof using All.
  intros Hinv Hnew Hd Hch.
  destruct (insert_chunk_honest _ _ _ _ _ Hinv Hnew Hd Hch) as (grp & Hins & Hm & Hsl).
  exists grp. split_and!; [done|done|].
  unfold add_chunk, evict_old, after_chunk, evicted. unfold_monad. rewrite Hins.
  destruct (ChunkGroup_is_complete grp) eqn:Hc; [|by destruct c; simpl; case_decide].
  destruct (group_matches_complete (E := E) _ _ _ Hm Hc) as (_ & _ & Hcol).
  rewrite message_chunks_data in Hcol by done.
  unfold complete_group. unfold_monad. rewrite lookup_insert_eq. simpl. rewrite Hcol.
  simpl. rewrite delete_insert_eq. destruct c; simpl. by case_decide.
Qed.

Lemma evicted_subseteq m : evicted m ⊆ m.
Proof. unfold evicted. case_decide; [apply map_pop_first_subseteq|done]. Qed.

Lemma evicted_size m : size m ≤ 11 → size (evicted m) ≤ 10.
Proof. unfold evicted. case_decide; [rewrite size_map_pop_first|]; lia. Qed.

Lemma evicted_id m : size m ≤ 10 → evicted m = m.
Proof. intros. unfold evicted. by rewrite decide_False by lia. Qed.

Lemma size_insert_le (m : gmap N ChunkGroup) g grp : size (<[g := grp]> m) ≤ S (size m).
Proof. rewrite map_size_insert. case_match; simpl; lia. Qed.

Lemma chunker_inv_new (c : Chunker D) :
  chunk_groups c = ∅ → completed_chunks c = [] → chunker_inv [] [] c.
Proof.
  intros Hg Hc. split; rewrite ?Hg, ?Hc.
  - constructor.
  - by intros g d ?%elem_of_nil.
  - constructor.
  - done.
  - by intros g ?%elem_of_nil.
  - rewrite map_size_empty. lia.
Qed.

(** A message of which a chunk is missing is not completed yet. *)
Lemma not_done seen dn c ch d :
  chunker_inv seen dn c → ch ∉ seen → msgs (cd_group ch) = Some d →
  ch ∈ message_chunks n (cd_group ch) d → cd_group ch ∉ dn.
Proof. intros Hinv Hnew Hd Hch Hin. by eapply Hnew, (ci_done _ _ _ Hinv). Qed.

Lemma ci_groups_weaken seen dn c ch m :
  chunker_inv seen dn c → m ⊆ chunk_groups c →
  ∀ g grp, m !! g = Some grp →
    ∃ d, msgs g = Some d ∧
      group_matches (message_chunks n g d) (λ x, x ∈ ch :: seen) grp ∧
      ChunkGroup_is_complete grp = false.
Proof.
  intros Hinv Hm g grp Hg. destruct (ci_groups _ _ _ Hinv g grp) as (d & ? & ? & ?).
  { by eapply lookup_weaken. }
  exists d. split_and!; [done| |done].
  eapply group_matches_weaken; [|done]. set_solver.
Qed.

Lemma after_chunk_inv seen dn c ch d grp :
  chunker_inv seen dn c → ch ∉ seen →
  msgs (cd_group ch) = Some d → ch ∈ message_chunks n (cd_group ch) d →
  group_matches (message_chunks n (cd_group ch) d) (λ x, x = ch ∨ x ∈ seen) grp →
  chunker_inv (ch :: seen) (after_done ch grp dn) (after_chunk ch d grp c).
Proof using All.
  intros Hinv Hnew Hd Hch Hm.
  pose proof (not_done _ _ _ _ _ Hinv Hnew Hd Hch) as Hnd.
  unfold after_chunk, after_done. destruct (ChunkGroup_is_complete grp) eqn:Hc.
  - destruct (group_matches_complete (E := E) _ _ _ Hm Hc) as (_ & Hall & _).
    split; simpl.
    + apply Forall2_app; [apply Hinv|]. by repeat constructor.
    + intros g d' [Hg| ->%list_elem_of_singleton]%elem_of_app Hd' x Hx.
      * apply elem_of_cons. right. by eapply (ci_done _ _ _ Hinv).
      * simplify_eq. apply elem_of_cons. auto.
    + apply NoDup_app. split_and!; [apply Hinv| |apply NoDup_singleton].
      intros g Hg ->%list_elem_of_singleton. done.
    + eapply ci_groups_weaken; [done|].
      etrans; [apply evicted_subseteq|apply delete_subseteq].
    + intros g Hg. eapply lookup_weaken_None; [|apply evicted_subseteq].
      apply elem_of_app in Hg as [Hg| ->%list_elem_of_singleton];
        [|apply lookup_delete_eq].
      apply lookup_delete_None. right. by apply (ci_disjoint _ _ _ Hinv).
    + apply evicted_size. pose proof (ci_size _ _ _ Hinv).
      rewrite map_size_delete. case_match; simpl; lia.
  - split; simpl.
    + apply Hinv.
    + intros. apply elem_of_cons. right. by eapply (ci_done _ _ _ Hinv).
    + apply Hinv.
    + intros g grp' Hg. eapply lookup_weaken in Hg; [|apply evicted_subseteq].
      apply lookup_insert_Some in Hg as [[<- <-]|[_ Hg]].
      * exists d. split_and!; [done| |done].
        eapply group_matches_weaken; [|done]. set_solver.
      * by eapply ci_groups_weaken.
    + intros g Hg. eapply lookup_weaken_None; [|apply evicted_subseteq].
      rewrite lookup_insert_ne by (by intros <-). by apply (ci_disjoint _ _ _ Hinv).
    + apply evicted_size. etrans; [apply size_insert_le|].
      pose proof (ci_size _ _ _ Hinv). lia.
Qed.

Lemma add_chunk_inv seen dn c ch :
  chunker_inv seen dn c → ch ∉ seen → honest ch →
  ∃ c' dn', add_chunk (E := E) ch c = (c', Ok tt) ∧ chunker_inv (ch :: seen) dn' c'.
Proof using All.
  intros Hinv Hnew (d & Hd & Hch).
  destruct (add_chunk_honest _ _ _ _ _ Hinv Hnew Hd Hch) as (grp & Hm & _ & Hadd).
  eauto using after_chunk_inv.
Qed.

Lemma add_chunks_inv chs seen dn c :
  chunker_inv seen dn c → NoDup chs → Forall honest chs → (∀ ch, ch ∈ chs → ch ∉ seen) →
  ∃ c' dn', add_chunks (E := E) chs c = (c', Ok tt) ∧
    chunker_inv (reverse chs ++ seen) dn' c'.
Proof using All.
  revert seen dn c. induction chs as [|ch chs IH]; intros seen dn c Hinv Hnd Hh Hdisj; simpl.
  { by exists c, dn. }
  apply NoDup_cons in Hnd as [Hni Hnd]. apply Forall_cons in Hh as [Hch Hh].
  destruct (add_chunk_inv _ _ _ _ Hinv (Hdisj ch ltac:(set_solver)) Hch)
    as (c1 & dn1 & Hadd & Hinv1).
  destruct (IH _ _ _ Hinv1 Hnd Hh) as (c2 & dn2 & Hrest & Hinv2); [set_solver|].
  exists c2, dn2. split; [by rewrite (M_bind_step _ _ _ _ _ Hadd)|].
  by rewrite reverse_cons, <- app_assoc.
Qed.
(** While the chunks come from at most ten groups nothing is evicted: every
    chunk seen is in its group, or its message is done. *)
Record chunker_full (G : gset N) (seen : list ChunkedData) (dn : list N) (c : Chunker D)
    : Prop := {
  cf_inv : chunker_inv seen dn c;
  cf_dom : dom (chunk_groups c) ⊆ G;
  cf_present ch : ch ∈ seen → cd_group ch ∈ dn ∨
    ∃ grp, chunk_groups c !! cd_group ch = Some grp ∧
      cg_chunks grp !! N.to_nat (cd_index ch) = Some (Some ch);
  cf_honest : Forall honest seen;
}.

Lemma chunker_full_evicted G m : size G ≤ 10 → dom m ⊆ G → evicted m = m.
Proof.
  intros HG Hm. apply evicted_id. rewrite <- size_dom.
  by etrans; [apply subseteq_size|].
Qed.

(** The slots of the group of a new chunk keep every chunk already there. *)
Lemma full_slots G seen dn c ch d grp :
  chunker_full G seen dn c → ch ∉ seen →
  msgs (cd_group ch) = Some d → ch ∈ message_chunks n (cd_group ch) d →
  cg_chunks grp = <[N.to_nat (cd_index ch) := Some ch]> (old_slots (chunk_groups c) ch) →
  group_matches (message_chunks n (cd_group ch) d) (λ x, x = ch ∨ x ∈ seen) grp →
  ∀ x, x ∈ ch :: seen → cd_group x = cd_group ch →
    cg_chunks grp !! N.to_nat (cd_index x) = Some (Some x).
Proof.
  intros Hfull Hnew Hd Hch Hsl Hm x Hx Hg.
  pose proof (message_chunks_index _ _ _ _ Hch) as (Hidx & _ & _).
  pose proof (not_done _ _ _ _ _ (cf_inv _ _ _ _ Hfull) Hnew Hd Hch) as Hnd.
  assert (cg_chunks grp !! N.to_nat (cd_index ch) = Some (Some ch)) as Hself.
  { rewrite Hsl. apply list_lookup_insert_eq.
    apply lookup_lt_Some in Hidx. pose proof (gm_length _ _ _ Hm) as Hl.
    rewrite Hsl, length_insert in Hl. lia. }
  apply elem_of_cons in Hx as [->|Hx]; [done|].
  pose proof (cf_honest _ _ _ _ Hfull) as Hh. rewrite Forall_forall in Hh.
  destruct (Hh x Hx) as (d' & Hd' & Hxm). rewrite Hg in Hd', Hxm. simplify_eq.
  pose proof (message_chunks_index _ _ _ _ Hxm) as (Hidx' & _ & _).
  destruct (decide (N.to_nat (cd_index ch) = N.to_nat (cd_index x))) as [Heq|Hne].
  { rewrite Heq in Hidx. naive_solver. }
  rewrite Hsl, list_lookup_insert_ne by done. unfold old_slots.
  destruct (cf_present _ _ _ _ Hfull x Hx) as [Hin|(grp0 & Hgrp0 & Hslot)].
  - by rewrite Hg in Hin.
  - rewrite Hg in Hgrp0. by rewrite Hgrp0.
Qed.

Lemma after_chunk_full G seen dn c ch d grp :
  size G ≤ 10 → cd_group ch ∈ G →
  chunker_full G seen dn c → ch ∉ seen →
  msgs (cd_group ch) = Some d → ch ∈ message_chunks n (cd_group ch) d →
  cg_chunks grp = <[N.to_nat (cd_index ch) := Some ch]> (old_slots (chunk_groups c) ch) →
  group_matches (message_chunks n (cd_group ch) d) (λ x, x = ch ∨ x ∈ seen) grp →
  chunker_full G (ch :: seen) (after_done ch grp dn) (after_chunk ch d grp c).
Proof using All.
  intros HG HchG Hfull Hnew Hd Hch Hsl Hm.
  pose proof (full_slots _ _ _ _ _ _ _ Hfull Hnew Hd Hch Hsl Hm) as Hslots.
  pose proof (after_chunk_inv _ _ _ _ _ _ (cf_inv _ _ _ _ Hfull) Hnew Hd Hch Hm) as Hinv'.
  destruct Hfull as [Hinv Hdom Hpres Hh].
  assert (Forall honest (ch :: seen)) as Hh' by (constructor; [by exists d|done]).
  unfold after_chunk, after_done in *. destruct (ChunkGroup_is_complete grp); simpl in *.
  - rewrite (chunker_full_evicted G) in * by (rewrite ?dom_delete_L; set_solver).
    split; simpl; [done|rewrite dom_delete_L; set_solver|intros x Hx|done].
    rewrite elem_of_app, list_elem_of_singleton.
    destruct (decide (cd_group x = cd_group ch)) as [Hg|Hg]; [auto|].
    apply elem_of_cons in Hx as [->|Hx]; [done|].
    rewrite lookup_delete_ne by done. destruct (Hpres x Hx); auto.
  - rewrite (chunker_full_evicted G) in * by (rewrite ?dom_insert_L; set_solver).
    split; simpl; [done|rewrite dom_insert_L; set_solver|intros x Hx|done].
    destruct (decide (cd_group x = cd_group ch)) as [Hg|Hg].
    + right. exists grp. rewrite Hg, lookup_insert_eq. auto.
    + apply elem_of_cons in Hx as [->|Hx]; [done|].
      rewrite lookup_insert_ne by done. auto.
Qed.

Lemma add_chunks_full G chs seen dn c :
  size G ≤ 10 → (∀ ch, ch ∈ chs → cd_group ch ∈ G) →
  chunker_full G seen dn c → NoDup chs → Forall honest chs →
  (∀ ch, ch ∈ chs → ch ∉ seen) →
  ∃ c' dn', add_chunks (E := E) chs c = (c', Ok tt) ∧
    chunker_full G (reverse chs ++ seen) dn' c'.
Proof using All.
  intros HG. revert seen dn c.
  induction chs as [|ch chs IH]; intros seen dn c HchG Hfull Hnd Hh Hdisj; simpl.
  { by exists c, dn. }
  apply NoDup_cons in Hnd as [Hni Hnd]. apply Forall_cons in Hh as [(d & Hd & Hch) Hh].
  assert (ch ∉ seen) as Hnew by set_solver.
  destruct (add_chunk_honest _ _ _ _ _ (cf_inv _ _ _ _ Hfull) Hnew Hd Hch)
    as (grp & Hm & Hsl & Hadd).
  assert (cd_group ch ∈ G) as HG' by set_solver.
  pose proof (after_chunk_full _ _ _ _ _ _ _ HG HG' Hfull Hnew Hd Hch Hsl Hm) as Hfull'.
  destruct (IH _ _ _ ltac:(set_solver) Hfull' Hnd Hh) as (c2 & dn2 & Hrest & Hfull2).
  { set_solver. }
  exists c2, dn2. split; [by rewrite (M_bind_step _ _ _ _ _ Hadd)|].
  by rewrite reverse_cons, <- app_assoc.
Qed.

(** When nothing was evicted, a message of which every chunk was seen is done. *)
Lemma full_done G seen dn c g d :
  chunker_full G seen dn c → msgs g = Some d → d ≠ [] →
  (∀ ch, ch ∈ message_chunks n g d → ch ∈ seen) → g ∈ dn.
Proof.
  intros Hfull Hd Hne Hall. destruct (decide (g ∈ dn)) as [|Hnd]; [done|exfalso].
  assert (∀ ch, ch ∈ message_chunks n g d → ∃ grp, chunk_groups c !! g = Some grp ∧
      cg_chunks grp !! N.to_nat (cd_index ch) = Some (Some ch)) as Hslots.
  { intros ch Hch. pose proof (message_chunks_index _ _ _ _ Hch) as (_ & Hg & _).
    destruct (cf_present _ _ _ _ Hfull ch (Hall ch Hch)) as [?|?]; by rewrite Hg in *. }
  destruct (message_chunks n g d) as [|ch0 rest] eqn:Hcs.
  { by apply (message_chunks_nil n g d). }
  destruct (Hslots ch0 ltac:(set_solver)) as (grp & Hgrp & _). rewrite <- Hcs in *.
  destruct (ci_groups _ _ _ (cf_inv _ _ _ _ Hfull) _ _ Hgrp) as (d' & Hd' & Hm & Hinc).
  simplify_eq. apply (group_matches_incomplete _ _ _ Hm Hinc).
  intros i [ch Hi]%lookup_lt_is_Some_2.
  assert (ch ∈ message_chunks n g d) as Hch by (by eapply list_elem_of_lookup_2).
  destruct (Hslots ch Hch) as (grp' & Hgrp' & Hslot). simplify_eq.
  pose proof Hi as (x & _ & ->)%make_chunks_lookup. simpl in Hslot.
  rewrite Nat2N.id in Hslot. eauto.
Qed.

Lemma chunker_full_new G (c : Chunker D) :
  chunk_groups c = ∅ → completed_chunks c = [] → chunker_full G [] [] c.
Proof.
  intros Hg Hc. split; [by apply chunker_inv_new| | |constructor]; rewrite ?Hg;
    [by rewrite dom_empty_L|].
  by intros ch ?%elem_of_nil.
Qed.
End reassembly.

(** ** Bounds and panics of [add_chunk] on arbitrary input *)

Section arbitrary_chunks.
Context `{Platform} {D E : Type}.
Implicit Types (c : Chunker D) (ch : ChunkedData) (m : gmap N ChunkGroup).

(** The group of a chunk is found, or created. *)
Lemma entry_or_insert_Ok ch m g :
  (ChunkGroup_new (E := E) (cd_group_length ch) = Ok g ∧ m !! cd_group ch = None ∨
   m !! cd_group ch = Some g) →
  entry_or_insert (cd_group ch) (ChunkGroup_new (E := E) (cd_group_length ch)) m =
    (<[cd_group ch := g]> m, Ok tt).
Proof.
  unfold entry_or_insert. intros [[Hnew Hnone]|Hsome].
  - rewrite Hnone. unfold_monad. by rewrite Hnew.
  - by rewrite Hsome, insert_id.
Qed.

(** Out of range: the group is created if need be and the call panics. *)
Lemma insert_chunk_oob ch m g :
  (ChunkGroup_new (E := E) (cd_group_length ch) = Ok g ∧ m !! cd_group ch = None ∨
   m !! cd_group ch = Some g) →
  length (cg_chunks g) ≤ N.to_nat (cd_index ch) →
  insert_chunk (E := E) ch m = (<[cd_group ch := g]> m, Panic).
Proof.
  intros Hg Hoob. unfold insert_chunk. rewrite (M_bind_step _ _ _ _ _ (entry_or_insert_Ok _ _ _ Hg)).
  unfold on_group. rewrite lookup_insert_eq. unfold_monad.
  by rewrite ChunkGroup_add_chunk_oob, insert_insert_eq.
Qed.
(** ** Well-formed groups *)

(** A group of the length its vector has, in which only chunks of the group at their
    own index are stored, counted at least as often as they fill slots, and which is
    still waiting (a group of length 0 waits for ever). *)
Record group_wf (id : N) (g : ChunkGroup) : Prop := {
  gw_length : length (cg_chunks g) = N.to_nat (cg_group_length g);
  gw_alloc : (cg_group_length g ≤ alloc_slots)%N;
  gw_filled : filled (cg_chunks g) ≤ N.to_nat (cg_size g);
  gw_waiting : (cg_size g < cg_group_length g ∨ cg_size g = 0)%N;
  gw_slot i ch : cg_chunks g !! i = Some (Some ch) → cd_group ch = id ∧ N.to_nat (cd_index ch) = i;
}.

Lemma group_wf_new id n g : ChunkGroup_new (E := E) n = Ok g → group_wf id g.
Proof.
  unfold ChunkGroup_new. case_decide as Hn; [|done]. intros [= <-]. split; simpl.
  - by rewrite length_replicate.
  - done.
  - rewrite filled_replicate. lia.
  - by right.
  - intros i ch Hi. apply lookup_replicate in Hi as [Hi _]. done.
Qed.

Lemma filled_insert_le (chunks : list (option ChunkedData)) i ch :
  filled (<[i := Some ch]> chunks) ≤ S (filled chunks).
Proof.
  revert i. induction chunks as [|[c|] chunks IH]; intros [|i]; simpl; try lia;
    specialize (IH i); lia.
Qed.

(** The group after a chunk in range was added. *)
Definition group_add (ch : ChunkedData) (g : ChunkGroup) : ChunkGroup :=
  mkChunkGroup (<[N.to_nat (cd_index ch) := Some ch]> (cg_chunks g)) (cg_size g + 1)
    (cg_group_length g).

Lemma group_wf_add ch g :
  group_wf (cd_group ch) g → ChunkGroup_is_complete (group_add ch g) = false →
  N.to_nat (cd_index ch) < length (cg_chunks g) → group_wf (cd_group ch) (group_add ch g).
Proof.
  intros [Hl Ha Hf Hw Hs] Hc%bool_decide_eq_false Hi. simpl in Hc. split; simpl.
  - by rewrite length_insert.
  - done.
  - pose proof (filled_insert_le (cg_chunks g) (N.to_nat (cd_index ch)) ch). lia.
  - left. lia.
  - intros i x [(<- & Hx & _)|[_ Hx]]%list_lookup_insert_Some; [|auto]. by injection Hx as <-.
Qed.

(** What the first locked block does to well-formed groups. *)
Lemma insert_chunk_cases ch m :
  map_Forall group_wf m →
  insert_chunk (E := E) ch m = (m, Panic) ∨
  ∃ g, group_wf (cd_group ch) g ∧
    (insert_chunk (E := E) ch m = (<[cd_group ch := g]> m, Panic) ∨
     N.to_nat (cd_index ch) < length (cg_chunks g) ∧
     insert_chunk (E := E) ch m =
       (<[cd_group ch := group_add ch g]> m, Ok (ChunkGroup_is_complete (group_add ch g)))).
Proof.
  intros Hm. pose proof alloc_slots_le.
  assert (∀ g, (ChunkGroup_new (E := E) (cd_group_length ch) = Ok g ∧ m !! cd_group ch = None ∨
      m !! cd_group ch = Some g) → group_wf (cd_group ch) g →
    insert_chunk (E := E) ch m = (<[cd_group ch := g]> m, Panic) ∨
    N.to_nat (cd_index ch) < length (cg_chunks g) ∧
    insert_chunk (E := E) ch m =
      (<[cd_group ch := group_add ch g]> m, Ok (ChunkGroup_is_complete (group_add ch g)))) as Hg.
  { intros g Hg Hwf. destruct (decide (length (cg_chunks g) ≤ N.to_nat (cd_index ch))).
    { left. by apply insert_chunk_oob. }
    right. split; [lia|]. destruct Hwf as [Hl Ha Hf Hw _].
    unfold insert_chunk. rewrite (M_bind_step _ _ _ _ _ (entry_or_insert_Ok _ _ _ Hg)).
    unfold on_group. rewrite lookup_insert_eq. unfold mbind at 1, M_bind at 1.
    rewrite ChunkGroup_add_chunk_in_range by (unfold u64_modulus; lia).
    unfold gets. by rewrite insert_insert_eq. }
  destruct (m !! cd_group ch) as [g|] eqn:Hid.
  { right. exists g. split; [by apply Hm|]. apply Hg; [by right|by apply Hm]. }
  destruct (ChunkGroup_new (E := E) (cd_group_length ch)) as [g| | | |] eqn:Hnew;
    [right; exists g; split;
       [by eapply group_wf_new|apply Hg; [by left|by eapply group_wf_new]]|..];
    left; unfold insert_chunk, entry_or_insert; unfold_monad; rewrite Hid; rewrite Hnew;
    unfold ChunkGroup_new in Hnew; case_decide; simplify_eq; done.
Qed.

Lemma collect_chunks_total (cs : list (option ChunkedData)) out :
  (∃ b, collect_chunks (E := E) cs out = Ok b) ∨ collect_chunks (E := E) cs out = Panic.
Proof.
  revert out. induction cs as [|[c|] cs IH]; intros out; simpl; [by left; eexists|apply IH|by right].
Qed.
End arbitrary_chunks.

(** ** Sending *)

Section sending.
Context `{Platform, Codec ChunkedData, !CodecLaws ChunkedData}.

(** The packets [send] hands to the delegate for message [d] with group [g]. *)
Definition packets (n : nat) (g : N) (d : bytes) : list bytes :=
  omap serialize (message_chunks n g d).

Lemma mapM_serialize_Ok (chs : list ChunkedData) :
  Forall wf chs →
  mapM (λ c, unwrap (E := VeqError) (serialize c)) chs = Ok (omap serialize chs).
Proof.
  induction 1 as [|c chs Hwf _ IH]; simpl; [done|].
  destruct (codec_roundtrip c Hwf) as (bs & Hbs & _). simpl in *. rewrite Hbs. simpl.
  by rewrite IH.
Qed.

Lemma make_chunks_wf n g d :
  (g < u64_modulus)%N → (N.of_nat (length d) < u64_modulus)%N → n ≠ 0 →
  Forall wf (message_chunks n g d).
Proof.
  intros Hg Hd Hn. apply Forall_lookup. intros i ch (x & Hx & ->)%make_chunks_lookup.
  pose proof (lookup_lt_Some _ _ _ Hx).
  pose proof (chunks_fuel_length (length d) n d).
  assert (length x ≤ length d).
  { apply list_elem_of_lookup_2 in Hx.
    rewrite <- (chunks_fuel_concat (length d) n d) by lia.
    apply list_elem_of_split in Hx as (l1 & l2 & ->).
    rewrite concat_app, length_app. simpl. rewrite length_app. lia. }
  unfold wf, ChunkedData_wf, u64_modulus in *. simpl. lia.
Qed.

(** A message that is not empty is sent in one packet or more. *)
Lemma packets_ne n g d :
  (g < u64_modulus)%N → (N.of_nat (length d) < u64_modulus)%N → n ≠ 0 → d ≠ [] →
  packets n g d ≠ [].
Proof.
  intros Hg Hlen Hn Hd. pose proof (make_chunks_wf n g d Hg Hlen Hn) as Hwf.
  pose proof (message_chunks_nil n g d Hd) as Hne. unfold packets.
  destruct Hwf as [|ch chs Hch _]; [done|].
  destruct (codec_roundtrip ch Hch) as (bs & Hbs & _). simpl. by rewrite Hbs.
Qed.

Lemma send_all_VecDeque ds (c : Chunker (list bytes)) :
  send_all ds c = (with_delegate (delegate c ++ ds) c, Ok tt).
Proof.
  revert c. induction ds as [|d ds IH]; intros c; simpl.
  - rewrite app_nil_r. by destruct c.
  - unfold mbind, M_bind, zoom. simpl. rewrite IH. simpl. by rewrite <- app_assoc.
Qed.

(** [send] over a queue: the packets of the message are appended, in order, and
    the group number advances. *)
Lemma Chunker_send_VecDeque d (c : Chunker (list bytes)) :
  (0 < chunk_size c < u64_modulus)%N → (current_group c + 1 < u64_modulus)%N →
  (N.of_nat (length d) < u64_modulus)%N →
  Chunker_send d c =
    (mkChunker (delegate c ++ packets (N.to_nat (chunk_size c)) (current_group c) d)
       (chunk_size c) (current_group c + 1) (chunk_groups c) (completed_chunks c), Ok tt).
Proof.
  intros Hn Hg Hd. unfold Chunker_send, chunks, send_write_group. unfold_monad.
  rewrite decide_False by lia. rewrite u64_add_small by done. simpl.
  fold (message_chunks (N.to_nat (chunk_size c)) (current_group c) d).
  rewrite mapM_serialize_Ok; [by rewrite send_all_VecDeque|].
  apply make_chunks_wf; lia.
Qed.
End sending.

(** ** Receiving *)

Section receiving.
Context `{Platform, Codec ChunkedData, !CodecLaws ChunkedData}.
Context (n : nat) (g : N) (d : bytes).
Hypothesis n_pos : n ≠ 0.
Hypothesis g_u64 : (g < u64_modulus)%N.
Hypothesis d_nonempty : d ≠ [].
Hypothesis d_u64 : (N.of_nat (length d) < u64_modulus)%N.
Hypothesis d_fits : (N.of_nat (length (message_chunks n g d)) ≤ alloc_slots)%N.

Let only : N → option bytes := λ g', if decide (g' = g) then Some d else None.

Lemma only_fits g' d' :
  only g' = Some d' → (N.of_nat (length (message_chunks n g' d')) ≤ alloc_slots)%N.
Proof using All. unfold only. case_decide; naive_solver. Qed.

Lemma only_honest ch : ch ∈ message_chunks n g d → honest n only ch.
Proof.
  intros Hch. pose proof (message_chunks_index _ _ _ _ Hch) as (_ & Hg & _).
  exists d. unfold only. rewrite Hg. by rewrite decide_True.
Qed.

Lemma chunker_full_with_delegate G seen dn (c : Chunker (list bytes)) q :
  chunker_full n only G seen dn c → chunker_full n only G seen dn (with_delegate q c).
Proof. by intros [[] ???]; split; [split|..]. Qed.

Lemma next_ready_none seen (c : Chunker (list bytes)) :
  chunker_full n only {[ g ]} seen [] c → completed_chunks c = [].
Proof.
  intros Hfull. pose proof (ci_completed _ _ _ _ _ (cf_inv _ _ _ _ _ _ Hfull)) as Hf.
  by apply Forall2_nil_inv_l in Hf.
Qed.

Lemma recv_one_packet fuel bs ch (c c' : Chunker (list bytes)) q :
  completed_chunks c = [] → delegate c = bs :: q → deserialize bs = Some ch →
  add_chunk (E := VeqError) ch (with_delegate q c) = (c', Ok tt) →
  Chunker_recv (S fuel) c = Chunker_recv fuel c'.
Proof.
  intros Hcomp Hdel Hde Hadd. simpl. unfold next_ready_chunk, mbind at 1, M_bind at 1.
  rewrite Hcomp. unfold zoom, brecv, VecDeque_Bidirectional. unfold_monad.
  rewrite Hdel. simpl. rewrite Hde. simpl. by rewrite Hadd.
Qed.

Lemma recv_ready fuel (c : Chunker (list bytes)) m q :
  completed_chunks c = m :: q → Chunker_recv (S fuel) c = (with_completed q c, Ok m).
Proof. intros Hcomp. simpl. unfold next_ready_chunk, mbind, M_bind. by rewrite Hcomp. Qed.

Lemma message_rest_last seen ch rest :
  message_chunks n g d = reverse seen ++ ch :: rest →
  (∀ x, x ∈ message_chunks n g d → x = ch ∨ x ∈ seen) → rest = [].
Proof.
  intros Hcs Hall. pose proof (message_chunks_NoDup n g d) as Hnd. rewrite Hcs in *.
  apply NoDup_app in Hnd as (_ & Hdisj & Hnd). apply NoDup_cons in Hnd as [Hch _].
  destruct rest as [|x rest]; [done|].
  destruct (Hall x ltac:(set_solver)) as [->|Hx]; [set_solver|].
  exfalso. apply (Hdisj x); [by apply elem_of_reverse|set_solver].
Qed.

(** The receive loop on the rest of a message, part of which has arrived. *)
Lemma recv_rest rest (c : Chunker (list bytes)) seen fuel q :
  chunker_full n only {[ g ]} seen [] c →
  message_chunks n g d = reverse seen ++ rest → rest ≠ [] →
  delegate c = omap serialize rest ++ q → length rest < fuel →
  Chunker_recv fuel c = (mkChunker q (chunk_size c) (current_group c) ∅ [], Ok d).
Proof using All.
  revert c seen fuel. induction rest as [|ch rest IH]; [done|].
  intros c seen [|fuel] Hfull Hcs _ Hdel Hfuel; [simpl in *; lia|].
  pose proof (make_chunks_wf n g d g_u64 d_u64 n_pos) as Hwf.
  assert (ch ∈ message_chunks n g d) as Hch by (rewrite Hcs; set_solver).
  rewrite Forall_forall in Hwf.
  destruct (codec_roundtrip ch (Hwf ch Hch)) as (bs & Hbs & Hde).
  simpl in Hdel. rewrite Hbs in Hdel. simpl in Hdel.
  pose proof (message_chunks_NoDup n g d) as Hnd. rewrite Hcs in Hnd.
  apply NoDup_app in Hnd as (_ & Hdisj & Hnd).
  assert (ch ∉ seen) as Hnew.
  { intros Hin. apply (Hdisj ch); [by apply elem_of_reverse|set_solver]. }
  pose proof (message_chunks_index _ _ _ _ Hch) as (_ & Hg & _).
  assert (only (cd_group ch) = Some d) as Hd by (unfold only; by rewrite decide_True).
  set (c1 := with_delegate (omap serialize rest ++ q) c).
  assert (chunker_full n only {[g]} seen [] c1) as Hfull1
    by (by apply chunker_full_with_delegate).
  rewrite <- Hg in Hch.
  destruct (add_chunk_honest (E := VeqError) n only n_pos only_fits _ _ _ _ _
    (cf_inv _ _ _ _ _ _ Hfull1) Hnew Hd Hch) as (grp & Hm & Hsl & Hadd).
  rewrite (recv_one_packet _ _ _ _ _ _ (next_ready_none _ _ Hfull) Hdel Hde Hadd).
  assert (size ({[g]} : gset N) ≤ 10) as Hsize by (rewrite size_singleton; lia).
  assert (cd_group ch ∈ ({[g]} : gset N)) as HG by (by apply elem_of_singleton).
  pose proof (after_chunk_full (E := VeqError) n only n_pos only_fits {[g]} _ _ _ _ _ _ Hsize HG Hfull1 Hnew Hd Hch Hsl Hm) as Hfull2.
  unfold after_chunk, after_done in *. rewrite Hg in *.
  destruct (ChunkGroup_is_complete grp) eqn:Hc; simpl in *.
  - destruct (group_matches_complete (E := VeqError) _ _ _ Hm Hc) as (_ & Hall & _).
    pose proof (message_rest_last _ _ _ Hcs Hall) as ->.
    rewrite (next_ready_none _ _ Hfull) in *. destruct fuel as [|fuel]; [simpl in *; lia|].
    rewrite (recv_ready _ _ d []) by done. unfold with_completed, with_chunk_groups. simpl.
    do 2 f_equal. apply map_eq. intros i. rewrite lookup_empty.
    destruct (decide (i = g)) as [->|Hi].
    + apply (ci_disjoint _ _ _ _ _ (cf_inv _ _ _ _ _ _ Hfull2)). set_solver.
    + apply not_elem_of_dom. pose proof (cf_dom _ _ _ _ _ _ Hfull2). set_solver.
  - rewrite (IH _ (ch :: seen)); [done|done| | |done|lia].
    + by rewrite reverse_cons, <- app_assoc.
    + intros ->. assert (g ∈ ([] : list N)) as []%not_elem_of_nil.
      refine (full_done n only n_pos only_fits _ _ _ _ g d Hfull2 _ d_nonempty _).
      * unfold only. by rewrite decide_True.
      * intros x. rewrite Hcs, elem_of_app, elem_of_reverse. set_solver.
Qed.

(** One message at the head of the queue is received whole. *)
Lemma recv_message k g0 fuel q :
  length (message_chunks n g d) < fuel →
  Chunker_recv fuel (mkChunker (packets n g d ++ q) k g0 ∅ []) =
    (mkChunker q k g0 ∅ [], Ok d).
Proof using All.
  intros Hfuel.
  apply (recv_rest (message_chunks n g d) (mkChunker _ k g0 ∅ []) []); try done.
  - by apply chunker_full_new.
  - by apply message_chunks_nil.
Qed.
End receiving.

(** ** A concrete codec for chunks *)

Definition chunk_coder : Coder ChunkedData :=
  iso_coder
    (λ c, (cd_group c, (cd_index c, (cd_group_length c, cd_data c))))
    (λ '(g, (i, (l, d))), mkChunkedData g i l d)
    (pair_coder (int_coder 8) (pair_coder (int_coder 8) (pair_coder (int_coder 8) vec_coder))).

Definition chunk_codec : Codec ChunkedData := coder_codec chunk_coder.

Lemma chunk_codec_laws : @CodecLaws ChunkedData chunk_codec _.
Proof.
  apply coder_codec_laws. unfold chunk_coder.
  pose proof (int_coder_ok 8) as Hint.
  pose proof (pair_coder_ok _ _ _ _ Hint
    (pair_coder_ok _ _ _ _ Hint (pair_coder_ok _ _ _ _ Hint vec_coder_ok))) as Hok.
  by apply (iso_coder_ok (λ c, (cd_group c, (cd_index c, (cd_group_length c, cd_data c))))
    (λ '(g, (i, (l, d))), mkChunkedData g i l d)) in Hok; [|intros []].
Qed.

(** Send several messages in order; receive [k] messages in order. *)
Fixpoint send_messages `{Platform, Codec ChunkedData} {D} `{Bidirectional D}
    (ds : list bytes) : M (Chunker D) VeqError unit :=
  match ds with
  | [] => mret tt
  | d :: ds => Chunker_send d;; send_messages ds
  end.

Fixpoint recv_messages `{Platform, Codec ChunkedData} {D} `{Bidirectional D}
    (fuel k : nat) : M (Chunker D) VeqError (list bytes) :=
  match k with
  | O => mret []
  | S k => d ← Chunker_recv fuel; ds ← recv_messages fuel k; mret (d :: ds)
  end.

(** Two clones of one chunker sending at the same time: both read the group
    number before either of them takes the second lock. *)
Definition concurrent_sends `{Platform, Codec ChunkedData} {D} `{Bidirectional D}
    (cs1 cs2 : list bytes) : M (Chunker D) VeqError unit :=
  group1 ← send_read_group;
  group2 ← send_read_group;
  send_write_group group1 cs1;;
  send_write_group group2 cs2.

Section fifo.
Context `{Platform, Codec ChunkedData, !CodecLaws ChunkedData}.

(** The packets of a list of messages with consecutive group numbers. *)
Fixpoint all_packets (n : nat) (g : N) (ds : list bytes) : list bytes :=
  match ds with
  | [] => []
  | d :: ds => packets n g d ++ all_packets n (g + 1) ds
  end.

(** A message that is received: not empty ([empty_message_lost]), within the turns of the
    receive loop, and no longer than what the allocator grants. *)
Definition sendable (fuel : nat) (d : bytes) : Prop :=
  d ≠ [] ∧ length d < fuel ∧ (N.of_nat (length d) ≤ alloc_slots)%N.

Lemma send_messages_VecDeque fuel ds (c : Chunker (list bytes)) :
  (0 < chunk_size c < u64_modulus)%N →
  (current_group c + N.of_nat (length ds) < u64_modulus)%N →
  Forall (sendable fuel) ds →
  send_messages ds c =
    (mkChunker
       (delegate c ++ all_packets (N.to_nat (chunk_size c)) (current_group c) ds)
       (chunk_size c) (current_group c + N.of_nat (length ds))
       (chunk_groups c) (completed_chunks c), Ok tt).
Proof.
  revert c. induction ds as [|d ds IH]; intros c Hn Hg Hds; simpl.
  { rewrite app_nil_r, N.add_0_r. by destruct c. }
  apply Forall_cons in Hds as [(Hne & _ & Hfit) Hds]. pose proof alloc_slots_le.
  simpl in Hg. unfold u64_modulus in *.
  rewrite (M_bind_step _ _ _ _ _ (Chunker_send_VecDeque d c Hn
    ltac:(unfold u64_modulus; lia) ltac:(unfold u64_modulus; lia))).
  rewrite IH; simpl; [|lia|lia|done].
  rewrite <- app_assoc. do 2 f_equal. lia.
Qed.

Lemma recv_messages_VecDeque n fuel ds g k g0 :
  n ≠ 0 → (g + N.of_nat (length ds) < u64_modulus)%N → Forall (sendable fuel) ds →
  recv_messages fuel (length ds) (mkChunker (all_packets n g ds) k g0 ∅ []) =
    (mkChunker [] k g0 ∅ [], Ok ds).
Proof.
  intros Hn. revert g. induction ds as [|d ds IH]; intros g Hg Hds; simpl; [done|].
  apply Forall_cons in Hds as [(Hne & Hfuel & Hfit) Hds]. pose proof alloc_slots_le.
  simpl in Hg. pose proof (message_chunks_length_le n g d).
  rewrite (M_bind_step _ _ _ _ _ (recv_message n g d Hn ltac:(lia) Hne
    ltac:(unfold u64_modulus; lia) ltac:(lia) k g0 fuel _ ltac:(lia))).
  rewrite (M_bind_step _ _ _ _ _ (IH (g + 1)%N ltac:(lia) Hds)). done.
Qed.
End fifo.

(** ** Properties *)

(** C7. Chunks that no peer sent twice are reassembled whatever their order and
    interleaving: as long as they come from at most ten groups, [add_chunk] never
    panics, the completed messages are exactly messages of the peer, each at most
    once, and every non-empty message of which all chunks arrived is among them. *)
Theorem reassembly_complete `{Platform} {D E : Type} (n : nat) (msgs : N → option bytes)
    (G : gset N) (chs : list ChunkedData) (d0 : D) (k : N) :
  n ≠ 0 →
  (∀ g d, msgs g = Some d → (N.of_nat (length (message_chunks n g d)) ≤ alloc_slots)%N) →
  size G ≤ 10 → (∀ ch, ch ∈ chs → cd_group ch ∈ G) →
  NoDup chs → Forall (honest n msgs) chs →
  ∃ c dn, add_chunks (E := E) chs (Chunker_new d0 k) = (c, Ok tt) ∧
    NoDup dn ∧ Forall2 (λ g m, msgs g = Some m) dn (completed_chunks c) ∧
    ∀ g d, msgs g = Some d → d ≠ [] →
      g ∈ dn ↔ (∀ ch, ch ∈ message_chunks n g d → ch ∈ chs).
Proof.
  intros Hn Hfit HG HchG Hnd Hh.
  pose proof (chunker_full_new n msgs Hn G (Chunker_new d0 k) eq_refl eq_refl) as Hfull0.
  destruct (add_chunks_full (E := E) n msgs Hn Hfit G chs [] [] _ HG HchG Hfull0 Hnd Hh)
    as (c & dn & Hadd & Hfull); [set_solver|].
  rewrite app_nil_r in Hfull. pose proof (cf_inv _ _ _ _ _ _ Hfull) as Hinv.
  exists c, dn. split_and!; [done|apply Hinv|apply Hinv|].
  intros g d Hd Hne. split.
  - intros Hg ch Hch. apply elem_of_reverse. by eapply (ci_done _ _ _ _ _ Hinv).
  - intros Hall. eapply (full_done n msgs Hn Hfit); [done..|].
    intros ch Hch. apply elem_of_reverse. auto.
Qed.

Definition demo_msgs (g : N) : option bytes :=
  match g with
  | 0%N => Some [x01; x02; x03; x04; x05]
  | 1%N => Some [x06; x07]
  | _ => None
  end.

Definition demo_stream : list ChunkedData :=
  reverse (message_chunks 2 0 [x01; x02; x03; x04; x05] ++ message_chunks 2 1 [x06; x07]).

Lemma demo_fits g d :
  demo_msgs g = Some d →
  (N.of_nat (length (message_chunks 2 g d)) ≤ @alloc_slots release)%N.
Proof. intros Hd. destruct g as [|[]]; simpl in Hd; simplify_eq; vm_compute; done. Qed.

Lemma demo_honest : Forall (honest 2 demo_msgs) demo_stream.
Proof.
  apply Forall_forall. intros ch. unfold demo_stream.
  rewrite elem_of_reverse, elem_of_app. intros [Hch|Hch];
    pose proof (message_chunks_index _ _ _ _ Hch) as (_ & Hg & _);
    (eexists; rewrite Hg; split; [reflexivity|done]).
Qed.

Lemma reassembly_complete_witness :
  ∃ c dn, add_chunks (H := release) (E := VeqError) demo_stream (Chunker_new tt 2) = (c, Ok tt) ∧
    NoDup dn ∧ Forall2 (λ g m, demo_msgs g = Some m) dn (completed_chunks c) ∧
    ∀ g d, demo_msgs g = Some d → d ≠ [] →
      g ∈ dn ↔ (∀ ch, ch ∈ message_chunks 2 g d → ch ∈ demo_stream).
Proof.
  apply (reassembly_complete (H := release) 2 demo_msgs {[ 0%N; 1%N ]}); [done| | | | |].
  - apply demo_fits.
  - vm_compute. lia.
  - intros ch Hch. apply (proj1 (Forall_forall (λ ch, cd_group ch ∈ ({[ 0%N; 1%N ]} : gset N)) demo_stream)); [|done].
    repeat constructor; vm_compute; done.
  - apply (bool_decide_unpack _). vm_compute. done.
  - apply demo_honest.
Defined.

(** C8. Whatever the number of groups, the order, the interleaving and the losses,
    chunks that no peer sent twice never make [add_chunk] panic, every completed
    message is one the peer sent and of which every chunk arrived, no message is
    completed twice, and at most ten groups stay open. *)
Theorem reassembly_integrity `{Platform} {D E : Type} (n : nat) (msgs : N → option bytes)
    (chs : list ChunkedData) (d0 : D) (k : N) :
  n ≠ 0 →
  (∀ g d, msgs g = Some d → (N.of_nat (length (message_chunks n g d)) ≤ alloc_slots)%N) →
  NoDup chs → Forall (honest n msgs) chs →
  ∃ c dn, add_chunks (E := E) chs (Chunker_new d0 k) = (c, Ok tt) ∧
    size (chunk_groups c) ≤ 10 ∧ NoDup dn ∧
    Forall2 (λ g m, msgs g = Some m ∧ ∀ ch, ch ∈ message_chunks n g m → ch ∈ chs)
      dn (completed_chunks c).
Proof.
  intros Hn Hfit Hnd Hh.
  pose proof (chunker_inv_new n msgs Hn (Chunker_new d0 k) eq_refl eq_refl) as Hinv0.
  destruct (add_chunks_inv (E := E) n msgs Hn Hfit chs [] [] _ Hinv0 Hnd Hh)
    as (c & dn & Hadd & Hinv); [set_solver|].
  rewrite app_nil_r in Hinv. exists c, dn. split_and!; [done|apply Hinv|apply Hinv|].
  pose proof (ci_completed _ _ _ _ _ Hinv) as Hcomp. apply Forall2_same_length_lookup.
  split; [by eapply Forall2_length|]. intros i g m Hg Hm.
  pose proof (Forall2_lookup_lr _ _ _ _ _ _ Hcomp Hg Hm) as Hgm. simpl in Hgm.
  split; [done|]. intros ch Hch. apply elem_of_reverse.
  eapply (ci_done _ _ _ _ _ Hinv); [by eapply list_elem_of_lookup_2|done..].
Qed.

Lemma reassembly_integrity_witness :
  ∃ c dn, add_chunks (H := debug) (E := VeqError) demo_stream (Chunker_new tt 2) = (c, Ok tt) ∧
    size (chunk_groups c) ≤ 10 ∧ NoDup dn ∧
    Forall2 (λ g m, demo_msgs g = Some m ∧
      ∀ ch, ch ∈ message_chunks 2 g m → ch ∈ demo_stream) dn (completed_chunks c).
Proof.
  apply (reassembly_integrity (H := debug) 2 demo_msgs demo_stream tt 2).
  - done.
  - apply demo_fits.
  - apply (bool_decide_unpack _). vm_compute. done.
  - apply demo_honest.
Defined.

(** C26. Non-empty messages sent through a chunker over a lossless queue are received
    in order and unchanged, the receive loop terminating within the length of the
    longest message (plus one) of turns per message. *)
Theorem send_recv_fifo `{Platform, Codec ChunkedData, !CodecLaws ChunkedData}
    (n : N) (ds : list bytes) (fuel : nat) :
  (0 < n < u64_modulus)%N → (N.of_nat (length ds) < u64_modulus)%N →
  Forall (sendable fuel) ds →
  ∃ c, send_messages ds (Chunker_new ([] : list bytes) n) = (c, Ok tt) ∧
    recv_messages fuel (length ds) c =
      (with_current_group (current_group c) (Chunker_new [] n), Ok ds).
Proof.
  intros Hn Hds Hsend. eexists. split.
  - by apply (send_messages_VecDeque fuel).
  - simpl. apply (recv_messages_VecDeque (N.to_nat n)); [lia|done..].
Qed.

Lemma send_recv_fifo_witness :
  ∃ c, send_messages (H := release) (H0 := chunk_codec)
      [[x01; x02; x03; x04; x05; x06; x07; x08]; [x09; x0a]]
      (Chunker_new ([] : list bytes) 3) = (c, Ok tt) ∧
    recv_messages (H := release) (H0 := chunk_codec) 10 2 c =
      (with_current_group (current_group c) (Chunker_new [] 3),
       Ok [[x01; x02; x03; x04; x05; x06; x07; x08]; [x09; x0a]]).
Proof.
  apply (@send_recv_fifo release chunk_codec chunk_codec_laws 3
    [[x01; x02; x03; x04; x05; x06; x07; x08]; [x09; x0a]] 10).
  - by vm_compute.
  - by vm_compute.
  - repeat constructor; simpl; try done; lia.
Defined.

(** C28. Whatever chunk arrives, a call to [add_chunk] keeps every open group well
    formed (its vector has the announced length, within what can be allocated; a slot
    holds a chunk of this group at its own index; the group still waits for chunks),
    even when it panics; a call that returns adds at most one message and leaves at most
    ten groups open if there were at most ten before. *)
Theorem add_chunk_wf `{Platform} {D E : Type} (c c' : Chunker D) (ch : ChunkedData)
    (r : outcome E unit) :
  map_Forall group_wf (chunk_groups c) → add_chunk ch c = (c', r) →
  map_Forall group_wf (chunk_groups c') ∧ (r = Ok tt ∨ r = Panic) ∧
  (r = Ok tt → length (completed_chunks c') ≤ S (length (completed_chunks c)) ∧
     (size (chunk_groups c) ≤ 10 → size (chunk_groups c') ≤ 10)).
Proof.
  intros Hwf Hadd.
  assert (∀ m : gmap N ChunkGroup, map_Forall group_wf m → map_Forall group_wf (evicted m)) as Hev
    by (intros m Hm i g Hi; eapply Hm, lookup_weaken; [exact Hi|apply evicted_subseteq]).
  assert (∀ c : Chunker D, (evict_old (E := E) c) = (with_chunk_groups (evicted (chunk_groups c)) c,
    Ok tt)) as Hold by (intros [? ? ? m ?]; unfold evict_old, evicted, modify; simpl; by case_decide).
  assert (∀ m : gmap N ChunkGroup, size m ≤ S (size (chunk_groups c)) →
    size (chunk_groups c) ≤ 10 → size (evicted m) ≤ 10) as Hsize
    by (intros m ? ?; unfold evicted; case_decide; [rewrite size_map_pop_first|]; lia).
  revert Hadd. unfold add_chunk. unfold mbind, M_bind, zoom.
  destruct (insert_chunk_cases (E := E) ch (chunk_groups c) Hwf)
    as [Hins|(g & Hg & [Hins|[Hi Hins]])]; rewrite Hins.
  - intros [= <- <-]. simpl. split; [exact Hwf|]. split; [by right|done].
  - intros [= <- <-]. simpl. split; [by apply map_Forall_insert_2|]. split; [by right|done].
  - assert (size (<[cd_group ch := group_add ch g]> (chunk_groups c)) ≤ S (size (chunk_groups c)))
      as Hins_size by (rewrite map_size_insert; case_match; simpl; lia).
    destruct (ChunkGroup_is_complete (group_add ch g)) eqn:Hc.
    + unfold complete_group. unfold_monad. rewrite lookup_insert_eq. simpl.
      rewrite delete_insert_eq. unfold ChunkGroup_collect.
      assert (map_Forall group_wf (delete (cd_group ch) (chunk_groups c))) as Hdel
        by (by apply map_Forall_delete).
      destruct (collect_chunks_total (E := E) (cg_chunks (group_add ch g)) []) as [[msg Hm]|Hm];
        rewrite Hm.
      * rewrite Hold. intros [= <- <-]. simpl. split; [by apply Hev|]. split; [by left|].
        intros _. rewrite length_app. simpl. split; [lia|]. apply Hsize.
        rewrite map_size_delete. case_match; simpl; lia.
      * intros [= <- <-]. split; [exact Hdel|]. split; [by right|done].
    + unfold mret, M_ret. rewrite Hold. intros [= <- <-]. simpl.
      split; [by apply Hev, map_Forall_insert_2; [apply group_wf_add|]|]. split; [by left|].
      intros _. split; [lia|]. by apply Hsize.
Qed.

(** A chunk that makes [add_chunk] panic, and one that joins its group. *)
Lemma add_chunk_wf_witness :
  ∃ c1 c2 g,
    add_chunk (H := release) (mkChunkedData 0 5 2 []) (Chunker_new tt 1) =
      (c1, Panic (E := VeqError)) ∧ map_Forall (@group_wf release) (chunk_groups c1) ∧
    add_chunk (H := release) (mkChunkedData 0 1 2 [x01]) c1 = (c2, Ok (E := VeqError) tt) ∧
    chunk_groups c2 !! 0%N = Some g ∧ @group_wf release 0 g ∧ size (chunk_groups c2) ≤ 10.
Proof.
  assert (map_Forall (@group_wf release) (chunk_groups (Chunker_new tt 1))) as H0 by done.
  eexists _, _, _. split; [by vm_compute|].
  edestruct (@add_chunk_wf release unit VeqError (Chunker_new tt 1) _ (mkChunkedData 0 5 2 []) _ H0
    eq_refl) as (H1 & _).
  split; [exact H1|]. split; [by vm_compute|]. split; [by vm_compute|].
  edestruct (@add_chunk_wf release unit VeqError _ _ (mkChunkedData 0 1 2 [x01]) _ H1 eq_refl)
    as (H2 & _ & H3).
  split; [apply H2; by vm_compute|]. apply H3; [by vm_compute|by vm_compute; lia].
Defined.

(** An empty message has no chunks: [send] returns [Ok], hands nothing to the delegate,
    and the message never arrives. *)
Theorem empty_message_lost `{Platform, Codec ChunkedData} {D} `{Bidirectional D} (c : Chunker D) :
  (0 < chunk_size c)%N → (current_group c + 1 < u64_modulus)%N →
  Chunker_send [] c = (with_current_group (current_group c + 1) c, Ok tt).
Proof.
  intros Hn Hg. unfold Chunker_send, chunks, send_write_group. unfold_monad.
  rewrite decide_False by lia. simpl. by rewrite u64_add_small.
Qed.

(** C38. A chunk whose index is outside its group (the group it joins, or the new
    one of the length it announces) makes [add_chunk] panic, and leaves the group
    open. *)
Theorem malformed_chunk_panics `{Platform} {D E : Type} (c : Chunker D) (ch : ChunkedData)
    (g : ChunkGroup) :
  (chunk_groups c !! cd_group ch = Some g ∨
   chunk_groups c !! cd_group ch = None ∧
   ChunkGroup_new (E := E) (cd_group_length ch) = Ok g) →
  length (cg_chunks g) ≤ N.to_nat (cd_index ch) →
  add_chunk (E := E) ch c =
    (with_chunk_groups (<[cd_group ch := g]> (chunk_groups c)) c, Panic).
Proof.
  intros Hg Hoob. unfold add_chunk, mbind at 1, M_bind at 1, zoom.
  erewrite insert_chunk_oob; [done| |done]. naive_solver.
Qed.

Lemma malformed_chunk_panics_witness :
  add_chunk (H := release) (E := VeqError) (mkChunkedData 0 0 0 []) (Chunker_new tt 4096)
  = (mkChunker tt 4096 0 {[ 0%N := mkChunkGroup [] 0 0 ]} [], Panic).
Proof.
  apply (malformed_chunk_panics (H := release) (Chunker_new tt 4096) (mkChunkedData 0 0 0 [])
    (mkChunkGroup [] 0 0)); [right|]; done.
Defined.

(** C37. [size] counts arrivals, not filled slots: a chunk that arrives again in
    place of the last missing one completes the group, [collect] unwraps the
    empty slot and panics, and the group is lost. *)
Theorem duplicate_chunk_panics `{Platform} {D E : Type} (c : Chunker D) (ch : ChunkedData)
    (g : ChunkGroup) (hole : nat) :
  chunk_groups c !! cd_group ch = Some g →
  N.to_nat (cd_index ch) < length (cg_chunks g) →
  (cg_size g + 1 = cg_group_length g)%N → (cg_group_length g < u64_modulus)%N →
  cg_chunks g !! hole = Some None → hole ≠ N.to_nat (cd_index ch) →
  add_chunk (E := E) ch c =
    (with_chunk_groups (delete (cd_group ch) (chunk_groups c)) c, Panic).
Proof.
  intros Hg Hi Hsize Hmax Hhole Hne.
  pose proof (ChunkGroup_add_chunk_in_range (E := E) ch g Hi ltac:(lia)) as Hadd.
  unfold add_chunk, insert_chunk, entry_or_insert, on_group. unfold_monad.
  rewrite Hg. simpl. rewrite Hg, Hadd. unfold ChunkGroup_is_complete at 1. simpl.
  rewrite bool_decide_eq_true_2 by lia.
  unfold complete_group. unfold_monad. rewrite lookup_insert_eq. simpl.
  unfold ChunkGroup_collect. simpl.
  rewrite (collect_chunks_hole _ _ hole) by (by rewrite list_lookup_insert_ne).
  by rewrite delete_insert_eq.
Qed.

Lemma duplicate_chunk_panics_witness :
  add_chunk (H := release) (E := VeqError) (mkChunkedData 7 0 2 [x01])
    (mkChunker tt 1 0 {[ 7%N := mkChunkGroup [Some (mkChunkedData 7 0 2 [x01]); None] 1 2 ]} [])
  = (mkChunker tt 1 0 ∅ [], Panic).
Proof.
  etrans; [apply (duplicate_chunk_panics (H := release) (mkChunker tt 1 0
    {[ 7%N := mkChunkGroup [Some (mkChunkedData 7 0 2 [x01]); None] 1 2 ]} [])
    (mkChunkedData 7 0 2 [x01]) (mkChunkGroup [Some (mkChunkedData 7 0 2 [x01]); None] 1 2) 1)
    |]; try done. vm_compute. lia.
Defined.

Section mixing.
Context `{Platform, Codec ChunkedData, !CodecLaws ChunkedData}.

Lemma send_write_group_VecDeque g cs (c : Chunker (list bytes)) :
  (g + 1 < u64_modulus)%N → Forall wf (make_chunks g cs) →
  send_write_group g cs c =
    (with_current_group (g + 1)
       (with_delegate (delegate c ++ omap serialize (make_chunks g cs)) c), Ok tt).
Proof.
  intros Hg Hwf. unfold send_write_group. unfold_monad.
  rewrite u64_add_small by done. rewrite mapM_serialize_Ok by done.
  by rewrite send_all_VecDeque.
Qed.

(** The second chunk of a two-chunk group arrives first. *)
Lemma add_second_chunk {D E} g x (c : Chunker D) :
  chunk_groups c = ∅ → (2 ≤ alloc_slots)%N →
  add_chunk (E := E) (mkChunkedData g 1 2 x) c =
    (with_chunk_groups
       {[ g := mkChunkGroup [None; Some (mkChunkedData g 1 2 x)] 1 2 ]} c, Ok tt).
Proof.
  intros Hc Hs. unfold add_chunk, insert_chunk, entry_or_insert, on_group, ChunkGroup_new.
  unfold_monad. rewrite Hc, lookup_empty, decide_True by done. simpl.
  rewrite lookup_insert_eq. change (N.to_nat 2) with 2. simpl.
  unfold evict_old. unfold_monad.
  rewrite insert_insert_eq, insert_empty, map_size_singleton. done.
Qed.

Lemma add_first_chunk {D E} g x y (c : Chunker D) :
  chunk_groups c = {[ g := mkChunkGroup [None; Some (mkChunkedData g 1 2 x)] 1 2 ]} →
  add_chunk (E := E) (mkChunkedData g 0 2 y) c =
    (with_completed (completed_chunks c ++ [y ++ x]) (with_chunk_groups ∅ c), Ok tt).
Proof.
  intros Hc. unfold add_chunk, insert_chunk, entry_or_insert, on_group.
  unfold_monad. rewrite Hc, lookup_singleton_eq. simpl. rewrite lookup_singleton_eq.
  rewrite ChunkGroup_add_chunk_in_range by (simpl; unfold u64_modulus; lia). simpl.
  unfold complete_group, evict_old. unfold_monad. rewrite lookup_insert_eq. simpl.
  rewrite delete_insert_eq, delete_singleton_eq, map_size_empty. done.
Qed.
End mixing.

(** C36. The two locks of [send] do not make the choice of a group number atomic:
    two clones sending at the same time put two messages under one group number,
    and a receiver that misses the first packet delivers a message nobody sent. *)
Theorem concurrent_sends_mix_messages `{Platform, Codec ChunkedData, !CodecLaws ChunkedData}
    (c : Chunker (list bytes)) (a0 a1 b0 b1 : bytes) (k : N) (fuel : nat) :
  let g := current_group c in
  let sent := omap serialize (make_chunks g [a0; a1] ++ make_chunks g [b0; b1]) in
  let lossy := omap serialize [mkChunkedData g 1 2 a1; mkChunkedData g 0 2 b0] in
  (g + 1 < u64_modulus)%N → (2 ≤ alloc_slots)%N → 2 < fuel →
  Forall (λ d, N.of_nat (length d) < u64_modulus)%N [a0; a1; b0; b1] →
  concurrent_sends [a0; a1] [b0; b1] c =
    (with_current_group (g + 1) (with_delegate (delegate c ++ sent) c), Ok tt) ∧
  lossy `sublist_of` sent ∧
  Chunker_recv fuel (Chunker_new lossy k) = (Chunker_new [] k, Ok (b0 ++ a1)).
Proof.
  intros g sent lossy Hg Halloc Hfuel Hwf.
  assert (∀ x y, x ∈ [a0; a1; b0; b1] → y ∈ [a0; a1; b0; b1] →
    Forall wf (make_chunks g [x; y])) as Hmk.
  { rewrite Forall_forall in Hwf. intros x y Hx%Hwf Hy%Hwf.
    unfold make_chunks, wf, ChunkedData_wf, u64_modulus in *.
    repeat constructor; simpl in *; lia. }
  assert (∀ i x, (i < 2)%N → x ∈ [a0; a1; b0; b1] → wf (mkChunkedData g i 2 x)) as Hwfc.
  { rewrite Forall_forall in Hwf. intros i x Hi Hx%Hwf.
    unfold wf, ChunkedData_wf, u64_modulus in *. simpl in *. lia. }
  split_and!.
  - unfold concurrent_sends, send_read_group.
    rewrite (M_bind_step _ _ c c g) by done. rewrite (M_bind_step _ _ c c g) by done.
    erewrite M_bind_step by (apply send_write_group_VecDeque; [done|apply Hmk; set_solver]).
    rewrite send_write_group_VecDeque by (done || apply Hmk; set_solver).
    unfold sent. rewrite omap_app, app_assoc. done.
  - destruct (codec_roundtrip _ (Hwfc 0%N a0 ltac:(lia) ltac:(set_solver))) as (s0 & S0 & _).
    destruct (codec_roundtrip _ (Hwfc 1%N a1 ltac:(lia) ltac:(set_solver))) as (s1 & S1 & _).
    destruct (codec_roundtrip _ (Hwfc 0%N b0 ltac:(lia) ltac:(set_solver))) as (s2 & S2 & _).
    destruct (codec_roundtrip _ (Hwfc 1%N b1 ltac:(lia) ltac:(set_solver))) as (s3 & S3 & _).
    change sent with (omap serialize [mkChunkedData g 0 2 a0; mkChunkedData g 1 2 a1;
      mkChunkedData g 0 2 b0; mkChunkedData g 1 2 b1]).
    unfold lossy. simpl. rewrite S0, S1, S2, S3. repeat constructor.
  - destruct fuel as [|[|[|fuel]]]; [lia..|].
    destruct (codec_roundtrip _ (Hwfc 1%N a1 ltac:(lia) ltac:(set_solver))) as (s1 & S1 & D1).
    destruct (codec_roundtrip _ (Hwfc 0%N b0 ltac:(lia) ltac:(set_solver))) as (s2 & S2 & D2).
    unfold lossy. simpl omap. rewrite S1, S2.
    erewrite recv_one_packet; [|done..|by apply add_second_chunk].
    erewrite recv_one_packet; [|done..|by apply add_first_chunk].
    by erewrite recv_ready.
Qed.

Lemma concurrent_sends_mix_messages_witness :
  concurrent_sends (H := release) (H0 := chunk_codec) [[x01]; [x02]] [[x03]; [x04]]
      (Chunker_new ([] : list bytes) 1) =
    (with_current_group 1 (with_delegate (@omap list _ _ _ (serialize (Codec := chunk_codec))
      (make_chunks 0 [[x01]; [x02]] ++ make_chunks 0 [[x03]; [x04]])) (Chunker_new [] 1)), Ok tt) ∧
  Chunker_recv (H := release) (H0 := chunk_codec) 3
    (Chunker_new (@omap list _ _ _ (serialize (Codec := chunk_codec))
      [mkChunkedData 0 1 2 [x02]; mkChunkedData 0 0 2 [x03]]) 1) =
    (Chunker_new [] 1, Ok [x03; x02]).
Proof.
  destruct (@concurrent_sends_mix_messages release chunk_codec chunk_codec_laws
    (Chunker_new [] 1) [x01] [x02] [x03] [x04] 1 3) as (Hsent & _ & Hrecv).
  - by vm_compute.
  - by vm_compute.
  - lia.
  - repeat constructor.
  - split; [exact Hsent|exact Hrecv].
Defined.
