(* ===== verification/SnowTypes.v ===== *)
(** * Keys, handshake and the lossy transport

    Models [src/snow_types.rs]: the wrappers around the noise engine and the
    [LossyTransportState], which numbers outgoing messages and filters incoming
    ones through a window of received nonces. *)

From S2P Require Import Prelude Std Externals.

(** ** The lossy transport: data *)

(** [struct Nonced(u64, Vec<u8>)] *)
Inductive Nonced := mkNonced (nonce : N) (ciphertext : bytes).

#[export] Instance Nonced_wf : WellFormed Nonced := λ '(mkNonced n c),
  (n < u64_modulus)%N ∧ (N.of_nat (length c) < u64_modulus)%N.

Record LossyTransportState `{Noise} := mkLossyTransportState {
  stateless : StatelessTransportState;
  lt_size : N;
  next_nonce : N;
  received_nonces : gset N;
}.

#[global] Arguments mkLossyTransportState {_}.

(** ** The lossy transport: operations *)

Section transport.
Context `{Platform, Noise, Codec Nonced}.

Definition LossyTransportState_new (stateless : StatelessTransportState) (size : N)
    : LossyTransportState := mkLossyTransportState stateless size 0 ∅.

Definition from_stateless (stateless : StatelessTransportState) : LossyTransportState :=
  LossyTransportState_new stateless 1.

Definition with_next_nonce (n : N) (t : LossyTransportState) : LossyTransportState :=
  mkLossyTransportState (stateless t) (lt_size t) n (received_nonces t).
Definition with_received (s : gset N) (t : LossyTransportState) : LossyTransportState :=
  mkLossyTransportState (stateless t) (lt_size t) (next_nonce t) s.

(** [write_message(&mut self, payload, message: &mut [u8])]: the state is the
    transport and the caller's buffer.  When the engine fails the buffer is left
    as it was, which no caller can see: they all return without reading it. *)
Definition write_message (payload : bytes)
    : M (LossyTransportState * bytes) Error nat :=
  '(t, message) ← get;
  let nonce := next_nonce t in
  next ← lift (u64_add nonce 1);
  modify (λ '(t, message), (with_next_nonce next t, message));;
  ciphertext ← lift (ok_or SnowError
    (st_write_message (stateless t) nonce payload (length message)));
  modify (λ '(t, message), (t, zip_copy message ciphertext));;
  written ← gets snd;
  sealed ← lift (slice_to (length ciphertext) written);
  serialized ← lift (ok_or BincodeError (serialize (mkNonced nonce sealed)));
  modify (λ '(t, message), (t, zip_copy message serialized));;
  mret (length serialized).

(** [guard.contains(&nonce) || guard.first().map(|f| f > &nonce).unwrap_or(false)] *)
Definition window_rejects (received : gset N) (nonce : N) : bool :=
  bool_decide (nonce ∈ received) ||
  default false ((λ f, bool_decide (nonce < f)%N) <$> set_first received).

(** [while guard.len() > self.size { guard.pop_first(); }]: every turn removes one
    element, so the size of the set is enough fuel. *)
Fixpoint shrink (fuel : nat) (max : N) (received : gset N) : gset N :=
  match fuel with
  | O => received
  | S fuel =>
      if decide (max < N.of_nat (size received))%N
      then shrink fuel max (set_pop_first received)
      else received
  end.

Definition window_insert (max : N) (received : gset N) (nonce : N) : gset N :=
  let received := {[ nonce ]} ∪ received in
  shrink (size received) max received.

Definition read_message (payload : bytes)
    : M (LossyTransportState * bytes) Error nat :=
  '(mkNonced nonce payload) ← lift (ok_or BincodeError (deserialize payload));
  received ← gets (λ '(t, _), received_nonces t);
  if window_rejects received nonce then lift (Err SnowError) else
  modify (λ '(t, message),
    (with_received (window_insert (lt_size t) received nonce) t, message));;
  '(t, message) ← get;
  plain ← lift (ok_or SnowError
    (st_read_message (stateless t) nonce payload (length message)));
  modify (λ '(t, message), (t, zip_copy message plain));;
  mret (length plain).
End transport.

#[global] Arguments write_message : simpl never.
#[global] Arguments read_message : simpl never.

(** ** Keys *)

Inductive SnowPublicKey := mkSnowPublicKey (key : bytes).
Inductive SnowPrivateKey := mkSnowPrivateKey (key : bytes).
Inductive SnowKeypair := mkSnowKeypair (pub : SnowPublicKey) (priv : SnowPrivateKey).

Definition public_bytes (k : SnowPublicKey) : bytes := let 'mkSnowPublicKey b := k in b.

(** [STANDARD.encode(self.0)], for the encoder of the base64 crate. *)
Definition base64 (encode : bytes → string) (k : SnowPublicKey) : string :=
  encode (public_bytes k).

Definition public (k : SnowKeypair) : SnowPublicKey := let 'mkSnowKeypair p _ := k in p.
Definition private (k : SnowKeypair) : SnowPrivateKey := let 'mkSnowKeypair _ p := k in p.

Section keys.
Context `{Noise}.

Definition NOISE_PARAMS : string := "Noise_KKhfs_25519+Kyber1024_XChaChaPoly_BLAKE2b".

Definition builder {E} : outcome E Builder :=
  params ← unwrap (parse_params NOISE_PARAMS);
  mret (builder_new params).

(** [rng] is the randomness the key generator draws. *)
Definition SnowKeypair_new (rng : N) : outcome Error SnowKeypair :=
  b ← builder;
  '(pub, priv) ← ok_or SnowError (generate_keypair rng b);
  mret (mkSnowKeypair (mkSnowPublicKey pub) (mkSnowPrivateKey priv)).

Definition SnowKeypair_default {E} (rng : N) : outcome E SnowKeypair :=
  match SnowKeypair_new rng with Ok k => Ok k | _ => Panic end.

Definition keypair_builder {E} (k : SnowKeypair) : outcome E Builder :=
  let 'mkSnowKeypair _ (mkSnowPrivateKey priv) := k in
  b ← builder;
  unwrap (local_private_key priv b).
End keys.

(** ** Handshake *)

Inductive SnowInitiation := mkSnowInitiation (message : bytes).
Inductive SnowResponse := mkSnowResponse (message : bytes).

(** [struct SnowInitiator(HandshakeState, SnowInitiation)] *)
Record SnowInitiator `{Noise} := mkSnowInitiator {
  si_state : HandshakeState;
  si_initiation : SnowInitiation;
}.

(** [struct SnowResponder(HandshakeState)] *)
Record SnowResponder `{Noise} := mkSnowResponder { sr_state : HandshakeState }.

Inductive ReceiveResponseResult `{Noise} :=
  | ResponseOk (t : LossyTransportState)
  | ResponseErr (i : SnowInitiator).

#[global] Arguments mkSnowInitiator {_}.
#[global] Arguments mkSnowResponder {_}.
#[global] Arguments ResponseOk {_}.
#[global] Arguments ResponseErr {_}.

Section handshake.
Context `{Noise}.

Definition ReceiveResponseResult_unwrap {E} (r : ReceiveResponseResult)
    : outcome E LossyTransportState :=
  match r with ResponseOk t => Ok t | ResponseErr _ => Panic end.

Definition SnowInitiator_new (rng : N) (keys : SnowKeypair) (remote : SnowPublicKey)
    : outcome Error SnowInitiator :=
  b ← keypair_builder keys;
  b ← ok_or SnowError (remote_public_key (public_bytes remote) b);
  state ← ok_or SnowError (build_initiator rng b);
  let '(state, written) := hs_write_message [] noise_max state in
  message ← ok_or SnowError written;
  mret (mkSnowInitiator state (mkSnowInitiation message)).

Definition initiation (i : SnowInitiator) : SnowInitiation := si_initiation i.

(** An error of the engine is returned as [ResponseErr], with the initiator. *)
Definition receive_response (i : SnowInitiator) (response : SnowResponse)
    : outcome Error ReceiveResponseResult :=
  let 'mkSnowResponse message := response in
  let '(state, read) := hs_read_message message noise_max (si_state i) in
  match read with
  | None => mret (ResponseErr (mkSnowInitiator state (si_initiation i)))
  | Some _ =>
      t ← ok_or SnowError (into_stateless_transport_mode state);
      mret (ResponseOk (from_stateless t))
  end.

Definition SnowResponder_new (rng : N) (keys : SnowKeypair) (remote : SnowPublicKey)
    : outcome Error SnowResponder :=
  b ← keypair_builder keys;
  b ← ok_or SnowError (remote_public_key (public_bytes remote) b);
  state ← ok_or SnowError (build_responder rng b);
  mret (mkSnowResponder state).

Definition response (r : SnowResponder) (init : SnowInitiation)
    : outcome Error (LossyTransportState * SnowResponse) :=
  let 'mkSnowInitiation message := init in
  let '(state, read) := hs_read_message message noise_max (sr_state r) in
  _ ← ok_or SnowError read;
  let '(state, written) := hs_write_message [] noise_max state in
  message ← ok_or SnowError written;
  t ← ok_or SnowError (into_stateless_transport_mode state);
  mret (from_stateless t, mkSnowResponse message).
End handshake.
