(* ===== verification/Transport.v ===== *)
(** * What the lossy transport of [SnowTypes] guarantees

    Equations of one write and one read, the window of received nonces, and the
    properties of sequences of messages. *)

From S2P Require Import Prelude Std Externals Layout Engine SnowTypes.

(** The length bincode documents for a [Nonced]: the nonce, the length of the
    vector, the vector. *)
Class NoncedLayout `{Codec Nonced} := {
  nonced_length n c bs : serialize (mkNonced n c) = Some bs → length bs = 16 + length c;
}.

(** ** Equations *)

Section equations.
Context `{Platform, Noise, Codec Nonced}.
Implicit Types (t : LossyTransportState) (buf : bytes).

Lemma slice_to_zip_copy {E} (dst src : bytes) :
  length src ≤ length dst →
  slice_to (E := E) (length src) (zip_copy dst src) = Ok src.
Proof.
  intros. unfold slice_to. rewrite zip_copy_length, decide_True by done.
  by rewrite zip_copy_prefix.
Qed.

Lemma write_message_eq payload t buf c :
  (next_nonce t + 1 < u64_modulus)%N →
  st_write_message (stateless t) (next_nonce t) payload (length buf) = Some c →
  length c ≤ length buf →
  write_message payload (t, buf) =
    match serialize (mkNonced (next_nonce t) c) with
    | Some s => (with_next_nonce (next_nonce t + 1) t, zip_copy (zip_copy buf c) s,
                 Ok (length s))
    | None => (with_next_nonce (next_nonce t + 1) t, zip_copy buf c, Err BincodeError)
    end.
Proof.
  intros Hn Hc Hlen. unfold write_message. unfold_monad.
  rewrite u64_add_small by done. simpl. rewrite Hc. simpl.
  rewrite slice_to_zip_copy by done. by destruct (serialize _).
Qed.

Lemma write_message_sealed_err payload t buf :
  (next_nonce t + 1 < u64_modulus)%N →
  st_write_message (stateless t) (next_nonce t) payload (length buf) = None →
  write_message payload (t, buf) =
    (with_next_nonce (next_nonce t + 1) t, buf, Err SnowError).
Proof.
  intros Hn Hc. unfold write_message. unfold_monad.
  rewrite u64_add_small by done. simpl. by rewrite Hc.
Qed.

(** Every branch of [read_message]. *)
Lemma read_message_eq payload t buf :
  read_message payload (t, buf) =
    match deserialize payload with
    | None => (t, buf, Err BincodeError)
    | Some (mkNonced nonce c) =>
        if window_rejects (received_nonces t) nonce then (t, buf, Err SnowError)
        else
          let t' := with_received (window_insert (lt_size t) (received_nonces t) nonce) t in
          match st_read_message (stateless t) nonce c (length buf) with
          | None => (t', buf, Err SnowError)
          | Some plain => (t', zip_copy buf plain, Ok (length plain))
          end
    end.
Proof.
  unfold read_message. unfold_monad. destruct (deserialize payload) as [[nonce c]|]; simpl; [|done].
  destruct (window_rejects _ _); [done|]. simpl. by destruct (st_read_message _ _ _ _).
Qed.
End equations.

(** ** The window *)

Section window.
Implicit Types (W P : gset N) (k n : N).

Lemma window_rejects_false W n :
  window_rejects W n = false ↔ (n ∉ W) ∧ (∀ f, set_first W = Some f → (f ≤ n)%N).
Proof.
  unfold window_rejects. rewrite orb_false_iff, bool_decide_eq_false.
  destruct (set_first W) as [f|]; simpl.
  - rewrite bool_decide_eq_false. split; intros [HnW Hf]; split; try done.
    + intros ? [= <-]. lia.
    + specialize (Hf f eq_refl). lia.
  - naive_solver.
Qed.

Lemma shrink_keep fuel k W : (N.of_nat (size W) ≤ k)%N → shrink fuel k W = W.
Proof. intros. destruct fuel; simpl; [done|]. by rewrite decide_False by lia. Qed.

Lemma shrink_one fuel k W :
  0 < fuel → N.of_nat (size W) = (k + 1)%N → shrink fuel k W = set_pop_first W.
Proof.
  intros Hf Hk. destruct fuel as [|fuel]; [lia|]. simpl. rewrite decide_True by lia.
  apply shrink_keep. rewrite size_set_pop_first. lia.
Qed.

Lemma shrink_size fuel k W :
  size W ≤ fuel → (N.of_nat (size (shrink fuel k W)) ≤ N.max k 0)%N.
Proof.
  revert W. induction fuel as [|fuel IH]; intros W Hf; simpl; [lia|].
  case_decide; [|lia]. apply IH. rewrite size_set_pop_first. lia.
Qed.

(** [W] holds the [k] greatest elements of [P]. *)
Record window_of (k : N) (P W : gset N) : Prop := {
  wo_sub : W ⊆ P;
  wo_size : N.of_nat (size W) = N.min k (N.of_nat (size P));
  wo_top x y : x ∈ P → x ∉ W → y ∈ W → (x < y)%N;
}.

Lemma window_of_empty k : window_of k ∅ ∅.
Proof. split; [done|rewrite size_empty; lia|set_solver]. Qed.

(** A nonce the window lets through was never seen. *)
Lemma window_of_fresh k P W n :
  (1 ≤ k)%N → window_of k P W → window_rejects W n = false → n ∉ P.
Proof.
  intros Hk [Hsub Hsize Htop] [HnW Hfirst]%window_rejects_false HnP.
  assert (size P ≠ 0) as HP.
  { rewrite size_empty_iff. set_solver. }
  destruct (set_first W) as [f|] eqn:Hf.
  - apply set_first_Some in Hf as [HfW _]. specialize (Htop _ _ HnP HnW HfW).
    specialize (Hfirst _ eq_refl). lia.
  - apply set_first_None in Hf as ->. rewrite size_empty in Hsize. lia.
Qed.

Lemma window_of_insert k P W n :
  (1 ≤ k)%N → window_of k P W → window_rejects W n = false →
  window_of k ({[ n ]} ∪ P) (window_insert k W n).
Proof.
  intros Hk Hwo Hrej. pose proof (window_of_fresh _ _ _ _ Hk Hwo Hrej) as HnP.
  destruct Hwo as [Hsub Hsize Htop]. apply window_rejects_false in Hrej as [HnW Hfirst].
  assert (size ({[n]} ∪ P) = S (size P)) as HsP
    by (rewrite size_union by set_solver; by rewrite size_singleton).
  assert (size ({[n]} ∪ W) = S (size W)) as HsW
    by (rewrite size_union by set_solver; by rewrite size_singleton).
  assert (∀ y, y ∈ W → (∀ x, x ∈ W → (y ≤ x)%N) → (y ≤ n)%N) as Hleast.
  { intros y Hy Hmin. apply Hfirst. by apply set_first_Some. }
  unfold window_insert. destruct (decide (N.of_nat (size W) < k)%N) as [Hlt|Hge].
  - rewrite shrink_keep by lia.
    assert (W = P) as ->.
    { apply set_eq. intros x. split; [apply Hsub|]. intros Hx.
      apply dec_stable. intros HxW.
      assert (size ({[x]} ∪ W) ≤ size P) as Hle by (apply subseteq_size; set_solver).
      rewrite size_union, size_singleton in Hle by set_solver. lia. }
    split; [set_solver|lia|set_solver].
  - rewrite shrink_one by lia. unfold set_pop_first.
    destruct (set_first ({[n]} ∪ W)) as [f|] eqn:Hf; [|apply set_first_None in Hf; set_solver].
    apply set_first_Some in Hf as [Hf Hfmin].
    split.
    + set_solver.
    + rewrite size_difference by set_solver. rewrite size_singleton. lia.
    + intros x y Hx Hxn Hy.
      apply elem_of_difference in Hy as [Hy Hyf%not_elem_of_singleton].
      destruct (decide (x ∈ {[n]} ∪ W)) as [HxW|HxW].
      * assert (x = f) as -> by (apply dec_stable; set_solver).
        specialize (Hfmin _ Hy). lia.
      * apply elem_of_union in Hy as [->%elem_of_singleton|Hy].
        -- assert (set_first W ≠ None) as HW.
           { rewrite set_first_None. intros ->. rewrite size_empty in Hge. lia. }
           destruct (set_first W) as [w|] eqn:Hw; [|done].
           apply set_first_Some in Hw as [HwW _]. specialize (Hfirst _ eq_refl).
           specialize (Htop x w). set_solver by lia.
        -- apply Htop; set_solver.
Qed.

(** With a window of one nonce: exactly the greater nonces pass. *)
Lemma window_rejects_singleton m n :
  window_rejects {[ m ]} n = bool_decide (n ≤ m)%N.
Proof.
  unfold window_rejects. rewrite set_first_singleton. simpl.
  repeat case_bool_decide; set_solver by lia.
Qed.

Lemma window_insert_singleton m n :
  window_rejects {[ m ]} n = false → window_insert 1 {[ m ]} n = {[ n ]}.
Proof.
  rewrite window_rejects_singleton. intros Hn%bool_decide_eq_false.
  assert (n ≠ m) as Hne by lia.
  unfold window_insert. rewrite shrink_one; [| |].
  - unfold set_pop_first.
    assert (set_first ({[n]} ∪ {[m]}) = Some m) as ->.
    { apply set_first_Some. split; [set_solver|].
      intros x [ ->%elem_of_singleton | ->%elem_of_singleton]%elem_of_union; lia. }
    set_solver.
  - rewrite size_union by set_solver. rewrite !size_singleton. lia.
  - rewrite size_union by set_solver. by rewrite !size_singleton.
Qed.

Lemma window_insert_empty n : window_insert 1 ∅ n = {[ n ]}.
Proof.
  unfold window_insert. rewrite union_empty_r_L. apply shrink_keep. by rewrite size_singleton.
Qed.
End window.

(** ** Sequences of messages *)

(** The nonce of a packet the window lets through. *)
Definition passed_nonce `{Noise, Codec Nonced} (p : bytes) (t : LossyTransportState) : option N :=
  match deserialize p with
  | Some (mkNonced n _) => if window_rejects (received_nonces t) n then None else Some n
  | None => None
  end.

(** Read packets one after the other into a buffer: the transport left, and the
    nonces the window let through, each with whether its message was returned. *)
Fixpoint read_trace `{Noise, Codec Nonced} (buf : bytes) (ps : list bytes)
    (t : LossyTransportState) : LossyTransportState * list (N * bool) :=
  match ps with
  | [] => (t, [])
  | p :: ps =>
      let '(t1, _, r) := read_message p (t, buf) in
      let '(t2, log) := read_trace buf ps t1 in
      (t2, match passed_nonce p t with
           | Some n => [(n, match r with Ok _ => true | _ => false end)]
           | None => []
           end ++ log)
  end.

Section read_trace_lemmas.
Context `{Noise, Codec Nonced}.

Lemma read_message_state p t buf :
  (read_message p (t, buf)).1.1 =
    match passed_nonce p t with
    | Some n => with_received (window_insert (lt_size t) (received_nonces t) n) t
    | None => t
    end.
Proof.
  rewrite read_message_eq. unfold passed_nonce.
  destruct (deserialize p) as [[n c]|]; [|done]. destruct (window_rejects _ _); [done|].
  by destruct (st_read_message _ _ _ _).
Qed.

Lemma passed_nonce_not_rejected p t n :
  passed_nonce p t = Some n → window_rejects (received_nonces t) n = false.
Proof.
  unfold passed_nonce. destruct (deserialize p) as [[m c]|]; [|done].
  destruct (window_rejects _ _) eqn:Hr; by intros [= <-].
Qed.

(** The window after any sequence of packets, and the freshness of what passes. *)
Lemma read_trace_window buf ps t P :
  (1 ≤ lt_size t)%N → window_of (lt_size t) P (received_nonces t) →
  let '(t', log) := read_trace buf ps t in
  lt_size t' = lt_size t ∧ NoDup log.*1 ∧ (∀ n, n ∈ log.*1 → n ∉ P) ∧
  window_of (lt_size t) (P ∪ list_to_set log.*1) (received_nonces t').
Proof.
  revert t P. induction ps as [|p ps IH]; intros t P Hk Hwo; simpl.
  { split_and!; [done|constructor|by intros n ?%elem_of_nil|]. by rewrite union_empty_r_L. }
  pose proof (read_message_state p t buf) as Ht1.
  destruct (read_message p (t, buf)) as [[t1 buf1] r]. simpl in Ht1. subst t1.
  destruct (passed_nonce p t) as [n|] eqn:Hn.
  - apply passed_nonce_not_rejected in Hn as Hrej.
    pose proof (window_of_insert _ _ _ _ Hk Hwo Hrej) as Hwo1.
    pose proof (window_of_fresh _ _ _ _ Hk Hwo Hrej) as Hfresh.
    specialize (IH (with_received (window_insert (lt_size t) (received_nonces t) n) t)
      ({[n]} ∪ P) Hk Hwo1).
    destruct (read_trace _ _ _) as [t2 log]. destruct IH as (Hsz & Hnd & Hnew & Hwo2).
    split_and!; simpl; [done| | |].
    + apply NoDup_cons. split; [|done]. intros Hin%Hnew. set_solver.
    + intros m [->|Hm]%elem_of_cons; [done|]. apply Hnew in Hm. set_solver.
    + by rewrite (union_comm_L {[n]} P), <- union_assoc_L in Hwo2.
  - specialize (IH t P Hk Hwo). by destruct (read_trace _ _ _) as [t2 log].
Qed.
End read_trace_lemmas.

(** ** What is accepted *)

Definition packet_nonce `{Codec Nonced} (p : bytes) : option N :=
  match deserialize p with Some (mkNonced n _) => Some n | None => None end.

(** The nonces of the packets [read_message] returns a message for. *)
Fixpoint accepted `{Noise, Codec Nonced} (buf : bytes) (ps : list bytes)
    (t : LossyTransportState) : list (option N) :=
  match ps with
  | [] => []
  | p :: ps =>
      let '(t1, _, r) := read_message p (t, buf) in
      match r with Ok _ => [packet_nonce p] | _ => [] end ++ accepted buf ps t1
  end.

(** What is accepted passed the window. *)
Lemma accepted_passed `{Noise, Codec Nonced} p t buf len :
  (read_message p (t, buf)).2 = Ok len →
  ∃ n, packet_nonce p = Some n ∧ passed_nonce p t = Some n.
Proof.
  rewrite read_message_eq. unfold packet_nonce, passed_nonce.
  destruct (deserialize p) as [[n c]|]; [|done]. destruct (window_rejects _ _); [done|]. eauto.
Qed.

Lemma accepted_sublist `{Noise, Codec Nonced} buf ps t :
  ∃ ns, accepted buf ps t = Some <$> ns ∧ ns `sublist_of` (read_trace buf ps t).2.*1.
Proof.
  revert t. induction ps as [|p ps IH]; intros t; simpl; [by exists []|].
  pose proof (accepted_passed p t buf) as Hp.
  destruct (read_message p (t, buf)) as [[t1 buf1] r]. simpl in Hp.
  destruct (IH t1) as (ns & -> & Hsub). destruct (read_trace buf ps t1) as [t2 log]. simpl in *.
  rewrite fmap_app. destruct r as [len| | | |]; simpl;
    try (exists ns; split; [done|by apply sublist_inserts_l]).
  destruct (Hp len eq_refl) as (n & -> & ->). exists (n :: ns). split; [done|].
  by apply sublist_skip.
Qed.

(** ** The specification of a window of one nonce

    Messages are delivered in the order they were numbered: the state is the
    greatest number seen, and only greater numbers are looked at. *)
Definition is_newer (last : option N) (n : N) : bool :=
  match last with None => true | Some m => bool_decide (m < n)%N end.

Definition in_order_read `{Noise, Codec Nonced} (st : StatelessTransportState) (len : nat)
    (payload : bytes) (last : option N) : option N * outcome Error nat :=
  match deserialize payload with
  | None => (last, Err BincodeError)
  | Some (mkNonced n c) =>
      if is_newer last n
      then (Some n, length <$> ok_or SnowError (st_read_message st n c len))
      else (last, Err SnowError)
  end.

(** The results of a sequence of reads, of the code and of the specification. *)
Fixpoint read_results `{Noise, Codec Nonced} (buf : bytes) (ps : list bytes)
    (t : LossyTransportState) : list (outcome Error nat) :=
  match ps with
  | [] => []
  | p :: ps => let '(t1, _, r) := read_message p (t, buf) in r :: read_results buf ps t1
  end.

Fixpoint in_order_results `{Noise, Codec Nonced} (st : StatelessTransportState) (len : nat)
    (ps : list bytes) (last : option N) : list (outcome Error nat) :=
  match ps with
  | [] => []
  | p :: ps =>
      let '(last1, r) := in_order_read st len p last in r :: in_order_results st len ps last1
  end.

(** The window of one nonce that stands for the greatest number seen. *)
Definition window_last (last : option N) : gset N :=
  match last with None => ∅ | Some m => {[ m ]} end.

Section in_order.
Context `{Noise, Codec Nonced}.

Lemma window_rejects_last last n : window_rejects (window_last last) n = negb (is_newer last n).
Proof.
  destruct last as [m|]; simpl; [|done].
  rewrite window_rejects_singleton. repeat case_bool_decide; simpl; lia.
Qed.

Lemma window_insert_last last n :
  is_newer last n = true → window_insert 1 (window_last last) n = window_last (Some n).
Proof.
  intros Hn. destruct last as [m|]; simpl in *; [|apply window_insert_empty].
  apply window_insert_singleton. rewrite window_rejects_singleton.
  apply bool_decide_eq_true in Hn. apply bool_decide_eq_false. lia.
Qed.

(** One read with a window of one nonce simulates one read of the specification. *)
Lemma read_message_in_order p t buf last :
  lt_size t = 1%N → received_nonces t = window_last last →
  let '(t1, buf1, r) := read_message p (t, buf) in
  in_order_read (stateless t) (length buf) p last =
    ((in_order_read (stateless t) (length buf) p last).1, r) ∧
  lt_size t1 = 1%N ∧ stateless t1 = stateless t ∧ length buf1 = length buf ∧
  received_nonces t1 = window_last (in_order_read (stateless t) (length buf) p last).1.
Proof.
  intros Hsz Hrec. rewrite read_message_eq. unfold in_order_read.
  destruct (deserialize p) as [[n c]|]; [|done].
  rewrite Hrec, window_rejects_last, Hsz.
  destruct (is_newer last n) eqn:Hn; simpl; [|done].
  pose proof (window_insert_last _ _ Hn) as Hw.
  destruct (st_read_message _ _ _ _) as [plain|]; simpl;
    rewrite ?zip_copy_length; done.
Qed.
End in_order.

(** ** A concrete codec for numbered messages *)

Definition nonced_coder : Coder Nonced :=
  iso_coder (λ '(mkNonced n c), (n, c)) (λ '(n, c), mkNonced n c)
    (pair_coder (int_coder 8) vec_coder).

Definition nonced_codec : Codec Nonced := coder_codec nonced_coder.

Lemma nonced_codec_laws : @CodecLaws Nonced nonced_codec _.
Proof.
  apply coder_codec_laws. pose proof (pair_coder_ok _ _ _ _ (int_coder_ok 8) vec_coder_ok) as Hok.
  intros [n c] rest Hwf.
  apply (iso_coder_ok (λ '(mkNonced n c), (n, c)) (λ '(n, c), mkNonced n c)) in Hok;
    [|by intros []].
  by apply Hok.
Qed.

Lemma nonced_layout : @NoncedLayout nonced_codec.
Proof.
  split. intros n c bs Hs.
  assert (bs = le_put 8 n ++ le_put 8 (N.of_nat (length c)) ++ c) as ->
    by (symmetry; exact (inj Some _ _ Hs)).
  by rewrite !length_app, !length_le_put.
Qed.

(** ** Properties *)

(** C9. No replay: whatever packets arrive at a transport whose window has room
    for a nonce, [read_message] returns a message for at most one packet of each
    nonce: the packets it accepts all decode, and their nonces are distinct. *)
Theorem replay_protection `{Noise, Codec Nonced} (st : StatelessTransportState) (size : N)
    (buf : bytes) (ps : list bytes) :
  (1 ≤ size)%N →
  ∃ ns, accepted buf ps (LossyTransportState_new st size) = Some <$> ns ∧ NoDup ns.
Proof.
  intros Hsize.
  destruct (accepted_sublist buf ps (LossyTransportState_new st size)) as (ns & Ha & Hsub).
  pose proof (read_trace_window buf ps (LossyTransportState_new st size) ∅ Hsize
    (window_of_empty _)) as Hw.
  exists ns. split; [done|]. destruct (read_trace _ _ _) as [t log]. destruct Hw as (_ & Hnd & _).
  by eapply sublist_NoDup.
Qed.

(** A packet of the concrete codec: [payload] sealed under [nonce] with the key
    of the concrete engine. *)
Definition demo_key : bytes := [x2a].
Definition demo_packet (nonce : N) (payload : bytes) : bytes :=
  put nonced_coder (mkNonced nonce (payload ++ engine_tag demo_key nonce)).
Definition demo_transport : @LossyTransportState engine := @from_stateless engine demo_key.
Definition demo_buf : bytes := replicate 64 x00.

Lemma replay_protection_witness :
  ∃ ns, @accepted engine nonced_codec demo_buf
    [demo_packet 3 [x01]; demo_packet 5 [x02]; demo_packet 3 [x01]; demo_packet 4 [x03]]
    (@LossyTransportState_new engine demo_key 2) = Some <$> ns ∧ NoDup ns ∧
    ns = [3; 5; 4]%N.
Proof.
  destruct (@replay_protection engine nonced_codec demo_key 2 demo_buf
    [demo_packet 3 [x01]; demo_packet 5 [x02]; demo_packet 3 [x01]; demo_packet 4 [x03]])
    as (ns & Hns & Hnd); [done|].
  exists ns. split; [exact Hns|]. split; [exact Hnd|].
  apply (inj (fmap Some)). rewrite <- Hns. by vm_compute.
Defined.

(** C16. The window of [size] nonces always holds exactly the [size] greatest of the
    nonces that passed it (all of them while there are fewer). *)
Theorem window_is_greatest `{Noise, Codec Nonced} (st : StatelessTransportState) (size : N)
    (buf : bytes) (ps : list bytes) :
  (1 ≤ size)%N →
  let '(t, log) := read_trace buf ps (LossyTransportState_new st size) in
  window_of size (list_to_set log.*1) (received_nonces t).
Proof.
  intros Hsize.
  pose proof (read_trace_window buf ps (LossyTransportState_new st size) ∅ Hsize
    (window_of_empty _)) as Hw.
  destruct (read_trace _ _ _) as [t log]. destruct Hw as (_ & _ & _ & Hw).
  by rewrite union_empty_l_L in Hw.
Qed.

Lemma window_is_greatest_witness :
  let '(t, log) := @read_trace engine nonced_codec demo_buf
    [demo_packet 3 [x01]; demo_packet 5 [x02]; demo_packet 4 [x03]]
    (@LossyTransportState_new engine demo_key 2) in
  window_of 2 (list_to_set log.*1) (received_nonces t).
Proof. by apply (@window_is_greatest engine nonced_codec). Defined.

(** C17. The transport the handshake makes (a window of one nonce) implements
    in-order delivery: on every sequence of packets it returns the results of the
    specification that remembers the greatest number seen. *)
Theorem read_refines_in_order `{Noise, Codec Nonced} (st : StatelessTransportState)
    (buf : bytes) (ps : list bytes) :
  read_results buf ps (from_stateless st) = in_order_results st (length buf) ps None.
Proof.
  assert (∀ t last, lt_size t = 1%N → received_nonces t = window_last last →
    read_results buf ps t = in_order_results (stateless t) (length buf) ps last) as Hgen;
    [|by apply (Hgen (from_stateless st) None)].
  induction ps as [|p ps IH]; intros t last Hsz Hrec; simpl; [done|].
  pose proof (read_message_in_order p t buf last Hsz Hrec) as Hstep.
  destruct (read_message p (t, buf)) as [[t1 buf1] r].
  destruct Hstep as (Hr & Hsz1 & Hst & _ & Hrec1).
  destruct (in_order_read _ _ _ _) as [last1 r1]. simplify_eq/=.
  by rewrite (IH t1 last1), Hst.
Qed.

(** C35. The nonce enters the window before the message is authenticated: a packet
    anyone can make, with a nonce [m] and a ciphertext that does not open, is
    refused, and then every packet numbered up to [m] is refused too; with
    [m = 2^64 - 1] nothing is received any more. *)
Theorem forged_nonce_blocks `{Noise, Codec Nonced} (t : LossyTransportState) (last : option N)
    (forged c : bytes) (m : N) (buf : bytes) :
  lt_size t = 1%N → received_nonces t = window_last last →
  deserialize forged = Some (mkNonced m c) → is_newer last m = true →
  st_read_message (stateless t) m c (length buf) = None →
  ∃ t', read_message forged (t, buf) = (t', buf, Err SnowError) ∧
    ∀ p n c' buf', deserialize p = Some (mkNonced n c') → (n ≤ m)%N →
      read_message p (t', buf') = (t', buf', Err SnowError).
Proof.
  intros Hsz Hrec Hde Hnew Hfail.
  pose proof (read_message_in_order forged t buf last Hsz Hrec) as Hstep.
  rewrite read_message_eq in Hstep |- *. unfold in_order_read in Hstep.
  rewrite Hde in Hstep |- *. rewrite Hrec, window_rejects_last, Hnew in Hstep |- *. simpl in *.
  rewrite Hfail in Hstep |- *. destruct Hstep as (_ & _ & _ & _ & Hrec').
  eexists. split; [done|]. intros p n c' buf' Hp Hn.
  rewrite read_message_eq, Hp, Hrec', (window_rejects_last (Some m)). simpl.
  by rewrite bool_decide_eq_false_2 by lia.
Qed.

Lemma forged_nonce_blocks_witness :
  ∃ t', @read_message engine nonced_codec (put nonced_coder (mkNonced u64_max [])) 
      (demo_transport, demo_buf) = (t', demo_buf, Err SnowError) ∧
    @read_message engine nonced_codec (demo_packet 0 [x01]) (t', demo_buf)
      = (t', demo_buf, Err SnowError).
Proof.
  destruct (@forged_nonce_blocks engine nonced_codec demo_transport None
    (put nonced_coder (mkNonced u64_max [])) [] u64_max demo_buf) as (t' & Hf & Hall);
    [done|done|by vm_compute|done|by vm_compute|].
  exists t'. split; [exact Hf|].
  apply (Hall _ 0%N ([x01] ++ engine_tag demo_key 0)); [by vm_compute|done].
Defined.

(** C27. A message written into a buffer with room for it, and read by the other end
    while its number is new there, is returned unchanged. *)
Theorem write_read_roundtrip `{Platform, Noise, Codec Nonced, !CodecLaws Nonced, !NoncedLayout}
    (t1 t2 : LossyTransportState) (payload buf1 buf2 : bytes) :
  sealed_for (stateless t1) (stateless t2) →
  (next_nonce t1 < u64_max)%N →
  length payload + tag_len ≤ noise_max → length payload + 32 ≤ length buf1 →
  length payload ≤ length buf2 →
  window_rejects (received_nonces t2) (next_nonce t1) = false →
  ∃ packet buf1' buf2' t2',
    write_message payload (t1, buf1) =
      (with_next_nonce (next_nonce t1 + 1) t1, buf1', Ok (length packet)) ∧
    take (length packet) buf1' = packet ∧ length packet = length payload + 32 ∧
    read_message packet (t2, buf2) = (t2', buf2', Ok (length payload)) ∧
    take (length payload) buf2' = payload ∧
    received_nonces t2' = window_insert (lt_size t2) (received_nonces t2) (next_nonce t1).
Proof.
  intros Hseal Hn Hmax Hb1 Hb2 Hrej. unfold u64_max, tag_len in *.
  destruct (sealed_write _ _ Hseal (next_nonce t1) payload (length buf1)) as (c & Hc & Hlen);
    [unfold u64_max, tag_len in *; lia..|].
  pose proof (sealed_open _ _ Hseal _ _ _ _ (length buf2) Hc Hb2) as Hopen.
  pose proof noise_max_N as Hnm.
  destruct (codec_roundtrip (mkNonced (next_nonce t1) c)) as (packet & Hser & Hde).
  { unfold wf, Nonced_wf, u64_modulus, tag_len in *. lia. }
  pose proof (nonced_length _ _ _ Hser) as Hplen. unfold tag_len in *.
  eexists packet, _, _, _. split_and!.
  - erewrite write_message_eq; [by rewrite Hser|unfold u64_modulus; lia|done|lia].
  - apply zip_copy_prefix. rewrite zip_copy_length. lia.
  - lia.
  - rewrite read_message_eq, Hde, Hrej. by rewrite Hopen.
  - by apply zip_copy_prefix.
  - done.
Qed.

Lemma write_read_roundtrip_witness :
  ∃ packet buf1' buf2' t2',
    @write_message release engine nonced_codec [x01; x02]
      (demo_transport, demo_buf) =
      (with_next_nonce 1 demo_transport, buf1', Ok (length packet)) ∧
    take (length packet) buf1' = packet ∧ length packet = 34 ∧
    @read_message engine nonced_codec packet (demo_transport, demo_buf) =
      (t2', buf2', Ok 2) ∧
    take 2 buf2' = [x01; x02] ∧ received_nonces t2' = {[ 0%N ]}.
Proof.
  destruct (@write_read_roundtrip release engine nonced_codec nonced_codec_laws nonced_layout
    demo_transport demo_transport [x01; x02] demo_buf demo_buf)
    as (packet & buf1' & buf2' & t2' & Hw & Hp & Hl & Hr & Hb & Hs).
  - apply engine_sealed_for.
  - done.
  - pose proof noise_max_N. simpl. unfold tag_len. lia.
  - simpl. lia.
  - simpl. lia.
  - done.
  - exists packet, buf1', buf2', t2'. split_and!; [exact Hw|exact Hp|exact Hl|exact Hr|exact Hb|].
    rewrite Hs. by vm_compute.
Defined.

(** C40. Every call of [write_message] consumes one nonce, whether it succeeds or
    fails, and a packet that fits its buffer carries the nonce of its call.  At the
    last nonce a build with overflow checks panics, and a build without them starts
    again from 0, under the same key. *)
Theorem write_message_nonces `{Platform, Noise, Codec Nonced, !CodecLaws Nonced}
    (t : LossyTransportState) (t2 : StatelessTransportState) (payload buf : bytes) :
  sealed_for (stateless t) t2 →
  ((next_nonce t < u64_max)%N →
   ∃ buf' r, write_message payload (t, buf) = (with_next_nonce (next_nonce t + 1) t, buf', r) ∧
     r ≠ Panic ∧
     ∀ len, r = Ok len → len ≤ length buf →
       ∃ c, deserialize (take len buf') = Some (mkNonced (next_nonce t) c)) ∧
  (next_nonce t = u64_max →
   if overflow_checks then write_message payload (t, buf) = (t, buf, Panic)
   else next_nonce (write_message payload (t, buf)).1.1 = 0%N).
Proof.
  intros Hseal. split; intros Hn.
  - assert (next_nonce t + 1 < u64_modulus)%N as Hlt by (unfold u64_max, u64_modulus in *; lia).
    destruct (st_write_message (stateless t) (next_nonce t) payload (length buf)) as [c|] eqn:Hc.
    + destruct (sealed_bound _ _ Hseal _ _ _ _ Hc) as [Hcb Hcm]. pose proof noise_max_N.
      rewrite (write_message_eq _ _ _ _ Hlt Hc Hcb).
      destruct (codec_roundtrip (mkNonced (next_nonce t) c)) as (s & Hs & Hde).
      { unfold wf, Nonced_wf, u64_modulus in *. lia. }
      rewrite Hs. eexists _, _. split_and!; [done|done|]. intros len [= <-] Hfit.
      exists c. rewrite zip_copy_prefix; [done|by rewrite zip_copy_length].
    + rewrite write_message_sealed_err by done. by eexists _, _.
  - unfold write_message, u64_add. unfold_monad. rewrite Hn.
    rewrite decide_False by (unfold u64_max, u64_modulus; lia).
    destruct overflow_checks; [done|].
    destruct (st_write_message _ _ _ _); simpl; [|done].
    destruct (slice_to _ _); simpl; [|done..]. by destruct (serialize _).
Qed.

Lemma write_message_nonces_witness :
  (∃ buf' r, @write_message release engine nonced_codec [x01] (demo_transport, demo_buf) =
      (with_next_nonce 1 demo_transport, buf', r) ∧ r ≠ Panic ∧
     ∀ len, r = Ok len → len ≤ length demo_buf →
       ∃ c, deserialize (Codec := nonced_codec) (take len buf') = Some (mkNonced 0 c)) ∧
  next_nonce (@write_message release engine nonced_codec [x01]
    (with_next_nonce u64_max demo_transport, demo_buf)).1.1 = 0%N.
Proof.
  split.
  - apply (@write_message_nonces release engine nonced_codec nonced_codec_laws
      demo_transport demo_key [x01] demo_buf (engine_sealed_for demo_key)). done.
  - apply (@write_message_nonces release engine nonced_codec nonced_codec_laws
      (with_next_nonce u64_max demo_transport) demo_key [x01] demo_buf
      (engine_sealed_for demo_key)). done.
Defined.

(** The length of the packet is returned even when the packet did not fit: for a
    payload the engine still seals but whose packet is longer than the buffer, the
    packet is truncated, the call succeeds, and slicing the buffer by the length it
    returns panics. *)
Theorem write_message_overlong `{Platform, Noise, Codec Nonced, !CodecLaws Nonced, !NoncedLayout}
    (t : LossyTransportState) (t2 : StatelessTransportState) (payload buf : bytes) :
  sealed_for (stateless t) t2 → (next_nonce t < u64_max)%N →
  length payload + tag_len ≤ noise_max → length payload + tag_len ≤ length buf →
  length buf < length payload + 32 →
  ∃ buf', write_message payload (t, buf) =
      (with_next_nonce (next_nonce t + 1) t, buf', Ok (length payload + 32)) ∧
    length buf' = length buf ∧
    slice_to (E := Error) (length payload + 32) buf' = Panic.
Proof.
  intros Hseal Hn Hmax Hfit Hover. pose proof noise_max_N.
  destruct (sealed_write _ _ Hseal (next_nonce t) payload (length buf)) as (c & Hc & Hlen);
    [done..|].
  destruct (codec_roundtrip (mkNonced (next_nonce t) c)) as (s & Hs & _).
  { unfold wf, Nonced_wf, u64_modulus, u64_max, tag_len in *. lia. }
  pose proof (nonced_length _ _ _ Hs) as Hsl.
  assert (length s = length payload + 32) as Hs32 by (unfold tag_len in *; lia).
  erewrite write_message_eq; [|unfold u64_modulus, u64_max in *; lia|done|lia].
  rewrite Hs, Hs32. eexists. split_and!; [done|by rewrite !zip_copy_length|].
  unfold slice_to. rewrite !zip_copy_length, decide_False by lia. done.
Qed.

Lemma write_message_overlong_witness :
  ∃ buf', @write_message release engine nonced_codec (replicate 40 x01)
      (demo_transport, demo_buf) = (with_next_nonce 1 demo_transport, buf', Ok 72) ∧
    length buf' = 64 ∧ slice_to (E := Error) 72 buf' = Panic.
Proof.
  apply (@write_message_overlong release engine nonced_codec nonced_codec_laws nonced_layout
    demo_transport demo_key (replicate 40 x01) demo_buf (engine_sealed_for demo_key)); simpl.
  - done.
  - pose proof noise_max_N. unfold tag_len. lia.
  - unfold tag_len. lia.
  - lia.
Defined.

(** The bytes of the handshake messages. *)
Definition initiation_bytes (i : SnowInitiation) : bytes := let 'mkSnowInitiation b := i in b.
Definition response_bytes (r : SnowResponse) : bytes := let 'mkSnowResponse b := r in b.

(** The whole handshake, with the length of its messages. *)
Lemma handshake_messages `{Noise, !NoiseLaws NOISE_PARAMS} (rng1 rng2 eph1 eph2 : N)
    (keys1 keys2 : SnowKeypair) :
  SnowKeypair_new rng1 = Ok keys1 → SnowKeypair_new rng2 = Ok keys2 →
  ∃ i r s1 s2 resp,
    SnowInitiator_new eph1 keys1 (public keys2) = Ok i ∧
    SnowResponder_new eph2 keys2 (public keys1) = Ok r ∧
    response r (initiation i) = Ok (from_stateless s2, resp) ∧
    receive_response i resp = Ok (ResponseOk (from_stateless s1)) ∧
    length (initiation_bytes (initiation i)) ≤ noise_max ∧
    length (response_bytes resp) ≤ noise_max ∧
    sealed_for s1 s2 ∧ sealed_for s2 s1.
Proof.
  intros (b & Hb & ([pub1 priv1] & Hg1%ok_or_Ok & [= <-])%outcome_bind_Ok)%outcome_bind_Ok
    (b' & Hb' & ([pub2 priv2] & Hg2%ok_or_Ok & [= <-])%outcome_bind_Ok)%outcome_bind_Ok.
  simplify_eq. simpl.
  assert (∀ E, builder (E := E) = Ok b) as HbE.
  { intros E. unfold builder in *. destruct (parse_params _); [|done].
    unfold_monad in Hb. unfold_monad. naive_solver. }
  destruct (parse_params NOISE_PARAMS) as [params|] eqn:Hparams;
    [|unfold builder in Hb; by rewrite Hparams in Hb].
  assert (builder_new params = b) as <- by (unfold builder in Hb; rewrite Hparams in Hb; by injection Hb).
  rewrite HbE in Hb'. injection Hb' as <-.
  eapply generated_keypair in Hg1, Hg2; [|exact Hparams..].
  destruct (handshake_start params _ _ _ _ eph1 eph2 Hparams Hg1 Hg2)
    as (b1 & b2 & hi & hr & Hb1 & Hb2 & Hi & Hr & Hst0).
  destruct (handshake_first _ _ Hst0) as (hi1 & hr1 & m1 & p1 & Hw1 & Hr1 & Hm1 & Hst1).
  destruct (handshake_second _ _ Hst1) as (hi2 & hr2 & m2 & p2 & Hw2 & Hr2 & Hm2 & Hst2).
  destruct (handshake_split _ _ Hst2) as (s1 & s2 & Hs1 & Hs2 & Hseal1 & Hseal2).
  apply bind_Some in Hb1 as (l1 & Hl1 & Hb1). apply bind_Some in Hb2 as (l2 & Hl2 & Hb2).
  exists (mkSnowInitiator hi1 (mkSnowInitiation m1)), (mkSnowResponder hr), s1, s2,
    (mkSnowResponse m2).
  unfold SnowInitiator_new, SnowResponder_new, keypair_builder, response, receive_response.
  unfold_monad. rewrite !HbE, Hl1, Hl2. simpl. rewrite Hb1, Hb2. simpl.
  rewrite Hi, Hr. simpl. rewrite Hw1. simpl. rewrite Hr1. simpl. rewrite Hw2. simpl.
  rewrite Hr2, Hs1, Hs2. split_and!; by try assumption.
Qed.

(** C19. Two parties that know each other's public keys complete the handshake in one
    message each way, and get transports that open what the other seals, numbered
    from 0 and with an empty window of one nonce. *)
Theorem handshake_establishes `{Noise, !NoiseLaws NOISE_PARAMS} (rng1 rng2 eph1 eph2 : N)
    (keys1 keys2 : SnowKeypair) :
  SnowKeypair_new rng1 = Ok keys1 → SnowKeypair_new rng2 = Ok keys2 →
  ∃ i r s1 s2 resp,
    SnowInitiator_new eph1 keys1 (public keys2) = Ok i ∧
    SnowResponder_new eph2 keys2 (public keys1) = Ok r ∧
    response r (initiation i) = Ok (from_stateless s2, resp) ∧
    receive_response i resp = Ok (ResponseOk (from_stateless s1)) ∧
    sealed_for s1 s2 ∧ sealed_for s2 s1.
Proof.
  intros Hk1 Hk2.
  destruct (handshake_messages rng1 rng2 eph1 eph2 keys1 keys2 Hk1 Hk2)
    as (i & r & s1 & s2 & resp & Hi & Hr & Hresp & Hrec & _ & _ & Hseal1 & Hseal2).
  by exists i, r, s1, s2, resp.
Qed.

Lemma handshake_establishes_witness :
  ∃ keys1 keys2, @SnowKeypair_new engine 1 = Ok keys1 ∧ @SnowKeypair_new engine 2 = Ok keys2 ∧
  ∃ i r s1 s2 resp,
    @SnowInitiator_new engine 3 keys1 (public keys2) = Ok i ∧
    @SnowResponder_new engine 4 keys2 (public keys1) = Ok r ∧
    response r (initiation i) = Ok (from_stateless s2, resp) ∧
    receive_response i resp = Ok (ResponseOk (from_stateless s1)) ∧
    sealed_for s1 s2 ∧ sealed_for s2 s1.
Proof.
  eexists _, _. split_and!; [reflexivity|reflexivity|].
  apply (@handshake_establishes engine engine_laws 1 2 3 4); reflexivity.
Defined.
