(* ===== verification/Session.v ===== *)
(** * Sessions: pending and established

    Models [src/session.rs].  What several parties share through an [Arc] lives in
    the [Runtime]: the spawned tasks, the state of each established session
    ([SessionCore]) and the outgoing channel.  A waker is a number; [woken] records
    the calls of [wake_by_ref].  A task is what its loop does at a tick of its
    interval; [JoinHandle::abort] removes it. *)

From S2P Require Import Prelude Std Externals SnowTypes.

(** ** Messages *)

Abbreviation SessionId := N.
Abbreviation Waker := N.

Record SessionPacket := mkSessionPacket { sp_id : SessionId; sp_data : bytes }.

Inductive RawMessage :=
  | HandshakePoke
  | HandshakeInitiation (i : SnowInitiation)
  | HandshakeResponse (r : SnowResponse)
  | Encrypted (e : bytes).

Inductive Message :=
  | Keepalive
  | Payload (data : bytes).

(** What is put on the outgoing channel: destination, packet, TTL. *)
Abbreviation Outgoing := (SocketAddr * SessionPacket * N)%type.

Definition bytes_wf (b : bytes) : Prop := (N.of_nat (length b) < u64_modulus)%N.

#[export] Instance SessionPacket_wf : WellFormed SessionPacket := λ p,
  (sp_id p < 256 ^ 16)%N ∧ bytes_wf (sp_data p).
#[export] Instance RawMessage_wf : WellFormed RawMessage := λ m,
  match m with
  | HandshakePoke => True
  | HandshakeInitiation (mkSnowInitiation b) => bytes_wf b
  | HandshakeResponse (mkSnowResponse b) => bytes_wf b
  | Encrypted b => bytes_wf b
  end.
#[export] Instance Message_wf : WellFormed Message := λ m,
  match m with Keepalive => True | Payload b => bytes_wf b end.

(** The crates the sessions are built on. *)
Class Crates := {
  crates_platform :: Platform;
  crates_noise :: Noise;
  crates_nonced :: Codec Nonced;
  crates_raw :: Codec RawMessage;
  crates_message :: Codec Message;
  crates_packet :: Codec SessionPacket;
  crates_outgoing :: Channel Outgoing;
  crates_messages :: Channel bytes;
  crates_broadcast :: Broadcast;
}.

(** ** The runtime *)

(** The bodies of the spawned loops. *)
Inductive Task :=
  | PokeTask (id : SessionId) (addresses : gset SocketAddr)
  | InitiateTask (id : SessionId) (addresses : gset SocketAddr) (i : SnowInitiation)
  | RespondTask (id : SessionId) (remote_addr : SocketAddr) (r : SnowResponse)
  | KeepaliveTask (id : SessionId) (remote_addr : SocketAddr) (core : N)
  | HeartbeatTask (core : N).

(** The parts of an established session its handles, its tasks and the [Receiving]
    futures share. *)
Record SessionCore `{Crates} := mkSessionCore {
  transport : LossyTransportState;
  heartbeat : bool;
  dead : bool;
  wakers : gmap N Waker;
  messages : chan bytes;
}.
#[global] Arguments mkSessionCore {_}.

Record Runtime `{Crates} := mkRuntime {
  outgoing : chan Outgoing;
  tasks : gmap N Task;
  cores : gmap N SessionCore;
  woken : list Waker;
  next_loc : N;
}.
#[global] Arguments mkRuntime {_}.

Section runtime.
Context `{Crates} {E : Type}.

Definition with_outgoing (o : chan Outgoing) (rt : Runtime) : Runtime :=
  mkRuntime o (tasks rt) (cores rt) (woken rt) (next_loc rt).
Definition with_tasks (t : gmap N Task) (rt : Runtime) : Runtime :=
  mkRuntime (outgoing rt) t (cores rt) (woken rt) (next_loc rt).
Definition with_cores (c : gmap N SessionCore) (rt : Runtime) : Runtime :=
  mkRuntime (outgoing rt) (tasks rt) c (woken rt) (next_loc rt).
Definition with_woken (w : list Waker) (rt : Runtime) : Runtime :=
  mkRuntime (outgoing rt) (tasks rt) (cores rt) w (next_loc rt).
Definition with_next_loc (n : N) (rt : Runtime) : Runtime :=
  mkRuntime (outgoing rt) (tasks rt) (cores rt) (woken rt) n.

Definition with_transport (t : LossyTransportState) (c : SessionCore) : SessionCore :=
  mkSessionCore t (heartbeat c) (dead c) (wakers c) (messages c).
Definition with_heartbeat (b : bool) (c : SessionCore) : SessionCore :=
  mkSessionCore (transport c) b (dead c) (wakers c) (messages c).
Definition with_dead (b : bool) (c : SessionCore) : SessionCore :=
  mkSessionCore (transport c) (heartbeat c) b (wakers c) (messages c).
Definition with_wakers (w : gmap N Waker) (c : SessionCore) : SessionCore :=
  mkSessionCore (transport c) (heartbeat c) (dead c) w (messages c).
Definition with_messages (q : chan bytes) (c : SessionCore) : SessionCore :=
  mkSessionCore (transport c) (heartbeat c) (dead c) (wakers c) q.

(** A fresh location of the heap. *)
Definition alloc : M Runtime E N := λ rt,
  (with_next_loc (next_loc rt + 1) rt, Ok (next_loc rt)).

(** [tokio::spawn]: the handle identifies the task. *)
Definition spawn (t : Task) : M Runtime E N :=
  l ← alloc;
  modify (λ rt, with_tasks (<[l := t]> (tasks rt)) rt);;
  mret l.

(** [handle.abort()] *)
Definition abort (handle : N) : M Runtime E unit :=
  modify (λ rt, with_tasks (delete handle (tasks rt)) rt).

Definition wake (w : Waker) : M Runtime E unit :=
  modify (λ rt, with_woken (woken rt ++ [w]) rt).

Definition wake_option (w : option Waker) : M Runtime E unit :=
  match w with Some w => wake w | None => mret tt end.

(** [sender.send((dest, packet, ttl))?] *)
Definition send_out (dest : SocketAddr) (packet : SessionPacket) (ttl : N)
    : M Runtime Error unit := λ rt,
  let '(c, sent) := chan_send (dest, packet, ttl) (outgoing rt) in
  (with_outgoing c rt, if sent then Ok tt else Err ChannelError).

(** An access to the shared parts of a session; they live as long as any handle. *)
Definition on_core {A} (l : N) (m : M SessionCore E A) : M Runtime E A := λ rt,
  match cores rt !! l with
  | Some c => let '(c', r) := m c in (with_cores (<[l := c']> (cores rt)) rt, r)
  | None => (rt, Panic)
  end.
End runtime.

(** ** Sealing and opening through a fresh 65535-byte buffer *)

Section seal.
Context `{Crates}.

(** [let mut encrypted = [0u8; 65535]; let len = write_message(..)?;
    encrypted[..len].to_vec()] *)
Definition encrypt (plain : bytes) : M LossyTransportState Error bytes := λ t,
  let '((t', buf), r) := write_message plain (t, replicate noise_max x00) in
  (t', len ← r; slice_to len buf).

(** [let mut data = [0u8; 65535]; let len = read_message(..)?; &data[..len]] *)
Definition decrypt (sealed : bytes) : M LossyTransportState Error bytes := λ t,
  let '((t', buf), r) := read_message sealed (t, replicate noise_max x00) in
  (t', len ← r; slice_to len buf).
End seal.

(** ** Established sessions *)

Record Session := mkSession {
  s_id : SessionId;
  s_remote_addr : SocketAddr;
  s_core : N;
}.

Section session.
Context `{Crates}.

Definition get_transport {E A} (m : M LossyTransportState E A) : M SessionCore E A :=
  zoom transport with_transport m.

(** The shared parts are allocated, and the keepalive and the heartbeat task
    spawned.  What is allocated is freed again when the serialization fails. *)
Definition Session_new (id : SessionId) (remote_addr : SocketAddr) (t : LossyTransportState)
    : M Runtime Error Session :=
  lift (ok_or BincodeError (serialize Keepalive));;
  core ← alloc;
  modify (λ rt, with_cores (<[core := mkSessionCore t true false ∅ chan_new]> (cores rt)) rt);;
  spawn (KeepaliveTask id remote_addr core);;
  spawn (HeartbeatTask core);;
  mret (mkSession id remote_addr core).

Definition Session_is_dead {E} (s : Session) : M Runtime E bool :=
  on_core (s_core s) (gets dead).

Definition Session_close {E} (s : Session) : M Runtime E unit :=
  on_core (s_core s) (modify (with_dead true)).

(** [impl Drop for Session] *)
Definition Session_drop {E} (s : Session) : M Runtime E unit := Session_close s.

(** [wakers_guard.pop_first()] *)
Definition pop_waker {E} : M SessionCore E (option Waker) := λ c,
  let '(first, rest) := map_pop_first (wakers c) in
  (with_wakers rest c, Ok (snd <$> first)).

(** [self.messages_sender.send(data)?] *)
Definition queue_message (data : bytes) : M SessionCore Error unit := λ c,
  let '(q, sent) := chan_send data (messages c) in
  (with_messages q c, if sent then Ok tt else Err ChannelError).

Definition Session_handle_incoming (s : Session) (packet : SessionPacket)
    : M Runtime Error unit :=
  raw ← lift (ok_or BincodeError (deserialize (sp_data packet)));
  match raw with
  | HandshakePoke => mret tt
  | HandshakeInitiation _ => mret tt
  | HandshakeResponse _ => mret tt
  | Encrypted encrypted =>
      data ← on_core (s_core s) (get_transport (decrypt encrypted));
      message ← lift (ok_or BincodeError (deserialize data));
      match message with
      | Keepalive => on_core (s_core s) (modify (with_heartbeat true))
      | Payload data =>
          on_core (s_core s) (queue_message data);;
          w ← on_core (s_core s) pop_waker;
          wake_option w
      end
  end.

Definition Session_send (s : Session) (data : bytes) : M Runtime Error unit :=
  is_dead ← Session_is_dead s;
  if is_dead : bool then lift (Err (Anyhow "Can't send because am dead")) else
  serialized_message ← lift (ok_or BincodeError (serialize (Payload data)));
  encrypted ← on_core (s_core s) (get_transport (encrypt serialized_message));
  serialized ← lift (ok_or BincodeError (serialize (Encrypted encrypted)));
  send_out (s_remote_addr s) (mkSessionPacket (s_id s) serialized) 64.

(** *** Receiving *)

Record Receiving := mkReceiving { r_core : N; r_id : N }.

Inductive Poll (A : Type) := Ready (a : A) | PollPending.
#[global] Arguments Ready {A} a.
#[global] Arguments PollPending {A}.

(** [fresh] is the identifier [Uuid::new_v4] draws. *)
Definition Receiving_new (core fresh : N) : Receiving := mkReceiving core fresh.

Definition Session_recv {E} (s : Session) (fresh : N) : M Runtime E (option Receiving) :=
  is_dead ← Session_is_dead s;
  mret (if is_dead : bool then None else Some (Receiving_new (s_core s) fresh)).

(** The three accesses of [poll] to what it shares, in order: the flag, the
    queue, the wakers. *)
Definition poll_dead {E} (r : Receiving) : M Runtime E bool := on_core (r_core r) (gets dead).

Definition poll_try_recv {E} (r : Receiving) : M Runtime E (option bytes) :=
  on_core (r_core r) (λ c,
    let '(q, m) := chan_try_recv (messages c) in (with_messages q c, Ok m)).

Definition poll_wakers {E} (r : Receiving) (w : Waker) (m : option bytes)
    : M Runtime E (Poll (bytes + unit)) :=
  match m with
  | Some data =>
      on_core (r_core r) (modify (λ c, with_wakers (delete (r_id r) (wakers c)) c));;
      mret (Ready (inl data))
  | None =>
      on_core (r_core r) (modify (λ c, with_wakers (<[r_id r := w]> (wakers c)) c));;
      mret PollPending
  end.

(** [inl data] is [Ok(data)], [inr tt] is [Err(VeqError::Disconnected)]. *)
Definition Receiving_poll {E} (r : Receiving) (w : Waker)
    : M Runtime E (Poll (bytes + unit)) :=
  is_dead ← poll_dead r;
  if is_dead : bool then mret (Ready (inr tt)) else
  m ← poll_try_recv r;
  poll_wakers r w m.

(** *** The tasks of a session *)

(** Seal a keepalive message, serialized when the session was made, and put it on
    the wire. *)
Definition keepalive_send (id : SessionId) (remote_addr : SocketAddr) (core : N)
    : M Runtime Error unit :=
  keepalive ← lift (unwrap (serialize Keepalive));
  encrypted ← on_core core (get_transport (encrypt keepalive));
  serialized ← lift (ok_or BincodeError (serialize (Encrypted encrypted)));
  send_out remote_addr (mkSessionPacket id serialized) 64.

(** One turn of the keepalive loop; [true] when it goes on.  An error is logged and
    the loop continues without looking at [dead]. *)
Definition keepalive_tick {E} (id : SessionId) (remote_addr : SocketAddr) (core : N)
    : M Runtime E bool :=
  sent ← attempt (keepalive_send id remote_addr core);
  match sent with
  | inl _ => is_dead ← on_core core (gets dead); mret (negb is_dead)
  | inr _ => mret true
  end.

(** The wakers in key order ([values()] of the map). *)
Fixpoint waker_values (fuel : nat) (ws : gmap N Waker) : list Waker :=
  match fuel with
  | O => []
  | S fuel =>
      match map_pop_first ws with
      | (Some (_, w), ws) => w :: waker_values fuel ws
      | (None, _) => []
      end
  end.

Definition wake_all {E} (ws : list Waker) : M Runtime E unit :=
  modify (λ rt, with_woken (woken rt ++ ws) rt).

(** One turn of the heartbeat loop. *)
Definition heartbeat_tick {E} (core : N) : M Runtime E bool :=
  beat ← on_core core (gets heartbeat);
  if negb beat then
    on_core core (modify (with_dead true));;
    ws ← on_core core (gets wakers);
    wake_all (waker_values (size ws) ws);;
    mret false
  else
    on_core core (modify (with_heartbeat false));;
    mret true.
End session.

(** ** Pending sessions *)

Section pending.
Context `{Crates}.

(** [waker: Arc<Mutex<Option<Waker>>>] is created empty and shared with no one. *)
Record PendingSessionPoker := mkPendingSessionPoker {
  psp_handle : N;
  psp_working_remote_addr : option (SocketAddr * SnowInitiation);
  psp_waker : option Waker;
  psp_id : SessionId;
  psp_responder : SnowResponder;
}.

Record PendingSessionInitiator := mkPendingSessionInitiator {
  psi_handle : N;
  psi_working_remote_addr : option (SocketAddr * SnowResponse);
  psi_waker : option Waker;
  psi_id : SessionId;
  psi_initiator : SnowInitiator;
}.

Record PendingSessionResponder := mkPendingSessionResponder {
  psr_handle : N;
  psr_remote_addr : SocketAddr;
  psr_waker : option Waker;
  psr_id : SessionId;
  psr_transport : LossyTransportState;
  psr_ready : bool;
}.

Inductive SessionResult :=
  | SessionOk (s : Session)
  | SessionErr (p : PendingSessionInitiator).

(** *** The responding side, before an initiation *)

Definition PendingSessionPoker_new {E} (id : SessionId) (addresses : gset SocketAddr)
    (r : SnowResponder) : M Runtime E PendingSessionPoker :=
  handle ← spawn (PokeTask id addresses);
  mret (mkPendingSessionPoker handle None None id r).

Definition Poker_handle_incoming {E} (p : PendingSessionPoker) (src : SocketAddr)
    (packet : SessionPacket) : M Runtime E PendingSessionPoker :=
  match deserialize (sp_data packet) with
  | Some (HandshakeInitiation i) =>
      wake_option (psp_waker p);;
      mret (mkPendingSessionPoker (psp_handle p) (Some (src, i)) None (psp_id p)
              (psp_responder p))
  | _ => mret p
  end.

Definition Poker_is_ready (p : PendingSessionPoker) : bool :=
  bool_decide (is_Some (psp_working_remote_addr p)).

Definition PendingSessionResponder_new {E} (id : SessionId) (remote_addr : SocketAddr)
    (t : LossyTransportState) (r : SnowResponse) : M Runtime E PendingSessionResponder :=
  handle ← spawn (RespondTask id remote_addr r);
  mret (mkPendingSessionResponder handle remote_addr None id t false).

Definition Poker_responder (p : PendingSessionPoker)
    : M Runtime Error PendingSessionResponder :=
  match psp_working_remote_addr p with
  | Some (addr, i) =>
      abort (psp_handle p);;
      '(t, r) ← lift (response (psp_responder p) i);
      PendingSessionResponder_new (psp_id p) addr t r
  | None => lift (Err (Anyhow "working_remote_addr is None."))
  end.

Definition Poker_abort {E} (p : PendingSessionPoker) : M Runtime E unit := abort (psp_handle p).

(** *** The initiating side *)

Definition PendingSessionInitiator_new {E} (id : SessionId) (addresses : gset SocketAddr)
    (i : SnowInitiator) : M Runtime E PendingSessionInitiator :=
  handle ← spawn (InitiateTask id addresses (initiation i));
  mret (mkPendingSessionInitiator handle None None id i).

Definition Initiator_handle_incoming {E} (p : PendingSessionInitiator) (src : SocketAddr)
    (packet : SessionPacket) : M Runtime E PendingSessionInitiator :=
  match deserialize (sp_data packet) with
  | Some (HandshakeResponse r) =>
      wake_option (psi_waker p);;
      mret (mkPendingSessionInitiator (psi_handle p) (Some (src, r)) None (psi_id p)
              (psi_initiator p))
  | _ => mret p
  end.

Definition Initiator_is_ready (p : PendingSessionInitiator) : bool :=
  bool_decide (is_Some (psi_working_remote_addr p)).

Definition Initiator_session (p : PendingSessionInitiator) : M Runtime Error SessionResult :=
  match psi_working_remote_addr p with
  | Some (remote_addr, r) =>
      abort (psi_handle p);;
      result ← lift (receive_response (psi_initiator p) r);
      match result with
      | ResponseOk t => s ← Session_new (psi_id p) remote_addr t; mret (SessionOk s)
      | ResponseErr i =>
          mret (SessionErr
            (mkPendingSessionInitiator (psi_handle p) None (psi_waker p) (psi_id p) i))
      end
  | None => mret (SessionErr p)
  end.

Definition Initiator_abort {E} (p : PendingSessionInitiator) : M Runtime E unit :=
  abort (psi_handle p).

(** *** The responding side, before the first encrypted packet *)

Definition with_psr_transport (t : LossyTransportState) (p : PendingSessionResponder) :=
  mkPendingSessionResponder (psr_handle p) (psr_remote_addr p) (psr_waker p) (psr_id p)
    t (psr_ready p).
Definition with_psr_ready (p : PendingSessionResponder) :=
  mkPendingSessionResponder (psr_handle p) (psr_remote_addr p) (psr_waker p) (psr_id p)
    (psr_transport p) true.
Definition with_psr_waker (w : option Waker) (p : PendingSessionResponder) :=
  mkPendingSessionResponder (psr_handle p) (psr_remote_addr p) w (psr_id p)
    (psr_transport p) (psr_ready p).

(** The state is the pending session and the runtime. *)
Definition Responder_handle_incoming (_src : SocketAddr) (packet : SessionPacket)
    : M (PendingSessionResponder * Runtime) Error unit :=
  raw ← lift (ok_or BincodeError (deserialize (sp_data packet)));
  match raw with
  | Encrypted encrypted =>
      data ← zoom (λ '(p, _), psr_transport p)
                  (λ t '(p, rt), (with_psr_transport t p, rt)) (decrypt encrypted);
      message ← lift (ok_or BincodeError (deserialize data));
      match message with
      | Keepalive =>
          modify (λ '(p, rt), (with_psr_ready p, rt));;
          taken ← gets (λ '(p, _), psr_waker p);
          modify (λ '(p, rt), (with_psr_waker None p, rt));;
          w ← lift (ok_or (Anyhow "No waker in guard") taken);
          zoom snd (λ rt '(p, _), (p, rt)) (wake w)
      | Payload _ =>
          lift (Err (Anyhow "Deserialized decrypted message not of type Keepalive."))
      end
  | _ => lift (Err (Anyhow "Deserialized message not of type Encrypted."))
  end.

Definition Responder_is_ready (p : PendingSessionResponder) : bool := psr_ready p.

Definition Responder_session (p : PendingSessionResponder) : M Runtime Error Session :=
  if psr_ready p
  then abort (psr_handle p);; Session_new (psr_id p) (psr_remote_addr p) (psr_transport p)
  else lift (Err (Anyhow "Am not ready")).

Definition Responder_abort {E} (p : PendingSessionResponder) : M Runtime E unit :=
  abort (psr_handle p).

(** *** The handshake tasks *)

(** Send one packet to each address; failures are logged. *)
Fixpoint send_each {E} (addrs : list SocketAddr) (packet : SessionPacket) : M Runtime E unit :=
  match addrs with
  | [] => mret tt
  | addr :: addrs => log_err (send_out addr packet 64);; send_each addrs packet
  end.

(** What a handshake loop does at a tick: the message, serialized with [expect],
    to its addresses. *)
Definition handshake_tick {E} (id : SessionId) (addrs : list SocketAddr) (m : RawMessage)
    : M Runtime E bool :=
  serialized_message ← lift (unwrap (serialize m));
  send_each addrs (mkSessionPacket id serialized_message);;
  mret true.

Definition task_tick (t : Task) : M Runtime Error bool :=
  match t with
  | PokeTask id addresses => handshake_tick id (elements addresses) HandshakePoke
  | InitiateTask id addresses i =>
      handshake_tick id (elements addresses) (HandshakeInitiation i)
  | RespondTask id addr r => handshake_tick id [addr] (HandshakeResponse r)
  | KeepaliveTask id addr core => keepalive_tick id addr core
  | HeartbeatTask core => heartbeat_tick core
  end.

(** One turn of a spawned task; it ends when its loop breaks or panics. *)
Definition run_task (l : N) : M Runtime Error unit := λ rt,
  match tasks rt !! l with
  | None => (rt, Ok tt)
  | Some t =>
      match task_tick t rt with
      | (rt, Ok true) => (rt, Ok tt)
      | (rt, _) => abort l rt
      end
  end.
End pending.

#[global] Arguments mkPendingSessionPoker {_}.
#[global] Arguments mkPendingSessionInitiator {_}.
#[global] Arguments mkPendingSessionResponder {_}.
#[global] Arguments SessionOk {_}.
#[global] Arguments SessionErr {_}.
#[global] Arguments encrypt : simpl never.
#[global] Arguments decrypt : simpl never.
#[global] Arguments Session_send : simpl never.
#[global] Arguments Session_handle_incoming : simpl never.
#[global] Arguments Session_new : simpl never.
#[global] Arguments Receiving_poll : simpl never.
#[global] Arguments keepalive_tick : simpl never.
#[global] Arguments heartbeat_tick : simpl never.
#[global] Arguments Responder_handle_incoming : simpl never.
