(* ===== verification/SessionFacts.v ===== *)
(** * What the sessions of [Session] guarantee

    Equations of the operations on the shared state, delivery between two ends of
    a session, the heartbeat, the receiving futures and the pending sessions. *)

From S2P Require Import Prelude Std Externals Layout Engine SnowTypes Transport Session.

(** ** Laws of the crates *)

(** The length bincode documents for a [Message]: the variant, and for a payload
    its length and its bytes. *)
Class MessageLayout `{Codec Message} := {
  keepalive_length bs : serialize Keepalive = Some bs → length bs = 4;
  payload_length d bs : serialize (Payload d) = Some bs → length bs = 12 + length d;
}.

(** A raw message takes its variant and, if it has any, the length and the bytes. *)
Definition raw_bytes (m : RawMessage) : bytes :=
  match m with
  | HandshakePoke => []
  | HandshakeInitiation (mkSnowInitiation b) => b
  | HandshakeResponse (mkSnowResponse b) => b
  | Encrypted b => b
  end.

Class RawLayout `{Codec RawMessage} := {
  raw_length m bs : serialize m = Some bs → length bs ≤ 12 + length (raw_bytes m);
}.

Class CratesLaws `{Crates} := {
  noise_bounds :: NoiseBounds;
  nonced_laws :: CodecLaws Nonced;
  nonced_size :: NoncedLayout;
  raw_laws :: CodecLaws RawMessage;
  raw_size :: RawLayout;
  message_laws :: CodecLaws Message;
  message_size :: MessageLayout;
  packet_laws :: CodecLaws SessionPacket;
  outgoing_laws :: ChannelLaws Outgoing;
  messages_laws :: ChannelLaws bytes;
  broadcast_laws :: BroadcastLaws;
}.

(** ** The shared state of a session *)

Section cores.
Context `{Crates}.
Implicit Types (rt : Runtime) (c : SessionCore) (l : N).

Definition set_core l c rt : Runtime := with_cores (<[l := c]> (cores rt)) rt.

Lemma on_core_eq {E A} l c c' (m : M SessionCore E A) r rt :
  cores rt !! l = Some c → m c = (c', r) → on_core l m rt = (set_core l c' rt, r).
Proof. intros Hl Hm. unfold on_core. by rewrite Hl, Hm. Qed.

Lemma set_core_id l c rt : cores rt !! l = Some c → set_core l c rt = rt.
Proof. intros Hl. unfold set_core. rewrite insert_id by done. by destruct rt. Qed.

Lemma on_core_gets {E A} l c (f : SessionCore → A) rt :
  cores rt !! l = Some c → on_core l (gets f) rt = (rt, Ok (E := E) (f c)).
Proof.
  intros Hl. rewrite (on_core_eq l c c _ (Ok (f c))) by done. by rewrite set_core_id.
Qed.

Lemma lookup_set_core l c rt : cores (set_core l c rt) !! l = Some c.
Proof. apply lookup_insert_eq. Qed.

Lemma set_core_set_core l c c' rt : set_core l c' (set_core l c rt) = set_core l c' rt.
Proof. unfold set_core. simpl. by rewrite insert_insert_eq. Qed.

Lemma get_transport_eq {E A} (m : M LossyTransportState E A) c t r :
  m (transport c) = (t, r) → get_transport m c = (with_transport t c, r).
Proof. intros Hm. unfold get_transport, zoom. by rewrite Hm. Qed.
End cores.

#[export] Hint Resolve lookup_set_core : veq.

(** ** Sealing and opening *)

Section seal.
Context `{Crates, !CratesLaws}.
Implicit Types (t : LossyTransportState) (plain sealed : bytes).

(** [sealed] carries [plain] under the number [n], for the transport [st]. *)
Definition carries (st : StatelessTransportState) (n : N) (plain sealed : bytes) : Prop :=
  length plain ≤ noise_max ∧
  ∃ c, deserialize sealed = Some (mkNonced n c) ∧
    st_read_message st n c noise_max = Some plain.

Lemma encrypt_carries t st plain :
  sealed_for (stateless t) st → (next_nonce t < u64_max)%N →
  length plain + 32 ≤ noise_max →
  ∃ sealed, encrypt plain t = (with_next_nonce (next_nonce t + 1) t, Ok sealed) ∧
    length sealed = length plain + 32 ∧ carries st (next_nonce t) plain sealed.
Proof.
  intros Hseal Hn Hlen.
  destruct (sealed_write _ _ Hseal (next_nonce t) plain noise_max) as (c & Hc & Hclen);
    [unfold tag_len in *; lia..|].
  pose proof noise_max_N.
  destruct (codec_roundtrip (mkNonced (next_nonce t) c)) as (s & Hs & Hde).
  { unfold wf, Nonced_wf, u64_modulus, u64_max, tag_len in *. lia. }
  pose proof (nonced_length _ _ _ Hs) as Hsl. unfold tag_len in *.
  exists s. split_and!; [|lia|].
  - unfold encrypt.
    erewrite write_message_eq;
      [|unfold u64_modulus, u64_max in *; lia|by rewrite length_replicate|
        rewrite length_replicate; lia].
    rewrite Hs. unfold mbind, outcome_bind.
    rewrite slice_to_zip_copy; [done|]. rewrite zip_copy_length, length_replicate. lia.
  - split; [lia|]. exists c. split; [done|].
    eapply (sealed_open _ _ Hseal); [done|lia].
Qed.

Lemma decrypt_carries t n plain sealed :
  carries (stateless t) n plain sealed → window_rejects (received_nonces t) n = false →
  decrypt sealed t =
    (with_received (window_insert (lt_size t) (received_nonces t) n) t, Ok plain).
Proof.
  intros (Hlen & c & Hde & Hread) Hrej. unfold decrypt.
  rewrite read_message_eq, Hde, Hrej, length_replicate, Hread.
  unfold mbind, outcome_bind. rewrite slice_to_zip_copy; [done|].
  by rewrite length_replicate.
Qed.

Lemma decrypt_rejected t n c sealed :
  deserialize sealed = Some (mkNonced n c) → window_rejects (received_nonces t) n = true →
  decrypt sealed t = (t, Err SnowError).
Proof.
  intros Hde Hrej. unfold decrypt. rewrite read_message_eq, Hde, Hrej. done.
Qed.

Lemma decrypt_in_order t n plain sealed last :
  carries (stateless t) n plain sealed → lt_size t = 1%N →
  received_nonces t = window_last last → is_newer last n = true →
  decrypt sealed t = (with_received (window_last (Some n)) t, Ok plain).
Proof.
  intros Hc Hsz Hrec Hn. erewrite decrypt_carries; [|done|].
  - by rewrite Hsz, Hrec, window_insert_last.
  - by rewrite Hrec, window_rejects_last, Hn.
Qed.
End seal.

(** ** One packet of an established session *)

Section packets.
Context `{Crates, !CratesLaws}.
Implicit Types (rt : Runtime) (c : SessionCore) (s : Session).

(** The packet carries the message [m] under the number [n]. *)
Definition packet_carries (st : StatelessTransportState) (n : N) (m : Message)
    (p : SessionPacket) : Prop :=
  wf m ∧ ∃ plain sealed, serialize m = Some plain ∧
    deserialize (sp_data p) = Some (Encrypted sealed) ∧ carries st n plain sealed.

Lemma packet_carries_decrypt st n m p :
  packet_carries st n m p →
  ∃ plain sealed, deserialize (sp_data p) = Some (Encrypted sealed) ∧
    deserialize plain = Some m ∧ carries st n plain sealed.
Proof.
  intros (Hwf & plain & sealed & Hs & Hde & Hc). exists plain, sealed.
  split_and!; [done| |done]. by eapply codec_deserialize_serialize.
Qed.

(** What a message takes on the wire, besides its serialized form. *)
Definition fits (m : Message) : Prop :=
  ∀ plain, serialize m = Some plain → length plain + 32 ≤ noise_max.

Lemma fits_Keepalive : fits Keepalive.
Proof. intros plain Hs%keepalive_length. pose proof noise_max_N. lia. Qed.

Lemma fits_Payload d : length d + 44 ≤ noise_max → fits (Payload d).
Proof. intros Hd plain Hs%payload_length. lia. Qed.

(** Serialize, seal and wrap one message: the steps [send] and the keepalive task
    have in common. *)
Lemma seal_message c m st :
  wf m → fits m → sealed_for (stateless (transport c)) st →
  (next_nonce (transport c) < u64_max)%N →
  ∃ plain sealed data, serialize m = Some plain ∧
    get_transport (encrypt plain) c =
      (with_transport (with_next_nonce (next_nonce (transport c) + 1) (transport c)) c,
       Ok sealed) ∧
    serialize (Encrypted sealed) = Some data ∧ bytes_wf data ∧
    ∀ id, packet_carries st (next_nonce (transport c)) m (mkSessionPacket id data).
Proof.
  intros Hwf Hfit Hseal Hn.
  destruct (codec_roundtrip m Hwf) as (plain & Hplain & _).
  pose proof (Hfit _ Hplain) as Hlen. pose proof noise_max_N.
  destruct (encrypt_carries _ _ plain Hseal Hn Hlen) as (sealed & Henc & Hsl & Hc).
  destruct (codec_roundtrip (Encrypted sealed)) as (data & Hdata & Hde).
  { unfold wf, RawMessage_wf, bytes_wf, u64_modulus. lia. }
  pose proof (raw_length _ _ Hdata) as Hdl. simpl in Hdl.
  exists plain, sealed, data.
  split_and!; [done|by apply get_transport_eq|done|unfold bytes_wf, u64_modulus; lia|].
  intros id. split; [done|]. exists plain, sealed. split_and!; assumption.
Qed.

(** The runtime after a session put [p] on the wire. *)
Definition sent_packet s (p : SessionPacket) c rt : Runtime :=
  with_outgoing (chan_send (s_remote_addr s, p, 64%N) (outgoing rt)).1
    (set_core (s_core s)
      (with_transport (with_next_nonce (next_nonce (transport c) + 1) (transport c)) c) rt).

Lemma Session_send_Ok s d rt c st :
  cores rt !! s_core s = Some c → dead c = false → chan_open (outgoing rt) = true →
  sealed_for (stateless (transport c)) st → (next_nonce (transport c) < u64_max)%N →
  length d + 44 ≤ noise_max →
  ∃ p, Session_send s d rt = (sent_packet s p c rt, Ok tt) ∧ sp_id p = s_id s ∧
    bytes_wf (sp_data p) ∧
    packet_carries st (next_nonce (transport c)) (Payload d) p.
Proof.
  intros Hc Hdead Hopen Hseal Hn Hlen. pose proof noise_max_N.
  destruct (seal_message c (Payload d) st) as (plain & sealed & data & Hp & He & Hd & Hwf & Hcar).
  { unfold wf, Message_wf, bytes_wf, u64_modulus. lia. }
  { by apply fits_Payload. }
  { done. }
  { done. }
  exists (mkSessionPacket (s_id s) data). split_and!; [|done|done|done].
  unfold Session_send, Session_is_dead.
  rewrite (M_bind_step _ _ _ _ _ (on_core_gets _ _ dead _ Hc)), Hdead, Hp.
  unfold mbind, M_bind, lift. simpl ok_or. cbn iota beta.
  rewrite (on_core_eq _ _ _ _ _ _ Hc He), Hd. simpl. unfold send_out. simpl.
  destruct (chan_send_open (s_remote_addr s, mkSessionPacket (s_id s) data, 64%N)
    (outgoing rt) Hopen) as (Hok & _ & _).
  unfold sent_packet. destruct (chan_send _ _) as [o sent]. simpl in *. by rewrite Hok.
Qed.
End packets.

(** ** Receiving one packet *)

Section receive.
Context `{Crates, !CratesLaws}.
Implicit Types (rt : Runtime) (c : SessionCore) (s : Session).

(** The window of the session stands at [last]. *)
Definition window_at (last : option N) c : Prop :=
  lt_size (transport c) = 1%N ∧ received_nonces (transport c) = window_last last.

Definition advance (n : N) c : SessionCore :=
  with_transport (with_received (window_last (Some n)) (transport c)) c.

Lemma window_at_advance n last c : window_at last c → window_at (Some n) (advance n c).
Proof. by intros [? ?]. Qed.

Lemma decrypt_packet n m p c last :
  window_at last c → is_newer last n = true →
  packet_carries (stateless (transport c)) n m p →
  ∃ plain sealed, deserialize (sp_data p) = Some (Encrypted sealed) ∧
    deserialize plain = Some m ∧
    get_transport (decrypt sealed) c = (advance n c, Ok plain).
Proof.
  intros [Hsz Hrec] Hn (plain & sealed & Hraw & Hm & Hc)%packet_carries_decrypt.
  exists plain, sealed. split_and!; [assumption..|].
  apply get_transport_eq. by eapply decrypt_in_order.
Qed.

(** A payload is queued and the first waiting reader is woken. *)
Definition deliver (n : N) (d : bytes) c : SessionCore :=
  with_wakers (map_pop_first (wakers c)).2
    (with_messages (chan_send d (messages c)).1 (advance n c)).

Definition first_waker c : option Waker := snd <$> (map_pop_first (wakers c)).1.

Definition with_wake (w : option Waker) rt : Runtime :=
  match w with Some w => with_woken (woken rt ++ [w]) rt | None => rt end.

Lemma wake_option_eq {E} w rt : wake_option (E := E) w rt = (with_wake w rt, Ok tt).
Proof. by destruct w. Qed.

Lemma queue_message_eq d c :
  chan_open (messages c) = true →
  queue_message d c = (with_messages (chan_send d (messages c)).1 c, Ok tt).
Proof.
  intros Hopen. destruct (chan_send_open d (messages c) Hopen) as (Hok & _ & _).
  unfold queue_message. destruct (chan_send _ _) as [q sent]. simpl in *. by rewrite Hok.
Qed.

Lemma pop_waker_eq {E} c :
  pop_waker (E := E) c = (with_wakers (map_pop_first (wakers c)).2 c, Ok (first_waker c)).
Proof. unfold pop_waker, first_waker. by destruct (map_pop_first _). Qed.

Lemma receive_payload s n d p rt c last :
  cores rt !! s_core s = Some c → chan_open (messages c) = true →
  window_at last c → is_newer last n = true →
  packet_carries (stateless (transport c)) n (Payload d) p →
  Session_handle_incoming s p rt =
    (with_wake (first_waker c) (set_core (s_core s) (deliver n d c) rt), Ok tt).
Proof.
  intros Hc Hopen Hwin Hn Hp.
  destruct (decrypt_packet _ _ _ _ _ Hwin Hn Hp) as (plain & sealed & Hraw & Hm & Hdec).
  unfold Session_handle_incoming. rewrite Hraw. unfold mbind, M_bind, lift. simpl ok_or.
  cbn iota beta. rewrite (on_core_eq _ _ _ _ _ _ Hc Hdec), Hm. simpl ok_or. cbn iota beta.
  erewrite on_core_eq; [|apply lookup_set_core|by apply queue_message_eq].
  erewrite on_core_eq; [|apply lookup_set_core|apply pop_waker_eq].
  by rewrite !set_core_set_core, wake_option_eq.
Qed.

Lemma receive_keepalive s n p rt c last :
  cores rt !! s_core s = Some c → window_at last c → is_newer last n = true →
  packet_carries (stateless (transport c)) n Keepalive p →
  Session_handle_incoming s p rt =
    (set_core (s_core s) (with_heartbeat true (advance n c)) rt, Ok tt).
Proof.
  intros Hc Hwin Hn Hp.
  destruct (decrypt_packet _ _ _ _ _ Hwin Hn Hp) as (plain & sealed & Hraw & Hm & Hdec).
  unfold Session_handle_incoming. rewrite Hraw. unfold mbind, M_bind, lift. simpl ok_or.
  cbn iota beta. rewrite (on_core_eq _ _ _ _ _ _ Hc Hdec), Hm. simpl ok_or. cbn iota beta.
  erewrite on_core_eq; [|apply lookup_set_core|reflexivity].
  by rewrite set_core_set_core.
Qed.

(** A packet numbered at or below the window is refused without a trace. *)
Lemma receive_stale s n m p rt c last :
  cores rt !! s_core s = Some c → window_at last c → is_newer last n = false →
  packet_carries (stateless (transport c)) n m p →
  Session_handle_incoming s p rt = (rt, Err SnowError).
Proof.
  intros Hc [Hsz Hrec] Hn (plain & sealed & Hraw & _ & (_ & ct & Hde & _))%packet_carries_decrypt.
  unfold Session_handle_incoming. rewrite Hraw. unfold mbind, M_bind, lift. simpl ok_or.
  cbn iota beta.
  erewrite on_core_eq; [|exact Hc|].
  2: { apply get_transport_eq. eapply decrypt_rejected; [exact Hde|].
       by rewrite Hrec, window_rejects_last, Hn. }
  by destruct c; rewrite set_core_id.
Qed.
End receive.

(** ** Sequences of sends and receptions *)

Section sequences.
Context `{Crates, !CratesLaws}.
Implicit Types (rt : Runtime) (c : SessionCore) (s : Session).

Fixpoint send_all_messages s (ds : list bytes) : M Runtime Error unit :=
  match ds with
  | [] => mret tt
  | d :: ds => Session_send s d;; send_all_messages s ds
  end.

Fixpoint handle_all s (ps : list Outgoing) : M Runtime Error unit :=
  match ps with
  | [] => mret tt
  | (_, p, _) :: ps => Session_handle_incoming s p;; handle_all s ps
  end.

(** The packets [ps] carry the messages [ds], numbered from [n] on. *)
Inductive numbered (st : StatelessTransportState) : N → list (Outgoing * bytes) → Prop :=
  | numbered_nil n : numbered st n []
  | numbered_cons n addr p ttl d l :
      packet_carries st n (Payload d) p → numbered st (n + 1) l →
      numbered st n ((addr, p, ttl, d) :: l).

Lemma send_all_messages_Ok s ds rt c st :
  cores rt !! s_core s = Some c → dead c = false → chan_open (outgoing rt) = true →
  sealed_for (stateless (transport c)) st →
  (next_nonce (transport c) + N.of_nat (length ds) ≤ u64_max)%N →
  Forall (λ d, length d + 44 ≤ noise_max) ds →
  ∃ rt' ps, send_all_messages s ds rt = (rt', Ok tt) ∧ length ps = length ds ∧
    chan_open (outgoing rt') = true ∧
    chan_contents (outgoing rt') = chan_contents (outgoing rt) ++ ps ∧
    numbered st (next_nonce (transport c)) (zip ps ds).
Proof.
  revert rt c. induction ds as [|d ds IH]; intros rt c Hc Hdead Hopen Hseal Hn Hds.
  { exists rt, []. rewrite app_nil_r. split_and!; [done..|constructor]. }
  apply Forall_cons in Hds as [Hd Hds]. simpl in Hn.
  destruct (Session_send_Ok s d rt c st Hc Hdead Hopen Hseal ltac:(lia) Hd)
    as (p & Hsend & _ & _ & Hcar).
  destruct (chan_send_open (s_remote_addr s, p, 64%N) (outgoing rt) Hopen) as (_ & Ho & Hcont).
  destruct (IH (sent_packet s p c rt)
    (with_transport (with_next_nonce (next_nonce (transport c) + 1) (transport c)) c))
    as (rt' & ps & Hrest & Hlen & Hopen' & Hcont' & Hnum); [|done..| |done|].
  { apply lookup_set_core. }
  { simpl. lia. }
  exists rt', ((s_remote_addr s, p, 64%N) :: ps). simpl.
  split_and!; [by rewrite (M_bind_step _ _ _ _ _ Hsend)|by f_equal|done| |].
  - rewrite Hcont'. simpl. rewrite Hcont. by rewrite <- app_assoc.
  - by constructor.
Qed.

(** Packets numbered above the window, in order and with gaps, are all queued. *)
Lemma handle_all_sub s n l sub rt c last :
  numbered (stateless (transport c)) n l → sub `sublist_of` l →
  cores rt !! s_core s = Some c → chan_open (messages c) = true →
  window_at last c → is_newer last n = true →
  ∃ rt' c', handle_all s sub.*1 rt = (rt', Ok tt) ∧ cores rt' !! s_core s = Some c' ∧
    dead c' = dead c ∧ chan_contents (messages c') = chan_contents (messages c) ++ sub.*2.
Proof.
  intros Hnum. revert sub rt c last Hnum.
  assert (∀ st n l, numbered st n l → ∀ sub rt c last,
    stateless (transport c) = st → sub `sublist_of` l →
    cores rt !! s_core s = Some c → chan_open (messages c) = true →
    window_at last c → is_newer last n = true →
    ∃ rt' c', handle_all s sub.*1 rt = (rt', Ok tt) ∧ cores rt' !! s_core s = Some c' ∧
      dead c' = dead c ∧ chan_contents (messages c') = chan_contents (messages c) ++ sub.*2) as Hgen;
    [|eauto].
  clear n l. intros st n l. induction 1 as [n|n addr p ttl d l Hp Hl IH];
    intros sub rt c last Hst Hsub Hc Hopen Hwin Hn.
  { apply sublist_nil_r in Hsub as ->. exists rt, c. by rewrite app_nil_r. }
  assert (∀ m, is_newer last m = true → is_newer last (m + 1) = true) as Hmono.
  { intros m. destruct last as [k|]; simpl; [|done].
    rewrite !bool_decide_eq_true. lia. }
  apply sublist_cons_r in Hsub as [Hsub|(sub' & -> & Hsub)].
  { eapply IH; [exact Hst|exact Hsub|exact Hc|exact Hopen|exact Hwin|by apply Hmono]. }
  subst st. pose proof (receive_payload s n d p rt c last Hc Hopen Hwin Hn Hp) as Hrec.
  destruct (chan_send_open d (messages c) Hopen) as (_ & Hopen1 & Hcont1).
  set (rt1 := with_wake (first_waker c) (set_core (s_core s) (deliver n d c) rt)) in *.
  assert (cores rt1 !! s_core s = Some (deliver n d c)) as Hc1.
  { unfold rt1, with_wake. destruct (first_waker c); apply lookup_set_core. }
  destruct (IH sub' rt1 (deliver n d c) (Some n)) as (rt' & c' & Hrest & Hc' & Hdead & Hcont).
  { done. }
  { exact Hsub. }
  { exact Hc1. }
  { exact Hopen1. }
  { destruct Hwin as [Hsz _]. by split. }
  { simpl. apply bool_decide_eq_true. lia. }
  exists rt', c'. simpl. split_and!; [by rewrite (M_bind_step _ _ _ _ _ Hrec)|done|done|].
  rewrite Hcont. simpl. rewrite Hcont1. by rewrite <- app_assoc.
Qed.
End sequences.

(** ** The keepalive task *)

Section keepalive.
Context `{Crates, !CratesLaws}.

(** The tick seals a keepalive message and puts it on the wire, if it can. *)
Lemma keepalive_tick_eq id addr core c rt st :
  cores rt !! core = Some c → sealed_for (stateless (transport c)) st →
  (next_nonce (transport c) < u64_max)%N →
  ∃ p, packet_carries st (next_nonce (transport c)) Keepalive p ∧ sp_id p = id ∧
    bytes_wf (sp_data p) ∧
    keepalive_tick (E := Error) id addr core rt =
      (sent_packet (mkSession id addr core) p c rt,
       Ok (if (chan_send (addr, p, 64%N) (outgoing rt)).2 then negb (dead c) else true)).
Proof.
  intros Hc Hseal Hn.
  destruct (seal_message c Keepalive st I fits_Keepalive Hseal Hn)
    as (plain & sealed & data & Hp & He & Hd & Hwf & Hcar).
  exists (mkSessionPacket id data). split_and!; [apply Hcar|done|done|].
  unfold keepalive_tick. unfold mbind at 1, M_bind at 1, attempt, keepalive_send.
  rewrite Hp. unfold mbind at 1, M_bind at 1, lift at 1. simpl unwrap.
  cbn iota beta. unfold mbind at 1, M_bind at 1. rewrite (on_core_eq _ _ _ _ _ _ Hc He).
  unfold mbind at 1, M_bind at 1, lift at 1. rewrite Hd. simpl ok_or. cbn iota beta.
  unfold send_out, sent_packet. simpl.
  destruct (chan_send _ _) as [o []]; simpl; [|done].
  set (t' := with_next_nonce _ _).
  assert (cores (with_outgoing o (set_core core (with_transport t' c) rt)) !! core =
    Some (with_transport t' c)) as Hc' by apply lookup_set_core.
  by rewrite (M_bind_step _ _ _ _ _ (on_core_gets core _ dead _ Hc')).
Qed.
End keepalive.
