(* ===== verification/Concrete.v ===== *)
(** * A concrete choice of crates

    Codecs in the layout of [Layout], the engine of [Engine] and channels as lists,
    with the proofs that they satisfy every law the theorems assume.  The witnesses
    of the development are evaluated here. *)

From S2P Require Import Prelude Std Externals Layout Engine SnowTypes Transport Session SessionFacts.

(** ** Codecs *)

Definition raw_coder : Coder RawMessage := variant_coder
  (λ m, match m with
        | HandshakePoke => 0 | HandshakeInitiation _ => 1
        | HandshakeResponse _ => 2 | Encrypted _ => 3
        end%N)
  (λ m, match m with
        | HandshakePoke => []
        | HandshakeInitiation (mkSnowInitiation b) => put vec_coder b
        | HandshakeResponse (mkSnowResponse b) => put vec_coder b
        | Encrypted b => put vec_coder b
        end)
  (λ tag bs, match tag with
             | 0%N => Some (HandshakePoke, bs)
             | 1%N => '(b, rest) ← take_one vec_coder bs;
                      Some (HandshakeInitiation (mkSnowInitiation b), rest)
             | 2%N => '(b, rest) ← take_one vec_coder bs;
                      Some (HandshakeResponse (mkSnowResponse b), rest)
             | 3%N => '(b, rest) ← take_one vec_coder bs; Some (Encrypted b, rest)
             | _ => None
             end).

Definition message_coder : Coder Message := variant_coder
  (λ m, match m with Keepalive => 0 | Payload _ => 1 end%N)
  (λ m, match m with Keepalive => [] | Payload b => put vec_coder b end)
  (λ tag bs, match tag with
             | 0%N => Some (Keepalive, bs)
             | 1%N => '(b, rest) ← take_one vec_coder bs; Some (Payload b, rest)
             | _ => None
             end).

Definition packet_coder : Coder SessionPacket :=
  iso_coder (λ p, (sp_id p, sp_data p)) (λ '(i, d), mkSessionPacket i d)
    (pair_coder (int_coder 16) vec_coder).

(** ** Channels *)

Definition list_channel (A : Type) : Channel A := {|
  chan := bool * list A;
  chan_new := (true, []);
  chan_send a '(o, q) := if o : bool then ((o, q ++ [a]), true) else ((o, q), false);
  chan_try_recv '(o, q) :=
    match q with a :: q => ((o, q), Some a) | [] => ((o, []), None) end;
|}.

Definition list_broadcast : Broadcast := {|
  broadcast := option nat;
  bc_channel _ := Some 0;
  bc_send b := match b with Some n => (Some (S n), true) | None => (None, false) end;
  bc_try_recv b := match b with Some (S n) => (Some n, true) | _ => (b, false) end;
  bc_drop_receiver _ := None;
|}.

(** ** The crates *)

Definition crates : Crates := {|
  crates_platform := release;
  crates_noise := engine;
  crates_nonced := nonced_codec;
  crates_raw := coder_codec raw_coder;
  crates_message := coder_codec message_coder;
  crates_packet := coder_codec packet_coder;
  crates_outgoing := list_channel Outgoing;
  crates_messages := list_channel bytes;
  crates_broadcast := list_broadcast;
|}.

Lemma raw_coder_ok : coder_ok raw_coder wf.
Proof.
  apply variant_coder_ok; [by intros []|].
  intros [| [b] | [b] | b] rest Hwf; [done|..]; by rewrite vec_coder_ok.
Qed.

Lemma message_coder_ok : coder_ok message_coder wf.
Proof.
  apply variant_coder_ok; [by intros []|].
  intros [|b] rest Hwf; [done|]. by rewrite vec_coder_ok.
Qed.

Lemma packet_coder_ok : coder_ok packet_coder wf.
Proof.
  pose proof (pair_coder_ok _ _ _ _ (int_coder_ok 16) vec_coder_ok) as Hok.
  apply (iso_coder_ok (λ p, (sp_id p, sp_data p)) (λ '(i, d), mkSessionPacket i d)) in Hok;
    [|by intros []].
  intros p rest Hwf. by apply Hok.
Qed.

Lemma message_layout : @MessageLayout (coder_codec message_coder).
Proof.
  split.
  - intros bs Hs. by rewrite <- (inj Some _ _ Hs).
  - intros d bs Hs. rewrite <- (inj Some _ _ Hs). unfold message_coder, variant_coder.
    cbn [put vec_coder]. by rewrite !length_app, !length_le_put.
Qed.

Lemma raw_layout : @RawLayout (coder_codec raw_coder).
Proof.
  split. intros m bs Hs. rewrite <- (inj Some _ _ Hs). unfold raw_coder, variant_coder.
  destruct m as [| [b] | [b] | b]; cbn [put vec_coder raw_bytes];
    rewrite ?length_app, ?length_le_put; simpl; lia.
Qed.

Lemma list_channel_laws A : @ChannelLaws A (list_channel A).
Proof.
  refine {| chan_open := fst : @chan A (list_channel A) → bool;
            chan_contents := snd : @chan A (list_channel A) → list A |}.
  - done.
  - done.
  - by intros a [[] q].
  - by intros a [[] q].
  - by intros [o []].
  - by intros [o []].
Defined.

Lemma list_broadcast_laws : @BroadcastLaws list_broadcast.
Proof.
  refine {| bc_pending := id : @broadcast list_broadcast → option nat |}; simpl.
  - done.
  - by intros ? [= ->].
  - by intros ? [= ->].
  - by intros ? [= ->].
  - by intros ? n [= ->].
  - done.
Defined.

Definition crates_laws : @CratesLaws crates.
Proof.
  split; simpl.
  - apply engine_bounds.
  - apply nonced_codec_laws.
  - apply nonced_layout.
  - apply coder_codec_laws, raw_coder_ok.
  - apply raw_layout.
  - apply coder_codec_laws, message_coder_ok.
  - apply message_layout.
  - apply coder_codec_laws, packet_coder_ok.
  - apply list_channel_laws.
  - apply list_channel_laws.
  - apply list_broadcast_laws.
Defined.
