(* ===== verification/SessionProps.v ===== *)
(** * Properties of the sessions

    Delivery, waking of readers, heartbeat and keepalive of established sessions,
    and what an adversary or a failure does to pending ones. *)

From S2P Require Import Prelude Std Externals Layout Engine SnowTypes Transport Session SessionFacts Concrete.

(** ** Established sessions *)

(** The sessions at the two ends of a handshake deliver in order over a lossy
    network: every message sent is put on the wire in one packet, and whichever of
    the packets arrive in order, exactly their messages are queued at the other
    end, in order. *)
Theorem lossy_in_order_delivery `{Crates, !CratesLaws} (sA sB : Session) (rtA rtB : Runtime)
    (cA cB : SessionCore) (last : option N) (ds : list bytes) :
  cores rtA !! s_core sA = Some cA → dead cA = false → chan_open (outgoing rtA) = true →
  cores rtB !! s_core sB = Some cB → chan_open (messages cB) = true →
  sealed_for (stateless (transport cA)) (stateless (transport cB)) →
  window_at last cB → is_newer last (next_nonce (transport cA)) = true →
  (next_nonce (transport cA) + N.of_nat (length ds) ≤ u64_max)%N →
  Forall (λ d, length d + 44 ≤ noise_max) ds →
  ∃ rtA' ps, send_all_messages sA ds rtA = (rtA', Ok tt) ∧ length ps = length ds ∧
    chan_contents (outgoing rtA') = chan_contents (outgoing rtA) ++ ps ∧
    ∀ sub, sub `sublist_of` zip ps ds →
      ∃ rtB' cB', handle_all sB sub.*1 rtB = (rtB', Ok tt) ∧
        cores rtB' !! s_core sB = Some cB' ∧
        chan_contents (messages cB') = chan_contents (messages cB) ++ sub.*2.
Proof.
  intros HcA Hdead HoA HcB HoB Hseal Hwin Hn Hmax Hds.
  destruct (send_all_messages_Ok sA ds rtA cA _ HcA Hdead HoA Hseal Hmax Hds)
    as (rtA' & ps & Hsend & Hlen & _ & Hcont & Hnum).
  exists rtA', ps. split_and!; [assumption..|]. intros sub Hsub.
  destruct (handle_all_sub sB _ _ sub rtB cB last Hnum Hsub HcB HoB Hwin Hn)
    as (rtB' & cB' & Hh & Hc' & _ & Hcont'). by exists rtB', cB'.
Qed.

(** A runtime of the concrete crates with one established session, at location 0. *)
Definition demo_core : @SessionCore crates :=
  @mkSessionCore crates (@from_stateless engine demo_key) true false ∅
    (@chan_new bytes (list_channel bytes)).
Definition demo_runtime : @Runtime crates :=
  @mkRuntime crates (@chan_new Outgoing (list_channel Outgoing)) ∅ {[ 0%N := demo_core ]} [] 1.
Definition demo_session : Session := mkSession 7 (SocketAddrV4 1 2) 0.

Lemma lossy_in_order_delivery_witness :
  ∃ rtA' ps, @send_all_messages crates demo_session [[x01]; [x02]; [x03]] demo_runtime
      = (rtA', Ok tt) ∧ length ps = 3 ∧
    ∀ sub, sub `sublist_of` zip ps [[x01]; [x02]; [x03]] →
      ∃ rtB' cB', handle_all demo_session sub.*1 demo_runtime = (rtB', Ok tt) ∧
        cores rtB' !! 0%N = Some cB' ∧ (messages cB').2 = sub.*2.
Proof.
  destruct (@lossy_in_order_delivery crates crates_laws demo_session demo_session demo_runtime
    demo_runtime demo_core demo_core None [[x01]; [x02]; [x03]])
    as (rtA' & ps & Hsend & Hlen & _ & Hall).
  - done.
  - done.
  - done.
  - done.
  - done.
  - apply engine_sealed_for.
  - done.
  - done.
  - by vm_compute.
  - pose proof noise_max_N. repeat constructor; simpl; lia.
  - exists rtA', ps. split_and!; [exact Hsend|exact Hlen|exact Hall].
Defined.

(** On a dead session nothing passes: [send] fails before anything is sealed,
    [recv] gives no future, and polling a future made earlier reports the
    disconnection, leaving the messages that were queued unread. *)
Theorem dead_session_operations `{Crates, !CratesLaws} (s : Session) (r : Receiving)
    (rt : Runtime) (c : SessionCore) (d : bytes) (fresh : N) (w : Waker) :
  cores rt !! s_core s = Some c → dead c = true → r_core r = s_core s →
  Session_send s d rt = (rt, Err (Anyhow "Can't send because am dead")) ∧
  Session_recv (E := Error) s fresh rt = (rt, Ok None) ∧
  Receiving_poll (E := Error) r w rt = (rt, Ok (Ready (inr tt))).
Proof.
  intros Hc Hdead Hr.
  unfold Session_send, Session_recv, Session_is_dead, Receiving_poll, poll_dead. rewrite Hr.
  split_and!; erewrite M_bind_step by (by apply on_core_gets); by rewrite Hdead.
Qed.

Definition dead_runtime : @Runtime crates :=
  @set_core crates 0 (@with_messages crates (true, [[x01]]) (@with_dead crates true demo_core))
    demo_runtime.

Lemma dead_session_operations_witness :
  @Session_send crates demo_session [x01] dead_runtime =
    (dead_runtime, Err (Anyhow "Can't send because am dead")) ∧
  @Session_recv crates Error demo_session 5 dead_runtime = (dead_runtime, Ok None) ∧
  @Receiving_poll crates Error (mkReceiving 0 3) 9 dead_runtime =
    (dead_runtime, Ok (Ready (inr tt))).
Proof.
  by apply (@dead_session_operations crates crates_laws demo_session (mkReceiving 0 3)
    dead_runtime (@with_messages crates (true, [[x01]]) (@with_dead crates true demo_core))).
Defined.

Section polling.
Context `{Crates, !CratesLaws}.

Lemma poll_try_recv_empty {E} r rt c :
  cores rt !! r_core r = Some c → chan_contents (messages c) = [] →
  poll_try_recv (E := E) r rt = (rt, Ok None).
Proof.
  intros Hc Hempty. unfold poll_try_recv.
  pose proof (chan_try_recv_contents (messages c)) as Htry. rewrite Hempty in Htry.
  erewrite on_core_eq; [|exact Hc|by rewrite Htry].
  rewrite set_core_id; [done|]. rewrite Hc. by destruct c.
Qed.

Lemma poll_try_recv_cons {E} r rt c d q :
  cores rt !! r_core r = Some c → chan_contents (messages c) = d :: q →
  poll_try_recv (E := E) r rt =
    (set_core (r_core r) (with_messages (chan_try_recv (messages c)).1 c) rt, Ok (Some d)).
Proof.
  intros Hc Hcont. unfold poll_try_recv.
  pose proof (chan_try_recv_contents (messages c)) as Htry. rewrite Hcont in Htry.
  destruct Htry as [Hd _]. erewrite on_core_eq; [done|exact Hc|].
  destruct (chan_try_recv _) as [q' m]. simpl in *. by rewrite Hd.
Qed.

Lemma poll_wakers_none {E} r w rt c :
  cores rt !! r_core r = Some c →
  poll_wakers (E := E) r w None rt =
    (set_core (r_core r) (with_wakers (<[r_id r := w]> (wakers c)) c) rt, Ok PollPending).
Proof.
  intros Hc. unfold poll_wakers.
  erewrite M_bind_step; [|eapply on_core_eq; [exact Hc|reflexivity]]. done.
Qed.

(** Polling an empty queue registers the waker. *)
Lemma Receiving_poll_empty {E} r w rt c :
  cores rt !! r_core r = Some c → dead c = false → chan_contents (messages c) = [] →
  Receiving_poll (E := E) r w rt =
    (set_core (r_core r) (with_wakers (<[r_id r := w]> (wakers c)) c) rt, Ok PollPending).
Proof.
  intros Hc Hdead Hempty. unfold Receiving_poll, poll_dead.
  erewrite M_bind_step by (by apply on_core_gets). rewrite Hdead.
  erewrite M_bind_step by (by eapply poll_try_recv_empty). by apply poll_wakers_none.
Qed.

(** Polling a queue that is not empty returns its head. *)
Lemma Receiving_poll_cons {E} r w rt c d q :
  cores rt !! r_core r = Some c → dead c = false → chan_contents (messages c) = d :: q →
  ∃ rt' c', Receiving_poll (E := E) r w rt = (rt', Ok (Ready (inl d))) ∧
    cores rt' !! r_core r = Some c' ∧ dead c' = false ∧ chan_contents (messages c') = q.
Proof.
  intros Hc Hdead Hcont. unfold Receiving_poll, poll_dead.
  erewrite M_bind_step by (by apply on_core_gets). rewrite Hdead.
  erewrite M_bind_step by (by eapply poll_try_recv_cons). unfold poll_wakers.
  erewrite M_bind_step; [|eapply on_core_eq; [apply lookup_set_core|reflexivity]].
  eexists _, _. split_and!; [reflexivity|apply lookup_set_core|done|]. simpl.
  pose proof (chan_try_recv_contents (messages c)) as Htry. rewrite Hcont in Htry. apply Htry.
Qed.

Lemma map_pop_first_singleton (k : N) (w : Waker) :
  map_pop_first {[ k := w ]} = (Some (k, w), ∅).
Proof.
  unfold map_pop_first, map_first. rewrite dom_singleton_L, set_first_singleton.
  by rewrite lookup_singleton_eq, delete_singleton_eq.
Qed.
End polling.

(** C24. A reader alone on an empty queue is woken by the next message, and its next
    poll returns this message. *)
Theorem receiver_woken `{Crates, !CratesLaws} (s : Session) (r : Receiving) (rt : Runtime)
    (c : SessionCore) (w : Waker) (last : option N) (n : N) (d : bytes) (p : SessionPacket) :
  cores rt !! s_core s = Some c → r_core r = s_core s → dead c = false →
  chan_open (messages c) = true → chan_contents (messages c) = [] → wakers c = ∅ →
  window_at last c → is_newer last n = true →
  packet_carries (stateless (transport c)) n (Payload d) p →
  ∃ rt1 rt2 rt3, Receiving_poll (E := Error) r w rt = (rt1, Ok PollPending) ∧
    Session_handle_incoming s p rt1 = (rt2, Ok tt) ∧ woken rt2 = woken rt ++ [w] ∧
    Receiving_poll (E := Error) r w rt2 = (rt3, Ok (Ready (inl d))).
Proof.
  intros Hc Hr Hdead Hopen Hempty Hwakers Hwin Hn Hp.
  set (c1 := with_wakers (<[r_id r := w]> (wakers c)) c).
  set (rt1 := set_core (s_core s) c1 rt).
  assert (Receiving_poll (E := Error) r w rt = (rt1, Ok PollPending)) as Hpoll.
  { unfold rt1. rewrite <- Hr in *. by apply Receiving_poll_empty. }
  pose proof (receive_payload s n d p rt1 c1 last (lookup_set_core _ _ _) Hopen Hwin Hn Hp)
    as Hrec.
  assert (first_waker c1 = Some w) as Hfirst.
  { unfold first_waker, c1. simpl. rewrite Hwakers, insert_empty.
    by rewrite map_pop_first_singleton. }
  rewrite Hfirst in Hrec. simpl in Hrec.
  destruct (chan_send_open d (messages c) Hopen) as (_ & _ & Hcont).
  destruct (Receiving_poll_cons (E := Error) r w
    (with_woken (woken rt ++ [w]) (set_core (s_core s) (deliver n d c1) rt1))
    (deliver n d c1) d []) as (rt3 & _ & Hpoll3 & _).
  { rewrite Hr. apply lookup_set_core. }
  { done. }
  { simpl. by rewrite Hcont, Hempty. }
  eexists rt1, _, rt3. split_and!; [exact Hpoll|exact Hrec|done|exact Hpoll3].
Qed.

(** A payload packet for the concrete session. *)
Definition demo_payload (n : N) (d : bytes) : SessionPacket :=
  mkSessionPacket 7 (put raw_coder (Encrypted (put nonced_coder
    (mkNonced n (put message_coder (Payload d) ++ engine_tag demo_key n))))).

Lemma demo_payload_carries :
  @packet_carries crates (demo_key : @StatelessTransportState engine) 0 (Payload [x05])
    (demo_payload 0 [x05]).
Proof.
  split; [by vm_compute|]. eexists _, _. split_and!; [reflexivity|by vm_compute|].
  split.
  - pose proof noise_max_N. simpl. lia.
  - eexists. split; [by vm_compute|by vm_compute].
Qed.

Lemma receiver_woken_witness :
  ∃ rt1 rt2 rt3,
    @Receiving_poll crates Error (mkReceiving 0 3) 9 demo_runtime = (rt1, Ok PollPending) ∧
    Session_handle_incoming demo_session (demo_payload 0 [x05]) rt1 = (rt2, Ok tt) ∧
    woken rt2 = [9%N] ∧
    @Receiving_poll crates Error (mkReceiving 0 3) 9 rt2 = (rt3, Ok (Ready (inl [x05]))).
Proof.
  apply (@receiver_woken crates crates_laws demo_session (mkReceiving 0 3) demo_runtime
    demo_core 9 None 0 [x05] (demo_payload 0 [x05])); try done.
  apply demo_payload_carries.
Defined.

(** A message handled between the two accesses of a poll: to the queue, found
    empty, and to the wakers. *)
Definition poll_racing `{Crates} (r : Receiving) (w : Waker) (s : Session) (p : SessionPacket)
    : M Runtime Error (Poll (bytes + unit)) :=
  is_dead ← poll_dead r;
  if is_dead : bool then mret (Ready (inr tt)) else
  m ← poll_try_recv r;
  Session_handle_incoming s p;;
  poll_wakers r w m.

(** C39. The queue and the wakers are not accessed together: a message that arrives
    in between finds no waker, the poll then reports [Pending], and the reader
    sleeps although its message is queued. *)
Theorem receiver_lost_wakeup `{Crates, !CratesLaws} (s : Session) (r : Receiving) (rt : Runtime)
    (c : SessionCore) (w : Waker) (last : option N) (n : N) (d : bytes) (p : SessionPacket) :
  cores rt !! s_core s = Some c → r_core r = s_core s → dead c = false →
  chan_open (messages c) = true → chan_contents (messages c) = [] → wakers c = ∅ →
  window_at last c → is_newer last n = true →
  packet_carries (stateless (transport c)) n (Payload d) p →
  ∃ rt' c', poll_racing r w s p rt = (rt', Ok PollPending) ∧
    cores rt' !! s_core s = Some c' ∧ chan_contents (messages c') = [d] ∧
    woken rt' = woken rt ∧ wakers c' = {[ r_id r := w ]}.
Proof.
  intros Hc Hr Hdead Hopen Hempty Hwakers Hwin Hn Hp.
  pose proof (receive_payload s n d p rt c last Hc Hopen Hwin Hn Hp) as Hrec.
  assert (map_pop_first (wakers c) = (None, ∅)) as Hpop.
  { unfold map_pop_first. rewrite Hwakers. by rewrite (proj2 (map_first_None ∅)). }
  unfold first_waker in Hrec. rewrite Hpop in Hrec. simpl in Hrec.
  destruct (chan_send_open d (messages c) Hopen) as (_ & _ & Hcont).
  unfold poll_racing, poll_dead. rewrite <- Hr in *.
  erewrite M_bind_step by (by apply on_core_gets). rewrite Hdead.
  erewrite M_bind_step by (by eapply poll_try_recv_empty).
  erewrite M_bind_step by exact Hrec.
  erewrite poll_wakers_none by apply lookup_set_core.
  eexists _, _. split_and!; [done|apply lookup_set_core|simpl..].
  - by rewrite Hcont, Hempty.
  - done.
  - rewrite Hpop. apply insert_empty.
Qed.

Lemma receiver_lost_wakeup_witness :
  ∃ rt' c', @poll_racing crates (mkReceiving 0 3) 9 demo_session (demo_payload 0 [x05])
      demo_runtime = (rt', Ok PollPending) ∧
    cores rt' !! 0%N = Some c' ∧ (messages c').2 = [[x05]] ∧ woken rt' = [] ∧
    wakers c' = {[ 3%N := 9%N ]}.
Proof.
  apply (@receiver_lost_wakeup crates crates_laws demo_session (mkReceiving 0 3) demo_runtime
    demo_core 9 None 0 [x05] (demo_payload 0 [x05])); try done.
  apply demo_payload_carries.
Defined.

(** ** The heartbeat *)

(** What the heartbeat of a session sees: the ticks of its task, and keepalive
    messages. *)
Inductive HeartbeatEvent := Tick | Beat.

#[export] Instance HeartbeatEvent_eq_dec : EqDecision HeartbeatEvent.
Proof. solve_decision. Defined.

(** Run events on a session; [running] is false once the task has left its loop. *)
Fixpoint heartbeat_run `{Crates} (core : N) (es : list HeartbeatEvent) (running : bool)
    : M Runtime Error unit :=
  match es with
  | [] => mret tt
  | Beat :: es => on_core core (modify (with_heartbeat true));; heartbeat_run core es running
  | Tick :: es =>
      running' ← (if running then heartbeat_tick core else mret false);
      heartbeat_run core es running'
  end.

Section heartbeat.
Context `{Crates}.

Lemma waker_values_complete fuel (ws : gmap N Waker) k w :
  size ws ≤ fuel → ws !! k = Some w → w ∈ waker_values fuel ws.
Proof.
  revert ws. induction fuel as [|fuel IH]; intros ws Hf Hk; simpl.
  - assert (ws = ∅) as -> by (apply map_size_empty_inv; lia). done.
  - pose proof (size_map_pop_first ws) as Hsize. unfold map_pop_first in *.
    destruct (map_first ws) as [j|] eqn:Hj; simpl in *.
    + apply map_first_Some in Hj as [[v Hv] _]. rewrite Hv. simpl.
      destruct (decide (j = k)) as [->|Hne]; [simplify_eq; set_solver|].
      apply elem_of_cons. right. apply IH; [lia|]. by rewrite lookup_delete_ne.
    + apply map_first_None in Hj as ->. done.
Qed.

Lemma heartbeat_tick_beat {E} core c rt :
  cores rt !! core = Some c → heartbeat c = true →
  heartbeat_tick (E := E) core rt = (set_core core (with_heartbeat false c) rt, Ok true).
Proof.
  intros Hc Hb. unfold heartbeat_tick.
  erewrite M_bind_step by (by apply on_core_gets). rewrite Hb. simpl.
  erewrite M_bind_step; [|eapply on_core_eq; [exact Hc|reflexivity]]. done.
Qed.

Lemma heartbeat_tick_silent {E} core c rt :
  cores rt !! core = Some c → heartbeat c = false →
  heartbeat_tick (E := E) core rt =
    (with_woken (woken rt ++ waker_values (size (wakers c)) (wakers c))
       (set_core core (with_dead true c) rt), Ok false).
Proof.
  intros Hc Hb. unfold heartbeat_tick.
  erewrite M_bind_step by (by apply on_core_gets). rewrite Hb. simpl.
  erewrite M_bind_step; [|eapply on_core_eq; [exact Hc|reflexivity]].
  erewrite M_bind_step by (apply on_core_gets, lookup_set_core). done.
Qed.

(** Once its task has stopped, beats do not bring a session back. *)
Lemma heartbeat_run_stopped core es rt c :
  cores rt !! core = Some c →
  ∃ rt' c', heartbeat_run core es false rt = (rt', Ok tt) ∧
    cores rt' !! core = Some c' ∧ dead c' = dead c ∧ woken rt' = woken rt.
Proof.
  revert rt c. induction es as [|[|] es IH]; intros rt c Hc; simpl.
  - by exists rt, c.
  - by apply IH.
  - erewrite M_bind_step; [|eapply on_core_eq; [exact Hc|reflexivity]].
    destruct (IH _ _ (lookup_set_core core (with_heartbeat true c) rt))
      as (rt' & c' & Hrun & Hc' & Hd & Hw). by exists rt', c'.
Qed.
End heartbeat.

(** C23. A session dies exactly when two ticks of its heartbeat task follow each
    other with no keepalive message in between, and every reader waiting then is
    woken. *)
Theorem heartbeat_dies_iff `{Crates} (core : N) (c : SessionCore) (rt : Runtime)
    (es : list HeartbeatEvent) :
  cores rt !! core = Some c → heartbeat c = true → dead c = false →
  ∃ rt' c', heartbeat_run core es true rt = (rt', Ok tt) ∧ cores rt' !! core = Some c' ∧
    (dead c' = true ↔ ∃ es1 es2, es = es1 ++ Tick :: Tick :: es2) ∧
    (dead c' = true → ∀ k w, wakers c !! k = Some w → w ∈ woken rt').
Proof.
  intros Hc Hb Hdead.
  assert (∀ es rt c, cores rt !! core = Some c → dead c = false →
    ∃ rt' c', heartbeat_run core es true rt = (rt', Ok tt) ∧ cores rt' !! core = Some c' ∧
      (dead c' = true ↔
        (∃ es1 es2, (if heartbeat c then es else Tick :: es) = es1 ++ Tick :: Tick :: es2)) ∧
      (dead c' = true → ∀ k w, wakers c !! k = Some w → w ∈ woken rt')) as Hgen.
  { clear es rt c Hc Hb Hdead. induction es as [|[|] es IH]; intros rt c Hc Hdead; simpl.
    - exists rt, c. rewrite Hdead. split_and!; [done|done| |done]. split; [done|].
      intros ([|? [|]] & es2 & Hes); destruct (heartbeat c); simplify_eq/=.
    - destruct (heartbeat c) eqn:Hb.
      + erewrite M_bind_step by (by apply heartbeat_tick_beat).
        destruct (IH _ (with_heartbeat false c) (lookup_set_core core _ rt) Hdead)
          as (rt' & c' & Hrun & Hc' & Hd & Hw). by exists rt', c'.
      + erewrite M_bind_step by (by apply heartbeat_tick_silent).
        set (rt1 := with_woken _ _).
        destruct (heartbeat_run_stopped core es rt1 (with_dead true c))
          as (rt' & c' & Hrun & Hc' & Hd & Hw); [apply lookup_set_core|].
        exists rt', c'. split_and!; [done|done| |].
        * rewrite Hd. simpl. split; [|done]. intros _. by exists [], es.
        * intros _ k w Hk. rewrite Hw. simpl. apply elem_of_app. right.
          by eapply waker_values_complete.
    - erewrite M_bind_step; [|eapply on_core_eq; [exact Hc|reflexivity]].
      destruct (IH _ (with_heartbeat true c) (lookup_set_core core _ rt) Hdead)
        as (rt' & c' & Hrun & Hc' & Hd & Hw).
      exists rt', c'. split_and!; [done|done| |done]. rewrite Hd. simpl.
      split; intros (es1 & es2 & Hes).
      + subst es. destruct (heartbeat c); [by exists (Beat :: es1), es2|].
        by exists (Tick :: Beat :: es1), es2.
      + destruct (heartbeat c).
        * destruct es1 as [|? es1]; simplify_eq/=. by exists es1, es2.
        * destruct es1 as [|? [|? es1]]; simplify_eq/=. by exists es1, es2. }
  destruct (Hgen es rt c Hc Hdead) as (rt' & c' & Hrun & Hc' & Hd & Hw).
  rewrite Hb in Hd. by exists rt', c'.
Qed.

Lemma heartbeat_dies_iff_witness :
  ∃ rt' c', @heartbeat_run crates 0 [Tick; Beat; Tick; Tick] true demo_runtime = (rt', Ok tt) ∧
    cores rt' !! 0%N = Some c' ∧
    (dead c' = true ↔ ∃ es1 es2, [Tick; Beat; Tick; Tick] = es1 ++ Tick :: Tick :: es2) ∧
    (dead c' = true → ∀ k w, wakers demo_core !! k = Some w → w ∈ woken rt').
Proof. by apply (@heartbeat_dies_iff crates 0 demo_core demo_runtime). Defined.

(** ** The keepalive task *)

(** After [close] the keepalive task puts one more keepalive on the wire at its
    next tick and ends, unless the outgoing channel is closed: it then never looks
    at the flag and goes on. *)
Theorem keepalive_after_close `{Crates, !CratesLaws} (id : SessionId) (addr : SocketAddr)
    (core l : N) (c : SessionCore) (rt : Runtime) (st : StatelessTransportState) :
  cores rt !! core = Some c → tasks rt !! l = Some (KeepaliveTask id addr core) →
  sealed_for (stateless (transport c)) st → (next_nonce (transport c) < u64_max)%N →
  ∃ rt1 rt2, Session_close (E := Error) (mkSession id addr core) rt = (rt1, Ok tt) ∧
    run_task l rt1 = (rt2, Ok tt) ∧
    (chan_open (outgoing rt) = true →
      tasks rt2 !! l = None ∧
      ∃ p, packet_carries st (next_nonce (transport c)) Keepalive p ∧
        chan_contents (outgoing rt2) = chan_contents (outgoing rt) ++ [(addr, p, 64%N)]) ∧
    (chan_open (outgoing rt) = false →
      tasks rt2 !! l = Some (KeepaliveTask id addr core)).
Proof.
  intros Hc Hl Hseal Hn.
  set (c1 := with_dead true c). set (rt1 := set_core core c1 rt).
  destruct (keepalive_tick_eq id addr core c1 rt1 st) as (p & Hcar & _ & _ & Htick);
    [apply lookup_set_core|done..|].
  assert (Session_close (E := Error) (mkSession id addr core) rt = (rt1, Ok tt)) as Hclose
    by (eapply on_core_eq; [exact Hc|reflexivity]).
  assert (tasks rt1 !! l = Some (KeepaliveTask id addr core)) as Hl1 by exact Hl.
  destruct (chan_open (outgoing rt)) eqn:Hopen.
  - destruct (chan_send_open (addr, p, 64%N) (outgoing rt) Hopen) as (Hok & _ & Hcont).
    change (outgoing rt1) with (outgoing rt) in Htick. rewrite Hok in Htick.
    exists rt1. eexists. split_and!; [exact Hclose| | |intros [=]].
    + unfold run_task. rewrite Hl1. simpl. rewrite Htick. reflexivity.
    + intros _. split; [apply lookup_delete_eq|]. exists p. split; [exact Hcar|exact Hcont].
  - pose proof (chan_send_closed (addr, p, 64%N) (outgoing rt) Hopen) as Hclosed.
    change (outgoing rt1) with (outgoing rt) in Htick. rewrite Hclosed in Htick.
    exists rt1. eexists. split_and!; [exact Hclose| |intros [=]|].
    + unfold run_task. rewrite Hl1. simpl. rewrite Htick. reflexivity.
    + intros _. exact Hl.
Qed.

Definition task_runtime : @Runtime crates :=
  @with_tasks crates {[ 5%N := KeepaliveTask 7 (SocketAddrV4 1 2) 0 ]} demo_runtime.

Lemma keepalive_after_close_witness :
  ∃ rt1 rt2, @Session_close crates Error demo_session task_runtime = (rt1, Ok tt) ∧
    run_task 5 rt1 = (rt2, Ok tt) ∧
    (@chan_open _ _ (list_channel_laws Outgoing) (outgoing task_runtime) = true →
      tasks rt2 !! 5%N = None ∧
      ∃ p, @packet_carries crates (demo_key : @StatelessTransportState engine) 0 Keepalive p ∧
        @chan_contents _ _ (list_channel_laws Outgoing) (outgoing rt2) =
          [(SocketAddrV4 1 2, p, 64%N)]) ∧
    (@chan_open _ _ (list_channel_laws Outgoing) (outgoing task_runtime) = false →
      tasks rt2 !! 5%N = Some (KeepaliveTask 7 (SocketAddrV4 1 2) 0)).
Proof.
  apply (@keepalive_after_close crates crates_laws 7 (SocketAddrV4 1 2) 0 5 demo_core
    task_runtime (demo_key : @StatelessTransportState engine)); try done.
  apply engine_sealed_for.
Defined.

(** ** Pending sessions *)

(** The waker of a pending responder is never set, so its [handle_incoming]
    cannot return [Ok]: the first keepalive of the peer makes it ready and is
    reported as an error. *)
Theorem responder_never_ok `{Crates, !CratesLaws} (p : PendingSessionResponder)
    (src : SocketAddr) (packet : SessionPacket) (rt : Runtime) :
  psr_waker p = None →
  (∀ s, (Responder_handle_incoming src packet (p, rt)).2 ≠ Ok s) ∧
  (∀ n last, lt_size (psr_transport p) = 1%N →
    received_nonces (psr_transport p) = window_last last → is_newer last n = true →
    packet_carries (stateless (psr_transport p)) n Keepalive packet →
    Responder_handle_incoming src packet (p, rt) =
      (with_psr_ready (with_psr_transport
         (with_received (window_last (Some n)) (psr_transport p)) p), rt,
       Err (Anyhow "No waker in guard"))).
Proof.
  intros Hw. split.
  - intros u. unfold Responder_handle_incoming. unfold_monad.
    destruct (deserialize (sp_data packet)) as [[]|]; simpl; try done.
    destruct (decrypt _ _) as [t []]; simpl; try done.
    destruct (deserialize _) as [[]|]; simpl; try done. by rewrite Hw.
  - intros n last Hsz Hrec Hn (plain & sealed & Hraw & Hm & Hc)%packet_carries_decrypt.
    pose proof (decrypt_in_order _ _ _ _ _ Hc Hsz Hrec Hn) as Hdec.
    unfold Responder_handle_incoming. unfold_monad. rewrite Hraw. simpl.
    rewrite Hdec. simpl. rewrite Hm. simpl. rewrite Hw. simpl. destruct p; simpl in *.
    by subst.
Qed.

(** The packet of a keepalive for the concrete session. *)
Definition demo_keepalive (n : N) : SessionPacket :=
  mkSessionPacket 7 (put raw_coder (Encrypted (put nonced_coder
    (mkNonced n (put message_coder Keepalive ++ engine_tag demo_key n))))).

Lemma demo_keepalive_carries :
  @packet_carries crates (demo_key : @StatelessTransportState engine) 0 Keepalive
    (demo_keepalive 0).
Proof.
  split; [by vm_compute|]. eexists _, _. split_and!; [reflexivity|by vm_compute|].
  split.
  - pose proof noise_max_N. simpl. lia.
  - eexists. split; [by vm_compute|by vm_compute].
Qed.

Definition demo_responder : @PendingSessionResponder crates :=
  @mkPendingSessionResponder crates 3 (SocketAddrV4 1 2) None 7
    (@from_stateless engine demo_key) false.

Lemma responder_never_ok_witness :
  (@Responder_handle_incoming crates (SocketAddrV4 9 9) (demo_keepalive 0)
    (demo_responder, demo_runtime)).2 = Err (Anyhow "No waker in guard") ∧
  psr_ready (@Responder_handle_incoming crates (SocketAddrV4 9 9) (demo_keepalive 0)
    (demo_responder, demo_runtime)).1.1 = true.
Proof.
  destruct (@responder_never_ok crates crates_laws demo_responder (SocketAddrV4 9 9)
    (demo_keepalive 0) demo_runtime eq_refl) as [_ Hready].
  by rewrite (Hready 0%N None eq_refl eq_refl eq_refl demo_keepalive_carries).
Defined.

(** A response that does not complete the handshake (anyone can send one) does
    not end the pending initiation, but its retransmission: the task that sends the
    initiation is aborted first and the session that is kept has no other. *)
Theorem bad_response_stops_initiating `{Crates, !CratesLaws} (p : PendingSessionInitiator)
    (rt : Runtime) (addr : SocketAddr) (r : SnowResponse) (i : SnowInitiator) :
  psi_working_remote_addr p = Some (addr, r) →
  receive_response (psi_initiator p) r = Ok (ResponseErr i) →
  Initiator_session p rt =
    (with_tasks (delete (psi_handle p) (tasks rt)) rt,
     Ok (SessionErr (mkPendingSessionInitiator (psi_handle p) None (psi_waker p)
           (psi_id p) i))).
Proof.
  intros Hw Hr. unfold Initiator_session. rewrite Hw. unfold abort. unfold_monad.
  by rewrite Hr.
Qed.

Definition demo_initiator : @PendingSessionInitiator crates :=
  @mkPendingSessionInitiator crates 5 (Some (SocketAddrV4 9 9, mkSnowResponse [x00])) None 7
    (@mkSnowInitiator engine (mkEngineState true [x01] [x02] [] [] 1) (mkSnowInitiation [x01; x01])).

Lemma bad_response_stops_initiating_witness :
  tasks (@Initiator_session crates demo_initiator
    (@with_tasks crates {[ 5%N := InitiateTask 7 ∅ (mkSnowInitiation [x01; x01]) ]}
       demo_runtime)).1 = ∅.
Proof.
  erewrite (@bad_response_stops_initiating crates crates_laws demo_initiator);
    [|reflexivity|reflexivity].
  by vm_compute.
Defined.
