(* ===== verification/Handler.v ===== *)
(** * The handler: sessions by identifier

    Models [src/handler.rs] and [ConnectionInfo] of [src/veq.rs].  The four maps the
    clones of a handler share, the notifications of pending connections and the
    spawned [remove_session] tasks are one state, the [World], around the [Runtime]
    of the sessions.  Every access under a lock is one definition, so that a theorem
    can put another party's access in between. *)

From S2P Require Import Prelude Std Externals SnowTypes Session.

Abbreviation OneTimeId := SessionId.

Record ConnectionInfo := mkConnectionInfo {
  addresses : gset SocketAddr;
  public_key : SnowPublicKey;
}.

(** ** State *)

(** The tuples the pending sessions are stored in; the sender and the wakers, which
    the [SessionReady] future shares, are at the location [pd_notice]. *)
Record PendingEntry (T : Type) := mkPending {
  pd_session : T;
  pd_one_time_id : OneTimeId;
  pd_notice : N;
}.
#[global] Arguments mkPending {T}.
#[global] Arguments pd_session {T}.
#[global] Arguments pd_one_time_id {T}.
#[global] Arguments pd_notice {T}.

Record Notice `{Crates} := mkNotice { nt_channel : broadcast; nt_wakers : list Waker }.
#[global] Arguments mkNotice {_}.

Record World `{Crates} := mkWorld {
  runtime : Runtime;
  pokers : gmap SessionId (PendingEntry PendingSessionPoker);
  initiators : gmap SessionId (PendingEntry PendingSessionInitiator);
  responders : gmap SessionId (PendingEntry PendingSessionResponder);
  established : gmap SessionId (OneTimeId * Session);
  keypair_ : SnowKeypair;
  notices : gmap N Notice;
  (** The tasks [close_session] spawned that have not run. *)
  closers : list (SessionId * OneTimeId);
}.
#[global] Arguments mkWorld {_}.

Record SessionReady := mkSessionReady {
  sr_id : SessionId;
  sr_one_time_id : OneTimeId;
  sr_notice : N;
  sr_added_waker : bool;
  sr_completed : bool;
}.

Section updates.
Context `{Crates}.

Definition with_runtime (r : Runtime) (w : World) : World :=
  mkWorld r (pokers w) (initiators w) (responders w) (established w) (keypair_ w)
    (notices w) (closers w).
Definition with_pokers (m : gmap SessionId (PendingEntry PendingSessionPoker)) (w : World) : World :=
  mkWorld (runtime w) m (initiators w) (responders w) (established w) (keypair_ w)
    (notices w) (closers w).
Definition with_initiators (m : gmap SessionId (PendingEntry PendingSessionInitiator)) (w : World)
    : World :=
  mkWorld (runtime w) (pokers w) m (responders w) (established w) (keypair_ w)
    (notices w) (closers w).
Definition with_responders (m : gmap SessionId (PendingEntry PendingSessionResponder)) (w : World)
    : World :=
  mkWorld (runtime w) (pokers w) (initiators w) m (established w) (keypair_ w)
    (notices w) (closers w).
Definition with_established (m : gmap SessionId (OneTimeId * Session)) (w : World) : World :=
  mkWorld (runtime w) (pokers w) (initiators w) (responders w) m (keypair_ w)
    (notices w) (closers w).
Definition with_notices (m : gmap N Notice) (w : World) : World :=
  mkWorld (runtime w) (pokers w) (initiators w) (responders w) (established w) (keypair_ w)
    m (closers w).
Definition with_closers (l : list (SessionId * OneTimeId)) (w : World) : World :=
  mkWorld (runtime w) (pokers w) (initiators w) (responders w) (established w) (keypair_ w)
    (notices w) l.

Definition on_runtime {E A} (m : M Runtime E A) : M World E A := zoom runtime with_runtime m.

(** An access to what a pending session shares with its [SessionReady]. *)
Definition on_notice {E A} (l : N) (m : M Notice E A) : M World E A := λ w,
  match notices w !! l with
  | Some n => let '(n', r) := m n in (with_notices (<[l := n']> (notices w)) w, r)
  | None => (w, Panic)
  end.
End updates.

(** ** Operations *)

Section handler.
Context `{Crates}.

(** The receiver returned with the handler is the channel of the runtime; nothing
    has been spawned yet. *)
Definition Handler_new (keys : SnowKeypair) : World :=
  mkWorld (mkRuntime chan_new ∅ ∅ [] 0) ∅ ∅ ∅ ∅ keys ∅ [].

(** [outgoing_receiver.recv().await] in the transmit loop of the socket: pending while
    the queue is empty. *)
Definition recv_outgoing {E} : M World E Outgoing := λ w,
  match chan_try_recv (outgoing (runtime w)) with
  | (c, Some item) => (with_runtime (with_outgoing c (runtime w)) w, Ok item)
  | (c, None) => (with_runtime (with_outgoing c (runtime w)) w, Pending)
  end.

(** [guard.remove(&id)] and [guard.insert(id, ..)] on the map of the pokers; what an
    insertion replaces is dropped, which detaches its task. *)
Definition take_poker {E} (id : SessionId) : M World E (option (PendingEntry PendingSessionPoker)) :=
  λ w, (with_pokers (delete id (pokers w)) w, Ok (pokers w !! id)).
Definition put_poker {E} (id : SessionId) (p : PendingEntry PendingSessionPoker) : M World E unit :=
  modify (λ w, with_pokers (<[id := p]> (pokers w)) w).

Definition take_initiator {E} (id : SessionId)
    : M World E (option (PendingEntry PendingSessionInitiator)) :=
  λ w, (with_initiators (delete id (initiators w)) w, Ok (initiators w !! id)).
Definition put_initiator {E} (id : SessionId) (p : PendingEntry PendingSessionInitiator)
    : M World E unit := modify (λ w, with_initiators (<[id := p]> (initiators w)) w).

Definition take_responder {E} (id : SessionId)
    : M World E (option (PendingEntry PendingSessionResponder)) :=
  λ w, (with_responders (delete id (responders w)) w, Ok (responders w !! id)).
Definition put_responder {E} (id : SessionId) (p : PendingEntry PendingSessionResponder)
    : M World E unit := modify (λ w, with_responders (<[id := p]> (responders w)) w).

(** Dropping the session an insertion or a removal took out of the map. *)
Definition drop_established {E} (old : option (OneTimeId * Session)) : M World E unit :=
  match old with Some (_, s) => on_runtime (Session_drop s) | None => mret tt end.

Definition put_established {E} (id : SessionId) (one_time_id : OneTimeId) (s : Session)
    : M World E unit :=
  old ← gets (λ w, established w !! id);
  modify (λ w, with_established (<[id := (one_time_id, s)]> (established w)) w);;
  drop_established old.

Definition delete_established {E} (id : SessionId) : M World E unit :=
  old ← gets (λ w, established w !! id);
  modify (λ w, with_established (delete id (established w)) w);;
  drop_established old.

(** [sender.send(())?] and the wakers, which stay registered. *)
Definition notify_ready (notice : N) : M World Error unit :=
  sent ← on_notice notice (λ n,
    let '(b, sent) := bc_send (nt_channel n) in (mkNotice b (nt_wakers n), Ok sent));
  if negb sent then lift (Err ChannelError) else
  ws ← on_notice notice (gets nt_wakers);
  on_runtime (wake_all ws).

Definition upgrade_session (id : SessionId) (one_time_id : OneTimeId) (s : Session)
    (notice : N) : M World Error unit :=
  put_established id one_time_id s;;
  notify_ready notice.

Definition with_session {T U} (s : U) (p : PendingEntry T) : PendingEntry U :=
  mkPending s (pd_one_time_id p) (pd_notice p).

(** What [handle_incoming] does with the pending session it took out of a map. *)
Definition handle_poker {E} (src : SocketAddr) (packet : SessionPacket)
    (p : PendingEntry PendingSessionPoker) : M World E unit :=
  pending_session ← on_runtime (Poker_handle_incoming (pd_session p) src packet);
  if Poker_is_ready pending_session then
    r ← attempt (on_runtime (Poker_responder pending_session));
    match r with
    | inl session => put_responder (sp_id packet) (with_session session p)
    | inr _ => mret tt
    end
  else put_poker (sp_id packet) (with_session pending_session p).

Definition handle_initiator {E} (src : SocketAddr) (packet : SessionPacket)
    (p : PendingEntry PendingSessionInitiator) : M World E unit :=
  pending_session ← on_runtime (Initiator_handle_incoming (pd_session p) src packet);
  if Initiator_is_ready pending_session then
    r ← attempt (on_runtime (Initiator_session pending_session));
    match r with
    | inl (SessionOk session) =>
        log_err (upgrade_session (sp_id packet) (pd_one_time_id p) session (pd_notice p))
    | inl (SessionErr pending_session) =>
        put_initiator (sp_id packet) (with_session pending_session p)
    | inr _ => mret tt
    end
  else put_initiator (sp_id packet) (with_session pending_session p).

(** [handle_incoming] of the pending responder, which changes the responder. *)
Definition run_responder {E} (src : SocketAddr) (packet : SessionPacket)
    (p : PendingSessionResponder) : M World E PendingSessionResponder := λ w,
  let '(p', rt, r) := Responder_handle_incoming src packet (p, runtime w) in
  (log_err (lift r);; mret p') (with_runtime rt w).

Definition handle_responder {E} (src : SocketAddr) (packet : SessionPacket)
    (p : PendingEntry PendingSessionResponder) : M World E unit :=
  pending_session ← run_responder src packet (pd_session p);
  if Responder_is_ready pending_session then
    r ← attempt (on_runtime (Responder_session pending_session));
    match r with
    | inl session =>
        log_err (upgrade_session (sp_id packet) (pd_one_time_id p) session (pd_notice p))
    | inr _ => mret tt
    end
  else put_responder (sp_id packet) (with_session pending_session p).

Definition handle_established {E} (packet : SessionPacket) : M World E unit :=
  entry ← gets (λ w, established w !! sp_id packet);
  match entry with
  | Some (_, session) => log_err (on_runtime (Session_handle_incoming session packet))
  | None => mret tt
  end.

(** The dispatch of a packet that was read: the pending sessions first. *)
Definition dispatch {E} (src : SocketAddr) (packet : SessionPacket) : M World E unit :=
  poker ← take_poker (sp_id packet);
  match poker with
  | Some p => handle_poker src packet p
  | None =>
  initiator ← take_initiator (sp_id packet);
  match initiator with
  | Some p => handle_initiator src packet p
  | None =>
  responder ← take_responder (sp_id packet);
  match responder with
  | Some p => handle_responder src packet p
  | None => handle_established packet
  end end end.

Definition handle_incoming (src : SocketAddr) (data : bytes) : M World Error unit :=
  packet ← lift (ok_or BincodeError (deserialize data));
  dispatch src packet.

(** *** Established sessions *)

Definition send (id : SessionId) (data : bytes) : M World Error unit :=
  entry ← gets (λ w, established w !! id);
  match entry with
  | Some (_, session) => on_runtime (Session_send session data)
  | None => lift (Err (Anyhow "SessionId {id} is not in established sessions"))
  end.

(** [fresh] is the identifier drawn for the future. *)
Definition recv_from {E} (id : SessionId) (fresh : N) : M World E (option Receiving) :=
  entry ← gets (λ w, established w !! id);
  match entry with
  | None => mret None
  | Some (_, session) =>
      is_dead ← on_runtime (Session_is_dead session);
      if is_dead : bool
      then delete_established id;; mret None
      else on_runtime (Session_recv session fresh)
  end.

Definition remote_addr {E} (id : SessionId) : M World E (option SocketAddr) :=
  entry ← gets (λ w, established w !! id);
  mret ((λ e, s_remote_addr (snd e)) <$> entry).

(** *** Removal *)

(** Whether an entry with the identifier [current] is to go: every entry, or only
    that of the connection that is closing. *)
Definition matches (one_time_id : option OneTimeId) (current : OneTimeId) : bool :=
  match one_time_id with Some o => bool_decide (o = current) | None => true end.

Definition remove_established {E} (id : SessionId) (one_time_id : option OneTimeId)
    : M World E unit :=
  entry ← gets (λ w, established w !! id);
  match entry with
  | Some (current, _) =>
      if matches one_time_id current then delete_established id else mret tt
  | None => mret tt
  end.

Definition remove_responder {E} (id : SessionId) (one_time_id : option OneTimeId)
    : M World E unit :=
  entry ← gets (λ w, responders w !! id);
  match entry with
  | Some p =>
      if matches one_time_id (pd_one_time_id p)
      then take_responder id;; on_runtime (Responder_abort (pd_session p)) else mret tt
  | None => mret tt
  end.

Definition remove_poker {E} (id : SessionId) (one_time_id : option OneTimeId)
    : M World E unit :=
  entry ← gets (λ w, pokers w !! id);
  match entry with
  | Some p =>
      if matches one_time_id (pd_one_time_id p)
      then take_poker id;; on_runtime (Poker_abort (pd_session p)) else mret tt
  | None => mret tt
  end.

Definition remove_initiator {E} (id : SessionId) (one_time_id : option OneTimeId)
    : M World E unit :=
  entry ← gets (λ w, initiators w !! id);
  match entry with
  | Some p =>
      if matches one_time_id (pd_one_time_id p)
      then take_initiator id;; on_runtime (Initiator_abort (pd_session p)) else mret tt
  | None => mret tt
  end.

Definition remove_session {E} (id : SessionId) (one_time_id : option OneTimeId)
    : M World E unit :=
  remove_established id one_time_id;;
  remove_responder id one_time_id;;
  remove_poker id one_time_id;;
  remove_initiator id one_time_id.

(** The removal runs in a task of its own. *)
Definition close_session {E} (id : SessionId) (one_time_id : OneTimeId) : M World E unit :=
  modify (λ w, with_closers (closers w ++ [(id, one_time_id)]) w).

Definition run_closer {E} (k : nat) : M World E unit :=
  l ← gets closers;
  match l !! k with
  | Some (id, one_time_id) =>
      modify (with_closers (delete k l));; remove_session id (Some one_time_id)
  | None => mret tt
  end.

(** *** Connecting *)

(** [Arc::new(Mutex::new(vec![]))] and [broadcast::channel(10)] *)
Definition new_notice {E} : M World E N :=
  l ← on_runtime alloc;
  modify (λ w, with_notices (<[l := mkNotice (bc_channel 10) []]> (notices w)) w);;
  mret l.

Definition SessionReady_new (id : SessionId) (one_time_id : OneTimeId) (notice : N)
    : SessionReady := mkSessionReady id one_time_id notice false false.

(** [rng] is the randomness of the handshake, [one_time_id] the identifier drawn. *)
Definition initiate (rng : N) (one_time_id : OneTimeId) (id : SessionId)
    (info : ConnectionInfo) : M World Error SessionReady :=
  remove_session id None;;
  keys ← gets keypair_;
  initiator ← lift (SnowInitiator_new rng keys (public_key info));
  pending ← on_runtime (PendingSessionInitiator_new id (addresses info) initiator);
  notice ← new_notice;
  put_initiator id (mkPending pending one_time_id notice);;
  mret (SessionReady_new id one_time_id notice).

Definition respond (rng : N) (one_time_id : OneTimeId) (id : SessionId)
    (info : ConnectionInfo) : M World Error SessionReady :=
  remove_session id None;;
  keys ← gets keypair_;
  responder ← lift (SnowResponder_new rng keys (public_key info));
  poking ← on_runtime (PendingSessionPoker_new id (addresses info) responder);
  notice ← new_notice;
  put_poker id (mkPending poking one_time_id notice);;
  mret (SessionReady_new id one_time_id notice).

(** *** The future [initiate] and [respond] return *)

Definition ready_try_recv {E} (r : SessionReady) : M World E bool :=
  on_notice (sr_notice r) (λ n,
    let '(b, ok) := bc_try_recv (nt_channel n) in (mkNotice b (nt_wakers n), Ok ok)).

Definition ready_add_waker {E} (r : SessionReady) (waker : Waker) : M World E SessionReady :=
  if sr_added_waker r then mret r else
  on_notice (sr_notice r)
    (modify (λ n, mkNotice (nt_channel n) (nt_wakers n ++ [waker])));;
  mret (mkSessionReady (sr_id r) (sr_one_time_id r) (sr_notice r) true (sr_completed r)).

Definition SessionReady_poll {E} (r : SessionReady) (waker : Waker)
    : M World E (SessionReady * Poll (SessionId * OneTimeId)) :=
  ok ← ready_try_recv r;
  if ok : bool
  then mret (mkSessionReady (sr_id r) (sr_one_time_id r) (sr_notice r) (sr_added_waker r) true,
             Ready (sr_id r, sr_one_time_id r))
  else r ← ready_add_waker r waker; mret (r, PollPending).

(** [impl Drop], and the drop of the receiver that follows. *)
Definition SessionReady_drop {E} (r : SessionReady) : M World E unit :=
  (if sr_completed r then mret tt else close_session (sr_id r) (sr_one_time_id r));;
  on_notice (sr_notice r)
    (modify (λ n, mkNotice (bc_drop_receiver (nt_channel n)) (nt_wakers n))).
End handler.
