(* ===== verification/Table.v ===== *)
(** * The table of connections

    The four maps of a handler hold at most one entry per identifier: they implement
    one table from identifiers to connection states.  This file defines the table,
    what it means for it to be consistent with the runtime (every task and every live
    session is owned by an entry), and the moves that keep it consistent. *)

From S2P Require Import Prelude Std Externals SnowTypes Session SessionFacts Handler.

(** ** The table *)

Inductive Slot `{Crates} :=
  | SPoker (p : PendingEntry PendingSessionPoker)
  | SInitiator (p : PendingEntry PendingSessionInitiator)
  | SResponder (p : PendingEntry PendingSessionResponder)
  | SEstablished (one_time_id : OneTimeId) (s : Session).
#[global] Arguments SPoker {_}.
#[global] Arguments SInitiator {_}.
#[global] Arguments SResponder {_}.
#[global] Arguments SEstablished {_}.

Abbreviation Table := (gmap SessionId Slot).

(** The four maps of [w] are the entries of [T] of each kind. *)
Record represents `{Crates} (w : World) (T : Table) : Prop := {
  rep_poker id p : pokers w !! id = Some p ↔ T !! id = Some (SPoker p);
  rep_initiator id p : initiators w !! id = Some p ↔ T !! id = Some (SInitiator p);
  rep_responder id p : responders w !! id = Some p ↔ T !! id = Some (SResponder p);
  rep_established id o s : established w !! id = Some (o, s) ↔ T !! id = Some (SEstablished o s);
}.

(** What can happen to the runtime while the table stays as it is: tasks end,
    sessions die; nothing is created or revived. *)
Record evolves `{Crates} (rt rt' : Runtime) : Prop := {
  ev_tasks l t : tasks rt' !! l = Some t → tasks rt !! l = Some t;
  ev_next : (next_loc rt ≤ next_loc rt')%N;
  ev_cores l : is_Some (cores rt !! l) ↔ is_Some (cores rt' !! l);
  ev_alive l c' : cores rt' !! l = Some c' → dead c' = false →
    ∃ c, cores rt !! l = Some c ∧ dead c = false;
}.

#[export] Instance evolves_preorder `{Crates} : PreOrder evolves.
Proof.
  split.
  - intros rt. split; [done|lia|done|by eauto].
  - intros rt1 rt2 rt3 [H1 H2 H3 H4] [H1' H2' H3' H4']. split.
    + auto.
    + lia.
    + intros l. by rewrite H3.
    + intros l c' Hc' Hd. destruct (H4' _ _ Hc' Hd) as (c & Hc & Hd'). eauto.
Qed.

(** ** Operations that create nothing *)

Create HintDb quiet.

Section quiet.
Context `{Crates}.

Definition quiet {E A} (m : M Runtime E A) : Prop := ∀ rt, evolves rt (m rt).1.

(** A step on the shared state of a session that does not revive it. *)
Definition keeps_dead {E A} (m : M SessionCore E A) : Prop :=
  ∀ c, dead c = true → dead (m c).1 = true.

Lemma quiet_bind {E A B} (m : M Runtime E A) (f : A → M Runtime E B) :
  quiet m → (∀ a, quiet (f a)) → quiet (m ≫= f).
Proof.
  intros Hm Hf rt. apply (M_bind_preserves (evolves rt)); [apply Hm|].
  intros rt1 a Heq. specialize (Hm rt). rewrite Heq in Hm. etrans; [exact Hm|apply Hf].
Qed.

Lemma quiet_ret {E A} (a : A) : quiet (mret (M := M Runtime E) a).
Proof. by intros rt. Qed.

Lemma quiet_lift {E A} (o : outcome E A) : quiet (lift o).
Proof. by intros rt. Qed.

Lemma quiet_if {E A} (b : bool) (m1 m2 : M Runtime E A) :
  quiet m1 → quiet m2 → quiet (if b then m1 else m2).
Proof. by destruct b. Qed.

Lemma quiet_on_core {E A} l (m : M SessionCore E A) : keeps_dead m → quiet (on_core l m).
Proof.
  intros Hm rt. unfold on_core. destruct (cores rt !! l) as [c|] eqn:Hc; [|done].
  specialize (Hm c). destruct (m c) as [c' r]. simpl in *. split; simpl; [done|lia| |].
  - intros k. destruct (decide (k = l)) as [->|Hne].
    + rewrite lookup_insert_eq, Hc. by split; eauto.
    + by rewrite lookup_insert_ne.
  - intros k d. destruct (decide (k = l)) as [->|Hne].
    + rewrite lookup_insert_eq. intros [= <-] Hd. exists c. split; [done|].
      destruct (dead c); [|done]. by rewrite Hm in Hd.
    + rewrite lookup_insert_ne by done. eauto.
Qed.

Lemma quiet_abort {E} l : quiet (abort (E := E) l).
Proof.
  intros rt. split; simpl; [|lia|done|by eauto].
  intros k t. rewrite lookup_delete_Some. by intros [].
Qed.

Lemma quiet_woken {E} (f : list Waker → list Waker) :
  quiet (modify (E := E) (λ rt, with_woken (f (woken rt)) rt)).
Proof. intros rt. split; simpl; [done|lia|done|by eauto]. Qed.

Lemma quiet_wake {E} w : quiet (wake (E := E) w).
Proof. apply (quiet_woken (λ l, l ++ [w])). Qed.

Lemma quiet_wake_all {E} ws : quiet (wake_all (E := E) ws).
Proof. apply (quiet_woken (λ l, l ++ ws)). Qed.

Lemma quiet_wake_option {E} w : quiet (wake_option (E := E) w).
Proof. destruct w; [apply quiet_wake|apply quiet_ret]. Qed.

Lemma quiet_send_out dest p ttl : quiet (send_out dest p ttl).
Proof.
  intros rt. unfold send_out. destruct (chan_send _ _) as [c sent].
  split; simpl; [done|lia|done|by eauto].
Qed.

Lemma quiet_log_err {E F} (m : M Runtime E unit) : quiet m → quiet (log_err (F := F) m).
Proof.
  intros Hm rt. specialize (Hm rt). unfold log_err. by destruct (m rt) as [rt' []].
Qed.

Lemma quiet_attempt {E F A} (m : M Runtime E A) : quiet m → quiet (attempt (F := F) m).
Proof.
  intros Hm rt. specialize (Hm rt). unfold attempt. by destruct (m rt) as [rt' []].
Qed.

Lemma keeps_dead_gets {E A} (f : SessionCore → A) : keeps_dead (gets (E := E) f).
Proof. by intros c. Qed.

Lemma keeps_dead_modify {E} f :
  (∀ c, dead c = true → dead (f c) = true) → keeps_dead (modify (E := E) f).
Proof. by intros Hf c Hd; apply Hf. Qed.

Lemma keeps_dead_get_transport {E A} (m : M LossyTransportState E A) :
  keeps_dead (get_transport m).
Proof. intros c Hd. unfold get_transport, zoom. by destruct (m _). Qed.

Lemma keeps_dead_queue_message d : keeps_dead (queue_message d).
Proof. intros c Hd. unfold queue_message. by destruct (chan_send _ _). Qed.

Lemma keeps_dead_pop_waker {E} : keeps_dead (pop_waker (E := E)).
Proof. intros c Hd. unfold pop_waker. by destruct (map_pop_first _). Qed.
End quiet.

#[export] Hint Resolve quiet_bind quiet_ret quiet_lift quiet_if quiet_on_core quiet_abort
  quiet_wake quiet_wake_all quiet_wake_option quiet_send_out quiet_log_err
  quiet_attempt   keeps_dead_gets keeps_dead_modify keeps_dead_get_transport keeps_dead_queue_message
  keeps_dead_pop_waker : quiet.

(** Prove a computation quiet by its structure. *)
Ltac solve_quiet :=
  repeat first
    [ progress intros
    | progress (eauto 3 with quiet)
    | apply quiet_bind | apply quiet_if | apply quiet_on_core
    | apply quiet_attempt | apply quiet_log_err
    | case_match ].

Section quiet_operations.
Context `{Crates}.

Lemma quiet_Session_close {E} s : quiet (Session_close (E := E) s).
Proof. unfold Session_close. solve_quiet. Qed.

Lemma quiet_Session_is_dead {E} s : quiet (Session_is_dead (E := E) s).
Proof. unfold Session_is_dead. solve_quiet. Qed.

Lemma quiet_Session_recv {E} s fresh : quiet (Session_recv (E := E) s fresh).
Proof. unfold Session_recv, Session_is_dead. solve_quiet. Qed.

Lemma quiet_Session_send s d : quiet (Session_send s d).
Proof. unfold Session_send, Session_is_dead. solve_quiet. Qed.

Lemma quiet_Session_handle_incoming s p : quiet (Session_handle_incoming s p).
Proof. unfold Session_handle_incoming. solve_quiet. Qed.

Lemma quiet_Receiving_poll {E} r w : quiet (Receiving_poll (E := E) r w).
Proof.
  unfold Receiving_poll, poll_dead, poll_try_recv, poll_wakers. solve_quiet.
  intros c Hd. by destruct (chan_try_recv _).
Qed.

Lemma quiet_send_each {E} addrs p : quiet (send_each (E := E) addrs p).
Proof. induction addrs; simpl; solve_quiet. Qed.

Lemma quiet_keepalive_tick {E} id addr core : quiet (keepalive_tick (E := E) id addr core).
Proof. unfold keepalive_tick, keepalive_send. solve_quiet. Qed.

Lemma quiet_heartbeat_tick {E} core : quiet (heartbeat_tick (E := E) core).
Proof. unfold heartbeat_tick. solve_quiet. Qed.

Lemma quiet_task_tick t : quiet (task_tick t).
Proof.
  pose proof (@quiet_send_each Error).
  destruct t; simpl; first [apply quiet_keepalive_tick | apply quiet_heartbeat_tick |
    unfold handshake_tick; solve_quiet].
Qed.

Lemma quiet_run_task l : quiet (run_task l).
Proof.
  intros rt. unfold run_task. destruct (tasks rt !! l) as [t|]; [|done].
  pose proof (quiet_task_tick t rt) as Ht. destruct (task_tick t rt) as [rt1 []]; simpl in *;
    try (etrans; [exact Ht|apply (quiet_abort (E := Error))]).
  destruct a; [done|]. etrans; [exact Ht|apply (quiet_abort (E := Error))].
Qed.
End quiet_operations.

(** ** Consistency of the table with the runtime *)

Section consistency.
Context `{Crates}.
Implicit Types (T : Table) (rt : Runtime) (ns : gmap N Notice).

(** What holds of an entry: its identifier is its key, what it points to exists, a
    pending session waits for its message, and its waker is not set. *)
Definition slot_ok rt ns (id : SessionId) (sl : Slot) : Prop :=
  match sl with
  | SPoker p => psp_id (pd_session p) = id ∧ psp_waker (pd_session p) = None ∧
      psp_working_remote_addr (pd_session p) = None ∧ is_Some (ns !! pd_notice p)
  | SInitiator p => psi_id (pd_session p) = id ∧ psi_waker (pd_session p) = None ∧
      psi_working_remote_addr (pd_session p) = None ∧ is_Some (ns !! pd_notice p)
  | SResponder p => psr_id (pd_session p) = id ∧ psr_waker (pd_session p) = None ∧
      psr_ready (pd_session p) = false ∧ is_Some (ns !! pd_notice p)
  | SEstablished _ s => s_id s = id ∧ is_Some (cores rt !! s_core s)
  end.

(** A retransmission task belongs to the pending session with its handle; the tasks
    of a session have its shared state. *)
Definition task_ok T rt (l : N) (t : Task) : Prop :=
  match t with
  | PokeTask id _ => ∃ p, T !! id = Some (SPoker p) ∧ psp_handle (pd_session p) = l
  | InitiateTask id _ _ => ∃ p, T !! id = Some (SInitiator p) ∧ psi_handle (pd_session p) = l
  | RespondTask id _ _ => ∃ p, T !! id = Some (SResponder p) ∧ psr_handle (pd_session p) = l
  | KeepaliveTask _ _ core => is_Some (cores rt !! core)
  | HeartbeatTask core => is_Some (cores rt !! core)
  end.

Record table_ok T rt ns : Prop := {
  to_slot id sl : T !! id = Some sl → slot_ok rt ns id sl;
  to_task l t : tasks rt !! l = Some t → (l < next_loc rt)%N ∧ task_ok T rt l t;
  (** A session that is alive is in the table. *)
  to_core l c : cores rt !! l = Some c → (l < next_loc rt)%N ∧
    (dead c = false → ∃ id o s, T !! id = Some (SEstablished o s) ∧ s_core s = l);
  to_inj id1 id2 o1 o2 s1 s2 :
    T !! id1 = Some (SEstablished o1 s1) → T !! id2 = Some (SEstablished o2 s2) →
    s_core s1 = s_core s2 → id1 = id2;
}.

Lemma table_ok_empty keys : table_ok ∅ (runtime (Handler_new keys)) ∅.
Proof. split; intros *; by rewrite ?lookup_empty. Qed.

Lemma slot_ok_cores rt rt' ns id sl :
  (∀ l, is_Some (cores rt !! l) → is_Some (cores rt' !! l)) →
  slot_ok rt ns id sl → slot_ok rt' ns id sl.
Proof. destruct sl; simpl; naive_solver. Qed.

Lemma slot_ok_notices rt ns ns' id sl :
  (∀ l, is_Some (ns !! l) → is_Some (ns' !! l)) →
  slot_ok rt ns id sl → slot_ok rt ns' id sl.
Proof. destruct sl; simpl; naive_solver. Qed.

Lemma task_ok_cores T rt rt' l t :
  (∀ l, is_Some (cores rt !! l) → is_Some (cores rt' !! l)) →
  task_ok T rt l t → task_ok T rt' l t.
Proof. destruct t; simpl; naive_solver. Qed.

Lemma table_ok_evolves T rt rt' ns :
  evolves rt rt' → table_ok T rt ns → table_ok T rt' ns.
Proof.
  intros [Et En Ec Ea] [Hs Ht Hc Hi]. split.
  - intros id sl ?. eapply slot_ok_cores; [|by apply Hs]. by intros l; rewrite Ec.
  - intros l t Hl%Et. destruct (Ht _ _ Hl). split; [lia|].
    eapply task_ok_cores; [|done]. by intros k; rewrite Ec.
  - intros l c' Hl. split.
    + destruct (proj2 (Ec l)) as [c Hl']; [by eexists|]. destruct (Hc l c Hl'). lia.
    + intros Hd. destruct (Ea _ _ Hl Hd) as (c & Hl' & Hd'). by apply (Hc l c).
  - done.
Qed.

Lemma table_ok_notices T rt ns ns' :
  (∀ l, is_Some (ns !! l) → is_Some (ns' !! l)) → table_ok T rt ns → table_ok T rt ns'.
Proof. intros Hn [Hs Ht Hc Hi]. split; eauto using slot_ok_notices. Qed.

(** The entry has let go of its task, or its session is dead. *)
Definition released rt (sl : Slot) : Prop :=
  match sl with
  | SPoker p => tasks rt !! psp_handle (pd_session p) = None
  | SInitiator p => tasks rt !! psi_handle (pd_session p) = None
  | SResponder p => tasks rt !! psr_handle (pd_session p) = None
  | SEstablished _ s => ∀ c, cores rt !! s_core s = Some c → dead c = true
  end.

Lemma table_ok_delete T rt ns id sl :
  T !! id = Some sl → released rt sl → table_ok T rt ns → table_ok (delete id T) rt ns.
Proof.
  intros Hid Hrel [Hs Ht Hc Hi]. split.
  - intros id' sl' [_ ?]%lookup_delete_Some. auto.
  - intros l t Hl. destruct (Ht _ _ Hl) as [Hlt Hok]. split; [done|].
    destruct t; simpl in *; try done; destruct Hok as (p & Hp & Hh); exists p;
      (split; [|done]); apply lookup_delete_Some; (split; [|done]);
      intros <-; rewrite Hp in Hid; simplify_eq; simpl in Hrel; congruence.
  - intros l c Hl. destruct (Hc _ _ Hl) as [Hlt Hown]. split; [done|]. intros Hd.
    destruct (Hown Hd) as (id' & o & s & Hid' & Hsl). exists id', o, s. split; [|done].
    apply lookup_delete_Some. split; [|done]. intros <-. rewrite Hid' in Hid. simplify_eq.
    simpl in Hrel. rewrite (Hrel c Hl) in Hd. done.
  - intros id1 id2 o1 o2 s1 s2 [_ H1]%lookup_delete_Some [_ H2]%lookup_delete_Some. eauto.
Qed.

Lemma table_ok_insert_pending T rt ns id sl :
  T !! id = None → slot_ok rt ns id sl → (∀ o s, sl ≠ SEstablished o s) →
  table_ok T rt ns → table_ok (<[id := sl]> T) rt ns.
Proof.
  intros Hid Hsl Hp [Hs Ht Hc Hi].
  assert (∀ id' o s, <[id := sl]> T !! id' = Some (SEstablished o s) →
    T !! id' = Some (SEstablished o s)) as Hest.
  { intros id' o s [[? ?]|[_ ?]]%lookup_insert_Some; [by destruct (Hp o s)|done]. }
  assert (∀ id' sl', T !! id' = Some sl' → <[id := sl]> T !! id' = Some sl') as Hkeep.
  { intros id' sl' ?. rewrite lookup_insert_ne; [done|]. by intros ->; simplify_eq. }
  split.
  - intros id' sl' [[<- <-]|[_ ?]]%lookup_insert_Some; [done|auto].
  - intros l t Hl. destruct (Ht _ _ Hl) as [Hlt Hok]. split; [done|].
    destruct t; simpl in *; naive_solver.
  - intros l c Hl. destruct (Hc _ _ Hl) as [Hlt Hown]. split; [done|]. naive_solver.
  - eauto.
Qed.

(** A pending responder whose transport moved on keeps its task. *)
Lemma table_ok_transport T rt ns id p t :
  T !! id = Some (SResponder p) → table_ok T rt ns →
  table_ok (<[id := SResponder (with_session (with_psr_transport t (pd_session p)) p)]> T) rt ns.
Proof.
  intros Hid [Hs Ht Hc Hi].
  assert (∀ id' o s, T !! id' = Some (SEstablished o s) → id' ≠ id) as Hne.
  { intros id' o s Hid' ->. congruence. }
  split.
  - intros id' sl [[<- <-]|[_ ?]]%lookup_insert_Some; [apply (Hs _ _ Hid)|auto].
  - intros l t' Hl. destruct (Ht _ _ Hl) as [Hlt Hok]. split; [done|].
    destruct t' as [i|i|i| |]; simpl in *; try done; destruct Hok as (q & Hq & Hh);
      (destruct (decide (id = i)) as [<-|]; [|exists q; by rewrite lookup_insert_ne]);
      rewrite Hq in Hid; simplify_eq. by eexists; rewrite lookup_insert_eq.
  - intros l c Hl. destruct (Hc _ _ Hl) as [Hlt Hown]. split; [done|]. intros Hd.
    destruct (Hown Hd) as (id' & o & s & Hid' & Hsl). exists id', o, s.
    rewrite lookup_insert_ne; [done|]. by apply not_eq_sym, (Hne _ _ _ Hid').
  - intros id1 id2 o1 o2 s1 s2 [[<- ?]|[_ H1]]%lookup_insert_Some
      [[<- ?]|[_ H2]]%lookup_insert_Some; simplify_eq; eauto.
Qed.

Definition spawned rt (t : Task) : Runtime :=
  with_tasks (<[next_loc rt := t]> (tasks rt)) (with_next_loc (next_loc rt + 1) rt).

Lemma table_ok_spawned T rt ns t :
  task_ok T rt (next_loc rt) t → table_ok T rt ns → table_ok T (spawned rt t) ns.
Proof.
  intros Hok [Hs Ht Hc Hi]. split; simpl; [done| | |done].
  - intros l t' [[<- <-]|[_ Hl]]%lookup_insert_Some; [split; [lia|done]|].
    destruct (Ht _ _ Hl). split; [lia|done].
  - intros l c Hl. destruct (Hc _ _ Hl). split; [lia|done].
Qed.

(** The runtime with the shared state of a new session. *)
Definition with_new_core (t : LossyTransportState) rt : Runtime :=
  with_cores (<[next_loc rt := mkSessionCore t true false ∅ chan_new]> (cores rt))
    (with_next_loc (next_loc rt + 1) rt).

Lemma table_ok_establish T rt ns id o addr t :
  T !! id = None → table_ok T rt ns →
  table_ok (<[id := SEstablished o (mkSession id addr (next_loc rt))]> T) (with_new_core t rt) ns.
Proof.
  intros Hid [Hs Ht Hc Hi].
  assert (cores rt !! next_loc rt = None) as Hfresh.
  { destruct (cores rt !! next_loc rt) as [c|] eqn:Hl; [|done].
    destruct (Hc _ _ Hl). lia. }
  assert (∀ l, is_Some (cores rt !! l) → is_Some (cores (with_new_core t rt) !! l)) as Hmono.
  { intros l [c Hl]. simpl. rewrite lookup_insert_ne; [by eexists|]. congruence. }
  assert (∀ id' o s, T !! id' = Some (SEstablished o s) → s_core s ≠ next_loc rt) as Hold.
  { intros id' o' s Hid' Heq. destruct (Hs _ _ Hid') as [_ [c Hl]]. congruence. }
  split.
  - intros id' sl' [[<- <-]|[_ ?]]%lookup_insert_Some; [|by eapply slot_ok_cores; eauto].
    simpl. by rewrite lookup_insert_eq.
  - intros l t' Hl. destruct (Ht _ _ Hl) as [Hlt Hok]. simpl. split; [lia|].
    eapply task_ok_cores in Hok; [|exact Hmono].
    assert (∀ id' sl, T !! id' = Some sl → id' ≠ id) by (intros ? ? ? ->; congruence).
    destruct t'; simpl in *; try done; destruct Hok as (p & Hp & Hh); exists p;
      (split; [|done]); rewrite lookup_insert_ne by naive_solver; done.
  - intros l c. simpl. intros [[<- <-]|[Hne Hl]]%lookup_insert_Some.
    + split; [lia|]. intros _. exists id, o, (mkSession id addr (next_loc rt)).
      by rewrite lookup_insert_eq.
    + destruct (Hc _ _ Hl) as [Hlt Hown]. split; [lia|]. intros Hd.
      destruct (Hown Hd) as (id' & o' & s & Hid' & <-). exists id', o', s. split; [|done].
      rewrite lookup_insert_ne; [done|]. congruence.
  - intros id1 id2 o1 o2 s1 s2 [[<- ?]|[_ H1]]%lookup_insert_Some
      [[<- ?]|[_ H2]]%lookup_insert_Some Heq; simplify_eq/=; [done| | |by eauto].
    + by destruct (Hold _ _ _ H2).
    + by destruct (Hold _ _ _ H1).
Qed.
End consistency.
