(* ===== verification/HandlerFacts.v ===== *)
(** * What the operations of a handler do

    Equations of the operations of [Handler] branch by branch, and the proof that
    each keeps its four maps a consistent table of connections. *)

From S2P Require Import Prelude Std Externals SnowTypes Transport Session SessionFacts Handler Table.

(** ** The maps and the table *)

Section represents.
Context `{Crates}.
Implicit Types (w : World) (T : Table).

(** The maps are the table, which is consistent with the runtime. *)
Definition world_ok w T : Prop :=
  represents w T ∧ table_ok T (runtime w) (notices w).

Lemma represents_same w w' T :
  pokers w' = pokers w → initiators w' = initiators w → responders w' = responders w →
  established w' = established w → represents w T → represents w' T.
Proof. intros H1 H2 H3 H4 [R1 R2 R3 R4]. split; by rewrite ?H1, ?H2, ?H3, ?H4. Qed.

Lemma represents_empty keys : represents (Handler_new keys) ∅.
Proof. split; intros *; simpl; by rewrite !lookup_empty. Qed.

Lemma represents_None w T id :
  represents w T → T !! id = None →
  pokers w !! id = None ∧ initiators w !! id = None ∧ responders w !! id = None ∧
  established w !! id = None.
Proof.
  intros [R1 R2 R3 R4] Hid. split_and!; apply eq_None_not_Some.
  - intros [p Hp%R1]. congruence.
  - intros [p Hp%R2]. congruence.
  - intros [p Hp%R3]. congruence.
  - intros [[o s] Hp%R4]. congruence.
Qed.

(** An entry of one kind excludes the others. *)
Lemma represents_Some w T id sl :
  represents w T → T !! id = Some sl →
  pokers w !! id = match sl with SPoker p => Some p | _ => None end ∧
  initiators w !! id = match sl with SInitiator p => Some p | _ => None end ∧
  responders w !! id = match sl with SResponder p => Some p | _ => None end ∧
  established w !! id = match sl with SEstablished o s => Some (o, s) | _ => None end.
Proof.
  intros [R1 R2 R3 R4] Hid. split_and!; destruct sl; simpl;
    first [ by apply R1 | by apply R2 | by apply R3 | by apply R4
          | apply eq_None_not_Some; intros [x Hx];
            first [apply R1 in Hx | apply R2 in Hx | apply R3 in Hx
                  | destruct x; apply R4 in Hx]; congruence ].
Qed.

(** A map changes as the table does, the others hold nothing at the identifier. *)
Ltac solve_represents :=
  split; simpl; intros;
  rewrite ?lookup_insert_Some, ?lookup_delete_Some;
  match goal with
  | R : ∀ _ _, pokers _ !! _ = _ ↔ _ |- context [pokers _ !! _] => rewrite R
  | R : ∀ _ _, initiators _ !! _ = _ ↔ _ |- context [initiators _ !! _] => rewrite R
  | R : ∀ _ _, responders _ !! _ = _ ↔ _ |- context [responders _ !! _] => rewrite R
  | R : ∀ _ _ _, established _ !! _ = _ ↔ _ |- context [established _ !! _] => rewrite R
  end; naive_solver.

Lemma represents_insert_poker w T id p :
  represents w T → T !! id = None →
  represents (with_pokers (<[id := p]> (pokers w)) w) (<[id := SPoker p]> T).
Proof. intros [R1 R2 R3 R4] Hid. solve_represents. Qed.

Lemma represents_insert_initiator w T id p :
  represents w T → T !! id = None →
  represents (with_initiators (<[id := p]> (initiators w)) w) (<[id := SInitiator p]> T).
Proof. intros [R1 R2 R3 R4] Hid. solve_represents. Qed.

Lemma represents_insert_responder w T id p :
  represents w T → T !! id = None →
  represents (with_responders (<[id := p]> (responders w)) w) (<[id := SResponder p]> T).
Proof. intros [R1 R2 R3 R4] Hid. solve_represents. Qed.

Lemma represents_insert_established w T id o s :
  represents w T → T !! id = None →
  represents (with_established (<[id := (o, s)]> (established w)) w)
    (<[id := SEstablished o s]> T).
Proof. intros [R1 R2 R3 R4] Hid. solve_represents. Qed.

Lemma represents_delete_poker w T id p :
  represents w T → T !! id = Some (SPoker p) →
  represents (with_pokers (delete id (pokers w)) w) (delete id T).
Proof. intros [R1 R2 R3 R4] Hid. solve_represents. Qed.

Lemma represents_delete_initiator w T id p :
  represents w T → T !! id = Some (SInitiator p) →
  represents (with_initiators (delete id (initiators w)) w) (delete id T).
Proof. intros [R1 R2 R3 R4] Hid. solve_represents. Qed.

Lemma represents_delete_responder w T id p :
  represents w T → T !! id = Some (SResponder p) →
  represents (with_responders (delete id (responders w)) w) (delete id T).
Proof. intros [R1 R2 R3 R4] Hid. solve_represents. Qed.

Lemma represents_delete_established w T id o s :
  represents w T → T !! id = Some (SEstablished o s) →
  represents (with_established (delete id (established w)) w) (delete id T).
Proof. intros [R1 R2 R3 R4] Hid. solve_represents. Qed.
End represents.

(** ** The handshake operations return *)

Section returning.
Context `{Crates, !CratesLaws}.

Lemma response_returns r i : returns (response r i).
Proof.
  unfold response. destruct i as [m]. destruct (hs_read_message _ _ _) as [s1 read].
  unfold_monad. destruct read; simpl; [|done].
  destruct (hs_write_message _ _ _) as [s2 written]. simpl. destruct written; simpl; [|done].
  by destruct (into_stateless_transport_mode _).
Qed.

Lemma receive_response_returns i r : returns (receive_response i r).
Proof.
  unfold receive_response. destruct r as [m]. destruct (hs_read_message _ _ _) as [s1 read].
  unfold_monad. destruct read; simpl; [|done].
  by destruct (into_stateless_transport_mode _).
Qed.

Lemma decrypt_returns sealed t : returns (decrypt sealed t).2.
Proof.
  unfold decrypt. rewrite read_message_eq.
  destruct (deserialize sealed) as [[nonce c]|]; [|done].
  destruct (window_rejects _ _); [done|].
  destruct (st_read_message _ _ _ _) as [plain|] eqn:Hread; [|done].
  apply st_read_length in Hread. unfold mbind, outcome_bind.
  by rewrite slice_to_zip_copy.
Qed.

Lemma keepalive_serialize : ∃ plain, serialize Keepalive = Some plain.
Proof. destruct (codec_roundtrip Keepalive I) as (plain & Hs & _). eauto. Qed.

(** The runtime after [Session_new]. *)
Definition session_runtime (id : SessionId) (addr : SocketAddr) (t : LossyTransportState)
    (rt : Runtime) : Runtime :=
  spawned (spawned (with_new_core t rt) (KeepaliveTask id addr (next_loc rt)))
    (HeartbeatTask (next_loc rt)).

Lemma Session_new_eq id addr t rt :
  Session_new id addr t rt =
    (session_runtime id addr t rt, Ok (mkSession id addr (next_loc rt))).
Proof.
  destruct keepalive_serialize as [plain Hs]. unfold Session_new. rewrite Hs.
  unfold alloc, spawn. by unfold_monad.
Qed.

(** An established packet is handled whatever it holds. *)
Lemma on_core_returns {E A} l (m : M SessionCore E A) rt c :
  cores rt !! l = Some c → returns (m c).2 → returns (on_core l m rt).2.
Proof. intros Hl. unfold on_core. rewrite Hl. by destruct (m c). Qed.

Lemma Session_handle_incoming_returns s p rt :
  is_Some (cores rt !! s_core s) → returns (Session_handle_incoming s p rt).2.
Proof.
  intros [c Hc]. unfold Session_handle_incoming. unfold mbind at 1, M_bind at 1, lift at 1.
  destruct (deserialize (sp_data p)) as [[| | |e]|]; simpl; try done.
  unfold mbind at 1, M_bind at 1.
  destruct (decrypt e (transport c)) as [t r] eqn:Hd.
  pose proof (decrypt_returns e (transport c)) as Hret. rewrite Hd in Hret. simpl in Hret.
  erewrite on_core_eq; [|exact Hc|by apply get_transport_eq].
  destruct r as [plain| | | |]; try done. unfold mbind at 1, M_bind at 1, lift at 1.
  destruct (deserialize plain) as [[|d]|]; simpl; try done.
  - by erewrite on_core_eq; [|apply lookup_set_core|reflexivity].
  - unfold queue_message. unfold mbind at 1, M_bind at 1.
    destruct (chan_send d (messages (with_transport t c))) as [q sent] eqn:Hq.
    erewrite on_core_eq; [|apply lookup_set_core|by rewrite Hq]. destruct sent; [|done].
    erewrite M_bind_step; [|eapply on_core_eq; [apply lookup_set_core|apply pop_waker_eq]].
    by rewrite wake_option_eq.
Qed.
End returning.

(** ** Notifications and removals *)

Section equations.
Context `{Crates, !CratesLaws}.
Implicit Types (w : World) (T : Table).

(** The world after the future of the connection was notified. *)
Definition notified (l : N) w : World :=
  match notices w !! l with
  | Some n =>
      let '(b, sent) := bc_send (nt_channel n) in
      let w' := with_notices (<[l := mkNotice b (nt_wakers n)]> (notices w)) w in
      if sent : bool
      then with_runtime (with_woken (woken (runtime w) ++ nt_wakers n) (runtime w)) w' else w'
  | None => w
  end.

Lemma notify_ready_eq {F} l w :
  is_Some (notices w !! l) → log_err (F := F) (notify_ready l) w = (notified l w, Ok tt).
Proof.
  intros [n Hn]. unfold log_err, notify_ready, notified. unfold mbind at 1, M_bind at 1.
  unfold on_notice at 1. rewrite Hn. destruct (bc_send (nt_channel n)) as [b []]; [|done].
  cbn iota beta. unfold negb. unfold mbind at 1, M_bind at 1, on_notice at 1. simpl.
  rewrite lookup_insert_eq. unfold on_runtime, zoom. simpl.
  by rewrite insert_insert_eq.
Qed.

Lemma delete_established_eq {E} id w o s c :
  established w !! id = Some (o, s) → cores (runtime w) !! s_core s = Some c →
  delete_established (E := E) id w =
    (with_runtime (set_core (s_core s) (with_dead true c) (runtime w))
       (with_established (delete id (established w)) w), Ok tt).
Proof.
  intros Hid Hc. unfold delete_established. unfold_monad. rewrite Hid. simpl.
  unfold on_runtime, Session_drop, Session_close, zoom. simpl.
  by erewrite on_core_eq; [|exact Hc|reflexivity].
Qed.

Lemma put_established_eq {E} id o s w :
  established w !! id = None →
  put_established (E := E) id o s w =
    (with_established (<[id := (o, s)]> (established w)) w, Ok tt).
Proof. intros Hid. unfold put_established. unfold_monad. by rewrite Hid. Qed.

Lemma upgrade_session_eq {F} id o s l w :
  established w !! id = None → is_Some (notices w !! l) →
  log_err (F := F) (upgrade_session id o s l) w =
    (notified l (with_established (<[id := (o, s)]> (established w)) w), Ok tt).
Proof.
  intros Hid Hl. unfold log_err, upgrade_session.
  erewrite M_bind_step by (by apply put_established_eq). by apply notify_ready_eq.
Qed.
End equations.

(** ** Dispatching a packet *)

Section dispatching.
Context `{Crates, !CratesLaws}.
Implicit Types (w : World) (T : Table) (src : SocketAddr) (packet : SessionPacket).

Definition without_poker (id : SessionId) w : World := with_pokers (delete id (pokers w)) w.
Definition without_initiator (id : SessionId) w : World :=
  with_initiators (delete id (initiators w)) w.
Definition without_responder (id : SessionId) w : World :=
  with_responders (delete id (responders w)) w.

Lemma without_poker_None id w : pokers w !! id = None → without_poker id w = w.
Proof. intros Hid. unfold without_poker. rewrite delete_id by done. by destruct w. Qed.
Lemma without_initiator_None id w : initiators w !! id = None → without_initiator id w = w.
Proof. intros Hid. unfold without_initiator. rewrite delete_id by done. by destruct w. Qed.
Lemma without_responder_None id w : responders w !! id = None → without_responder id w = w.
Proof. intros Hid. unfold without_responder. rewrite delete_id by done. by destruct w. Qed.

(** The dispatch reads the four maps in order. *)
Lemma dispatch_maps {E} src packet w :
  dispatch (E := E) src packet w =
    match pokers w !! sp_id packet with
    | Some p => handle_poker src packet p (without_poker (sp_id packet) w)
    | None => match initiators w !! sp_id packet with
      | Some p => handle_initiator src packet p (without_initiator (sp_id packet) w)
      | None => match responders w !! sp_id packet with
        | Some p => handle_responder src packet p (without_responder (sp_id packet) w)
        | None => match established w !! sp_id packet with
          | Some (_, s) => log_err (on_runtime (Session_handle_incoming s packet)) w
          | None => (w, Ok tt)
          end
        end end end.
Proof.
  unfold dispatch. erewrite M_bind_step by reflexivity.
  destruct (pokers w !! _) eqn:H1; [done|]. erewrite M_bind_step by reflexivity.
  change (with_pokers _ w) with (without_poker (sp_id packet) w).
  rewrite without_poker_None by done.
  destruct (initiators w !! _) eqn:H2; [done|]. erewrite M_bind_step by reflexivity.
  change (with_initiators _ w) with (without_initiator (sp_id packet) w).
  rewrite without_initiator_None by done.
  destruct (responders w !! _) eqn:H3; [done|].
  change (with_responders _ w) with (without_responder (sp_id packet) w).
  rewrite without_responder_None by done.
  unfold handle_established. erewrite M_bind_step by reflexivity.
  by destruct (established w !! _) as [[]|].
Qed.

(** So it reads the table. *)
Lemma dispatch_eq {E} src packet w T :
  represents w T →
  dispatch (E := E) src packet w =
    match T !! sp_id packet with
    | Some (SPoker p) => handle_poker src packet p (without_poker (sp_id packet) w)
    | Some (SInitiator p) => handle_initiator src packet p (without_initiator (sp_id packet) w)
    | Some (SResponder p) => handle_responder src packet p (without_responder (sp_id packet) w)
    | Some (SEstablished _ s) => log_err (on_runtime (Session_handle_incoming s packet)) w
    | None => (w, Ok tt)
    end.
Proof.
  intros HR. rewrite dispatch_maps. destruct (T !! sp_id packet) as [sl|] eqn:Hid.
  - destruct (represents_Some _ _ _ _ HR Hid) as (-> & -> & -> & ->). by destruct sl.
  - by destruct (represents_None _ _ _ HR Hid) as (-> & -> & -> & ->).
Qed.

(** The runtime after a task was aborted. *)
Definition aborted (l : N) (rt : Runtime) : Runtime := with_tasks (delete l (tasks rt)) rt.

Lemma aborted_evolves l rt : evolves rt (aborted l rt).
Proof. apply (quiet_abort (E := Error)). Qed.

Lemma with_session_id {A} (p : PendingEntry A) : with_session (pd_session p) p = p.
Proof. by destruct p. Qed.

(** *** A pending poker *)

Lemma handle_poker_other {E} src packet p w :
  psp_working_remote_addr (pd_session p) = None → pokers w !! sp_id packet = Some p →
  (∀ i, deserialize (sp_data packet) ≠ Some (HandshakeInitiation i)) →
  handle_poker (E := E) src packet p (without_poker (sp_id packet) w) = (w, Ok tt).
Proof.
  intros Hw Hid Hd.
  assert (∀ rt, Poker_handle_incoming (E := E) (pd_session p) src packet rt =
    (rt, Ok (pd_session p))) as Hin.
  { intros rt. unfold Poker_handle_incoming.
    destruct (deserialize _) as [[]|] eqn:Hdes; try done. by destruct (Hd i). }
  unfold handle_poker. unfold_monad. unfold on_runtime, zoom. rewrite Hin.
  unfold Poker_is_ready. rewrite Hw. simpl. rewrite with_session_id.
  unfold put_poker, modify. simpl. rewrite insert_delete_id by done. by destruct w as [[]].
Qed.

(** The pending responder an initiation makes. *)
Definition responding (loc : N) (src : SocketAddr) (p : PendingEntry PendingSessionPoker)
    (t : LossyTransportState) : PendingEntry PendingSessionResponder :=
  with_session (mkPendingSessionResponder loc src None (psp_id (pd_session p)) t false) p.

Lemma handle_poker_initiation {E} src packet p w i :
  psp_waker (pd_session p) = None →
  deserialize (sp_data packet) = Some (HandshakeInitiation i) →
  let w0 := with_runtime (aborted (psp_handle (pd_session p)) (runtime w)) w in
  handle_poker (E := E) src packet p w =
    match response (psp_responder (pd_session p)) i with
    | Ok (t, r) =>
        (with_responders (<[sp_id packet := responding (next_loc (runtime w)) src p t]> (responders w))
           (with_runtime (spawned (runtime w0) (RespondTask (psp_id (pd_session p)) src r)) w0),
         Ok tt)
    | Err _ => (w0, Ok tt)
    | _ => (w0, Panic)
    end.
Proof.
  intros Hw Hd. pose proof (response_returns (psp_responder (pd_session p)) i) as Hret.
  unfold handle_poker, Poker_handle_incoming. rewrite Hd, Hw. unfold_monad.
  unfold on_runtime, zoom, attempt, Poker_responder. simpl. unfold_monad.
  by destruct (response _ _) as [[t r]|e| | |].
Qed.

(** *** A pending initiator *)

Lemma handle_initiator_other {E} src packet p w :
  psi_working_remote_addr (pd_session p) = None → initiators w !! sp_id packet = Some p →
  (∀ r, deserialize (sp_data packet) ≠ Some (HandshakeResponse r)) →
  handle_initiator (E := E) src packet p (without_initiator (sp_id packet) w) = (w, Ok tt).
Proof.
  intros Hw Hid Hd.
  assert (∀ rt, Initiator_handle_incoming (E := E) (pd_session p) src packet rt =
    (rt, Ok (pd_session p))) as Hin.
  { intros rt. unfold Initiator_handle_incoming.
    destruct (deserialize _) as [[]|] eqn:Hdes; try done. by destruct (Hd r). }
  unfold handle_initiator. unfold_monad. unfold on_runtime, zoom. rewrite Hin.
  unfold Initiator_is_ready. rewrite Hw. simpl. rewrite with_session_id.
  unfold put_initiator, modify. simpl. rewrite insert_delete_id by done. by destruct w as [[]].
Qed.
(** The world once the session of a pending connection is established. *)
Definition connected (id : SessionId) (addr : SocketAddr) (t : LossyTransportState)
    (o : OneTimeId) (notice : N) w : World :=
  notified notice
    (with_established (<[id := (o, mkSession id addr (next_loc (runtime w)))]> (established w))
       (with_runtime (session_runtime id addr t (runtime w)) w)).

Lemma handle_initiator_response {E} src packet p w r :
  psi_waker (pd_session p) = None → psi_id (pd_session p) = sp_id packet →
  established w !! sp_id packet = None → is_Some (notices w !! pd_notice p) →
  deserialize (sp_data packet) = Some (HandshakeResponse r) →
  let w0 := with_runtime (aborted (psi_handle (pd_session p)) (runtime w)) w in
  handle_initiator (E := E) src packet p w =
    match receive_response (psi_initiator (pd_session p)) r with
    | Ok (ResponseOk t) =>
        (connected (sp_id packet) src t (pd_one_time_id p) (pd_notice p) w0, Ok tt)
    | Ok (ResponseErr i) =>
        (with_initiators (<[sp_id packet := with_session (mkPendingSessionInitiator
           (psi_handle (pd_session p)) None None (sp_id packet) i) p]> (initiators w)) w0,
         Ok tt)
    | Err _ => (w0, Ok tt)
    | _ => (w0, Panic)
    end.
Proof.
  intros Hw Hpid Hest Hn Hd w0.
  pose proof (receive_response_returns (psi_initiator (pd_session p)) r) as Hret.
  unfold handle_initiator, Initiator_handle_incoming. rewrite Hd, Hw, Hpid.
  unfold mbind at 1, M_bind at 1, on_runtime at 1, zoom at 1. unfold_monad.
  unfold on_runtime, zoom, attempt, Initiator_session. simpl. unfold_monad.
  destruct (receive_response _ _) as [[t|i]|e| | |]; simpl; try done.
  rewrite Session_new_eq. simpl. by etrans; [apply upgrade_session_eq|].
Qed.

(** *** A pending responder *)

(** What a pending responder makes of a packet: its transport afterwards, and
    whether the packet was a keepalive message. *)
Definition heard (data : bytes) (t : LossyTransportState) : LossyTransportState * bool :=
  match deserialize data with
  | Some (Encrypted e) =>
      let '(t', r) := decrypt e t in
      (t', match r with
           | Ok plain => match deserialize plain with Some Keepalive => true | _ => false end
           | _ => false
           end)
  | _ => (t, false)
  end.

Lemma Responder_handle_incoming_eq src packet p rt :
  psr_waker p = None → psr_ready p = false →
  let '(t, k) := heard (sp_data packet) (psr_transport p) in
  let p' := with_psr_transport t p in
  ∃ e, Responder_handle_incoming src packet (p, rt) =
    ((if k then with_psr_ready p' else p'), rt, Err e).
Proof.
  intros Hw Hr. unfold heard, Responder_handle_incoming. unfold_monad.
  destruct (deserialize (sp_data packet)) as [[| | |e]|]; simpl;
    try (eexists; by destruct p).
  pose proof (decrypt_returns e (psr_transport p)) as Hret.
  destruct (decrypt e (psr_transport p)) as [t [plain|err| | |]]; simpl in *; try done;
    [|by eexists].
  destruct (deserialize plain) as [[|d]|]; simpl; [|by eexists..].
  destruct p; simpl in *; subst. by eexists.
Qed.

Lemma handle_responder_eq {E} src packet p w :
  psr_waker (pd_session p) = None → psr_ready (pd_session p) = false →
  psr_id (pd_session p) = sp_id packet →
  established w !! sp_id packet = None → is_Some (notices w !! pd_notice p) →
  let '(t, k) := heard (sp_data packet) (psr_transport (pd_session p)) in
  handle_responder (E := E) src packet p w =
    ((if k
      then connected (sp_id packet) (psr_remote_addr (pd_session p)) t (pd_one_time_id p)
             (pd_notice p)
             (with_runtime (aborted (psr_handle (pd_session p)) (runtime w)) w)
      else with_responders (<[sp_id packet :=
             with_session (with_psr_transport t (pd_session p)) p]> (responders w)) w), Ok tt).
Proof.
  intros Hw Hr Hpid Hest Hn.
  pose proof (Responder_handle_incoming_eq src packet (pd_session p) (runtime w) Hw Hr) as Heq.
  destruct (heard _ _) as [t k]. destruct Heq as [e Heq].
  unfold handle_responder, run_responder. unfold mbind at 1, M_bind at 1. rewrite Heq.
  unfold_monad. destruct k; simpl.
  - unfold attempt, on_runtime, zoom, Responder_session, abort. simpl. unfold_monad.
    rewrite Session_new_eq. simpl. rewrite Hpid. by etrans; [apply upgrade_session_eq|].
  - unfold Responder_is_ready. simpl. rewrite Hr. by destruct w.
Qed.
End dispatching.

(** ** Consistency is kept *)

Section consistency.
Context `{Crates, !CratesLaws}.
Implicit Types (w : World) (T : Table) (src : SocketAddr) (packet : SessionPacket).

Lemma world_ok_runtime w T rt :
  evolves (runtime w) rt → world_ok w T → world_ok (with_runtime rt w) T.
Proof.
  intros He [HR Hok]. split; [by eapply represents_same; try exact HR|].
  by eapply table_ok_evolves.
Qed.

Lemma world_ok_quiet {E A} (m : M Runtime E A) w T :
  quiet m → world_ok w T → world_ok (on_runtime m w).1 T.
Proof.
  intros Hm Hok. specialize (Hm (runtime w)). unfold on_runtime, zoom.
  destruct (m (runtime w)) as [rt r]. by apply world_ok_runtime.
Qed.

Lemma world_ok_notices w T ns :
  (∀ l, is_Some (notices w !! l) → is_Some (ns !! l)) →
  world_ok w T → world_ok (with_notices ns w) T.
Proof.
  intros Hn [HR Hok]. split; [by eapply represents_same; try exact HR|].
  by eapply table_ok_notices.
Qed.

Lemma world_ok_closers w T l : world_ok w T → world_ok (with_closers l w) T.
Proof. intros [HR Hok]. split; [by eapply represents_same; try exact HR|done]. Qed.

Lemma is_Some_insert {A} (m : gmap N A) k x l : is_Some (m !! l) → is_Some (<[k := x]> m !! l).
Proof. intros [y Hy]. destruct (decide (k = l)) as [->|]; [rewrite lookup_insert_eq|rewrite lookup_insert_ne by done]; eauto. Qed.

Lemma world_ok_notified l w T : world_ok w T → world_ok (notified l w) T.
Proof.
  intros Hok. unfold notified. destruct (notices w !! l) as [n|] eqn:Hl; [|done].
  destruct (bc_send _) as [b sent].
  assert (world_ok (with_notices (<[l := mkNotice b (nt_wakers n)]> (notices w)) w) T) as Hok'.
  { apply world_ok_notices; [|done]. intros k. apply is_Some_insert. }
  destruct sent; [|done]. apply world_ok_runtime; [|done].
  apply (quiet_wake_all (E := Error) (nt_wakers n) (runtime w)).
Qed.

(** Removing an entry, whose task is aborted or whose session dies. *)
Lemma world_ok_delete_poker id w T p :
  T !! id = Some (SPoker p) → world_ok w T →
  world_ok (with_runtime (aborted (psp_handle (pd_session p)) (runtime w)) (without_poker id w))
    (delete id T).
Proof.
  intros Hid [HR Hok]. split.
  - eapply represents_same; [..|by eapply represents_delete_poker]; done.
  - eapply table_ok_delete; [done|apply lookup_delete_eq|].
    eapply table_ok_evolves; [apply aborted_evolves|done].
Qed.

Lemma world_ok_delete_initiator id w T p :
  T !! id = Some (SInitiator p) → world_ok w T →
  world_ok (with_runtime (aborted (psi_handle (pd_session p)) (runtime w))
    (without_initiator id w)) (delete id T).
Proof.
  intros Hid [HR Hok]. split.
  - eapply represents_same; [..|by eapply represents_delete_initiator]; done.
  - eapply table_ok_delete; [done|apply lookup_delete_eq|].
    eapply table_ok_evolves; [apply aborted_evolves|done].
Qed.

Lemma world_ok_delete_responder id w T p :
  T !! id = Some (SResponder p) → world_ok w T →
  world_ok (with_runtime (aborted (psr_handle (pd_session p)) (runtime w))
    (without_responder id w)) (delete id T).
Proof.
  intros Hid [HR Hok]. split.
  - eapply represents_same; [..|by eapply represents_delete_responder]; done.
  - eapply table_ok_delete; [done|apply lookup_delete_eq|].
    eapply table_ok_evolves; [apply aborted_evolves|done].
Qed.

Lemma world_ok_delete_established id w T o s c :
  T !! id = Some (SEstablished o s) → cores (runtime w) !! s_core s = Some c → world_ok w T →
  world_ok (with_runtime (set_core (s_core s) (with_dead true c) (runtime w))
    (with_established (delete id (established w)) w)) (delete id T).
Proof.
  intros Hid Hc [HR Hok]. split.
  - eapply represents_same; [..|by eapply represents_delete_established]; done.
  - eapply table_ok_delete; [exact Hid| |].
    + intros d. simpl. rewrite lookup_insert_eq. by intros [= <-].
    + eapply table_ok_evolves; [|done].
      pose proof (quiet_Session_close (E := Error) s (runtime w)) as Hq.
      unfold Session_close in Hq. by erewrite on_core_eq in Hq; [|exact Hc|reflexivity].
Qed.

(** A new session: its shared state, its tasks and its entry. *)
Lemma world_ok_connected id addr t o l w T :
  T !! id = None → world_ok w T →
  world_ok (connected id addr t o l w)
    (<[id := SEstablished o (mkSession id addr (next_loc (runtime w)))]> T).
Proof.
  intros Hid [HR Hok]. apply world_ok_notified. split.
  - eapply represents_same; [..|by eapply (represents_insert_established w)]; done.
  - pose proof (table_ok_establish T _ _ id o addr t Hid Hok) as Hest.
    assert (is_Some (cores (with_new_core t (runtime w)) !! next_loc (runtime w))) as Hcore.
    { simpl. rewrite lookup_insert_eq. by eexists. }
    by do 2 (apply table_ok_spawned; [done|]).
Qed.
End consistency.

(** ** The table machine *)

(** What a packet makes of the entry of its identifier; [loc] is the next location
    of the runtime. *)
Definition next_slot `{Crates} (loc : N) (src : SocketAddr) (packet : SessionPacket)
    (sl : option Slot) : option Slot :=
  match sl with
  | Some (SPoker p) =>
      match deserialize (sp_data packet) with
      | Some (HandshakeInitiation i) =>
          match response (psp_responder (pd_session p)) i with
          | Ok (t, _) => Some (SResponder (responding loc src p t))
          | _ => None
          end
      | _ => sl
      end
  | Some (SInitiator p) =>
      match deserialize (sp_data packet) with
      | Some (HandshakeResponse r) =>
          match receive_response (psi_initiator (pd_session p)) r with
          | Ok (ResponseOk _) =>
              Some (SEstablished (pd_one_time_id p) (mkSession (sp_id packet) src loc))
          | Ok (ResponseErr i) =>
              Some (SInitiator (with_session (mkPendingSessionInitiator
                (psi_handle (pd_session p)) None None (sp_id packet) i) p))
          | _ => None
          end
      | _ => sl
      end
  | Some (SResponder p) =>
      let '(t, k) := heard (sp_data packet) (psr_transport (pd_session p)) in
      if k : bool
      then Some (SEstablished (pd_one_time_id p)
             (mkSession (sp_id packet) (psr_remote_addr (pd_session p)) loc))
      else Some (SResponder (with_session (with_psr_transport t (pd_session p)) p))
  | Some (SEstablished _ _) => sl
  | None => None
  end.

Section refinement.
Context `{Crates, !CratesLaws}.
Implicit Types (w : World) (T : Table) (src : SocketAddr) (packet : SessionPacket).

(** What a packet does to a consistent world, for one kind of entry. *)
Definition step_ok src packet w T : Prop :=
  ∃ w', dispatch (E := Error) src packet w = (w', Ok tt) ∧
    world_ok w' (partial_alter (next_slot (next_loc (runtime w)) src packet) (sp_id packet) T).

Lemma partial_alter_same (f : option Slot → option Slot) id T :
  f (T !! id) = T !! id → partial_alter f id T = T.
Proof.
  intros Hf. apply map_eq. intros i. destruct (decide (id = i)) as [->|Hne].
  - by rewrite lookup_partial_alter_eq.
  - by rewrite lookup_partial_alter_ne.
Qed.

Lemma partial_alter_put (f : option Slot → option Slot) id T sl :
  f (T !! id) = Some sl → partial_alter f id T = <[id := sl]> (delete id T).
Proof.
  intros Hf. apply map_eq. intros i. destruct (decide (id = i)) as [->|Hne].
  - by rewrite lookup_partial_alter_eq, lookup_insert_eq.
  - by rewrite lookup_partial_alter_ne, lookup_insert_ne, lookup_delete_ne.
Qed.

Lemma partial_alter_drop (f : option Slot → option Slot) id T :
  f (T !! id) = None → partial_alter f id T = delete id T.
Proof.
  intros Hf. apply map_eq. intros i. destruct (decide (id = i)) as [->|Hne].
  - by rewrite lookup_partial_alter_eq, lookup_delete_eq.
  - by rewrite lookup_partial_alter_ne, lookup_delete_ne.
Qed.

Lemma step_poker src packet w T p :
  T !! sp_id packet = Some (SPoker p) → world_ok w T → step_ok src packet w T.
Proof.
  intros Hid Hok. destruct Hok as [HR Htab].
  destruct (to_slot _ _ _ Htab _ _ Hid) as (Hpid & Hw & Haddr & Hn).
  unfold step_ok. erewrite dispatch_eq by done. rewrite Hid.
  pose proof (response_returns (psp_responder (pd_session p))) as Hret.
  assert ((∃ i, deserialize (sp_data packet) = Some (HandshakeInitiation i)) ∨
    (∀ i, deserialize (sp_data packet) ≠ Some (HandshakeInitiation i))) as [[i Hd]|Hd]
    by (destruct (deserialize (sp_data packet)) as [[]|]; naive_solver).
  - pose proof (handle_poker_initiation (E := Error) src packet p
      (without_poker (sp_id packet) w) i Hw Hd) as ->.
    pose proof (world_ok_delete_poker _ _ _ _ Hid (conj HR Htab)) as [HR' Htab'].
    specialize (Hret i). destruct (response _ i) as [[t r]|e| | |] eqn:Hresp; try done.
    + eexists. split; [done|].
      rewrite (partial_alter_put _ _ _ (SResponder (responding (next_loc (runtime w)) src p t)))
        by (rewrite Hid; simpl; by rewrite Hd, Hresp).
      split.
      * eapply represents_same;
          [..|eapply represents_insert_responder; [exact HR'|apply lookup_delete_eq]]; done.
      * simpl. apply table_ok_spawned.
        { simpl. exists (responding (next_loc (runtime w)) src p t).
          rewrite Hpid, lookup_insert_eq. done. }
        apply table_ok_insert_pending; [apply lookup_delete_eq|by simpl|done|exact Htab'].
    + eexists. split; [done|].
      rewrite partial_alter_drop by (rewrite Hid; simpl; by rewrite Hd, Hresp). by split.
  - rewrite handle_poker_other; [|done|by apply HR|done]. eexists. split; [done|].
    rewrite partial_alter_same; [by split|]. rewrite Hid. simpl.
    by destruct (deserialize (sp_data packet)) as [[]|]; naive_solver.
Qed.

Lemma step_initiator src packet w T p :
  T !! sp_id packet = Some (SInitiator p) → world_ok w T → step_ok src packet w T.
Proof.
  intros Hid Hok. destruct Hok as [HR Htab].
  destruct (to_slot _ _ _ Htab _ _ Hid) as (Hpid & Hw & Haddr & Hn).
  destruct (represents_Some _ _ _ _ HR Hid) as (_ & Hlook & _ & Hest).
  unfold step_ok. erewrite dispatch_eq by done. rewrite Hid.
  pose proof (receive_response_returns (psi_initiator (pd_session p))) as Hret.
  assert ((∃ r, deserialize (sp_data packet) = Some (HandshakeResponse r)) ∨
    (∀ r, deserialize (sp_data packet) ≠ Some (HandshakeResponse r))) as [[r Hd]|Hd]
    by (destruct (deserialize (sp_data packet)) as [[]|]; naive_solver).
  - pose proof (handle_initiator_response (E := Error) src packet p
      (without_initiator (sp_id packet) w) r Hw Hpid Hest Hn Hd) as ->.
    pose proof (world_ok_delete_initiator _ _ _ _ Hid (conj HR Htab)) as Hok'.
    specialize (Hret r). destruct (receive_response _ r) as [[t|i]|e| | |] eqn:Hresp; try done.
    + eexists. split; [done|]. erewrite partial_alter_put
        by (rewrite Hid; simpl; by rewrite Hd, Hresp).
      apply (world_ok_connected _ _ _ _ _ _ _ (lookup_delete_eq _ _) Hok').
    + eexists. split; [done|]. erewrite partial_alter_put
        by (rewrite Hid; simpl; by rewrite Hd, Hresp).
      destruct Hok' as [HR' Htab']. split.
      * eapply represents_same;
          [..|eapply represents_insert_initiator; [exact HR'|apply lookup_delete_eq]]; done.
      * apply table_ok_insert_pending; [apply lookup_delete_eq|by simpl|done|exact Htab'].
    + eexists. split; [done|].
      by rewrite partial_alter_drop by (rewrite Hid; simpl; by rewrite Hd, Hresp).
  - rewrite handle_initiator_other by done. eexists. split; [done|].
    rewrite partial_alter_same; [by split|]. rewrite Hid. simpl.
    by destruct (deserialize (sp_data packet)) as [[]|]; naive_solver.
Qed.

Lemma step_responder src packet w T p :
  T !! sp_id packet = Some (SResponder p) → world_ok w T → step_ok src packet w T.
Proof.
  intros Hid Hok. destruct Hok as [HR Htab].
  destruct (to_slot _ _ _ Htab _ _ Hid) as (Hpid & Hw & Hready & Hn).
  destruct (represents_Some _ _ _ _ HR Hid) as (_ & _ & Hlook & Hest).
  unfold step_ok. erewrite dispatch_eq by done. rewrite Hid.
  pose proof (handle_responder_eq (E := Error) src packet p
    (without_responder (sp_id packet) w) Hw Hready Hpid Hest Hn) as Heq.
  destruct (heard (sp_data packet) (psr_transport (pd_session p))) as [t k] eqn:Hheard.
  rewrite Heq. eexists. split; [done|].
  pose proof (world_ok_delete_responder _ _ _ _ Hid (conj HR Htab)) as Hok'.
  destruct k.
  - erewrite partial_alter_put by (rewrite Hid; simpl; by rewrite Hheard).
    apply (world_ok_connected _ _ _ _ _ _ _ (lookup_delete_eq _ _) Hok').
  - assert (partial_alter (next_slot (next_loc (runtime w)) src packet) (sp_id packet) T =
      <[sp_id packet := SResponder (with_session (with_psr_transport t (pd_session p)) p)]> T)
      as ->.
    { erewrite partial_alter_put by (rewrite Hid; simpl; by rewrite Hheard).
      by rewrite insert_delete_eq. }
    split.
    + destruct Hok' as [HR' _]. rewrite <- (insert_delete_eq T).
      eapply represents_same;
        [..|eapply represents_insert_responder; [exact HR'|apply lookup_delete_eq]]; done.
    + by eapply table_ok_transport.
Qed.

Lemma step_established src packet w T o s :
  T !! sp_id packet = Some (SEstablished o s) → world_ok w T → step_ok src packet w T.
Proof.
  intros Hid Hok. pose proof Hok as [HR Htab].
  destruct (to_slot _ _ _ Htab _ _ Hid) as (_ & Hcore).
  unfold step_ok. erewrite dispatch_eq by done. rewrite Hid.
  rewrite partial_alter_same by by rewrite Hid.
  pose proof (Session_handle_incoming_returns s packet (runtime w) Hcore) as Hret.
  pose proof (world_ok_quiet _ _ _ (quiet_Session_handle_incoming s packet) Hok) as Hok'.
  unfold log_err, on_runtime, zoom in *.
  destruct (Session_handle_incoming s packet (runtime w)) as [rt []]; try done; by eexists.
Qed.

Lemma dispatch_ok src packet w T : world_ok w T → step_ok src packet w T.
Proof.
  intros Hok. destruct (T !! sp_id packet) as [[p|p|p|o s]|] eqn:Hid.
  - by eapply step_poker.
  - by eapply step_initiator.
  - by eapply step_responder.
  - by eapply step_established.
  - exists w. erewrite dispatch_eq by apply Hok. rewrite Hid. split; [done|].
    by rewrite partial_alter_same by by rewrite Hid.
Qed.
End refinement.

(** ** Removing and adding connections *)

Section removal.
Context `{Crates, !CratesLaws}.
Implicit Types (w : World) (T : Table).

(** The identifier of the connection an entry belongs to. *)
Definition slot_one_time_id (sl : Slot) : OneTimeId :=
  match sl with
  | SPoker p => pd_one_time_id p
  | SInitiator p => pd_one_time_id p
  | SResponder p => pd_one_time_id p
  | SEstablished o _ => o
  end.

(** Removal from each map leaves the world alone when the map has no entry of the
    connection. *)
Lemma remove_established_other {E} id ot w :
  (∀ o s, established w !! id = Some (o, s) → matches ot o = false) →
  remove_established (E := E) id ot w = (w, Ok tt).
Proof.
  intros Hid. unfold remove_established. erewrite M_bind_step by reflexivity.
  destruct (established w !! id) as [[o s]|]; [|done]. by erewrite Hid.
Qed.
Lemma remove_responder_other {E} id ot w :
  (∀ p, responders w !! id = Some p → matches ot (pd_one_time_id p) = false) →
  remove_responder (E := E) id ot w = (w, Ok tt).
Proof.
  intros Hid. unfold remove_responder. erewrite M_bind_step by reflexivity.
  destruct (responders w !! id) as [p|]; [|done]. by erewrite Hid.
Qed.
Lemma remove_poker_other {E} id ot w :
  (∀ p, pokers w !! id = Some p → matches ot (pd_one_time_id p) = false) →
  remove_poker (E := E) id ot w = (w, Ok tt).
Proof.
  intros Hid. unfold remove_poker. erewrite M_bind_step by reflexivity.
  destruct (pokers w !! id) as [p|]; [|done]. by erewrite Hid.
Qed.
Lemma remove_initiator_other {E} id ot w :
  (∀ p, initiators w !! id = Some p → matches ot (pd_one_time_id p) = false) →
  remove_initiator (E := E) id ot w = (w, Ok tt).
Proof.
  intros Hid. unfold remove_initiator. erewrite M_bind_step by reflexivity.
  destruct (initiators w !! id) as [p|]; [|done]. by erewrite Hid.
Qed.

(** The world without the entry [sl] of [id]. *)
Definition removed (id : SessionId) (sl : Slot) w : World :=
  match sl with
  | SPoker p =>
      with_runtime (aborted (psp_handle (pd_session p)) (runtime w)) (without_poker id w)
  | SInitiator p =>
      with_runtime (aborted (psi_handle (pd_session p)) (runtime w)) (without_initiator id w)
  | SResponder p =>
      with_runtime (aborted (psr_handle (pd_session p)) (runtime w)) (without_responder id w)
  | SEstablished _ s =>
      match cores (runtime w) !! s_core s with
      | Some c =>
          with_runtime (set_core (s_core s) (with_dead true c) (runtime w))
            (with_established (delete id (established w)) w)
      | None => w
      end
  end.

Lemma world_ok_removed id sl w T :
  T !! id = Some sl → world_ok w T → world_ok (removed id sl w) (delete id T).
Proof.
  intros Hid Hok. destruct sl as [p|p|p|o s]; simpl.
  - by apply world_ok_delete_poker.
  - by apply world_ok_delete_initiator.
  - by apply world_ok_delete_responder.
  - destruct Hok as [HR Htab]. destruct (to_slot _ _ _ Htab _ _ Hid) as (_ & c & Hc).
    rewrite Hc. by eapply world_ok_delete_established.
Qed.

Lemma removed_released id sl w : released (runtime (removed id sl w)) sl ∨ removed id sl w = w.
Proof.
  destruct sl as [p|p|p|o s]; simpl; [left; apply lookup_delete_eq..|].
  destruct (cores (runtime w) !! s_core s) as [c|] eqn:Hc; [left|by right].
  simpl. intros d. rewrite lookup_insert_eq. by intros [= <-].
Qed.

Lemma remove_session_eq {E} id ot w T :
  world_ok w T →
  remove_session (E := E) id ot w =
    (match T !! id with
     | Some sl => if matches ot (slot_one_time_id sl) then removed id sl w else w
     | None => w
     end, Ok tt).
Proof.
  intros [HR Htab]. unfold remove_session.
  destruct (T !! id) as [sl|] eqn:Hid.
  - destruct (represents_Some _ _ _ _ HR Hid) as (H1 & H2 & H3 & H4).
    destruct (matches ot (slot_one_time_id sl)) eqn:Hm.
    + destruct sl as [p|p|p|o s]; simpl in Hm.
      * erewrite M_bind_step by (apply remove_established_other; by rewrite H4).
        erewrite M_bind_step by (apply remove_responder_other; by rewrite H3).
        erewrite M_bind_step; [apply remove_initiator_other; simpl; by rewrite H2|].
        unfold remove_poker. erewrite M_bind_step by reflexivity. by rewrite H1, Hm.
      * erewrite M_bind_step by (apply remove_established_other; by rewrite H4).
        erewrite M_bind_step by (apply remove_responder_other; by rewrite H3).
        erewrite M_bind_step by (apply remove_poker_other; by rewrite H1).
        unfold remove_initiator. erewrite M_bind_step by reflexivity. by rewrite H2, Hm.
      * erewrite M_bind_step by (apply remove_established_other; by rewrite H4).
        erewrite M_bind_step.
        2: { unfold remove_responder. erewrite M_bind_step by reflexivity. by rewrite H3, Hm. }
        erewrite M_bind_step by (apply remove_poker_other; simpl; by rewrite H1).
        apply remove_initiator_other. simpl. by rewrite H2.
      * destruct (to_slot _ _ _ Htab _ _ Hid) as (_ & c & Hc). simpl. rewrite Hc.
        erewrite M_bind_step.
        2: { unfold remove_established. erewrite M_bind_step by reflexivity. rewrite H4, Hm.
             by eapply delete_established_eq. }
        erewrite M_bind_step by (apply remove_responder_other; simpl; by rewrite H3).
        erewrite M_bind_step by (apply remove_poker_other; simpl; by rewrite H1).
        apply remove_initiator_other. simpl. by rewrite H2.
    + erewrite M_bind_step by (apply remove_established_other; rewrite H4;
        destruct sl; intros; simplify_eq/=; done).
      erewrite M_bind_step by (apply remove_responder_other; rewrite H3;
        destruct sl; intros; simplify_eq/=; done).
      erewrite M_bind_step by (apply remove_poker_other; rewrite H1;
        destruct sl; intros; simplify_eq/=; done).
      apply remove_initiator_other. rewrite H2. destruct sl; intros; simplify_eq/=; done.
  - destruct (represents_None _ _ _ HR Hid) as (H1 & H2 & H3 & H4).
    erewrite M_bind_step by (apply remove_established_other; by rewrite H4).
    erewrite M_bind_step by (apply remove_responder_other; by rewrite H3).
    erewrite M_bind_step by (apply remove_poker_other; by rewrite H1).
    apply remove_initiator_other. by rewrite H2.
Qed.
End removal.
