(* ===== verification/Reachable.v ===== *)
(** * Every run of a handler

    The events a handler goes through (packets, calls of the user, turns of the
    spawned tasks, polls of the futures), each to its end before the next begins, and
    the worlds they reach: in all of them the four maps are a consistent table of
    connections.  Operations whose lock sections interleave are in [Steps]. *)

From S2P Require Import Prelude Std Externals SnowTypes Transport Session SessionFacts Handler Table HandlerFacts.

(** ** Starting connections *)

Section starting.
Context `{Crates, !CratesLaws}.
Implicit Types (w : World) (T : Table).

(** The world without whatever entry [id] has. *)
Definition cleared (id : SessionId) w T : World :=
  match T !! id with Some sl => removed id sl w | None => w end.

Lemma world_ok_cleared id w T : world_ok w T → world_ok (cleared id w T) (delete id T).
Proof.
  intros Hok. unfold cleared. destruct (T !! id) as [sl|] eqn:Hid.
  - by apply world_ok_removed.
  - by rewrite delete_id.
Qed.

Lemma remove_all_eq {E} id w T :
  world_ok w T → remove_session (E := E) id None w = (cleared id w T, Ok tt).
Proof. intros Hok. by erewrite remove_session_eq. Qed.

(** The notification of a new connection, at the next location. *)
Definition with_new_notice w : World :=
  with_notices (<[next_loc (runtime w) := mkNotice (bc_channel 10) []]> (notices w))
    (with_runtime (with_next_loc (next_loc (runtime w) + 1) (runtime w)) w).

Lemma world_ok_new_notice w T : world_ok w T → world_ok (with_new_notice w) T.
Proof.
  intros Hok. apply world_ok_notices.
  - intros l. apply is_Some_insert.
  - apply world_ok_runtime; [|done]. split; simpl; [done|lia|done|by eauto].
Qed.

(** The world with a pending initiator, its task and its notification. *)
Definition initiated (id : SessionId) (o : OneTimeId) (info : ConnectionInfo)
    (i : SnowInitiator) w : World :=
  let handle := next_loc (runtime w) in
  let w' := with_new_notice
    (with_runtime (spawned (runtime w) (InitiateTask id (addresses info) (initiation i))) w) in
  with_initiators (<[id := mkPending (mkPendingSessionInitiator handle None None id i) o
    (handle + 1)]> (initiators w)) w'.

Lemma initiate_eq rng o id info w T :
  world_ok w T →
  initiate rng o id info w =
    match SnowInitiator_new rng (keypair_ w) (public_key info) with
    | Ok i => (initiated id o info i (cleared id w T),
               Ok (SessionReady_new id o (next_loc (runtime (cleared id w T)) + 1)))
    | Err e => (cleared id w T, Err e)
    | Panic => (cleared id w T, Panic)
    | Pending => (cleared id w T, Pending)
    | OutOfFuel => (cleared id w T, OutOfFuel)
    end.
Proof.
  intros Hok. unfold initiate. erewrite M_bind_step by (by eapply remove_all_eq).
  erewrite M_bind_step by reflexivity.
  assert (keypair_ (cleared id w T) = keypair_ w) as ->.
  { unfold cleared. destruct (T !! id) as [[p|p|p|o' s]|]; try done. simpl.
    by destruct (cores _ !! _). }
  unfold mbind at 1, M_bind at 1, lift.
  by destruct (SnowInitiator_new rng (keypair_ w) (public_key info)).
Qed.

Lemma world_ok_initiated id o info i w T :
  T !! id = None → world_ok w T →
  ∃ p, world_ok (initiated id o info i w) (<[id := SInitiator p]> T) ∧ pd_one_time_id p = o.
Proof.
  intros Hid [HR Htab].
  exists (mkPending (mkPendingSessionInitiator (next_loc (runtime w)) None None id i) o
    (next_loc (runtime w) + 1)). split; [|done]. split.
  - eapply represents_same; [..|by eapply (represents_insert_initiator w)]; done.
  - set (p := mkPending _ _ _).
    assert (world_ok (with_new_notice w) T) as [_ Htab1] by (by apply world_ok_new_notice).
    eapply (table_ok_evolves _ (spawned (runtime w) _)).
    { split; simpl; [done|lia|done|by eauto]. }
    apply table_ok_spawned; [by exists p; rewrite lookup_insert_eq|].
    apply table_ok_insert_pending; [done| |done|].
    + split_and!; [done..|]. simpl. rewrite lookup_insert_eq. by eexists.
    + eapply table_ok_notices; [|exact Htab]. intros l. apply is_Some_insert.
Qed.
(** The same for a responding connection. *)
Definition responded (id : SessionId) (o : OneTimeId) (info : ConnectionInfo)
    (i : SnowResponder) w : World :=
  let handle := next_loc (runtime w) in
  let w' := with_new_notice
    (with_runtime (spawned (runtime w) (PokeTask id (addresses info))) w) in
  with_pokers (<[id := mkPending (mkPendingSessionPoker handle None None id i) o
    (handle + 1)]> (pokers w)) w'.

Lemma respond_eq rng o id info w T :
  world_ok w T →
  respond rng o id info w =
    match SnowResponder_new rng (keypair_ w) (public_key info) with
    | Ok i => (responded id o info i (cleared id w T),
               Ok (SessionReady_new id o (next_loc (runtime (cleared id w T)) + 1)))
    | Err e => (cleared id w T, Err e)
    | Panic => (cleared id w T, Panic)
    | Pending => (cleared id w T, Pending)
    | OutOfFuel => (cleared id w T, OutOfFuel)
    end.
Proof.
  intros Hok. unfold respond. erewrite M_bind_step by (by eapply remove_all_eq).
  erewrite M_bind_step by reflexivity.
  assert (keypair_ (cleared id w T) = keypair_ w) as ->.
  { unfold cleared. destruct (T !! id) as [[p|p|p|o' s]|]; try done. simpl.
    by destruct (cores _ !! _). }
  unfold mbind at 1, M_bind at 1, lift.
  by destruct (SnowResponder_new rng (keypair_ w) (public_key info)).
Qed.

Lemma world_ok_responded id o info i w T :
  T !! id = None → world_ok w T →
  ∃ p, world_ok (responded id o info i w) (<[id := SPoker p]> T) ∧ pd_one_time_id p = o.
Proof.
  intros Hid [HR Htab].
  exists (mkPending (mkPendingSessionPoker (next_loc (runtime w)) None None id i) o
    (next_loc (runtime w) + 1)). split; [|done]. split.
  - eapply represents_same; [..|by eapply (represents_insert_poker w)]; done.
  - set (p := mkPending _ _ _).
    assert (world_ok (with_new_notice w) T) as [_ Htab1] by (by apply world_ok_new_notice).
    eapply (table_ok_evolves _ (spawned (runtime w) _)).
    { split; simpl; [done|lia|done|by eauto]. }
    apply table_ok_spawned; [by exists p; rewrite lookup_insert_eq|].
    apply table_ok_insert_pending; [done| |done|].
    + split_and!; [done..|]. simpl. rewrite lookup_insert_eq. by eexists.
    + eapply table_ok_notices; [|exact Htab]. intros l. apply is_Some_insert.
Qed.
End starting.

(** ** Events *)

Section events.
Context `{Crates, !CratesLaws}.
Implicit Types (w : World) (T : Table).

(** What happens to a handler.  The values a call draws or gets from elsewhere (the
    randomness of a handshake, fresh identifiers, wakers, the futures polled or
    dropped) are arguments. *)
Inductive Event :=
  | EvPacket (src : SocketAddr) (data : bytes)
  | EvInitiate (rng : N) (o : OneTimeId) (id : SessionId) (info : ConnectionInfo)
  | EvRespond (rng : N) (o : OneTimeId) (id : SessionId) (info : ConnectionInfo)
  | EvSend (id : SessionId) (data : bytes)
  | EvRecvFrom (id : SessionId) (fresh : N)
  | EvRemoteAddr (id : SessionId)
  | EvClose (id : SessionId) (o : OneTimeId)
  | EvRunCloser (k : nat)
  | EvTask (l : N)
  | EvPollReady (r : SessionReady) (waker : Waker)
  | EvDropReady (r : SessionReady)
  | EvPollReceiving (r : Receiving) (waker : Waker)
  | EvTransmit.

(** The world an event leaves, whatever the call returns, when nothing else runs
    meanwhile. *)
Definition run_event (e : Event) w : World :=
  match e with
  | EvPacket src data => (handle_incoming src data w).1
  | EvInitiate rng o id info => (initiate rng o id info w).1
  | EvRespond rng o id info => (respond rng o id info w).1
  | EvSend id data => (send id data w).1
  | EvRecvFrom id fresh => (recv_from (E := Error) id fresh w).1
  | EvRemoteAddr id => (remote_addr (E := Error) id w).1
  | EvClose id o => (close_session (E := Error) id o w).1
  | EvRunCloser k => (run_closer (E := Error) k w).1
  | EvTask l => (on_runtime (run_task l) w).1
  | EvPollReady r waker => (SessionReady_poll (E := Error) r waker w).1
  | EvDropReady r => (SessionReady_drop (E := Error) r w).1
  | EvPollReceiving r waker => (on_runtime (Receiving_poll (E := Error) r waker) w).1
  | EvTransmit => (recv_outgoing (E := Error) w).1
  end.

Definition run_events (es : list Event) w : World := foldl (λ w e, run_event e w) w es.

(** The worlds a handler can be in when its operations do not overlap. *)
Definition reachable w : Prop := ∃ keys es, w = run_events es (Handler_new keys).

(** *** Each event keeps the table *)

Lemma event_packet src data w T :
  world_ok w T → ∃ T', world_ok (handle_incoming src data w).1 T'.
Proof.
  intros Hok. unfold handle_incoming, mbind, M_bind, lift.
  destruct (deserialize data) as [packet|]; simpl; [|by exists T].
  destruct (dispatch_ok src packet w T Hok) as (w' & -> & Hok'). by eexists.
Qed.

Lemma event_initiate rng o id info w T :
  world_ok w T → ∃ T', world_ok (initiate rng o id info w).1 T'.
Proof.
  intros Hok. erewrite initiate_eq by done.
  pose proof (world_ok_cleared id w T Hok) as Hc.
  destruct (SnowInitiator_new _ _ _) as [i| | | |]; try by eexists.
  destruct (world_ok_initiated id o info i _ _ (lookup_delete_eq _ _) Hc) as (p & Hp & _).
  by eexists.
Qed.

Lemma event_respond rng o id info w T :
  world_ok w T → ∃ T', world_ok (respond rng o id info w).1 T'.
Proof.
  intros Hok. erewrite respond_eq by done.
  pose proof (world_ok_cleared id w T Hok) as Hc.
  destruct (SnowResponder_new _ _ _) as [i| | | |]; try by eexists.
  destruct (world_ok_responded id o info i _ _ (lookup_delete_eq _ _) Hc) as (p & Hp & _).
  by eexists.
Qed.

(** A computation that changes no entry. *)
Definition keeps {E A} T (m : M World E A) : Prop := ∀ w, world_ok w T → world_ok (m w).1 T.

Lemma keeps_bind {E A B} T (m : M World E A) (f : A → M World E B) :
  keeps T m → (∀ a, keeps T (f a)) → keeps T (m ≫= f).
Proof.
  intros Hm Hf w Hok. apply (M_bind_preserves (λ w, world_ok w T)); [by apply Hm|].
  intros w1 a Heq. apply Hf. specialize (Hm w Hok). by rewrite Heq in Hm.
Qed.

Lemma keeps_on_notice {E A} l (m : M Notice E A) T :
  keeps T (on_notice l m).
Proof.
  intros w Hok. unfold on_notice. destruct (notices w !! l) as [n|]; [|done].
  destruct (m n) as [n' r]. apply world_ok_notices; [|done]. intros k. apply is_Some_insert.
Qed.

Lemma is_dead_eq {E} s w c :
  cores (runtime w) !! s_core s = Some c →
  on_runtime (E := E) (Session_is_dead s) w = (w, Ok (dead c)).
Proof.
  intros Hc. unfold on_runtime, zoom, Session_is_dead. erewrite on_core_gets by done.
  by destruct w.
Qed.

Lemma event_recv_from id fresh w T :
  world_ok w T → ∃ T', world_ok (recv_from (E := Error) id fresh w).1 T'.
Proof.
  intros Hok. unfold recv_from. erewrite M_bind_step by reflexivity.
  destruct (established w !! id) as [[o s]|] eqn:Hid; [|by exists T].
  destruct Hok as [HR Htab]. assert (T !! id = Some (SEstablished o s)) as Hsl by (by apply HR).
  destruct (to_slot _ _ _ Htab _ _ Hsl) as (_ & c & Hc).
  erewrite M_bind_step by (by apply is_dead_eq). destruct (dead c).
  - exists (delete id T). erewrite M_bind_step by (by eapply delete_established_eq).
    by apply (world_ok_delete_established _ _ _ o s c).
  - exists T. apply world_ok_quiet; [apply quiet_Session_recv|by split].
Qed.

Lemma keeps_poll {E} T r waker : keeps T (SessionReady_poll (E := E) r waker).
Proof.
  apply keeps_bind; [apply keeps_on_notice|]. intros [|]; [by intros w|].
  apply keeps_bind; [|by intros r' w]. unfold ready_add_waker.
  destruct (sr_added_waker r); [by intros w|].
  apply keeps_bind; [apply keeps_on_notice|by intros ? w].
Qed.

Lemma keeps_drop {E} T r : keeps T (SessionReady_drop (E := E) r).
Proof.
  apply keeps_bind; [|intros _; apply keeps_on_notice].
  destruct (sr_completed r); [by intros w|]. intros w. apply world_ok_closers.
Qed.

Lemma event_ok e w T : world_ok w T → ∃ T', world_ok (run_event e w) T'.
Proof.
  intros Hok. destruct e; simpl.
  - by eapply event_packet.
  - by eapply event_initiate.
  - by eapply event_respond.
  - exists T. unfold send. erewrite M_bind_step by reflexivity.
    destruct (established w !! id) as [[o s]|]; [|done].
    apply world_ok_quiet; [apply quiet_Session_send|done].
  - by eapply event_recv_from.
  - by exists T.
  - exists T. by apply world_ok_closers.
  - unfold run_closer. erewrite M_bind_step by reflexivity.
    destruct (closers w !! k) as [[id o]|]; [|by exists T]. erewrite M_bind_step by reflexivity.
    pose proof (world_ok_closers w T (delete k (closers w)) Hok) as Hok1.
    erewrite remove_session_eq by done.
    destruct (T !! id) as [sl|] eqn:Hid; [|by exists T].
    destruct (matches _ _); [|by exists T]. eexists. by apply world_ok_removed.
  - exists T. apply world_ok_quiet; [apply quiet_run_task|done].
  - exists T. by apply keeps_poll.
  - exists T. by apply keeps_drop.
  - exists T. apply world_ok_quiet; [apply quiet_Receiving_poll|done].
  - exists T. unfold recv_outgoing. destruct (chan_try_recv _) as [c [x|]];
      (apply world_ok_runtime; [split; simpl; [done|lia|done|by eauto]|done]).
Qed.

Lemma reachable_event e w : reachable w → reachable (run_event e w).
Proof.
  intros (keys & es & ->). exists keys, (es ++ [e]). unfold run_events. by rewrite foldl_snoc.
Qed.

Lemma reachable_ok w : reachable w → ∃ T, world_ok w T.
Proof.
  intros (keys & es & ->). induction es as [|e es [T IH]] using rev_ind.
  - exists ∅. split; [apply represents_empty|apply table_ok_empty].
  - unfold run_events. rewrite foldl_snoc. by eapply event_ok.
Qed.
End events.
