(* ===== verification/Keeping.v ===== *)
(** * What the operations of a handler keep

    An assertion on the runtime that the operations on sessions and tasks keep
    ([RuntimeKeeps], the interface) is kept by every operation of the handler, with
    what it says of the sessions in the maps.  The operations are about some
    identifiers; the entries of the others stay as they are. *)

From S2P Require Import Prelude Std Externals Layout Engine SnowTypes Transport Session SessionFacts Handler Table HandlerFacts Reachable.

(** ** The interface *)

(** [I] is kept: [K] holds of the identifiers that connections are made for, [S] of
    the sessions in use. *)
Class RuntimeKeeps `{Crates} (I : Runtime → Prop) (K : SessionId → Prop) (S : Session → Prop) := {
  rk_alloc E : triple I (λ _, True) (alloc (E := E));
  rk_abort E h : triple I (λ _, True) (abort (E := E) h);
  rk_woken E ws : triple I (λ _, True) (modify (E := E) (λ rt, with_woken (woken rt ++ ws) rt));
  rk_poke E id a : K id → triple I (λ _, True) (spawn (E := E) (PokeTask id a));
  rk_initiate E id a i : K id → length (initiation_bytes i) ≤ noise_max →
    triple I (λ _, True) (spawn (E := E) (InitiateTask id a i));
  rk_respond E id a r : K id → length (response_bytes r) ≤ noise_max →
    triple I (λ _, True) (spawn (E := E) (RespondTask id a r));
  rk_new id addr t : K id → triple I S (Session_new id addr t);
  rk_incoming s p : S s → triple I (λ _, True) (Session_handle_incoming s p);
  rk_send s d : S s → triple I (λ _, True) (Session_send s d);
  rk_is_dead E s : S s → triple I (λ _, True) (Session_is_dead (E := E) s);
  rk_close E s : S s → triple I (λ _, True) (Session_close (E := E) s);
}.

(** ** The handshake messages *)

Section lengths.
Context `{Crates, !CratesLaws}.

Lemma SnowInitiator_new_length rng keys remote i :
  SnowInitiator_new rng keys remote = Ok i → length (initiation_bytes (initiation i)) ≤ noise_max.
Proof.
  unfold SnowInitiator_new.
  intros (b & _ & (b' & _ & (hs & _ & Hrest)%outcome_bind_Ok)%outcome_bind_Ok)%outcome_bind_Ok.
  destruct (hs_write_message [] noise_max hs) as [hs' [m|]] eqn:Hw; [|done].
  injection Hrest as <-. by apply hs_write_length in Hw.
Qed.

Lemma response_length r i t m : response r i = Ok (t, m) → length (response_bytes m) ≤ noise_max.
Proof.
  unfold response. destruct i as [msg].
  destruct (hs_read_message _ _ _) as [hs [p|]]; simpl; [|done].
  destruct (hs_write_message [] noise_max hs) as [hs' [c|]] eqn:Hw; simpl; [|done].
  destruct (into_stateless_transport_mode hs'); simpl; [|done]. intros [= _ <-].
  by apply hs_write_length in Hw.
Qed.
End lengths.

(** ** Pending sessions *)

Section keeping.
Context `{Crates, !CratesLaws} (I : Runtime → Prop) (K : SessionId → Prop) (S : Session → Prop).
Context `{!RuntimeKeeps I K S}.
Implicit Types (rt : Runtime) (w : World).

Abbreviation kept := (triple I).

Lemma kept_wake_option {E} wk : kept (λ _, True) (wake_option (E := E) wk).
Proof. destruct wk as [wk|]; [apply (rk_woken E [wk])|by apply triple_ret]. Qed.

Lemma kept_Session_recv {E} s fresh : S s → kept (λ _, True) (Session_recv (E := E) s fresh).
Proof.
  intros Hs. apply (triple_bind _ (λ _, True)); [by apply rk_is_dead|].
  intros. by apply triple_ret.
Qed.

Lemma kept_Poker_handle_incoming {E} p src packet :
  K (psp_id p) → kept (λ q, K (psp_id q)) (Poker_handle_incoming (E := E) p src packet).
Proof.
  intros Hp. unfold Poker_handle_incoming.
  destruct (deserialize (sp_data packet)) as [[]|]; try by apply triple_ret.
  apply (triple_bind _ (λ _, True)); [apply kept_wake_option|]. intros. by apply triple_ret.
Qed.

Lemma kept_Poker_responder p :
  K (psp_id p) → kept (λ q, K (psr_id q)) (Poker_responder p).
Proof.
  intros Hp. unfold Poker_responder. destruct (psp_working_remote_addr p) as [[addr i]|];
    [|by apply triple_lift].
  apply (triple_bind _ (λ _, True)); [apply rk_abort|]. intros _ _.
  apply (triple_bind _ (λ x, length (response_bytes x.2) ≤ noise_max)).
  { apply triple_lift. intros [t r]. apply response_length. }
  intros [t r] Hr. apply (triple_bind _ (λ _, True)); [by apply rk_respond|].
  intros h _. by apply triple_ret.
Qed.

Lemma kept_Initiator_handle_incoming {E} p src packet :
  K (psi_id p) → kept (λ q, K (psi_id q)) (Initiator_handle_incoming (E := E) p src packet).
Proof.
  intros Hp. unfold Initiator_handle_incoming.
  destruct (deserialize (sp_data packet)) as [[]|]; try by apply triple_ret.
  apply (triple_bind _ (λ _, True)); [apply kept_wake_option|]. intros. by apply triple_ret.
Qed.

Definition result_ok (r : SessionResult) : Prop :=
  match r with SessionOk s => S s | SessionErr p => K (psi_id p) end.

Lemma kept_Initiator_session p : K (psi_id p) → kept result_ok (Initiator_session p).
Proof.
  intros Hp. unfold Initiator_session. destruct (psi_working_remote_addr p) as [[addr r]|];
    [|by apply triple_ret].
  apply (triple_bind _ (λ _, True)); [apply rk_abort|]. intros _ _.
  apply (triple_bind _ (λ _, True)); [by apply triple_lift|].
  intros [t|i] _; [|by apply triple_ret].
  apply (triple_bind _ S); [by apply rk_new|]. intros s Hs. by apply triple_ret.
Qed.

Lemma kept_Responder_session p : K (psr_id p) → kept S (Responder_session p).
Proof.
  intros Hp. unfold Responder_session. destruct (psr_ready p); [|by apply triple_lift].
  apply (triple_bind _ (λ _, True)); [apply rk_abort|]. intros. by apply rk_new.
Qed.

Lemma Responder_handle_incoming_keeps src packet p rt :
  let x := (Responder_handle_incoming src packet (p, rt)).1 in
  psr_id x.1 = psr_id p ∧ (I rt → I x.2).
Proof using All.
  unfold Responder_handle_incoming. unfold_monad.
  destruct (deserialize (sp_data packet)) as [[]|]; simpl; try done.
  destruct (decrypt _ _) as [t []]; simpl; try done.
  destruct (deserialize _) as [[]|]; simpl; try done.
  destruct (psr_waker p) as [wk|]; simpl; [|done]. split; [done|].
  intros Hrt. by apply (rk_woken (I := I) Error [wk]).
Qed.

(** ** The handler *)

Context (about : SessionId → Prop) (w0 : World).

(** What the four maps hold for an identifier. *)
Definition slots w (id : SessionId) :=
  (pokers w !! id, initiators w !! id, responders w !! id, established w !! id).

Record world_keeps w : Prop := {
  wk_runtime : I (runtime w);
  wk_pokers : map_Forall (λ id p, about id → K (psp_id (pd_session p))) (pokers w);
  wk_initiators : map_Forall (λ id p, about id → K (psi_id (pd_session p))) (initiators w);
  wk_responders : map_Forall (λ id p, about id → K (psr_id (pd_session p))) (responders w);
  wk_established : map_Forall (λ id e, about id → S e.2) (established w);
  wk_others id : ¬ about id → slots w id = slots w0 id;
}.

Abbreviation holds := (triple world_keeps).

Lemma holds_on_runtime {E A} (Q : A → Prop) (m : M Runtime E A) :
  kept Q m → holds Q (on_runtime m).
Proof. apply triple_zoom; [by intros w []|]. by intros rt w [] ?. Qed.

Lemma holds_on_notice {E A} l (m : M Notice E A) : holds (λ _, True) (on_notice l m).
Proof.
  intros w []. unfold on_notice. destruct (notices w !! l) as [n|]; [|done].
  by destruct (m n) as [n' r].
Qed.

(** The entry of an identifier the operation is about changes. *)
Ltac solve_entry Hother :=
  let id' := fresh in let Hid' := fresh in
  intros id' Hid'; rewrite <- (Hother id' Hid'); unfold slots; simpl;
  rewrite ?lookup_insert_ne, ?lookup_delete_ne by congruence; done.

Lemma holds_put_poker {E} id p :
  about id → K (psp_id (pd_session p)) → holds (λ _, True) (put_poker (E := E) id p).
Proof.
  intros Hid Hp. apply triple_modify; [|done]. intros w []. split; try done.
  - by apply map_Forall_insert_2.
  - solve_entry wk_others0.
Qed.

Lemma holds_put_initiator {E} id p :
  about id → K (psi_id (pd_session p)) → holds (λ _, True) (put_initiator (E := E) id p).
Proof.
  intros Hid Hp. apply triple_modify; [|done]. intros w []. split; try done.
  - by apply map_Forall_insert_2.
  - solve_entry wk_others0.
Qed.

Lemma holds_put_responder {E} id p :
  about id → K (psr_id (pd_session p)) → holds (λ _, True) (put_responder (E := E) id p).
Proof.
  intros Hid Hp. apply triple_modify; [|done]. intros w []. split; try done.
  - by apply map_Forall_insert_2.
  - solve_entry wk_others0.
Qed.

Lemma holds_take_poker {E} id :
  about id → holds (λ o, ∀ p, o = Some p → K (psp_id (pd_session p))) (take_poker (E := E) id).
Proof.
  intros Hid w []. split; [split; try done|intros o [= <-] p Hp; by apply (wk_pokers0 id p)].
  - by apply map_Forall_delete.
  - solve_entry wk_others0.
Qed.

Lemma holds_take_initiator {E} id :
  about id →
  holds (λ o, ∀ p, o = Some p → K (psi_id (pd_session p))) (take_initiator (E := E) id).
Proof.
  intros Hid w []. split; [split; try done|intros o [= <-] p Hp; by apply (wk_initiators0 id p)].
  - by apply map_Forall_delete.
  - solve_entry wk_others0.
Qed.

Lemma holds_take_responder {E} id :
  about id →
  holds (λ o, ∀ p, o = Some p → K (psr_id (pd_session p))) (take_responder (E := E) id).
Proof.
  intros Hid w []. split; [split; try done|intros o [= <-] p Hp; by apply (wk_responders0 id p)].
  - by apply map_Forall_delete.
  - solve_entry wk_others0.
Qed.

(** The entry of an established session the operation is about. *)
Definition entry_ok (e : option (OneTimeId * Session)) : Prop := ∀ o s, e = Some (o, s) → S s.

Lemma holds_entry {E} id :
  about id → holds entry_ok (gets (E := E) (λ w, established w !! id)).
Proof. intros Hid. apply triple_gets. intros w Hw o s Hs. by apply (wk_established _ Hw id (o, s)). Qed.

Lemma holds_drop_established {E} old :
  entry_ok old → holds (λ _, True) (drop_established (E := E) old).
Proof.
  intros Hold. destruct old as [[o s]|]; [|by apply triple_ret].
  apply holds_on_runtime, rk_close. by eapply Hold.
Qed.

Lemma holds_put_established {E} id o s :
  about id → S s → holds (λ _, True) (put_established (E := E) id o s).
Proof.
  intros Hid Hs. apply (triple_bind _ entry_ok); [by apply holds_entry|]. intros old Hold.
  apply (triple_bind _ (λ _, True)); [|intros _ _; by apply holds_drop_established].
  apply triple_modify; [|done]. intros w []. split; try done.
  - by apply map_Forall_insert_2.
  - solve_entry wk_others0.
Qed.

Lemma holds_delete_established {E} id :
  about id → holds (λ _, True) (delete_established (E := E) id).
Proof.
  intros Hid. apply (triple_bind _ entry_ok); [by apply holds_entry|]. intros old Hold.
  apply (triple_bind _ (λ _, True)); [|intros _ _; by apply holds_drop_established].
  apply triple_modify; [|done]. intros w []. split; try done.
  - by apply map_Forall_delete.
  - solve_entry wk_others0.
Qed.

Lemma holds_upgrade_session id o s l :
  about id → S s → holds (λ _, True) (upgrade_session id o s l).
Proof.
  intros Hid Hs. apply (triple_bind _ (λ _, True)); [by apply holds_put_established|]. intros _ _.
  apply (triple_bind _ (λ _, True)); [apply holds_on_notice|]. intros [] _; simpl;
    [|by apply triple_lift].
  apply (triple_bind _ (λ _, True)); [apply holds_on_notice|]. intros ws _.
  apply holds_on_runtime, rk_woken.
Qed.

(** *** Packets *)

Lemma holds_handle_poker {E} src packet p :
  about (sp_id packet) → K (psp_id (pd_session p)) →
  holds (λ _, True) (handle_poker (E := E) src packet p).
Proof.
  intros Hid Hp. unfold handle_poker.
  apply (triple_bind _ (λ q, K (psp_id q)));
    [by apply holds_on_runtime, kept_Poker_handle_incoming|].
  intros q Hq. destruct (Poker_is_ready q); [|by apply holds_put_poker].
  eapply triple_bind; [by apply triple_attempt, holds_on_runtime, kept_Poker_responder|].
  intros [x|e] Hx; [|by apply triple_ret]. by apply holds_put_responder, Hx.
Qed.

Lemma holds_handle_initiator {E} src packet p :
  about (sp_id packet) → K (psi_id (pd_session p)) →
  holds (λ _, True) (handle_initiator (E := E) src packet p).
Proof.
  intros Hid Hp. unfold handle_initiator.
  apply (triple_bind _ (λ q, K (psi_id q)));
    [by apply holds_on_runtime, kept_Initiator_handle_incoming|].
  intros q Hq. destruct (Initiator_is_ready q); [|by apply holds_put_initiator].
  eapply triple_bind; [by apply triple_attempt, holds_on_runtime, kept_Initiator_session|].
  intros [[x|x]|e] Hx; [| |by apply triple_ret].
  - apply triple_log_err, holds_upgrade_session; [done|]. by apply (Hx (SessionOk x)).
  - apply holds_put_initiator; [done|]. by apply (Hx (SessionErr x)).
Qed.

Lemma holds_handle_responder {E} src packet p :
  about (sp_id packet) → K (psr_id (pd_session p)) →
  holds (λ _, True) (handle_responder (E := E) src packet p).
Proof.
  intros Hid Hp. unfold handle_responder. apply (triple_bind _ (λ q, K (psr_id q))).
  { intros w Hw. unfold run_responder.
    pose proof (Responder_handle_incoming_keeps src packet (pd_session p) (runtime w)) as Hr.
    destruct (Responder_handle_incoming _ _ _) as [[q rt] r]. simpl in Hr. destruct Hr as [Hq Hrt].
    assert (world_keeps (with_runtime rt w)) as Hw' by (destruct Hw; split; auto).
    rewrite <- Hq in Hp. unfold log_err, lift, mbind, M_bind.
    destruct r; (split; [done|]); intros q' Hq'; simplify_eq/=; done. }
  intros q Hq. destruct (Responder_is_ready q); [|by apply holds_put_responder].
  eapply triple_bind; [by apply triple_attempt, holds_on_runtime, kept_Responder_session|].
  intros [x|e] Hx; [|by apply triple_ret]. by apply triple_log_err, holds_upgrade_session, Hx.
Qed.

Lemma holds_dispatch {E} src packet :
  about (sp_id packet) → holds (λ _, True) (dispatch (E := E) src packet).
Proof.
  intros Hid. unfold dispatch. eapply triple_bind; [by apply holds_take_poker|]. intros [p|] Hp.
  { by apply holds_handle_poker, Hp. }
  eapply triple_bind; [by apply holds_take_initiator|]. intros [q|] Hq.
  { by apply holds_handle_initiator, Hq. }
  eapply triple_bind; [by apply holds_take_responder|]. intros [r|] Hr.
  { by apply holds_handle_responder, Hr. }
  eapply triple_bind; [by apply holds_entry|]. intros [[o s]|] Hs; [|by apply triple_ret].
  apply triple_log_err, holds_on_runtime, rk_incoming. by eapply Hs.
Qed.

Lemma holds_handle_incoming src data :
  (∀ p, deserialize data = Some p → about (sp_id p)) →
  holds (λ _, True) (handle_incoming src data).
Proof.
  intros Hdata. apply (triple_bind _ (λ p, about (sp_id p))).
  { apply triple_lift. intros p Hp%ok_or_Ok. by apply Hdata. }
  intros p Hp. by apply holds_dispatch.
Qed.

(** *** The calls of the user *)

Lemma holds_send id d : about id → holds (λ _, True) (send id d).
Proof.
  intros Hid. eapply triple_bind; [by apply holds_entry|]. intros [[o s]|] Hs; [|by apply triple_lift].
  apply holds_on_runtime, rk_send. by eapply Hs.
Qed.

Lemma holds_recv_from {E} id fresh : about id → holds (λ _, True) (recv_from (E := E) id fresh).
Proof.
  intros Hid. eapply triple_bind; [by apply holds_entry|]. intros [[o s]|] Hs; [|by apply triple_ret].
  specialize (Hs _ _ eq_refl).
  apply (triple_bind _ (λ _, True)); [by apply holds_on_runtime, rk_is_dead|]. intros [] _.
  - apply (triple_bind _ (λ _, True)); [by apply holds_delete_established|].
    intros. by apply triple_ret.
  - by apply holds_on_runtime, kept_Session_recv.
Qed.

Lemma holds_remove_session {E} id ot :
  about id → holds (λ _, True) (remove_session (E := E) id ot).
Proof.
  intros Hid. assert (∀ l, triple (E := E) world_keeps (λ _, True) (on_runtime (abort l))) as Habort
    by (intros l; apply holds_on_runtime, rk_abort).
  apply (triple_bind _ (λ _, True)).
  { apply (triple_bind _ (λ _, True)); [by apply triple_gets|]. intros [[o s]|] _;
      [|by apply triple_ret].
    destruct (matches _ _); [by apply holds_delete_established|by apply triple_ret]. }
  intros _ _. apply (triple_bind _ (λ _, True)).
  { apply (triple_bind _ (λ _, True)); [by apply triple_gets|]. intros [p|] _;
      [|by apply triple_ret].
    destruct (matches _ _); [|by apply triple_ret].
    eapply triple_bind; [by apply holds_take_responder|]. intros. apply Habort. }
  intros _ _. apply (triple_bind _ (λ _, True)).
  { apply (triple_bind _ (λ _, True)); [by apply triple_gets|]. intros [p|] _;
      [|by apply triple_ret].
    destruct (matches _ _); [|by apply triple_ret].
    eapply triple_bind; [by apply holds_take_poker|]. intros. apply Habort. }
  intros _ _. apply (triple_bind _ (λ _, True)); [by apply triple_gets|]. intros [p|] _;
    [|by apply triple_ret].
  destruct (matches _ _); [|by apply triple_ret].
  eapply triple_bind; [by apply holds_take_initiator|]. intros. apply Habort.
Qed.

Lemma holds_modify_outside {E} f :
  (∀ w, runtime (f w) = runtime w ∧ pokers (f w) = pokers w ∧ initiators (f w) = initiators w ∧
     responders (f w) = responders w ∧ established (f w) = established w) →
  holds (λ _, True) (modify (E := E) f).
Proof.
  intros Hf. apply triple_modify; [|done]. intros w []. destruct (Hf w) as (H1 & H2 & H3 & H4 & H5).
  split; rewrite ?H1, ?H2, ?H3, ?H4, ?H5; try done.
  intros id Hid. unfold slots. rewrite H2, H3, H4, H5. by apply wk_others0.
Qed.

Lemma holds_new_notice {E} : holds (λ _, True) (new_notice (E := E)).
Proof.
  apply (triple_bind _ (λ _, True)); [apply holds_on_runtime, rk_alloc|]. intros l _.
  apply (triple_bind _ (λ _, True)); [by apply holds_modify_outside|]. intros.
  by apply triple_ret.
Qed.

Lemma holds_initiate rng o id info :
  about id → K id → holds (λ _, True) (initiate rng o id info).
Proof.
  intros Hid HK. apply (triple_bind _ (λ _, True)); [by apply holds_remove_session|]. intros _ _.
  apply (triple_bind _ (λ _, True)); [by apply triple_gets|]. intros keys _.
  apply (triple_bind _ (λ i, length (initiation_bytes (initiation i)) ≤ noise_max)).
  { apply triple_lift. intros i. apply SnowInitiator_new_length. }
  intros i Hi. apply (triple_bind _ (λ p, K (psi_id p))).
  { apply holds_on_runtime. apply (triple_bind _ (λ _, True)); [by apply rk_initiate|].
    intros h _. by apply triple_ret. }
  intros p Hp. apply (triple_bind _ (λ _, True)); [apply holds_new_notice|]. intros l _.
  apply (triple_bind _ (λ _, True)); [by apply holds_put_initiator|]. intros. by apply triple_ret.
Qed.

Lemma holds_respond rng o id info :
  about id → K id → holds (λ _, True) (respond rng o id info).
Proof.
  intros Hid HK. apply (triple_bind _ (λ _, True)); [by apply holds_remove_session|]. intros _ _.
  apply (triple_bind _ (λ _, True)); [by apply triple_gets|]. intros keys _.
  apply (triple_bind _ (λ _, True)); [by apply triple_lift|].
  intros r _. apply (triple_bind _ (λ p, K (psp_id p))).
  { apply holds_on_runtime. apply (triple_bind _ (λ _, True)); [by apply rk_poke|].
    intros h _. by apply triple_ret. }
  intros p Hp. apply (triple_bind _ (λ _, True)); [apply holds_new_notice|]. intros l _.
  apply (triple_bind _ (λ _, True)); [by apply holds_put_poker|]. intros. by apply triple_ret.
Qed.

(** *** Events *)

(** The event is about identifiers of [about], and is not the turn of a task, a poll
    of a queue or a transmission. *)
Definition concerns (e : Event) w : Prop :=
  match e with
  | EvPacket _ data => ∀ p, deserialize data = Some p → about (sp_id p)
  | EvInitiate _ _ id _ | EvRespond _ _ id _ => about id ∧ K id
  | EvSend id _ | EvRecvFrom id _ => about id
  | EvRunCloser k => ∀ id o, closers w !! k = Some (id, o) → about id
  | EvRemoteAddr _ | EvClose _ _ | EvPollReady _ _ | EvDropReady _ => True
  | EvTask _ | EvPollReceiving _ _ | EvTransmit => False
  end.

Lemma world_keeps_event e w : concerns e w → world_keeps w → world_keeps (run_event e w).
Proof.
  intros He Hw. destruct e; cbn [run_event concerns] in *; try done;
    lazymatch goal with
    | |- world_keeps (run_closer _ _).1 => idtac
    | _ => eapply (triple_keeps _ (λ _, True)); [|exact Hw]
    end.
  - by apply holds_handle_incoming.
  - by apply holds_initiate; destruct He.
  - by apply holds_respond; destruct He.
  - by apply holds_send.
  - by apply holds_recv_from.
  - by apply holds_modify_outside.
  - unfold run_closer. erewrite M_bind_step by reflexivity.
    destruct (closers w !! k) as [[id o]|] eqn:Hk; [|done].
    eapply (triple_keeps _ (λ _, True)); [|exact Hw].
    apply (triple_bind _ (λ _, True)); [by apply holds_modify_outside|].
    intros. apply holds_remove_session. by eapply He.
  - apply (triple_bind _ (λ _, True)); [apply holds_on_notice|].
    intros [] _; [by apply triple_ret|].
    apply (triple_bind _ (λ _, True)); [|by intros; apply triple_ret].
    unfold ready_add_waker. destruct (sr_added_waker r); [by apply triple_ret|].
    apply (triple_bind _ (λ _, True)); [apply holds_on_notice|]. intros. by apply triple_ret.
  - apply (triple_bind _ (λ _, True)); [|intros; apply holds_on_notice].
    destruct (sr_completed r); [by apply triple_ret|by apply holds_modify_outside].
Qed.
End keeping.
