(* ===== verification/HandlerProps.v ===== *)
(** * Properties of the handler

    The table of connections, closing, the notification of the user, and what
    packets of third parties and the interleaving of operations can do. *)

From S2P Require Import Prelude Std Externals Layout Engine SnowTypes Transport Session SessionFacts Concrete SessionProps Handler Table HandlerFacts Reachable.

(** ** The four maps are one table *)

(** C5. In every state a handler reaches by operations that run one after the other,
    [handle_incoming] implements the table machine: a datagram that is not a packet is refused with a [bincode::Error] and
    changes nothing, any other packet is accepted (it never panics), and the entry of
    its identifier becomes what [next_slot] says while every other entry stays. *)
Theorem handler_refines_table `{Crates, !CratesLaws} (w : World) (src : SocketAddr)
    (data : bytes) :
  reachable w →
  ∃ T, represents w T ∧
    match deserialize data with
    | None => handle_incoming src data w = (w, Err BincodeError)
    | Some packet => ∃ w', handle_incoming src data w = (w', Ok tt) ∧
        represents w' (partial_alter (next_slot (next_loc (runtime w)) src packet)
          (sp_id packet) T)
    end.
Proof.
  intros [T Hok]%reachable_ok. exists T. split; [by apply Hok|].
  unfold handle_incoming, mbind, M_bind, lift.
  destruct (deserialize data) as [packet|]; [|done]. simpl.
  destruct (dispatch_ok src packet w T Hok) as (w' & Hd & Hok'). exists w'.
  split; [exact Hd|by apply Hok'].
Qed.

Definition present {A} (o : option A) : nat := match o with Some _ => 1 | None => 0 end.

(** C6. In every state a handler reaches by operations that run one after the other
    (each to its return, its wait or the end of its turn), an identifier has an entry in
    at most one of the four maps, every retransmission task belongs to the pending session that
    has its handle (so aborting that handle stops it), and every session that is
    alive is in the map of the established ones, once: nothing leaks.  (When operations
    overlap an identifier can get two entries and a session can be established for
    nobody: [interleaved_consistent] and [removal_race_leaks].) *)
Theorem reachable_consistent `{Crates, !CratesLaws} (w : World) :
  reachable w →
  (∀ id, present (pokers w !! id) + present (initiators w !! id) +
     present (responders w !! id) + present (established w !! id) ≤ 1) ∧
  (∀ l t, tasks (runtime w) !! l = Some t →
     match t with
     | PokeTask id _ => ∃ p, pokers w !! id = Some p ∧ psp_handle (pd_session p) = l
     | InitiateTask id _ _ => ∃ p, initiators w !! id = Some p ∧ psi_handle (pd_session p) = l
     | RespondTask id _ _ => ∃ p, responders w !! id = Some p ∧ psr_handle (pd_session p) = l
     | KeepaliveTask _ _ core | HeartbeatTask core => is_Some (cores (runtime w) !! core)
     end) ∧
  (∀ l c, cores (runtime w) !! l = Some c → dead c = false →
     ∃ id o s, established w !! id = Some (o, s) ∧ s_core s = l ∧
       ∀ id' o' s', established w !! id' = Some (o', s') → s_core s' = l → id' = id).
Proof.
  intros [T [HR Htab]]%reachable_ok. split_and!.
  - intros id. destruct (T !! id) as [sl|] eqn:Hid.
    + destruct (represents_Some _ _ _ _ HR Hid) as (-> & -> & -> & ->). destruct sl; simpl; lia.
    + destruct (represents_None _ _ _ HR Hid) as (-> & -> & -> & ->). simpl. lia.
  - intros l t Hl. destruct (to_task _ _ _ Htab _ _ Hl) as [_ Hok].
    destruct t; simpl in *; try done; destruct Hok as (p & Hp%HR & Hh); by exists p.
  - intros l c Hl Hd. destruct (to_core _ _ _ Htab _ _ Hl) as [_ Hown].
    destruct (Hown Hd) as (id & o & s & Hid & Hs). exists id, o, s.
    split_and!; [by apply HR|done|]. intros id' o' s' Hid'%HR Hs'.
    by eapply (to_inj _ _ _ Htab); [exact Hid'|exact Hid|congruence].
Qed.

(** A handler of the concrete crates, before and after it starts a connection. *)
Definition demo_keys (n : N) : SnowKeypair :=
  mkSnowKeypair (mkSnowPublicKey (le_put 8 n)) (mkSnowPrivateKey (le_put 8 n)).
Definition demo_info (n : N) : ConnectionInfo :=
  mkConnectionInfo {[ SocketAddrV4 1 n ]} (public (demo_keys n)).
Definition demo_handler (n : N) : @World crates := @Handler_new crates (demo_keys n).
Definition demo_initiating : @World crates :=
  @run_events crates [EvInitiate 3 100 7 (demo_info 2)] (demo_handler 1).

Lemma demo_initiating_reachable : @reachable crates demo_initiating.
Proof. by exists (demo_keys 1), [EvInitiate 3 100 7 (demo_info 2)]. Qed.

Lemma reachable_consistent_witness :
  ∃ p, pokers demo_initiating !! 7%N = None ∧ initiators demo_initiating !! 7%N = Some p ∧
    tasks (runtime demo_initiating) !! psi_handle (pd_session p) ≠ None ∧
    ∀ l id addrs i, tasks (runtime demo_initiating) !! l = Some (InitiateTask id addrs i) →
      ∃ q, initiators demo_initiating !! id = Some q ∧ psi_handle (pd_session q) = l.
Proof.
  destruct (@reachable_consistent crates crates_laws demo_initiating demo_initiating_reachable)
    as (_ & Htasks & _).
  eexists. split_and!; [reflexivity|reflexivity|by vm_compute|].
  intros l id addrs i Hl. exact (Htasks l _ Hl).
Defined.

(** ** Closing *)

Section closing.
Context `{Crates, !CratesLaws}.

Lemma removed_released_ok id sl w T :
  T !! id = Some sl → world_ok w T → released (runtime (removed id sl w)) sl.
Proof.
  intros Hid [_ Htab]. destruct sl as [p|p|p|o s]; simpl; [apply lookup_delete_eq..|].
  destruct (to_slot _ _ _ Htab _ _ Hid) as (_ & c & Hc). rewrite Hc. simpl. intros d.
  rewrite lookup_insert_eq. by intros [= <-].
Qed.
End closing.

(** C20. A close that runs removes the connection it was asked to close (its
    retransmission stops, or its session dies) and no other; when the identifier
    has been used for another connection since, it changes nothing. *)
Theorem close_removes_own `{Crates, !CratesLaws} (w : World) (k : nat) (id : SessionId)
    (o : OneTimeId) :
  reachable w → closers w !! k = Some (id, o) →
  ∃ T w', represents w T ∧ run_closer (E := Error) k w = (w', Ok tt) ∧
    match T !! id with
    | Some sl =>
        if decide (o = slot_one_time_id sl)
        then represents w' (delete id T) ∧ released (runtime w') sl
        else w' = with_closers (delete k (closers w)) w
    | None => w' = with_closers (delete k (closers w)) w
    end.
Proof.
  intros [T Hok]%reachable_ok Hk.
  pose proof (world_ok_closers w T (delete k (closers w)) Hok) as Hok1.
  assert (run_closer (E := Error) k w =
    remove_session id (Some o) (with_closers (delete k (closers w)) w)) as Hrun.
  { unfold run_closer. erewrite M_bind_step by reflexivity. by rewrite Hk. }
  exists T. eexists. split; [by apply Hok|]. rewrite Hrun, (remove_session_eq _ _ _ T Hok1).
  split; [done|]. destruct (T !! id) as [sl|] eqn:Hid; [|done]. simpl.
  case_bool_decide as Ho; [rewrite decide_True by done|by rewrite decide_False].
  split; [by apply world_ok_removed|by eapply removed_released_ok].
Qed.

Lemma close_removes_own_witness :
  ∃ T w', @represents crates (run_event (EvClose 7 100) demo_initiating) T ∧
    run_closer (E := Error) 0 (run_event (EvClose 7 100) demo_initiating) = (w', Ok tt) ∧
    present (initiators w' !! 7%N) = 0 ∧ present (tasks (runtime w') !! 0%N) = 0.
Proof.
  destruct (@close_removes_own crates crates_laws (run_event (EvClose 7 100) demo_initiating)
    0 7 100) as (T & w' & HR & Hrun & Hsl).
  - by exists (demo_keys 1), [EvInitiate 3 100 7 (demo_info 2); EvClose 7 100].
  - done.
  - exists T, w'. split_and!; [exact HR|exact Hrun|..].
    + assert (w' = (run_closer (E := Error) 0 (run_event (EvClose 7 100) demo_initiating)).1)
        as -> by (by rewrite Hrun). vm_compute. reflexivity.
    + assert (w' = (run_closer (E := Error) 0 (run_event (EvClose 7 100) demo_initiating)).1)
        as -> by (by rewrite Hrun). vm_compute. reflexivity.
Defined.

(** C21. Starting a connection replaces whatever the identifier was used for: the
    session it had dies, the only retransmission left is that of the new connection,
    and the entries of the other identifiers stay. *)
Theorem initiate_replaces `{Crates, !CratesLaws} (w : World) (rng : N) (o : OneTimeId)
    (id : SessionId) (info : ConnectionInfo) (i : SnowInitiator) :
  reachable w → SnowInitiator_new rng (keypair_ w) (public_key info) = Ok i →
  ∃ T w' p notice, represents w T ∧
    initiate rng o id info w = (w', Ok (SessionReady_new id o notice)) ∧
    represents w' (<[id := SInitiator p]> T) ∧ pd_one_time_id p = o ∧
    (∀ o' s c, established w !! id = Some (o', s) → cores (runtime w') !! s_core s = Some c →
       dead c = true) ∧
    (∀ l addrs m r, tasks (runtime w') !! l = Some (PokeTask id addrs) ∨
       tasks (runtime w') !! l = Some (InitiateTask id addrs m) ∨
       (∃ a, tasks (runtime w') !! l = Some (RespondTask id a r)) →
       l = psi_handle (pd_session p)).
Proof.
  intros [T Hok]%reachable_ok Hi.
  pose proof (world_ok_cleared id w T Hok) as Hc.
  destruct (world_ok_initiated id o info i _ _ (lookup_delete_eq _ _) Hc) as (p & Hok' & Ho).
  exists T. eexists _, p, _. split; [by apply Hok|].
  erewrite initiate_eq by done. rewrite Hi. split; [done|].
  assert (<[id := SInitiator p]> (delete id T) = <[id := SInitiator p]> T) as Heq
    by apply insert_delete_eq.
  rewrite Heq in Hok'. destruct Hok' as [HR' Htab']. split_and!; [done|done| |].
  - intros o' s c Hs Hcore.
    assert (T !! id = Some (SEstablished o' s)) as Hid by (by apply Hok).
    unfold cleared in Hcore. rewrite Hid in Hcore. simpl in Hcore.
    destruct Hok as [_ Htab]. destruct (to_slot _ _ _ Htab _ _ Hid) as (_ & c0 & Hc0).
    rewrite Hc0 in Hcore. simpl in Hcore. rewrite lookup_insert_eq in Hcore.
    by injection Hcore as <-.
  - intros l addrs m r [Hl|[Hl|[a Hl]]];
      destruct (to_task _ _ _ Htab' _ _ Hl) as (_ & q & Hq & Hh);
      rewrite lookup_insert_eq in Hq; by simplify_eq.
Qed.

Lemma initiate_replaces_witness :
  ∃ i, @SnowInitiator_new engine 9 (keypair_ demo_initiating) (public_key (demo_info 5)) = Ok i ∧
  ∃ (T : gmap SessionId (@Slot crates)) w' p notice, represents demo_initiating T ∧
    initiate 9 101 7 (demo_info 5) demo_initiating = (w', Ok (SessionReady_new 7 101 notice)) ∧
    represents w' (<[7%N := SInitiator p]> T) ∧ pd_one_time_id p = 101%N ∧
    present (tasks (runtime w') !! psi_handle (pd_session p)) = 1.
Proof.
  eexists. split; [reflexivity|].
  destruct (@initiate_replaces crates crates_laws demo_initiating 9 101 7 (demo_info 5) _
    demo_initiating_reachable eq_refl) as (T & w' & p & notice & HR & Hinit & HR' & Ho & _).
  exists T, w', p, notice. split_and!; [exact HR|exact Hinit|exact HR'|exact Ho|].
  assert (initiators w' !! 7%N = Some p) as Hp by (apply HR', lookup_insert_eq).
  assert (w' = (initiate 9 101 7 (demo_info 5) demo_initiating).1) as Hw by (by rewrite Hinit).
  subst w'. assert (p = default p (initiators (initiate 9 101 7 (demo_info 5)
    demo_initiating).1 !! 7%N)) as -> by (by rewrite Hp).
  by vm_compute.
Defined.

(** ** Third parties and interleavings *)

(** C33. One forged initiation destroys a connection that waits for its peer: the
    pending session is dropped without a notification, its task is stopped, and no
    later packet, the genuine initiation included, does anything: the future of
    the user stays pending. *)
Theorem forged_initiation_drops_poker `{Crates, !CratesLaws} (w : World) (src : SocketAddr)
    (packet : SessionPacket) (p : PendingEntry PendingSessionPoker) (i : SnowInitiation)
    (e : Error) (data : bytes) (n : Notice) :
  reachable w → pokers w !! sp_id packet = Some p →
  deserialize data = Some packet → deserialize (sp_data packet) = Some (HandshakeInitiation i) →
  response (psp_responder (pd_session p)) i = Err e →
  notices w !! pd_notice p = Some n → bc_try_recv (nt_channel n) = (nt_channel n, false) →
  ∃ w', handle_incoming src data w = (w', Ok tt) ∧
    pokers w' !! sp_id packet = None ∧
    tasks (runtime w') !! psp_handle (pd_session p) = None ∧
    (∀ src' data' packet', deserialize data' = Some packet' → sp_id packet' = sp_id packet →
       handle_incoming src' data' w' = (w', Ok tt)) ∧
    (∀ r waker, sr_notice r = pd_notice p →
       ∃ w'' r', SessionReady_poll (E := Error) r waker w' = (w'', Ok (r', PollPending))).
Proof.
  intros [T Hok]%reachable_ok Hp Hdata Hd Hresp Hn Hrecv.
  assert (T !! sp_id packet = Some (SPoker p)) as Hid by (by apply Hok).
  destruct (dispatch_ok src packet w T Hok) as (w' & Hw' & Hok').
  rewrite partial_alter_drop in Hok' by (rewrite Hid; simpl; by rewrite Hd, Hresp).
  assert (w' = with_runtime (aborted (psp_handle (pd_session p)) (runtime w))
    (without_poker (sp_id packet) w)) as Heq.
  { destruct Hok as [HR Htab]. destruct (to_slot _ _ _ Htab _ _ Hid) as (_ & Hw & _).
    erewrite dispatch_eq in Hw' by done. rewrite Hid in Hw'.
    rewrite (handle_poker_initiation _ _ _ _ i Hw Hd), Hresp in Hw'. by simplify_eq. }
  assert (∀ s d w0, deserialize d = Some packet → handle_incoming s d w0 = dispatch s packet w0)
    as Hin by (intros s d w0 Hdes; unfold handle_incoming, mbind, M_bind, lift; by rewrite Hdes).
  exists w'. split; [by rewrite Hin|].
  destruct (represents_None w' _ (sp_id packet) (proj1 Hok') (lookup_delete_eq _ _))
    as (Hpoker & _). split_and!; [done|by rewrite Heq; apply lookup_delete_eq| |].
  - intros src' data' packet' Hdes Hpid. unfold handle_incoming, mbind, M_bind, lift.
    rewrite Hdes. simpl. erewrite dispatch_eq by apply Hok'.
    by rewrite Hpid, lookup_delete_eq.
  - intros r waker Hr. assert (notices w' !! pd_notice p = Some n) as Hn' by (by rewrite Heq).
    unfold SessionReady_poll, ready_try_recv, ready_add_waker. rewrite Hr.
    unfold mbind at 1, M_bind at 1, on_notice at 1. rewrite Hn', Hrecv. cbn iota beta.
    unfold mbind, M_bind, mret, M_ret. destruct (sr_added_waker r); [by do 2 eexists|].
    unfold on_notice. simpl. rewrite lookup_insert_eq. by do 2 eexists.
Qed.

(** C34. The removal of a session and the handling of a packet take the locks of the
    maps one after the other: when a connection is removed (by a close or a new call)
    while its response is being processed, the removal finds nothing, and the session
    is established afterwards for a user who is gone. *)
Theorem removal_race_leaks `{Crates, !CratesLaws} (w : World) (src : SocketAddr)
    (packet : SessionPacket) (p : PendingEntry PendingSessionInitiator) (r : SnowResponse)
    (t : LossyTransportState) (ot : option OneTimeId) :
  reachable w → initiators w !! sp_id packet = Some p →
  deserialize (sp_data packet) = Some (HandshakeResponse r) →
  receive_response (psi_initiator (pd_session p)) r = Ok (ResponseOk t) →
  ∃ w1 w2 s, take_initiator (E := Error) (sp_id packet) w = (w1, Ok (Some p)) ∧
    remove_session (E := Error) (sp_id packet) ot w1 = (w1, Ok tt) ∧
    handle_initiator (E := Error) src packet p w1 = (w2, Ok tt) ∧
    established w2 !! sp_id packet = Some (pd_one_time_id p, s).
Proof.
  intros [T [HR Htab]]%reachable_ok Hp Hd Hresp.
  assert (T !! sp_id packet = Some (SInitiator p)) as Hid by (by apply HR).
  destruct (to_slot _ _ _ Htab _ _ Hid) as (Hpid & Hw & Haddr & Hn).
  destruct (represents_Some _ _ _ _ HR Hid) as (H1 & _ & H3 & H4).
  set (w1 := without_initiator (sp_id packet) w).
  pose proof (handle_initiator_response (E := Error) src packet p w1 r Hw Hpid H4 Hn Hd) as Hh.
  rewrite Hresp in Hh.
  exists w1. eexists _, _. split_and!; [by rewrite <- Hp| |exact Hh|].
  - unfold remove_session.
    erewrite M_bind_step by (apply remove_established_other; simpl; by rewrite H4).
    erewrite M_bind_step by (apply remove_responder_other; simpl; by rewrite H3).
    erewrite M_bind_step by (apply remove_poker_other; simpl; by rewrite H1).
    apply remove_initiator_other. simpl. by rewrite lookup_delete_eq.
  - unfold connected, notified. simpl. destruct Hn as [n Hn]. rewrite Hn.
    destruct (bc_send _) as [b []]; simpl; by rewrite lookup_insert_eq.
Qed.

(** A future of a connection keeps only the waker of its first poll: when it is
    polled again with another waker, the notification wakes the first one alone. *)
Theorem ready_keeps_first_waker `{Crates, !CratesLaws} (w : World) (r : SessionReady)
    (n : Notice) (waker1 waker2 : Waker) :
  notices w !! sr_notice r = Some n → nt_wakers n = [] →
  bc_pending (nt_channel n) = Some 0 → sr_added_waker r = false →
  ∃ w1 r1 w2 r2 w3,
    SessionReady_poll (E := Error) r waker1 w = (w1, Ok (r1, PollPending)) ∧
    SessionReady_poll (E := Error) r1 waker2 w1 = (w2, Ok (r2, PollPending)) ∧
    notify_ready (sr_notice r) w2 = (w3, Ok tt) ∧
    woken (runtime w3) = woken (runtime w) ++ [waker1].
Proof.
  intros Hn Hw Hpend Hadded.
  pose proof (bc_try_recv_none _ Hpend) as Hrecv.
  destruct (bc_send_alive _ Hpend) as [Hsent _].
  destruct (bc_send (nt_channel n)) as [b sent] eqn:Hb. simpl in Hsent. subst sent.
  assert (∀ w0 r0 waker, notices w0 !! sr_notice r0 = Some (mkNotice (nt_channel n) [waker1]) →
    sr_added_waker r0 = true →
    SessionReady_poll (E := Error) r0 waker w0 =
      (with_notices (<[sr_notice r0 := mkNotice (nt_channel n) [waker1]]> (notices w0)) w0,
       Ok (r0, PollPending))) as Hagain.
  { intros w0 r0 waker Hn0 Ha0. unfold SessionReady_poll, ready_try_recv, ready_add_waker.
    unfold mbind at 1, M_bind at 1, on_notice at 1. rewrite Hn0. simpl. rewrite Hrecv.
    cbn iota beta. by rewrite Ha0. }
  set (w1 := with_notices (<[sr_notice r := mkNotice (nt_channel n) [waker1]]> (notices w)) w).
  set (r1 := mkSessionReady (sr_id r) (sr_one_time_id r) (sr_notice r) true (sr_completed r)).
  assert (SessionReady_poll (E := Error) r waker1 w = (w1, Ok (r1, PollPending))) as Hfirst.
  { unfold SessionReady_poll, ready_try_recv, ready_add_waker.
    unfold mbind at 1, M_bind at 1, on_notice at 1. rewrite Hn, Hrecv. cbn iota beta.
    rewrite Hadded. unfold mbind, M_bind, mret, M_ret, on_notice. simpl.
    rewrite lookup_insert_eq. simpl. unfold w1, with_notices. simpl.
    by rewrite insert_insert_eq, Hw. }
  eexists w1, r1, _, r1, _. split_and!; [done| | |].
  - apply Hagain; [apply lookup_insert_eq|done].
  - unfold notify_ready. unfold mbind at 1, M_bind at 1, on_notice at 1. simpl.
    rewrite lookup_insert_eq. simpl. rewrite Hb. cbn iota beta. simpl.
    unfold mbind at 1, M_bind at 1, on_notice at 1. simpl. rewrite lookup_insert_eq. reflexivity.
  - done.
Qed.

(** A handler of the concrete crates that waits for its peer. *)
Definition demo_responding : @World crates :=
  @run_events crates [EvRespond 4 200 7 (demo_info 1)] (demo_handler 2).

Definition demo_datagram (p : SessionPacket) : bytes := put packet_coder p.
Definition demo_forged : SessionPacket :=
  mkSessionPacket 7 (put raw_coder (HandshakeInitiation (mkSnowInitiation [x00]))).

Lemma forged_initiation_drops_poker_witness :
  ∃ w', handle_incoming (SocketAddrV4 9 9) (demo_datagram demo_forged) demo_responding
      = (w', Ok tt) ∧
    pokers w' !! 7%N = None ∧
    ∀ src' data' packet', @deserialize _ (coder_codec packet_coder) data' = Some packet' →
      sp_id packet' = 7%N → handle_incoming src' data' w' = (w', Ok tt).
Proof.
  assert (present (pokers demo_responding !! 7%N) = 1) as Hsome by reflexivity.
  destruct (pokers demo_responding !! 7%N) as [p|] eqn:Hp; [|discriminate Hsome].
  assert (p = default p (pokers demo_responding !! 7%N)) as Hpeq by (by rewrite Hp).
  destruct (@forged_initiation_drops_poker crates crates_laws demo_responding
    (SocketAddrV4 9 9) demo_forged p (mkSnowInitiation [x00]) SnowError
    (demo_datagram demo_forged) (@mkNotice crates (Some 0) []))
    as (w' & Hin & Hpoker & _ & Hall & _).
  - by exists (demo_keys 2), [EvRespond 4 200 7 (demo_info 1)].
  - exact Hp.
  - reflexivity.
  - reflexivity.
  - rewrite Hpeq. reflexivity.
  - rewrite Hpeq. reflexivity.
  - reflexivity.
  - exists w'. split_and!; [exact Hin|exact Hpoker|exact Hall].
Defined.

(** The response of the peer of [demo_initiating], and the key of the session. *)
Definition demo_response_message : SnowResponse :=
  mkSnowResponse (x02 :: le_put 8 2 ++ le_put 8 4).
Definition demo_response : SessionPacket :=
  mkSessionPacket 7 (put raw_coder (HandshakeResponse demo_response_message)).
Definition demo_session_key : bytes := le_put 4 3 ++ le_put 4 4 ++ le_put 8 1 ++ le_put 8 2.

(** The response of the peer moves the entry of the initiator to the established sessions. *)
Lemma handler_refines_table_witness :
  ∃ T w' T', @represents crates demo_initiating T ∧
    handle_incoming (SocketAddrV4 1 2) (demo_datagram demo_response) demo_initiating
      = (w', Ok tt) ∧ represents w' T' ∧ ∃ s, T' !! 7%N = Some (SEstablished 100 s).
Proof.
  destruct (@handler_refines_table crates crates_laws demo_initiating (SocketAddrV4 1 2)
    (demo_datagram demo_response) demo_initiating_reachable) as (T & HR & Hstep).
  assert (@deserialize _ (@crates_packet crates) (demo_datagram demo_response) =
    Some demo_response) as Hde by (by vm_compute).
  rewrite Hde in Hstep. destruct Hstep as (w' & Hin & HR').
  exists T, w'. eexists. split; [exact HR|]. split; [exact Hin|]. split; [exact HR'|].
  assert (present (initiators demo_initiating !! 7%N) = 1) as Hsome by reflexivity.
  destruct (initiators demo_initiating !! 7%N) as [p|] eqn:Hp; [|discriminate Hsome].
  assert (p = default p (initiators demo_initiating !! 7%N)) as Hpeq by (by rewrite Hp).
  apply HR in Hp. eexists. change (sp_id demo_response) with 7%N.
  rewrite lookup_partial_alter_eq, Hp, Hpeq. reflexivity.
Defined.

Lemma removal_race_leaks_witness :
  ∃ p w1 w2 s, take_initiator (E := Error) 7 demo_initiating = (w1, Ok (Some p)) ∧
    remove_session (E := Error) 7 (Some 100%N) w1 = (w1, Ok tt) ∧
    handle_initiator (E := Error) (SocketAddrV4 1 2) demo_response p w1 = (w2, Ok tt) ∧
    established w2 !! 7%N = Some (100%N, s).
Proof.
  assert (present (initiators demo_initiating !! 7%N) = 1) as Hsome by reflexivity.
  destruct (initiators demo_initiating !! 7%N) as [p|] eqn:Hp; [|discriminate Hsome].
  assert (p = default p (initiators demo_initiating !! 7%N)) as Hpeq by (by rewrite Hp).
  destruct (@removal_race_leaks crates crates_laws demo_initiating (SocketAddrV4 1 2)
    demo_response p demo_response_message (@from_stateless engine demo_session_key) (Some 100%N))
    as (w1 & w2 & s & Htake & Hrem & Hh & Hs).
  - exact demo_initiating_reachable.
  - exact Hp.
  - reflexivity.
  - rewrite Hpeq. reflexivity.
  - exists p, w1, w2, s. split_and!; [exact Htake|exact Hrem|exact Hh|].
    replace 100%N with (pd_one_time_id p); [exact Hs|]. rewrite Hpeq. reflexivity.
Defined.

Lemma ready_keeps_first_waker_witness :
  ∃ w1 r1 w2 r2 w3,
    SessionReady_poll (E := Error) (SessionReady_new 7 100 1) 31 demo_initiating
      = (w1, Ok (r1, PollPending)) ∧
    SessionReady_poll (E := Error) r1 32 w1 = (w2, Ok (r2, PollPending)) ∧
    notify_ready 1 w2 = (w3, Ok tt) ∧ woken (runtime w3) = [31%N].
Proof.
  by apply (@ready_keeps_first_waker crates crates_laws demo_initiating
    (SessionReady_new 7 100 1) (@mkNotice crates (Some 0) []) 31 32).
Defined.
