(* ===== verification/Steps.v ===== *)
(** * Operations that overlap

    The operations of a handler, cut where another party can come in between: a [Proc]
    is an operation as the sequence of its accesses to what is shared, each a section
    under one lock or one access to a cell, a channel or the runtime.  Operations that
    have started are a pool, and a schedule says which of them makes its next access.
    [solo_event] shows that an operation that runs without others is the operation of
    [Handler].

    A section under the lock of a map is one step, with two exceptions, which allow
    more than the lock does: a packet of an established session and a send await inside
    the section, and are cut at each of their accesses. *)

From S2P Require Import Prelude Std Externals SnowTypes Session Handler Reachable.

(** ** Processes *)

Section processes.
Context `{Crates}.

(** What is left of an operation: its outcome, or its next access and what it does
    with the outcome of the access. *)
Inductive Proc (A : Type) : Type :=
  | Done (r : outcome Error A)
  | Step (B : Type) (m : M World Error B) (k : outcome Error B → Proc A).
#[global] Arguments Done {A} r.
#[global] Arguments Step {A B} m k.

(** [p.await?] followed by [f]. *)
Fixpoint proc_bind {A B} (f : A → Proc B) (p : Proc A) : Proc B :=
  match p with
  | Done (Ok a) => f a
  | Done (Err e) => Done (Err e)
  | Done Panic => Done Panic
  | Done Pending => Done Pending
  | Done OutOfFuel => Done OutOfFuel
  | Step m k => Step m (λ r, proc_bind f (k r))
  end.

(** The outcome of [p] as a value. *)
Fixpoint proc_catch {A} (p : Proc A) : Proc (outcome Error A) :=
  match p with
  | Done r => Done (Ok r)
  | Step m k => Step m (λ r, proc_catch (k r))
  end.

(** One access. *)
Definition access {A} (m : M World Error A) : Proc A := Step m Done.

(** The process without any other. *)
Fixpoint solo {A} (p : Proc A) : M World Error A := λ w,
  match p with
  | Done r => (w, r)
  | Step m k => let '(w', r) := m w in solo (k r) w'
  end.

#[global] Instance Proc_ret : MRet Proc := λ A a, Done (Ok a).
#[global] Instance Proc_bind : MBind Proc := λ A B f p, proc_bind f p.

Definition proc_attempt {A} (p : Proc A) : Proc (A + Error) :=
  r ← proc_catch p;
  match r with
  | Ok a => mret (inl a)
  | Err e => mret (inr e)
  | Panic => Done Panic
  | Pending => Done Pending
  | OutOfFuel => Done OutOfFuel
  end.

Definition proc_log_err (p : Proc unit) : Proc unit := proc_attempt p;; mret tt.
End processes.

(** ** The operations of the runtime *)

Section runtime_steps.
Context `{Crates}.

Definition rt {A} (m : M Runtime Error A) : Proc A := access (on_runtime m).

(** [Session_new]: nobody else has the shared parts before the first task is spawned. *)
Definition new_core (t : LossyTransportState) : M Runtime Error N :=
  core ← alloc;
  modify (λ rt, with_cores (<[core := mkSessionCore t true false ∅ chan_new]> (cores rt)) rt);;
  mret core.

Definition Session_new_steps (id : SessionId) (remote_addr : SocketAddr)
    (t : LossyTransportState) : Proc Session :=
  Done (ok_or BincodeError (serialize Keepalive));;
  core ← rt (new_core t);
  rt (spawn (KeepaliveTask id remote_addr core));;
  rt (spawn (HeartbeatTask core));;
  mret (mkSession id remote_addr core).

Definition Session_handle_incoming_steps (s : Session) (packet : SessionPacket) : Proc unit :=
  raw ← Done (ok_or BincodeError (deserialize (sp_data packet)));
  match raw with
  | HandshakePoke => mret tt
  | HandshakeInitiation _ => mret tt
  | HandshakeResponse _ => mret tt
  | Encrypted encrypted =>
      data ← rt (on_core (s_core s) (get_transport (decrypt encrypted)));
      message ← Done (ok_or BincodeError (deserialize data));
      match message with
      | Keepalive => rt (on_core (s_core s) (modify (with_heartbeat true)))
      | Payload data =>
          rt (on_core (s_core s) (queue_message data));;
          w ← rt (on_core (s_core s) pop_waker);
          rt (wake_option w)
      end
  end.

Definition Session_send_steps (s : Session) (data : bytes) : Proc unit :=
  is_dead ← rt (Session_is_dead s);
  if is_dead : bool then Done (Err (Anyhow "Can't send because am dead")) else
  serialized_message ← Done (ok_or BincodeError (serialize (Payload data)));
  encrypted ← rt (on_core (s_core s) (get_transport (encrypt serialized_message)));
  serialized ← Done (ok_or BincodeError (serialize (Encrypted encrypted)));
  rt (send_out (s_remote_addr s) (mkSessionPacket (s_id s) serialized) 64).

Definition Receiving_poll_steps (r : Receiving) (w : Waker) : Proc (Poll (bytes + unit)) :=
  is_dead ← rt (poll_dead r);
  if is_dead : bool then mret (Ready (inr tt)) else
  m ← rt (poll_try_recv r);
  rt (poll_wakers r w m).

(** *** Pending sessions *)

Definition Poker_responder_steps (p : PendingSessionPoker) : Proc PendingSessionResponder :=
  match psp_working_remote_addr p with
  | Some (addr, i) =>
      rt (abort (psp_handle p));;
      '(t, r) ← Done (response (psp_responder p) i);
      rt (PendingSessionResponder_new (psp_id p) addr t r)
  | None => Done (Err (Anyhow "working_remote_addr is None."))
  end.

Definition Initiator_session_steps (p : PendingSessionInitiator) : Proc SessionResult :=
  match psi_working_remote_addr p with
  | Some (remote_addr, r) =>
      rt (abort (psi_handle p));;
      result ← Done (receive_response (psi_initiator p) r);
      match result with
      | ResponseOk t => s ← Session_new_steps (psi_id p) remote_addr t; mret (SessionOk s)
      | ResponseErr i =>
          mret (SessionErr
            (mkPendingSessionInitiator (psi_handle p) None (psi_waker p) (psi_id p) i))
      end
  | None => mret (SessionErr p)
  end.

Definition Responder_session_steps (p : PendingSessionResponder) : Proc Session :=
  if psr_ready p
  then rt (abort (psr_handle p));;
    Session_new_steps (psr_id p) (psr_remote_addr p) (psr_transport p)
  else Done (Err (Anyhow "Am not ready")).

(** *** Tasks *)

Definition keepalive_tick_steps (id : SessionId) (remote_addr : SocketAddr) (core : N)
    : Proc bool :=
  sent ← proc_attempt
    (keepalive ← Done (unwrap (serialize Keepalive));
     encrypted ← rt (on_core core (get_transport (encrypt keepalive)));
     serialized ← Done (ok_or BincodeError (serialize (Encrypted encrypted)));
     rt (send_out remote_addr (mkSessionPacket id serialized) 64));
  match sent with
  | inl _ => is_dead ← rt (on_core core (gets dead)); mret (negb is_dead)
  | inr _ => mret true
  end.

Definition heartbeat_tick_steps (core : N) : Proc bool :=
  beat ← rt (on_core core (gets heartbeat));
  if negb beat then
    rt (on_core core (modify (with_dead true)));;
    ws ← rt (on_core core (gets wakers));
    rt (wake_all (waker_values (size ws) ws));;
    mret false
  else
    rt (on_core core (modify (with_heartbeat false)));;
    mret true.

Fixpoint send_each_steps (addrs : list SocketAddr) (packet : SessionPacket) : Proc unit :=
  match addrs with
  | [] => mret tt
  | addr :: addrs => proc_log_err (rt (send_out addr packet 64));; send_each_steps addrs packet
  end.

Definition handshake_tick_steps (id : SessionId) (addrs : list SocketAddr) (m : RawMessage)
    : Proc bool :=
  serialized_message ← Done (unwrap (serialize m));
  send_each_steps addrs (mkSessionPacket id serialized_message);;
  mret true.

Definition task_tick_steps (t : Task) : Proc bool :=
  match t with
  | PokeTask id addresses => handshake_tick_steps id (elements addresses) HandshakePoke
  | InitiateTask id addresses i =>
      handshake_tick_steps id (elements addresses) (HandshakeInitiation i)
  | RespondTask id addr r => handshake_tick_steps id [addr] (HandshakeResponse r)
  | KeepaliveTask id addr core => keepalive_tick_steps id addr core
  | HeartbeatTask core => heartbeat_tick_steps core
  end.

Definition run_task_steps (l : N) : Proc unit :=
  task ← access (gets (λ w, tasks (runtime w) !! l));
  match task with
  | None => mret tt
  | Some t =>
      r ← proc_catch (task_tick_steps t);
      match r with
      | Ok true => mret tt
      | _ => rt (abort l)
      end
  end.
End runtime_steps.

(** ** The operations of the handler *)

Section handler_steps.
Context `{Crates}.

(** [sender.send(())?], then the lock of the wakers. *)
Definition notify_ready_steps (notice : N) : Proc unit :=
  sent ← access (on_notice notice (λ n,
    let '(b, sent) := bc_send (nt_channel n) in (mkNotice b (nt_wakers n), Ok sent)));
  if negb sent then Done (Err ChannelError) else
  ws ← access (on_notice notice (gets nt_wakers));
  rt (wake_all ws).

Definition upgrade_session_steps (id : SessionId) (one_time_id : OneTimeId) (s : Session)
    (notice : N) : Proc unit :=
  access (put_established id one_time_id s);;
  notify_ready_steps notice.

Definition handle_poker_steps (src : SocketAddr) (packet : SessionPacket)
    (p : PendingEntry PendingSessionPoker) : Proc unit :=
  pending_session ← rt (Poker_handle_incoming (pd_session p) src packet);
  if Poker_is_ready pending_session then
    r ← proc_attempt (Poker_responder_steps pending_session);
    match r with
    | inl session => access (put_responder (sp_id packet) (with_session session p))
    | inr _ => mret tt
    end
  else access (put_poker (sp_id packet) (with_session pending_session p)).

Definition handle_initiator_steps (src : SocketAddr) (packet : SessionPacket)
    (p : PendingEntry PendingSessionInitiator) : Proc unit :=
  pending_session ← rt (Initiator_handle_incoming (pd_session p) src packet);
  if Initiator_is_ready pending_session then
    r ← proc_attempt (Initiator_session_steps pending_session);
    match r with
    | inl (SessionOk session) =>
        proc_log_err
          (upgrade_session_steps (sp_id packet) (pd_one_time_id p) session (pd_notice p))
    | inl (SessionErr pending_session) =>
        access (put_initiator (sp_id packet) (with_session pending_session p))
    | inr _ => mret tt
    end
  else access (put_initiator (sp_id packet) (with_session pending_session p)).

Definition handle_responder_steps (src : SocketAddr) (packet : SessionPacket)
    (p : PendingEntry PendingSessionResponder) : Proc unit :=
  pending_session ← access (run_responder src packet (pd_session p));
  if Responder_is_ready pending_session then
    r ← proc_attempt (Responder_session_steps pending_session);
    match r with
    | inl session =>
        proc_log_err
          (upgrade_session_steps (sp_id packet) (pd_one_time_id p) session (pd_notice p))
    | inr _ => mret tt
    end
  else access (put_responder (sp_id packet) (with_session pending_session p)).

Definition handle_established_steps (packet : SessionPacket) : Proc unit :=
  entry ← access (gets (λ w, established w !! sp_id packet));
  match entry with
  | Some (_, session) => proc_log_err (Session_handle_incoming_steps session packet)
  | None => mret tt
  end.

Definition dispatch_steps (src : SocketAddr) (packet : SessionPacket) : Proc unit :=
  poker ← access (take_poker (sp_id packet));
  match poker with
  | Some p => handle_poker_steps src packet p
  | None =>
  initiator ← access (take_initiator (sp_id packet));
  match initiator with
  | Some p => handle_initiator_steps src packet p
  | None =>
  responder ← access (take_responder (sp_id packet));
  match responder with
  | Some p => handle_responder_steps src packet p
  | None => handle_established_steps packet
  end end end.

Definition handle_incoming_steps (src : SocketAddr) (data : bytes) : Proc unit :=
  packet ← Done (ok_or BincodeError (deserialize data));
  dispatch_steps src packet.

Definition send_steps (id : SessionId) (data : bytes) : Proc unit :=
  entry ← access (gets (λ w, established w !! id));
  match entry with
  | Some (_, session) => Session_send_steps session data
  | None => Done (Err (Anyhow "SessionId {id} is not in established sessions"))
  end.

Definition remove_session_steps (id : SessionId) (one_time_id : option OneTimeId) : Proc unit :=
  access (remove_established id one_time_id);;
  access (remove_responder id one_time_id);;
  access (remove_poker id one_time_id);;
  access (remove_initiator id one_time_id).

(** A task [close_session] spawned starts. *)
Definition pop_closer (k : nat) : M World Error (option (SessionId * OneTimeId)) := λ w,
  match closers w !! k with
  | Some c => (with_closers (delete k (closers w)) w, Ok (Some c))
  | None => (w, Ok None)
  end.

Definition run_closer_steps (k : nat) : Proc unit :=
  c ← access (pop_closer k);
  match c with
  | Some (id, one_time_id) => remove_session_steps id (Some one_time_id)
  | None => mret tt
  end.

(** The notification is made, and the identifier drawn, under the lock of the map. *)
Definition initiate_steps (rng : N) (one_time_id : OneTimeId) (id : SessionId)
    (info : ConnectionInfo) : Proc SessionReady :=
  remove_session_steps id None;;
  keys ← access (gets keypair_);
  initiator ← Done (SnowInitiator_new rng keys (public_key info));
  pending ← rt (PendingSessionInitiator_new id (addresses info) initiator);
  access (notice ← new_notice;
          put_initiator id (mkPending pending one_time_id notice);;
          mret (SessionReady_new id one_time_id notice)).

Definition respond_steps (rng : N) (one_time_id : OneTimeId) (id : SessionId)
    (info : ConnectionInfo) : Proc SessionReady :=
  remove_session_steps id None;;
  keys ← access (gets keypair_);
  responder ← Done (SnowResponder_new rng keys (public_key info));
  poking ← rt (PendingSessionPoker_new id (addresses info) responder);
  access (notice ← new_notice;
          put_poker id (mkPending poking one_time_id notice);;
          mret (SessionReady_new id one_time_id notice)).

Definition SessionReady_poll_steps (r : SessionReady) (waker : Waker)
    : Proc (SessionReady * Poll (SessionId * OneTimeId)) :=
  ok ← access (ready_try_recv r);
  if ok : bool
  then mret (mkSessionReady (sr_id r) (sr_one_time_id r) (sr_notice r) (sr_added_waker r) true,
             Ready (sr_id r, sr_one_time_id r))
  else r ← access (ready_add_waker r waker); mret (r, PollPending).

Definition SessionReady_drop_steps (r : SessionReady) : Proc unit :=
  access (if sr_completed r then mret tt else close_session (sr_id r) (sr_one_time_id r));;
  access (on_notice (sr_notice r)
    (modify (λ n, mkNotice (bc_drop_receiver (nt_channel n)) (nt_wakers n)))).

(** What happens to a handler, as a process. *)
Definition event_steps (e : Event) : Proc unit :=
  match e with
  | EvPacket src data => handle_incoming_steps src data
  | EvInitiate rng o id info => initiate_steps rng o id info;; mret tt
  | EvRespond rng o id info => respond_steps rng o id info;; mret tt
  | EvSend id data => send_steps id data
  | EvRecvFrom id fresh => access (recv_from id fresh);; mret tt
  | EvRemoteAddr id => access (remote_addr id);; mret tt
  | EvClose id o => access (close_session id o)
  | EvRunCloser k => run_closer_steps k
  | EvTask l => run_task_steps l
  | EvPollReady r waker => SessionReady_poll_steps r waker;; mret tt
  | EvDropReady r => SessionReady_drop_steps r
  | EvPollReceiving r waker => Receiving_poll_steps r waker;; mret tt
  | EvTransmit => access recv_outgoing;; mret tt
  end.
End handler_steps.

(** ** Schedules *)

Section schedules.
Context `{Crates}.

(** An operation starts, or the [i]th operation makes its next access. *)
Inductive Action :=
  | Start (e : Event)
  | Advance (i : nat).

(** The world, and the operations that have started. *)
Record Config := mkConfig {
  cf_world : World;
  cf_operations : list (Event * Proc unit);
}.

Definition act (c : Config) (a : Action) : Config :=
  match a with
  | Start e => mkConfig (cf_world c) (cf_operations c ++ [(e, event_steps e)])
  | Advance i =>
      match cf_operations c !! i with
      | Some (e, Step m k) =>
          let '(w, r) := m (cf_world c) in mkConfig w (<[i := (e, k r)]> (cf_operations c))
      | _ => c
      end
  end.

Definition interleaved (keys : SnowKeypair) (schedule : list Action) : Config :=
  foldl act (mkConfig (Handler_new keys) []) schedule.

(** The identifiers [Uuid::new_v4] draws for the connections of a schedule. *)
Definition drawn_by (a : Action) : list OneTimeId :=
  match a with
  | Start (EvInitiate _ o _ _) => [o]
  | Start (EvRespond _ o _ _) => [o]
  | _ => []
  end.
Definition drawn (schedule : list Action) : list OneTimeId := mjoin (drawn_by <$> schedule).

Definition unfinished (p : Proc unit) : Prop := match p with Done _ => False | _ => True end.
End schedules.

(** ** An operation without others *)

Create HintDb steps.

Section solo.
Context `{Crates}.

(** The process does what the computation does. *)
Definition implements {A} (p : Proc A) (m : M World Error A) : Prop := ∀ w, solo p w = m w.

Lemma solo_bind {A B} (p : Proc A) (f : A → Proc B) :
  implements (p ≫= f) (solo p ≫= λ a, solo (f a)).
Proof.
  intros w. change (p ≫= f) with (proc_bind f p). revert w.
  induction p as [[]|C m k IH]; intros w; try done. simpl.
  unfold mbind at 1, M_bind at 1. simpl. destruct (m w) as [w' r].
  rewrite IH. reflexivity.
Qed.

Lemma solo_catch {A} (p : Proc A) w : solo (proc_catch p) w = let '(w', r) := solo p w in (w', Ok r).
Proof.
  revert w. induction p as [r|C m k IH]; intros w; [done|]. simpl. destruct (m w). apply IH.
Qed.

Lemma implements_bind {A B} (p : Proc A) m (f : A → Proc B) g :
  implements p m → (∀ a, implements (f a) (g a)) → implements (p ≫= f) (m ≫= g).
Proof.
  intros Hp Hf w. rewrite solo_bind. unfold mbind, M_bind. rewrite Hp.
  destruct (m w) as [w' []]; try done. apply Hf.
Qed.

Lemma implements_ret {A} (a : A) : implements (mret a) (mret a).
Proof. by intros w. Qed.

Lemma implements_done {A} (r : outcome Error A) : implements (Done r) (lift r).
Proof. by intros w. Qed.

Lemma implements_access {A} (m : M World Error A) : implements (access m) m.
Proof. intros w. unfold access. simpl. by destruct (m w). Qed.

Lemma implements_attempt {A} (p : Proc A) m :
  implements p m → implements (proc_attempt p) (attempt m).
Proof.
  intros Hp w. unfold proc_attempt. rewrite solo_bind. unfold mbind, M_bind, attempt.
  rewrite solo_catch, Hp. by destruct (m w) as [w' []].
Qed.

Lemma implements_log_err (p : Proc unit) m :
  implements p m → implements (proc_log_err p) (log_err m).
Proof.
  intros Hp w. unfold proc_log_err.
  rewrite (implements_bind _ _ _ (λ _, mret tt) (implements_attempt _ _ Hp)) by (by intros a).
  unfold mbind, M_bind, attempt, log_err. by destruct (m w) as [w' []].
Qed.

Lemma implements_if {A} (b : bool) (p1 p2 : Proc A) m1 m2 :
  implements p1 m1 → implements p2 m2 → implements (if b then p1 else p2) (if b then m1 else m2).
Proof. by destruct b. Qed.

(** The same inside the runtime. *)
Lemma runtime_ret {A} (a : A) : implements (mret a) (on_runtime (mret a)).
Proof. intros w. by destruct w. Qed.

Lemma runtime_done {A} (r : outcome Error A) : implements (Done r) (on_runtime (lift r)).
Proof. intros w. by destruct w. Qed.

Lemma runtime_access {A} (m : M Runtime Error A) : implements (rt m) (on_runtime m).
Proof. apply implements_access. Qed.

Lemma runtime_bind {A B} (p : Proc A) (m : M Runtime Error A) (f : A → Proc B) g :
  implements p (on_runtime m) → (∀ a, implements (f a) (on_runtime (g a))) →
  implements (p ≫= f) (on_runtime (m ≫= g)).
Proof.
  intros Hp Hf w. rewrite solo_bind. unfold mbind, M_bind. rewrite Hp.
  unfold on_runtime, zoom. destruct (m (runtime w)) as [rt' []]; try done.
  rewrite Hf. unfold on_runtime, zoom. simpl. by destruct (g a rt').
Qed.

Lemma runtime_attempt {A} (p : Proc A) (m : M Runtime Error A) :
  implements p (on_runtime m) → implements (proc_attempt p) (on_runtime (attempt m)).
Proof.
  intros Hp w. rewrite (implements_attempt _ _ Hp). unfold attempt, on_runtime, zoom.
  by destruct (m (runtime w)) as [rt' []].
Qed.

Lemma runtime_log_err (p : Proc unit) (m : M Runtime Error unit) :
  implements p (on_runtime m) → implements (proc_log_err p) (on_runtime (log_err m)).
Proof.
  intros Hp w. rewrite (implements_log_err _ _ Hp). unfold log_err, on_runtime, zoom.
  by destruct (m (runtime w)) as [rt' []].
Qed.
End solo.

#[export] Hint Resolve implements_bind implements_ret implements_done implements_access
  implements_attempt implements_log_err runtime_ret runtime_done runtime_access runtime_bind
  runtime_attempt runtime_log_err : steps.

#[global] Arguments proc_bind : simpl never.
#[global] Arguments Proc_bind : simpl never.
#[global] Arguments proc_catch : simpl never.
#[global] Arguments proc_attempt : simpl never.
#[global] Arguments proc_log_err : simpl never.
#[global] Arguments access : simpl never.
#[global] Arguments rt : simpl never.

(** Follow a process and its computation together. *)
Ltac solve_steps :=
  repeat first
    [ progress intros
    | progress (eauto 2 with steps)
    | apply runtime_bind | apply implements_bind | apply runtime_log_err
    | apply runtime_attempt | apply implements_log_err | apply implements_attempt | case_match ].

Section runtime_solo.
Context `{Crates}.

Lemma Session_new_steps_ok id addr t :
  implements (Session_new_steps id addr t) (on_runtime (Session_new id addr t)).
Proof.
  intros w. unfold Session_new_steps, Session_new, on_runtime, zoom, lift.
  destruct (serialize Keepalive); [reflexivity|by destruct w].
Qed.

Lemma Session_handle_incoming_steps_ok s packet :
  implements (Session_handle_incoming_steps s packet)
    (on_runtime (Session_handle_incoming s packet)).
Proof. unfold Session_handle_incoming_steps, Session_handle_incoming. solve_steps. Qed.

Lemma Session_send_steps_ok s data :
  implements (Session_send_steps s data) (on_runtime (Session_send s data)).
Proof. unfold Session_send_steps, Session_send. solve_steps. Qed.

Lemma Receiving_poll_steps_ok r waker :
  implements (Receiving_poll_steps r waker) (on_runtime (Receiving_poll r waker)).
Proof. unfold Receiving_poll_steps, Receiving_poll. solve_steps. Qed.

Lemma Poker_responder_steps_ok p :
  implements (Poker_responder_steps p) (on_runtime (Poker_responder p)).
Proof. unfold Poker_responder_steps, Poker_responder. solve_steps. Qed.

Lemma Initiator_session_steps_ok p :
  implements (Initiator_session_steps p) (on_runtime (Initiator_session p)).
Proof.
  pose proof Session_new_steps_ok.
  unfold Initiator_session_steps, Initiator_session. solve_steps.
Qed.

Lemma Responder_session_steps_ok p :
  implements (Responder_session_steps p) (on_runtime (Responder_session p)).
Proof.
  pose proof Session_new_steps_ok.
  unfold Responder_session_steps, Responder_session. solve_steps.
Qed.

Lemma send_each_steps_ok addrs packet :
  implements (send_each_steps addrs packet) (on_runtime (send_each addrs packet)).
Proof. induction addrs; cbn [send_each_steps send_each]; solve_steps. Qed.

Lemma task_tick_steps_ok t : implements (task_tick_steps t) (on_runtime (task_tick t)).
Proof.
  pose proof send_each_steps_ok. destruct t; cbn [task_tick_steps task_tick];
    unfold handshake_tick_steps, handshake_tick, keepalive_tick_steps, keepalive_tick,
      keepalive_send, heartbeat_tick_steps, heartbeat_tick; solve_steps.
Qed.

Lemma run_task_steps_ok l : implements (run_task_steps l) (on_runtime (run_task l)).
Proof.
  intros w. unfold run_task_steps. rewrite solo_bind.
  erewrite M_bind_step by reflexivity. unfold on_runtime, zoom, run_task.
  destruct (tasks (runtime w) !! l) as [t|]; [|by destruct w].
  rewrite solo_bind. unfold mbind, M_bind. rewrite solo_catch, task_tick_steps_ok.
  unfold on_runtime, zoom. by destruct (task_tick t (runtime w)) as [rt' [[]| | | |]].
Qed.
End runtime_solo.

Section handler_solo.
Context `{Crates}.

Lemma upgrade_session_steps_ok id o s l :
  implements (upgrade_session_steps id o s l) (upgrade_session id o s l).
Proof.
  unfold upgrade_session_steps, upgrade_session, notify_ready_steps, notify_ready. solve_steps.
Qed.

Lemma handle_poker_steps_ok src packet p :
  implements (handle_poker_steps src packet p) (handle_poker src packet p).
Proof.
  pose proof Poker_responder_steps_ok. unfold handle_poker_steps, handle_poker. solve_steps.
Qed.

Lemma handle_initiator_steps_ok src packet p :
  implements (handle_initiator_steps src packet p) (handle_initiator src packet p).
Proof.
  pose proof Initiator_session_steps_ok. pose proof upgrade_session_steps_ok.
  unfold handle_initiator_steps, handle_initiator. solve_steps.
Qed.

Lemma handle_responder_steps_ok src packet p :
  implements (handle_responder_steps src packet p) (handle_responder src packet p).
Proof.
  pose proof Responder_session_steps_ok. pose proof upgrade_session_steps_ok.
  unfold handle_responder_steps, handle_responder. solve_steps.
Qed.

Lemma dispatch_steps_ok src packet :
  implements (dispatch_steps src packet) (dispatch src packet).
Proof.
  pose proof handle_poker_steps_ok. pose proof handle_initiator_steps_ok.
  pose proof handle_responder_steps_ok. pose proof Session_handle_incoming_steps_ok.
  unfold dispatch_steps, dispatch, handle_established_steps, handle_established. solve_steps.
Qed.

Lemma remove_session_steps_ok id o :
  implements (remove_session_steps id o) (remove_session id o).
Proof. unfold remove_session_steps, remove_session. solve_steps. Qed.

Lemma run_closer_steps_ok k : implements (run_closer_steps k) (run_closer k).
Proof.
  intros w. unfold run_closer_steps, run_closer. rewrite solo_bind.
  unfold mbind at 1 2, M_bind at 1 2. rewrite implements_access. unfold pop_closer, gets.
  destruct (closers w !! k) as [[id o]|]; [|done]. rewrite remove_session_steps_ok.
  by erewrite M_bind_step by reflexivity.
Qed.

(** Run alone, the process of an event leaves the world the event leaves. *)
Lemma solo_event e w : (solo (event_steps e) w).1 = run_event e w.
Proof.
  assert (∀ A (p : Proc A) (m : M World Error A), implements p m →
    (solo (p;; mret tt) w).1 = (m w).1) as Hvoid.
  { intros A p m Hp. rewrite solo_bind. unfold mbind, M_bind. rewrite Hp.
    by destruct (m w) as [w' []]. }
  pose proof dispatch_steps_ok. pose proof remove_session_steps_ok.
  pose proof Session_send_steps_ok. destruct e; cbn [event_steps run_event].
  - assert (implements (handle_incoming_steps src data) (handle_incoming src data)) as ->; [|done].
    unfold handle_incoming_steps, handle_incoming. solve_steps.
  - apply Hvoid. unfold initiate_steps, initiate.
    apply implements_bind; [done|]. intros ?. solve_steps.
  - apply Hvoid. unfold respond_steps, respond.
    apply implements_bind; [done|]. intros ?. solve_steps.
  - assert (implements (send_steps id data) (send id data)) as ->; [|done].
    unfold send_steps, send. solve_steps.
  - apply Hvoid, implements_access.
  - apply Hvoid, implements_access.
  - by rewrite implements_access.
  - by rewrite run_closer_steps_ok.
  - by rewrite run_task_steps_ok.
  - apply Hvoid. unfold SessionReady_poll_steps, SessionReady_poll. solve_steps.
  - assert (implements (SessionReady_drop_steps r) (SessionReady_drop r)) as ->; [|done].
    unfold SessionReady_drop_steps, SessionReady_drop. solve_steps.
  - apply Hvoid, Receiving_poll_steps_ok.
  - apply Hvoid, implements_access.
Qed.
End handler_solo.
