(* ===== verification/Interleaving.v ===== *)
(** * Handlers whose operations overlap

    What holds of a handler under every schedule of [Steps]: operations start at any
    time, and their accesses interleave in any order.  The table of [Table] is not kept
    (an identifier can get a second entry while a packet is processed), but what an
    entry points to is its own, a connection is in one place, and no session that is
    alive is lost.

    The proof gives every process the connections and the sessions it has in its hands
    ([safe]): what it took out of a map it alone can put back. *)

From S2P Require Import Prelude Std Externals SnowTypes Transport Session SessionFacts Concrete SessionProps.
From S2P Require Import Handler Table HandlerFacts Reachable HandlerProps Steps.

(** ** What is somewhere once *)

Section linear.
Context {P A : Type} `{EqDecision P}.
Implicit Types (f g : P → option A) (x y : P) (a : A) (h : list A).

(** Every [a] is in one place of [f], or once in [h]. *)
Definition linear f h : Prop :=
  (∀ x y a, f x = Some a → f y = Some a → x = y) ∧
  (∀ x a, f x = Some a → a ∉ h) ∧ NoDup h.

Definition updated f x (v : option A) g : Prop :=
  ∀ y, g y = if decide (y = x) then v else f y.

Lemma linear_same f g h : (∀ y, g y = f y) → linear f h → linear g h.
Proof. intros Hg (H1 & H2 & H3). split_and!; [| |done]; intros *; rewrite ?Hg; eauto. Qed.

Lemma linear_drop f h1 h : linear f (h1 ++ h) → linear f h.
Proof.
  intros (H1 & H2 & H3). split_and!; [done| |by apply NoDup_app in H3 as (_ & _ & ?)].
  intros x a Hx Hin. apply (H2 x a Hx). set_solver.
Qed.

Lemma linear_perm f h1 h2 : h1 ≡ₚ h2 → linear f h1 → linear f h2.
Proof.
  intros Hp (H1 & H2 & H3). split_and!; [done| |by rewrite <- Hp].
  intros x a Hx. rewrite <- Hp. by apply (H2 x).
Qed.

(** What is taken out of its place is in hand. *)
Lemma linear_take f g x v h :
  updated f x None g → f x = v → linear f h → linear g (option_list v ++ h).
Proof.
  intros Hg Hx (H1 & H2 & H3). split_and!.
  - intros y z a. rewrite !Hg. repeat case_decide; naive_solver.
  - intros y a. rewrite Hg. case_decide; [done|]. intros Hy [Hin|Hin]%elem_of_app.
    + destruct v; simpl in Hin; [|by apply elem_of_nil in Hin].
      apply list_elem_of_singleton in Hin as ->. naive_solver.
    + by apply (H2 y a).
  - destruct v as [a|]; simpl; [|done]. apply NoDup_cons. split; [by apply (H2 x)|done].
Qed.

(** What is in hand can be put anywhere; what was there is in hand then. *)
Lemma linear_put f g x u v h :
  updated f x u g → f x = v → linear f (option_list u ++ h) → linear g (option_list v ++ h).
Proof.
  intros Hg Hx (H1 & H2 & H3). assert (NoDup h) as Hh by by apply NoDup_app in H3 as (_ & _ & ?).
  split_and!.
  - intros y z a. rewrite !Hg. repeat case_decide; try naive_solver; intros Hy Hz; exfalso.
    + apply (H2 z a Hz). rewrite Hy. simpl. left.
    + apply (H2 y a Hy). rewrite Hz. simpl. left.
  - intros y a. rewrite Hg. intros Hy [Hin|Hin]%elem_of_app.
    + destruct v as [b|]; simpl in Hin; [|by apply elem_of_nil in Hin].
      apply list_elem_of_singleton in Hin as ->. case_decide as Hyx.
      * apply (H2 x b Hx). rewrite Hy. simpl. left.
      * apply Hyx. by eapply H1.
    + case_decide as Hyx; [|apply (H2 y a Hy); set_solver].
      rewrite Hy in H3. simpl in H3. by apply NoDup_cons in H3 as [? _].
  - destruct v as [b|]; simpl; [|done]. apply NoDup_cons. split; [|done].
    intros Hin. apply (H2 x b Hx). set_solver.
Qed.

Lemma linear_fresh f a h :
  (∀ x, f x ≠ Some a) → a ∉ h → linear f h → linear f (a :: h).
Proof.
  intros Hf Ha (H1 & H2 & H3). split_and!; [done| |by apply NoDup_cons].
  intros x b Hx [->|Hb]%elem_of_cons; [naive_solver|by apply (H2 x b)].
Qed.
End linear.

(** ** Places *)

(** An entry is in the map of its kind. *)
Inductive Place :=
  | AtPoker (id : SessionId)
  | AtInitiator (id : SessionId)
  | AtResponder (id : SessionId)
  | AtEstablished (id : SessionId).

#[export] Instance Place_eq_dec : EqDecision Place.
Proof. solve_decision. Defined.

Section places.
Context `{Crates}.
Implicit Types (w : World) (x y : Place) (sl : Slot).

Definition slot_at w x : option Slot :=
  match x with
  | AtPoker id => SPoker <$> pokers w !! id
  | AtInitiator id => SInitiator <$> initiators w !! id
  | AtResponder id => SResponder <$> responders w !! id
  | AtEstablished id => (λ '(o, s), SEstablished o s) <$> established w !! id
  end.

(** The connection that is at a place, by the identifier drawn for it, and the session
    that is. *)
Definition connection_at w x : option OneTimeId := slot_one_time_id <$> slot_at w x.

Definition slot_core sl : option N :=
  match sl with SEstablished _ s => Some (s_core s) | _ => None end.
Definition core_at w x : option N := slot_at w x ≫= slot_core.

(** What an entry points to exists and is its own. *)
Definition slot_good w x sl : Prop :=
  match x, sl with
  | AtPoker id, SPoker p =>
      psp_id (pd_session p) = id ∧ is_Some (notices w !! pd_notice p) ∧
      (psp_handle (pd_session p) < next_loc (runtime w))%N ∧
      ∀ t, tasks (runtime w) !! psp_handle (pd_session p) = Some t → ∃ a, t = PokeTask id a
  | AtInitiator id, SInitiator p =>
      psi_id (pd_session p) = id ∧ is_Some (notices w !! pd_notice p) ∧
      (psi_handle (pd_session p) < next_loc (runtime w))%N ∧
      ∀ t, tasks (runtime w) !! psi_handle (pd_session p) = Some t → ∃ a i, t = InitiateTask id a i
  | AtResponder id, SResponder p =>
      psr_id (pd_session p) = id ∧ is_Some (notices w !! pd_notice p) ∧
      (psr_handle (pd_session p) < next_loc (runtime w))%N ∧
      ∀ t, tasks (runtime w) !! psr_handle (pd_session p) = Some t → ∃ a r, t = RespondTask id a r
  | AtEstablished id, SEstablished _ s => s_id s = id ∧ is_Some (cores (runtime w) !! s_core s)
  | _, _ => False
  end.

(** The session a task belongs to. *)
Definition task_core (t : Task) : option N :=
  match t with KeepaliveTask _ _ core | HeartbeatTask core => Some core | _ => None end.

(** ** What time keeps *)

Record later w w' : Prop := {
  la_next : (next_loc (runtime w) ≤ next_loc (runtime w'))%N;
  la_tasks l t : (l < next_loc (runtime w))%N →
    tasks (runtime w') !! l = Some t → tasks (runtime w) !! l = Some t;
  la_cores l : is_Some (cores (runtime w) !! l) → is_Some (cores (runtime w') !! l);
  la_notices l : is_Some (notices w !! l) → is_Some (notices w' !! l);
}.

#[global] Instance later_preorder : PreOrder later.
Proof.
  split; [by split|]. intros w1 w2 w3 [] []. split; [lia| |auto..].
  intros l t Hl Ht. apply la_tasks0; [done|]. apply la_tasks1; [lia|done].
Qed.

Lemma slot_good_later w w' x sl : later w w' → slot_good w x sl → slot_good w' x sl.
Proof.
  intros [Hn Ht Hc Hno].
  destruct x, sl; simpl; try done; [..|naive_solver];
    intros (? & ? & Hl & ?); (split_and!; [done|by apply Hno|lia|]);
    intros t Hl'; apply Ht in Hl'; auto.
Qed.

(** ** The invariant

    [os] and [cs] are the connections and the sessions that are in the hands of
    processes. *)
Record inv (os : list OneTimeId) (cs : list N) w : Prop := {
  inv_connections : linear (connection_at w) os;
  inv_sessions : linear (core_at w) cs;
  inv_slot x sl : slot_at w x = Some sl → slot_good w x sl;
  inv_task l t : tasks (runtime w) !! l = Some t → (l < next_loc (runtime w))%N ∧
    ∀ core, task_core t = Some core → is_Some (cores (runtime w) !! core);
  inv_held l : l ∈ cs → (l < next_loc (runtime w))%N;
  inv_core l c : cores (runtime w) !! l = Some c → (l < next_loc (runtime w))%N ∧
    (dead c = false → l ∈ cs ∨ ∃ x, core_at w x = Some l);
}.

Lemma inv_perm os os' cs cs' w : os ≡ₚ os' → cs ≡ₚ cs' → inv os cs w → inv os' cs' w.
Proof.
  intros Ho Hc [H1 H2 H3 H4 H5 H6].
  split; [by eapply linear_perm|by eapply linear_perm|done|done|..].
  - intros l. rewrite <- Hc. auto.
  - intros l c. rewrite <- Hc. auto.
Qed.

Lemma inv_new keys os : NoDup os → inv os [] (Handler_new keys).
Proof.
  intros Hos. assert (∀ x, slot_at (Handler_new keys) x = None) as Hnone.
  { intros []; simpl; by rewrite lookup_empty. }
  assert (∀ A (g : Slot → option A) x, slot_at (Handler_new keys) x ≫= g = None) as Hbind
    by (intros A g x; by rewrite Hnone).
  assert (∀ x, connection_at (Handler_new keys) x = None) as Hconn
    by (intros x; unfold connection_at; by rewrite Hnone).
  split; [split_and!..| | | |].
  - intros x y o. by rewrite Hconn.
  - intros x o. by rewrite Hconn.
  - done.
  - intros x y l. unfold core_at. by rewrite Hbind.
  - intros x l. unfold core_at. by rewrite Hbind.
  - constructor.
  - intros x sl. by rewrite Hnone.
  - intros l t. simpl. by rewrite lookup_empty.
  - by intros l ?%elem_of_nil.
  - intros l c. simpl. by rewrite lookup_empty.
Qed.
End places.

(** ** Moves *)

Section moves.
Context `{Crates}.
Implicit Types (w : World) (x y : Place) (sl : Slot) (os : list OneTimeId) (cs : list N).

Lemma later_evolves w rt : evolves (runtime w) rt → later w (with_runtime rt w).
Proof. intros [Ht Hn Hc Ha]. split; simpl; [done|by eauto|by intros l; rewrite Hc|done]. Qed.

(** The runtime goes on, without a new task or session. *)
Lemma inv_runtime os cs w rt :
  evolves (runtime w) rt → inv os cs w → inv os cs (with_runtime rt w).
Proof.
  intros He [H1 H2 H3 H4 H5 H6]. pose proof (later_evolves w rt He) as Hl.
  destruct He as [Ht Hn Hc Ha]. split; simpl; [done|done|..].
  - intros x sl Hx. by eapply slot_good_later, H3.
  - intros l t Hl'%Ht. apply H4 in Hl' as [? Hcore]. split; [lia|].
    intros core Hk%Hcore. by apply Hc.
  - intros l ?%H5. lia.
  - intros l c' Hl'. split.
    + destruct (proj2 (Hc l)) as [c Hcl]; [by eexists|]. apply H6 in Hcl as [? _]. lia.
    + intros Hd. destruct (Ha _ _ Hl' Hd) as (c & Hcl & Hcd). by apply (H6 l c).
Qed.

Lemma inv_notices os cs w ns :
  (∀ l, is_Some (notices w !! l) → is_Some (ns !! l)) → inv os cs w →
  inv os cs (with_notices ns w) ∧ later w (with_notices ns w).
Proof.
  intros Hns [H1 H2 H3 H4 H5 H6].
  assert (later w (with_notices ns w)) as Hl by by split.
  split; [|done]. split; try done. intros x sl Hx. by eapply slot_good_later, H3.
Qed.

Lemma inv_closers os cs w l :
  inv os cs w → inv os cs (with_closers l w) ∧ later w (with_closers l w).
Proof. intros [H1 H2 H3 H4 H5 H6]. split; by split. Qed.

Lemma inv_spawned os cs w t :
  (∀ core, task_core t = Some core → is_Some (cores (runtime w) !! core)) →
  inv os cs w →
  inv os cs (with_runtime (spawned (runtime w) t) w) ∧
    later w (with_runtime (spawned (runtime w) t) w).
Proof.
  intros Hcore [H1 H2 H3 H4 H5 H6].
  assert (later w (with_runtime (spawned (runtime w) t) w)) as Hl.
  { split; simpl; [lia| |done|done]. intros l t' Hlt. rewrite lookup_insert_ne; [done|lia]. }
  split; [|done]. split; simpl; [done|done|..].
  - intros x sl Hx. by eapply slot_good_later, H3.
  - intros l t' [[<- <-]|[_ Hl']]%lookup_insert_Some; [split; [lia|done]|].
    apply H4 in Hl' as [? ?]. split; [lia|done].
  - intros l ?%H5. lia.
  - intros l c Hc. apply H6 in Hc as [? ?]. split; [lia|done].
Qed.

(** A new session is in hand. *)
Lemma inv_new_core os cs w t :
  inv os cs w →
  inv os (next_loc (runtime w) :: cs) (with_runtime (with_new_core t (runtime w)) w) ∧
    later w (with_runtime (with_new_core t (runtime w)) w).
Proof.
  intros [H1 H2 H3 H4 H5 H6]. set (n := next_loc (runtime w)).
  assert (later w (with_runtime (with_new_core t (runtime w)) w)) as Hl.
  { split; simpl; [lia|done|intros l; apply is_Some_insert|done]. }
  split; [|done]. split; simpl; [done|..].
  - apply linear_fresh; [| |done].
    + intros x Hx. unfold core_at in Hx. change (slot_at _ x) with (slot_at w x) in Hx.
      destruct (slot_at w x) as [sl|] eqn:Hsl; [|done]. apply H3 in Hsl.
      destruct x, sl; simpl in *; try done. destruct Hsl as [_ [c Hc]].
      injection Hx as Hx. apply H6 in Hc as [Hc _]. unfold n in Hx. lia.
    + intros Hin%H5. unfold n in Hin. lia.
  - intros x sl Hx. by eapply slot_good_later, H3.
  - intros l t' [? Hcore]%H4. split; [lia|]. intros core Hc%Hcore. by apply is_Some_insert.
  - intros l [->|Hl'%H5]%elem_of_cons; unfold n; lia.
  - intros l c [[<- <-]|[_ Hc]]%lookup_insert_Some.
    + split; [lia|]. intros _. left. left.
    + apply H6 in Hc as [? Hlive]. split; [lia|]. intros Hd. destruct (Hlive Hd); [|by right].
      left. by right.
Qed.

(** An entry is taken out of its place, or put there: what it replaces is in hand. *)
Lemma inv_swap os cs w w' x u :
  runtime w' = runtime w → notices w' = notices w → updated (slot_at w) x u (slot_at w') →
  (∀ sl, u = Some sl → slot_good w x sl) →
  inv (option_list (slot_one_time_id <$> u) ++ os) (option_list (u ≫= slot_core) ++ cs) w →
  inv (option_list (connection_at w x) ++ os) (option_list (core_at w x) ++ cs) w' ∧ later w w'.
Proof.
  intros Hrt Hns Hup Hgood [H1 H2 H3 H4 H5 H6].
  assert (later w w') as Hl by (split; by rewrite ?Hrt, ?Hns).
  assert (updated (connection_at w) x (slot_one_time_id <$> u) (connection_at w')) as Hco.
  { intros y. unfold connection_at. rewrite Hup. by case_decide. }
  assert (updated (core_at w) x (u ≫= slot_core) (core_at w')) as Hce.
  { intros y. unfold core_at. rewrite Hup. by case_decide. }
  split; [|done]. split.
  - by eapply linear_put.
  - by eapply linear_put.
  - intros y sl. rewrite Hup. intros Hy. eapply slot_good_later; [exact Hl|].
    case_decide as Hyx; [|by apply H3]. subst. by apply Hgood.
  - rewrite Hrt. done.
  - rewrite Hrt. intros l [Hin|Hin]%elem_of_app; [|apply H5; set_solver].
    unfold core_at in Hin. destruct (slot_at w x) as [sl|] eqn:Hx; simpl in Hin;
      [|by apply elem_of_nil in Hin].
    apply H3 in Hx. destruct x, sl; simpl in *; try done; try by apply elem_of_nil in Hin.
    apply list_elem_of_singleton in Hin as ->. destruct Hx as [_ [c Hc]]. by apply H6 in Hc as [? _].
  - rewrite Hrt. intros l c Hc. apply H6 in Hc as [? Hlive]. split; [done|]. intros Hd.
    destruct (Hlive Hd) as [[Hin|Hin]%elem_of_app|[y Hy]].
    + right. exists x. rewrite Hce, decide_True by done.
      destruct (u ≫= slot_core); simpl in Hin; [|by apply elem_of_nil in Hin].
      by apply list_elem_of_singleton in Hin as ->.
    + left. set_solver.
    + destruct (decide (y = x)) as [->|Hne].
      * left. rewrite Hy. simpl. left.
      * right. exists y. by rewrite Hce, decide_False.
Qed.

(** A connection can be dropped, and a session that is dead. *)
Lemma inv_drop_connections os1 os cs w : inv (os1 ++ os) cs w → inv os cs w.
Proof. intros [H1 H2 H3 H4 H5 H6]. split; try done. by eapply linear_drop. Qed.

Lemma inv_drop_session os l cs w :
  (∀ c, cores (runtime w) !! l = Some c → dead c = true) → inv os (l :: cs) w → inv os cs w.
Proof.
  intros Hdead [H1 H2 H3 H4 H5 H6]. split; [done| |done|done|..].
  - by apply (linear_drop _ [l]).
  - intros k Hk. apply H5. by right.
  - intros k c Hc. destruct (H6 k c Hc) as [? Hlive]. split; [done|]. intros Hd.
    destruct (Hlive Hd) as [[->|Hin]%elem_of_cons|Hx]; [|by left|by right].
    by rewrite Hdead in Hd.
Qed.
End moves.

(** ** Accesses that take nothing *)

Section calm.
Context `{Crates}.
Implicit Types (w : World) (os : list OneTimeId) (cs : list N).

(** An access after which nothing more is in hand than before. *)
Definition calm {A} (m : M World Error A) : Prop := ∀ os cs w,
  inv os cs w → inv os cs (m w).1 ∧ later w (m w).1.

Lemma calm_bind {A B} (m : M World Error A) (f : A → M World Error B) :
  calm m → (∀ a, calm (f a)) → calm (m ≫= f).
Proof.
  intros Hm Hf os cs w Hi. destruct (Hm os cs w Hi) as [Hi1 Hl1].
  apply (M_bind_preserves (λ w', inv os cs w' ∧ later w w')); [done|].
  intros w1 a Heq. rewrite Heq in Hi1, Hl1. simpl in *.
  destruct (Hf a os cs w1 Hi1) as [Hi2 Hl2]. split; [done|by etrans].
Qed.

Lemma calm_ret {A} (a : A) : calm (mret a).
Proof. by intros os cs w. Qed.
Lemma calm_lift {A} (r : outcome Error A) : calm (lift r).
Proof. by intros os cs w. Qed.
Lemma calm_gets {A} (f : World → A) : calm (gets f).
Proof. by intros os cs w. Qed.

Lemma calm_runtime {A} (m : M Runtime Error A) : quiet m → calm (on_runtime m).
Proof.
  intros Hm os cs w Hi. specialize (Hm (runtime w)). unfold on_runtime, zoom.
  destruct (m (runtime w)) as [rt r]. simpl in *.
  split; [by apply inv_runtime|by apply later_evolves].
Qed.

Lemma calm_notice {A} l (m : M Notice Error A) : calm (on_notice l m).
Proof.
  intros os cs w Hi. unfold on_notice. destruct (notices w !! l) as [n|]; [|done].
  destruct (m n) as [n' r]. apply inv_notices; [|done]. intros k. apply is_Some_insert.
Qed.

Lemma calm_closers (f : World → list (SessionId * OneTimeId)) :
  calm (modify (λ w, with_closers (f w) w)).
Proof. intros os cs w. apply inv_closers. Qed.

Lemma calm_pop_closer k : calm (pop_closer k).
Proof.
  intros os cs w Hi. unfold pop_closer. destruct (closers w !! k); [|done]. by apply inv_closers.
Qed.

(** A pending entry that is removed is dropped. *)
Lemma calm_remove {A} x (f : World → World) (r : World → outcome Error A) :
  (∀ w, runtime (f w) = runtime w ∧ notices (f w) = notices w ∧
     updated (slot_at w) x None (slot_at (f w))) →
  (∀ id, x ≠ AtEstablished id) → calm (λ w, (f w, r w)).
Proof.
  intros Hf Hx os cs w Hi. destruct (Hf w) as (Hrt & Hns & Hup).
  destruct (inv_swap os cs w (f w) x None Hrt Hns Hup) as [Hi' Hl]; [done|done|].
  split; [|done]. apply inv_drop_connections in Hi'. unfold core_at in Hi'.
  destruct (slot_at w x) as [sl|] eqn:Hsl; [|done].
  apply (inv_slot _ _ _ Hi) in Hsl. destruct x, sl; try done. by destruct (Hx id).
Qed.

Ltac solve_updated :=
  intros y; case_decide as Hy; [subst y|destruct y]; simpl;
  rewrite ?lookup_delete_eq, ?lookup_insert_eq, ?lookup_delete_ne, ?lookup_insert_ne by congruence;
  done.

Lemma updated_delete_poker id w :
  updated (slot_at w) (AtPoker id) None (slot_at (with_pokers (delete id (pokers w)) w)).
Proof. solve_updated. Qed.
Lemma updated_delete_initiator id w :
  updated (slot_at w) (AtInitiator id) None
    (slot_at (with_initiators (delete id (initiators w)) w)).
Proof. solve_updated. Qed.
Lemma updated_delete_responder id w :
  updated (slot_at w) (AtResponder id) None
    (slot_at (with_responders (delete id (responders w)) w)).
Proof. solve_updated. Qed.
Lemma updated_delete_established id w :
  updated (slot_at w) (AtEstablished id) None
    (slot_at (with_established (delete id (established w)) w)).
Proof. solve_updated. Qed.
Lemma updated_insert_poker id p w :
  updated (slot_at w) (AtPoker id) (Some (SPoker p))
    (slot_at (with_pokers (<[id := p]> (pokers w)) w)).
Proof. solve_updated. Qed.
Lemma updated_insert_initiator id p w :
  updated (slot_at w) (AtInitiator id) (Some (SInitiator p))
    (slot_at (with_initiators (<[id := p]> (initiators w)) w)).
Proof. solve_updated. Qed.
Lemma updated_insert_responder id p w :
  updated (slot_at w) (AtResponder id) (Some (SResponder p))
    (slot_at (with_responders (<[id := p]> (responders w)) w)).
Proof. solve_updated. Qed.
Lemma updated_insert_established id o s w :
  updated (slot_at w) (AtEstablished id) (Some (SEstablished o s))
    (slot_at (with_established (<[id := (o, s)]> (established w)) w)).
Proof. solve_updated. Qed.

(** The drop of a session closes it. *)
Lemma dropped_ok os cs w o s :
  is_Some (cores (runtime w) !! s_core s) → inv os (s_core s :: cs) w →
  ∃ w', drop_established (E := Error) (Some (o, s)) w = (w', Ok tt) ∧ inv os cs w' ∧ later w w'.
Proof.
  intros [c Hc] Hi. unfold drop_established, Session_drop.
  pose proof (quiet_Session_close (E := Error) s) as Hq.
  destruct (calm_runtime _ Hq os (s_core s :: cs) w Hi) as [Hi' Hl].
  unfold on_runtime, zoom, Session_close in *.
  erewrite on_core_eq in * by first [exact Hc|reflexivity]. simpl in *.
  eexists. split_and!; [done| |done]. eapply inv_drop_session; [|exact Hi'].
  intros c'. simpl. rewrite lookup_insert_eq. by intros [= <-].
Qed.

Lemma calm_delete_established id : calm (delete_established id).
Proof.
  intros os cs w Hi. unfold delete_established. erewrite M_bind_step by reflexivity.
  erewrite M_bind_step by reflexivity.
  set (w' := with_established (delete id (established w)) w).
  destruct (inv_swap os cs w w' (AtEstablished id) None eq_refl eq_refl) as [Hi' Hl];
    [apply updated_delete_established|done|done|].
  apply inv_drop_connections in Hi'. unfold core_at in Hi'. simpl in Hi'.
  destruct (established w !! id) as [[o s]|] eqn:Hid; simpl in Hi'; [|by split].
  destruct (inv_slot _ _ _ Hi (AtEstablished id) (SEstablished o s)) as [_ Hc];
    [simpl; by rewrite Hid|].
  destruct (dropped_ok os cs w' o s Hc Hi') as (w2 & -> & Hi2 & Hl2).
  split; [done|by etrans].
Qed.

Lemma calm_take_poker id : calm (take_poker id).
Proof.
  apply (calm_remove (AtPoker id) (λ w, with_pokers (delete id (pokers w)) w)); [|done].
  intros w. split_and!; [done|done|apply updated_delete_poker].
Qed.
Lemma calm_take_initiator id : calm (take_initiator id).
Proof.
  apply (calm_remove (AtInitiator id) (λ w, with_initiators (delete id (initiators w)) w));
    [|done].
  intros w. split_and!; [done|done|apply updated_delete_initiator].
Qed.
Lemma calm_take_responder id : calm (take_responder id).
Proof.
  apply (calm_remove (AtResponder id) (λ w, with_responders (delete id (responders w)) w));
    [|done].
  intros w. split_and!; [done|done|apply updated_delete_responder].
Qed.

Lemma calm_remove_established id o : calm (remove_established id o).
Proof.
  apply calm_bind; [apply calm_gets|]. intros [[o' s]|]; [|apply calm_ret].
  destruct (matches _ _); [apply calm_delete_established|apply calm_ret].
Qed.

Lemma calm_remove_responder id o : calm (remove_responder id o).
Proof.
  apply calm_bind; [apply calm_gets|]. intros [p|]; [|apply calm_ret].
  destruct (matches _ _); [|apply calm_ret].
  apply calm_bind; [apply calm_take_responder|]. intros _. apply calm_runtime, quiet_abort.
Qed.

Lemma calm_remove_poker id o : calm (remove_poker id o).
Proof.
  apply calm_bind; [apply calm_gets|]. intros [p|]; [|apply calm_ret].
  destruct (matches _ _); [|apply calm_ret].
  apply calm_bind; [apply calm_take_poker|]. intros _. apply calm_runtime, quiet_abort.
Qed.

Lemma calm_remove_initiator id o : calm (remove_initiator id o).
Proof.
  apply calm_bind; [apply calm_gets|]. intros [p|]; [|apply calm_ret].
  destruct (matches _ _); [|apply calm_ret].
  apply calm_bind; [apply calm_take_initiator|]. intros _. apply calm_runtime, quiet_abort.
Qed.

Lemma calm_recv_from id fresh : calm (recv_from id fresh).
Proof.
  apply calm_bind; [apply calm_gets|]. intros [[o s]|]; [|apply calm_ret].
  apply calm_bind; [apply calm_runtime, quiet_Session_is_dead|]. intros [].
  - apply calm_bind; [apply calm_delete_established|]. intros _. apply calm_ret.
  - apply calm_runtime, quiet_Session_recv.
Qed.

Lemma calm_recv_outgoing : calm recv_outgoing.
Proof.
  intros os cs w Hi. unfold recv_outgoing.
  assert (∀ c, evolves (runtime w) (with_outgoing c (runtime w))) as He
    by (intros c; split; simpl; [done|lia|done|by eauto]).
  destruct (chan_try_recv _) as [c [x|]];
    (split; [by apply inv_runtime|by apply later_evolves]).
Qed.

(** A process of such accesses. *)
Fixpoint calm_proc {A} (p : Proc A) : Prop :=
  match p with Done _ => True | Step m k => calm m ∧ ∀ r, calm_proc (k r) end.

Lemma calm_proc_bind {A B} (p : Proc A) (f : A → Proc B) :
  calm_proc p → (∀ a, calm_proc (f a)) → calm_proc (p ≫= f).
Proof.
  intros Hp Hf. change (calm_proc (proc_bind f p)). induction p as [[]|C m k IH]; try done.
  - apply Hf.
  - destruct Hp as [Hm Hk]. split; [done|]. intros r. by apply IH.
Qed.

Lemma calm_proc_catch {A} (p : Proc A) : calm_proc p → calm_proc (proc_catch p).
Proof.
  induction p as [r|C m k IH]; [done|]. intros [Hm Hk]. split; [done|]. intros r. by apply IH.
Qed.

Lemma calm_proc_attempt {A} (p : Proc A) : calm_proc p → calm_proc (proc_attempt p).
Proof.
  intros Hp. apply calm_proc_bind; [by apply calm_proc_catch|]. by intros [].
Qed.

Lemma calm_proc_log_err (p : Proc unit) : calm_proc p → calm_proc (proc_log_err p).
Proof. intros Hp. apply calm_proc_bind; [by apply calm_proc_attempt|]. by intros. Qed.

Lemma calm_proc_access {A} (m : M World Error A) : calm m → calm_proc (access m).
Proof. by intros Hm. Qed.

Lemma calm_proc_rt {A} (m : M Runtime Error A) : quiet m → calm_proc (rt m).
Proof. intros Hm. apply calm_proc_access. by apply calm_runtime. Qed.
End calm.

Ltac solve_calm :=
  repeat first
    [ done | progress intros
    | apply calm_proc_bind | apply calm_proc_attempt | apply calm_proc_log_err
    | apply calm_proc_catch
    | apply calm_proc_rt; solve [solve_quiet | apply quiet_Session_is_dead]
    | apply calm_proc_access;
      solve [ apply calm_gets | apply calm_notice | apply calm_pop_closer
            | apply calm_remove_established | apply calm_remove_responder
            | apply calm_remove_poker | apply calm_remove_initiator ]
    | case_match ].

Section calm_operations.
Context `{Crates}.

Lemma calm_handle_session s packet : calm_proc (Session_handle_incoming_steps s packet).
Proof. unfold Session_handle_incoming_steps. solve_calm. Qed.

Lemma calm_send id data : calm_proc (send_steps id data).
Proof. unfold send_steps, Session_send_steps. solve_calm. Qed.

Lemma calm_remove_session id o : calm_proc (remove_session_steps id o).
Proof. unfold remove_session_steps. solve_calm. Qed.

Lemma calm_run_closer k : calm_proc (run_closer_steps k).
Proof. unfold run_closer_steps. pose proof calm_remove_session. solve_calm. Qed.

Lemma calm_send_each addrs packet : calm_proc (send_each_steps addrs packet).
Proof. induction addrs; cbn [send_each_steps]; solve_calm. Qed.

Lemma calm_task_tick t : calm_proc (task_tick_steps t).
Proof.
  pose proof calm_send_each. destruct t; cbn [task_tick_steps];
    unfold handshake_tick_steps, keepalive_tick_steps, heartbeat_tick_steps; solve_calm.
Qed.

Lemma calm_run_task l : calm_proc (run_task_steps l).
Proof. unfold run_task_steps. pose proof calm_task_tick. solve_calm. Qed.

Lemma calm_poll_receiving r waker : calm_proc (Receiving_poll_steps r waker).
Proof.
  unfold Receiving_poll_steps, poll_dead, poll_try_recv, poll_wakers. solve_calm.
  apply calm_proc_rt, quiet_on_core. intros c Hd. by destruct (chan_try_recv _).
Qed.

Lemma calm_poll_ready r waker : calm_proc (SessionReady_poll_steps r waker).
Proof.
  unfold SessionReady_poll_steps, ready_try_recv. solve_calm.
  apply calm_proc_access. unfold ready_add_waker. destruct (sr_added_waker r); [apply calm_ret|].
  apply calm_bind; [apply calm_notice|]. intros ?. apply calm_ret.
Qed.

Lemma calm_drop_ready r : calm_proc (SessionReady_drop_steps r).
Proof.
  apply calm_proc_bind; [|intros _; apply calm_proc_access, calm_notice].
  apply calm_proc_access. destruct (sr_completed r); [apply calm_ret|].
  apply (calm_closers (λ w, closers w ++ [(sr_id r, sr_one_time_id r)])).
Qed.
End calm_operations.

(** ** Processes and what they hold *)

Section safe.
Context `{Crates}.
Implicit Types (w : World) (os : list OneTimeId) (cs : list N).

(** What holds when a process has ended, with what it has in hand then. *)
Definition post (A : Type) : Type := outcome Error A → list OneTimeId → list N → World → Prop.

(** A process that has the connections [os] and the sessions [cs] in hand: whatever
    others did since, and whatever they hold, each of its accesses keeps the invariant.
    Only when [b] is [true] it may come to hold a session. *)
Fixpoint safe_if {A} (b : bool) (Q : post A) (p : Proc A) os cs w : Prop :=
  match p with
  | Done r => Q r os cs w
  | Step m k => ∀ w1 osF csF, later w w1 → inv (os ++ osF) (cs ++ csF) w1 →
      ∃ os' cs', (b = false → cs' = []) ∧ inv (os' ++ osF) (cs' ++ csF) (m w1).1 ∧
        later w1 (m w1).1 ∧ safe_if b Q (k (m w1).2) os' cs' (m w1).1
  end.

Context {b : bool}.
#[local] Abbreviation safe := (safe_if b).

Lemma safe_later {A} (Q : post A) p os cs w w' :
  (∀ r, Q r os cs w → Q r os cs w') → later w w' → safe Q p os cs w → safe Q p os cs w'.
Proof.
  intros HQ Hl. destruct p as [r|B m k]; simpl; [apply HQ|].
  intros Hp w1 osF csF Hl1. apply Hp. by etrans.
Qed.

Lemma safe_weaken {A} (Q R : post A) p os cs w :
  (∀ r os cs w', later w w' → Q r os cs w' → R r os cs w') → safe Q p os cs w → safe R p os cs w.
Proof.
  revert os cs w. induction p as [r|B m k IH]; intros os cs w HQR; simpl; [by apply HQR|].
  intros Hp w1 osF csF Hl Hi. destruct (Hp w1 osF csF Hl Hi) as (os' & cs' & Hb & Hi' & Hl' & Hk).
  exists os', cs'. split_and!; [done|done|done|]. apply IH; [|done].
  intros r os2 cs2 w2 Hl2. apply HQR. etrans; [exact Hl|]. by etrans.
Qed.

(** The outcome of an access that others follow. *)
Definition then_ {A B} (Q : post B) (f : A → Proc B) : post A := λ r os cs w,
  match r with
  | Ok a => safe Q (f a) os cs w
  | Err e => Q (Err e) os cs w
  | Panic => Q Panic os cs w
  | Pending => Q Pending os cs w
  | OutOfFuel => Q OutOfFuel os cs w
  end.

Lemma safe_bind {A B} (Q : post B) (f : A → Proc B) (p : Proc A) os cs w :
  safe (then_ Q f) p os cs w → safe Q (p ≫= f) os cs w.
Proof.
  change (p ≫= f) with (proc_bind f p). revert os cs w.
  induction p as [[]|C m k IH]; intros os cs w; simpl; try done.
  intros Hp w1 osF csF Hl Hi. destruct (Hp w1 osF csF Hl Hi) as (os' & cs' & ? & ? & ? & ?).
  exists os', cs'. split_and!; [done|done|done|]. by apply IH.
Qed.

Lemma safe_catch {A} (Q : post (outcome Error A)) (p : Proc A) os cs w :
  safe (λ r, Q (Ok r)) p os cs w → safe Q (proc_catch p) os cs w.
Proof.
  revert os cs w. induction p as [r|C m k IH]; intros os cs w; simpl; [done|].
  intros Hp w1 osF csF Hl Hi. destruct (Hp w1 osF csF Hl Hi) as (os' & cs' & ? & ? & ? & ?).
  exists os', cs'. split_and!; [done|done|done|]. by apply IH.
Qed.

(** The outcome of a call whose errors are values. *)
Definition caught {A} (Q : post (A + Error)) : post A := λ r os cs w,
  match r with
  | Ok a => Q (Ok (inl a)) os cs w
  | Err e => Q (Ok (inr e)) os cs w
  | Panic => Q Panic os cs w
  | Pending => Q Pending os cs w
  | OutOfFuel => Q OutOfFuel os cs w
  end.

Lemma safe_attempt {A} (Q : post (A + Error)) (p : Proc A) os cs w :
  safe (caught Q) p os cs w → safe Q (proc_attempt p) os cs w.
Proof.
  intros Hp. apply safe_bind, safe_catch. eapply safe_weaken; [|exact Hp].
  by intros [] os' cs' w' _.
Qed.

Lemma safe_log_err (Q : post unit) (p : Proc unit) os cs w :
  safe (λ r, match r with Err _ => Q (Ok tt) | _ => Q r end) p os cs w →
  safe Q (proc_log_err p) os cs w.
Proof.
  intros Hp. apply safe_bind, safe_attempt. eapply safe_weaken; [|exact Hp].
  by intros [[]| | | |] os' cs' w' _.
Qed.

Lemma safe_calm {A} (Q : post A) (p : Proc A) os cs w :
  (b = false → cs = []) → calm_proc p → (∀ r w', later w w' → Q r os cs w') →
  safe Q p os cs w.
Proof.
  intros Hb. revert w. induction p as [r|C m k IH]; intros w; simpl; [by intros _ HQ; apply HQ|].
  intros [Hm Hk] HQ w1 osF csF Hl Hi. destruct (Hm _ _ _ Hi) as [Hi' Hl'].
  exists os, cs. split_and!; [done|done|done|]. apply IH; [done|].
  intros r w' Hl2. apply HQ. etrans; [exact Hl|]. by etrans.
Qed.
End safe.

(** Go on with what follows an access. *)
Ltac reach := cbn [safe_if then_ caught negb snd fst gets].

(** ** The packets *)

Section packets.
Context `{Crates, !CratesLaws}.
Implicit Types (w : World) (os : list OneTimeId) (cs : list N) (id : SessionId).

#[local] Abbreviation safe := (safe_if true).

(** A quiet access of the runtime, whose outcome is known of. *)
Lemma safe_rt {A} (Q : post A) (m : M Runtime Error A) os cs w :
  quiet m →
  (∀ w1 w2, later w w1 → later w1 w2 → Q (m (runtime w1)).2 os cs w2) →
  safe Q (rt m) os cs w.
Proof.
  intros Hm HQ w1 osF csF Hl Hi. destruct (calm_runtime m Hm _ _ _ Hi) as [Hi' Hl'].
  exists os, cs. split_and!; [done|done|done|]. unfold on_runtime, zoom in *.
  specialize (HQ w1 (with_runtime (m (runtime w1)).1 w1) Hl).
  destruct (m (runtime w1)) as [rt' r]. by apply HQ.
Qed.
(** A packet is processed: it holds no session any more, and did not panic. *)
Definition processed : post unit := λ r os cs w, cs = [] ∧ returns r.

Lemma safe_notice {A} (Q : post A) l (m : M Notice Error A) os cs w :
  is_Some (notices w !! l) →
  (∀ n w', later w w' → Q (m n).2 os cs w') → safe Q (access (on_notice l m)) os cs w.
Proof.
  intros Hn HQ w1 osF csF Hl Hi. destruct (calm_notice l m _ _ _ Hi) as [Hi' Hl'].
  exists os, cs. split_and!; [done|done|done|]. destruct (la_notices _ _ Hl l Hn) as [n Hn1].
  unfold on_notice in *. rewrite Hn1 in *. specialize (HQ n).
  destruct (m n) as [n' r]. simpl in *. apply HQ. by etrans.
Qed.

(** *** The maps *)

Lemma put_ok os cs w w' x sl :
  runtime w' = runtime w → notices w' = notices w →
  updated (slot_at w) x (Some sl) (slot_at w') → slot_good w x sl →
  (∀ id, x ≠ AtEstablished id) →
  inv (slot_one_time_id sl :: os) cs w → inv os cs w' ∧ later w w'.
Proof.
  intros Hrt Hns Hup Hgood Hx Hi.
  assert (∀ sl', slot_good w x sl' → slot_core sl' = None) as Hnone.
  { intros sl' Hsl. destruct x, sl'; try done. by destruct (Hx id). }
  destruct (inv_swap os cs w w' x (Some sl) Hrt Hns Hup) as [Hi' Hl].
  - by intros ? [= <-].
  - simpl. by rewrite Hnone.
  - split; [|done]. apply inv_drop_connections in Hi'. unfold core_at in Hi'.
    destruct (slot_at w x) as [sl'|] eqn:Hsl; [|done]. simpl in Hi'.
    rewrite Hnone in Hi' by by apply (inv_slot _ _ _ Hi). done.
Qed.

Lemma safe_put_poker id p w :
  slot_good w (AtPoker id) (SPoker p) →
  safe processed (access (put_poker id p)) [pd_one_time_id p] [] w.
Proof.
  intros Hgood w1 osF csF Hl Hi. exists [], []. simpl in *.
  destruct (put_ok osF csF w1 (with_pokers (<[id := p]> (pokers w1)) w1) (AtPoker id) (SPoker p))
    as [Hi' Hl']; try done; [apply updated_insert_poker|by eapply slot_good_later].
Qed.

Lemma safe_put_initiator id p w :
  slot_good w (AtInitiator id) (SInitiator p) →
  safe processed (access (put_initiator id p)) [pd_one_time_id p] [] w.
Proof.
  intros Hgood w1 osF csF Hl Hi. exists [], []. simpl in *.
  destruct (put_ok osF csF w1 (with_initiators (<[id := p]> (initiators w1)) w1)
    (AtInitiator id) (SInitiator p)) as [Hi' Hl'];
    try done; [apply updated_insert_initiator|by eapply slot_good_later].
Qed.

Lemma safe_put_responder id p w :
  slot_good w (AtResponder id) (SResponder p) →
  safe processed (access (put_responder id p)) [pd_one_time_id p] [] w.
Proof.
  intros Hgood w1 osF csF Hl Hi. exists [], []. simpl in *.
  destruct (put_ok osF csF w1 (with_responders (<[id := p]> (responders w1)) w1)
    (AtResponder id) (SResponder p)) as [Hi' Hl'];
    try done; [apply updated_insert_responder|by eapply slot_good_later].
Qed.

(** What a [remove] finds is in the hands of who removed it. *)
Lemma take_ok os cs w w' x :
  runtime w' = runtime w → notices w' = notices w →
  updated (slot_at w) x None (slot_at w') → (∀ id, x ≠ AtEstablished id) → inv os cs w →
  inv (option_list (connection_at w x) ++ os) cs w' ∧ later w w' ∧
  ∀ sl, slot_at w x = Some sl → slot_good w' x sl.
Proof.
  intros Hrt Hns Hup Hx Hi. destruct (inv_swap os cs w w' x None Hrt Hns Hup) as [Hi' Hl];
    [done|done|].
  assert (core_at w x = None) as Hnone.
  { unfold core_at. destruct (slot_at w x) as [sl|] eqn:Hsl; [|done].
    apply (inv_slot _ _ _ Hi) in Hsl. destruct x, sl; try done. by destruct (Hx id). }
  rewrite Hnone in Hi'. split_and!; [done|done|]. intros sl Hsl.
  by eapply slot_good_later, (inv_slot _ _ _ Hi).
Qed.

Lemma safe_take_poker {B} (Q : post B) f id w :
  (∀ w1, later w w1 → safe Q (f None) [] [] w1) →
  (∀ p w1, later w w1 → slot_good w1 (AtPoker id) (SPoker p) →
     safe Q (f (Some p)) [pd_one_time_id p] [] w1) →
  safe Q (access (take_poker id) ≫= f) [] [] w.
Proof.
  intros HNone HSome. apply safe_bind. intros w1 osF csF Hl Hi. simpl in *.
  destruct (take_ok osF csF w1 (with_pokers (delete id (pokers w1)) w1) (AtPoker id))
    as (Hi' & Hl' & Hgood); try done; [apply updated_delete_poker|].
  unfold connection_at in Hi'. simpl in *. destruct (pokers w1 !! id) as [p|].
  - exists [pd_one_time_id p], []. split_and!; [done|done|done|].
    apply HSome; [by etrans|exact (Hgood _ eq_refl)].
  - exists [], []. split_and!; [done|done|done|]. apply HNone. by etrans.
Qed.

Lemma safe_take_initiator {B} (Q : post B) f id w :
  (∀ w1, later w w1 → safe Q (f None) [] [] w1) →
  (∀ p w1, later w w1 → slot_good w1 (AtInitiator id) (SInitiator p) →
     safe Q (f (Some p)) [pd_one_time_id p] [] w1) →
  safe Q (access (take_initiator id) ≫= f) [] [] w.
Proof.
  intros HNone HSome. apply safe_bind. intros w1 osF csF Hl Hi. simpl in *.
  destruct (take_ok osF csF w1 (with_initiators (delete id (initiators w1)) w1) (AtInitiator id))
    as (Hi' & Hl' & Hgood); try done; [apply updated_delete_initiator|].
  unfold connection_at in Hi'. simpl in *. destruct (initiators w1 !! id) as [p|].
  - exists [pd_one_time_id p], []. split_and!; [done|done|done|].
    apply HSome; [by etrans|exact (Hgood _ eq_refl)].
  - exists [], []. split_and!; [done|done|done|]. apply HNone. by etrans.
Qed.

Lemma safe_take_responder {B} (Q : post B) f id w :
  (∀ w1, later w w1 → safe Q (f None) [] [] w1) →
  (∀ p w1, later w w1 → slot_good w1 (AtResponder id) (SResponder p) →
     safe Q (f (Some p)) [pd_one_time_id p] [] w1) →
  safe Q (access (take_responder id) ≫= f) [] [] w.
Proof.
  intros HNone HSome. apply safe_bind. intros w1 osF csF Hl Hi. simpl in *.
  destruct (take_ok osF csF w1 (with_responders (delete id (responders w1)) w1) (AtResponder id))
    as (Hi' & Hl' & Hgood); try done; [apply updated_delete_responder|].
  unfold connection_at in Hi'. simpl in *. destruct (responders w1 !! id) as [p|].
  - exists [pd_one_time_id p], []. split_and!; [done|done|done|].
    apply HSome; [by etrans|exact (Hgood _ eq_refl)].
  - exists [], []. split_and!; [done|done|done|]. apply HNone. by etrans.
Qed.

(** *** Sessions *)

(** A new session is in the hands of who made it. *)
Definition made id os : post Session := λ r os' cs w,
  ∃ s, r = Ok s ∧ os' = os ∧ cs = [s_core s] ∧ s_id s = id ∧
    is_Some (cores (runtime w) !! s_core s).

Lemma safe_spawn {A b} (Q : post A) (m : M Runtime Error A) g t os cs w :
  (b = false → cs = []) → (∀ rt, m rt = (spawned rt t, Ok (g (next_loc rt)))) →
  (∀ core, task_core t = Some core → is_Some (cores (runtime w) !! core)) →
  (∀ l w', later w w' → (l < next_loc (runtime w'))%N →
     (∀ t', tasks (runtime w') !! l = Some t' → t' = t) → Q (Ok (g l)) os cs w') →
  safe_if b Q (rt m) os cs w.
Proof.
  intros Hb Hm Hcore HQ w1 osF csF Hl Hi. exists os, cs. unfold on_runtime, zoom. rewrite Hm.
  destruct (inv_spawned _ _ w1 t (λ c Hc, la_cores _ _ Hl c (Hcore c Hc)) Hi) as [Hi' Hl'].
  split_and!; [done|done|done|]. apply HQ; [by etrans|simpl; lia|].
  intros t'. simpl. rewrite lookup_insert_eq. by intros [= <-].
Qed.

Lemma safe_Session_new sid addr t os w :
  safe (made sid os) (Session_new_steps sid addr t) os [] w.
Proof.
  unfold Session_new_steps. destruct keepalive_serialize as [plain ->].
  apply safe_bind. intros w1 osF csF Hl Hi.
  destruct (inv_new_core _ _ w1 t Hi) as [Hi' Hl'].
  exists os, [next_loc (runtime w1)]. split_and!; [done|done|done|].
  set (l := next_loc (runtime w1)) in *.
  assert (is_Some (cores (with_new_core t (runtime w1)) !! l)) as Hcore
    by (simpl; rewrite lookup_insert_eq; by eexists).
  apply safe_bind; eapply (safe_spawn _ _ id); [done|done|by intros ? [= <-]|]. intros l2 w2 Hl2 _ _.
  apply safe_bind; eapply (safe_spawn _ _ id); [done|done| |].
  { intros ? [= <-]. by apply (la_cores _ _ Hl2). }
  intros l3 w3 Hl3 _ _. eexists. split_and!; [done..|]. simpl.
  by apply (la_cores _ _ Hl3), (la_cores _ _ Hl2).
Qed.

Lemma safe_notify l w :
  is_Some (notices w !! l) → safe processed (notify_ready_steps l) [] [] w.
Proof.
  intros Hn. apply safe_bind, safe_notice; [done|]. intros n w1 Hl1.
  destruct (bc_send (nt_channel n)) as [b []]; reach; [|done].
  apply safe_bind, safe_notice; [by apply (la_notices _ _ Hl1)|]. intros n' w2 Hl2.
  apply safe_rt; [apply quiet_wake_all|]. done.
Qed.

(** The session is put into the map, which gives it away. *)
Lemma safe_upgrade id o s l w :
  s_id s = id → is_Some (cores (runtime w) !! s_core s) → is_Some (notices w !! l) →
  safe processed (upgrade_session_steps id o s l) [o] [s_core s] w.
Proof.
  intros Hid Hcore Hn. apply safe_bind. intros w1 osF csF Hl Hi. simpl in Hi.
  pose proof (la_notices _ _ Hl _ Hn) as Hn1.
  unfold put_established. erewrite M_bind_step by reflexivity.
  erewrite M_bind_step by reflexivity.
  set (w' := with_established (<[id := (o, s)]> (established w1)) w1).
  destruct (inv_swap osF csF w1 w' (AtEstablished id) (Some (SEstablished o s))
    eq_refl eq_refl) as [Hi' Hl'].
  { apply updated_insert_established. }
  { intros ? [= <-]. split; [done|by apply (la_cores _ _ Hl)]. }
  { done. }
  apply inv_drop_connections in Hi'. unfold core_at in Hi'. simpl in Hi'.
  exists [], []. destruct (established w1 !! id) as [[o' s']|] eqn:Hold; simpl in Hi'.
  - destruct (inv_slot _ _ _ Hi (AtEstablished id) (SEstablished o' s')) as [_ Hc];
      [simpl; by rewrite Hold|].
    destruct (dropped_ok osF csF w' o' s' Hc Hi') as (w2 & -> & Hi2 & Hl2).
    split_and!; [done|done|by etrans|]. by apply safe_notify, (la_notices _ _ Hl2).
  - split_and!; [done|done|done|]. by apply safe_notify.
Qed.

(** *** Pending sessions *)

Lemma Poker_in src packet p rt :
  ∃ ps, (Poker_handle_incoming (E := Error) p src packet rt).2 = Ok ps ∧
    psp_id ps = psp_id p ∧ psp_handle ps = psp_handle p.
Proof.
  unfold Poker_handle_incoming. destruct (deserialize _) as [[]|]; try by eexists.
  destruct (psp_waker p); by eexists.
Qed.

Lemma quiet_Poker_in src packet p : quiet (Poker_handle_incoming (E := Error) p src packet).
Proof. unfold Poker_handle_incoming. solve_quiet. Qed.

Lemma Initiator_in src packet p rt :
  ∃ ps, (Initiator_handle_incoming (E := Error) p src packet rt).2 = Ok ps ∧
    psi_id ps = psi_id p ∧ psi_handle ps = psi_handle p.
Proof.
  unfold Initiator_handle_incoming. destruct (deserialize _) as [[]|]; try by eexists.
  destruct (psi_waker p); by eexists.
Qed.

Lemma quiet_Initiator_in src packet p :
  quiet (Initiator_handle_incoming (E := Error) p src packet).
Proof. unfold Initiator_handle_incoming. solve_quiet. Qed.

Lemma safe_handle_poker src packet p w :
  slot_good w (AtPoker (sp_id packet)) (SPoker p) →
  safe processed (handle_poker_steps src packet p) [pd_one_time_id p] [] w.
Proof.
  intros Hgood. apply safe_bind, safe_rt; [apply quiet_Poker_in|]. intros w1 w2 Hl1 Hl2.
  destruct (Poker_in src packet (pd_session p) (runtime w1)) as (ps & -> & Hid & Hh).
  assert (slot_good w2 (AtPoker (sp_id packet)) (SPoker (with_session ps p))) as Hgood2.
  { assert (later w w2) as Hl by by etrans.
    apply (slot_good_later _ _ _ _ Hl) in Hgood. simpl in *. by rewrite Hid, Hh. }
  reach. destruct (Poker_is_ready ps); [|by apply (safe_put_poker _ (with_session ps p))].
  destruct Hgood2 as (Hid2 & Hn2 & _). apply safe_bind, safe_attempt.
  unfold Poker_responder_steps. destruct (psp_working_remote_addr ps) as [[addr i]|]; [|done].
  apply safe_bind, safe_rt; [apply quiet_abort|]. intros w3 w4 Hl3 Hl4. reach.
  apply safe_bind. pose proof (response_returns (psp_responder ps) i) as Hret.
  destruct (response (psp_responder ps) i) as [[t r]|e| | |]; try done. reach.
  eapply (safe_spawn _ _ (λ handle, mkPendingSessionResponder handle addr None (psp_id ps) t false));
    [done|by intros rt|done|].
  intros l w5 Hl5 Hlt Htask. reach.
  apply (safe_put_responder (sp_id packet)
    (with_session (mkPendingSessionResponder l addr None (psp_id ps) t false) p)).
  split_and!; [done| |done|].
  - apply (la_notices _ _ Hl5), (la_notices _ _ Hl4), (la_notices _ _ Hl3). done.
  - intros t' Ht'%Htask. rewrite Ht', <- Hid2. simpl. by do 2 eexists.
Qed.

(** An initiator that is not answered yet keeps its place in hand. *)
Lemma safe_Initiator_session ps id os w :
  psi_id ps = id →
  safe (λ r os' cs w', os' = os ∧ match r with
    | Ok (SessionOk s) => cs = [s_core s] ∧ s_id s = id ∧
        is_Some (cores (runtime w') !! s_core s) ∧ later w w'
    | Ok (SessionErr ps') => cs = [] ∧ psi_id ps' = id ∧ psi_handle ps' = psi_handle ps ∧ later w w'
    | Err _ => cs = []
    | _ => False
    end) (Initiator_session_steps ps) os [] w.
Proof.
  intros Hid. unfold Initiator_session_steps.
  destruct (psi_working_remote_addr ps) as [[addr r]|]; [|by split_and!].
  apply safe_bind, safe_rt; [apply quiet_abort|]. intros w1 w2 Hl1 Hl2. reach.
  apply safe_bind. pose proof (receive_response_returns (psi_initiator ps) r) as Hret.
  destruct (receive_response _ _) as [[t|i]|e| | |]; try done; reach.
  - apply safe_bind. eapply safe_weaken; [|apply (safe_Session_new (psi_id ps) addr t os)].
    intros r' os' cs w' Hl' (s & -> & -> & -> & Hs & Hc). reach.
    split_and!; [done|done|by rewrite Hs|done|]. etrans; [exact Hl1|]. by etrans.
  - split_and!; [done..|by etrans].
Qed.

Lemma safe_handle_initiator src packet p w :
  slot_good w (AtInitiator (sp_id packet)) (SInitiator p) →
  safe processed (handle_initiator_steps src packet p) [pd_one_time_id p] [] w.
Proof.
  intros Hgood. apply safe_bind, safe_rt; [apply quiet_Initiator_in|]. intros w1 w2 Hl1 Hl2.
  destruct (Initiator_in src packet (pd_session p) (runtime w1)) as (ps & -> & Hid & Hh).
  assert (∀ w3 ps', later w2 w3 → psi_id ps' = psi_id ps → psi_handle ps' = psi_handle ps →
    slot_good w3 (AtInitiator (sp_id packet)) (SInitiator (with_session ps' p))) as Hgood2.
  { intros w3 ps' Hl3 Hid' Hh'. assert (later w w3) as Hl by (etrans; [exact Hl1|]; by etrans).
    apply (slot_good_later _ _ _ _ Hl) in Hgood. simpl in *. by rewrite Hid', Hh', Hid, Hh. }
  reach. destruct (Initiator_is_ready ps);
    [|by apply (safe_put_initiator _ (with_session ps p)), Hgood2].
  destruct (Hgood2 w2 ps) as (Hid2 & Hn2 & _); [done..|]. apply safe_bind, safe_attempt.
  eapply safe_weaken; [|by apply (safe_Initiator_session ps (sp_id packet))].
  intros [[s|ps']|e| | |] os cs w3 Hl3 [-> Hr]; try done; reach.
  - destruct Hr as (-> & Hs & Hc & Hl). apply safe_log_err.
    eapply safe_weaken; [|apply safe_upgrade; [done|done|by apply (la_notices _ _ Hl)]].
    by intros [] os cs w4 _.
  - destruct Hr as (-> & Hs & Hh' & Hl).
    apply (safe_put_initiator _ (with_session ps' p)). apply Hgood2; [done| |done].
    simpl in Hid2. congruence.
Qed.

Lemma run_responder_in src packet p w :
  ∃ ps rt, run_responder (E := Error) src packet p w = (with_runtime rt w, Ok ps) ∧ evolves (runtime w) rt ∧
    psr_id ps = psr_id p ∧ psr_handle ps = psr_handle p.
Proof.
  unfold run_responder, Responder_handle_incoming. unfold_monad.
  destruct (deserialize (sp_data packet)) as [[| | |e]|]; simpl; try by do 2 eexists.
  pose proof (decrypt_returns e (psr_transport p)) as Hret.
  destruct (decrypt e (psr_transport p)) as [t [plain|err| | |]]; simpl in *; try done;
    [|by do 2 eexists].
  destruct (deserialize plain) as [[|d]|]; simpl; try by do 2 eexists.
  destruct (psr_waker p) as [k|]; simpl; [|by do 2 eexists].
  do 2 eexists. split_and!; [done| |done|done]. apply (quiet_wake (E := Error) k).
Qed.

Lemma safe_handle_responder src packet p w :
  slot_good w (AtResponder (sp_id packet)) (SResponder p) →
  safe processed (handle_responder_steps src packet p) [pd_one_time_id p] [] w.
Proof.
  intros Hgood. apply safe_bind. intros w1 osF csF Hl1 Hi.
  destruct (run_responder_in src packet (pd_session p) w1) as (ps & rt' & -> & He & Hid & Hh).
  exists [pd_one_time_id p], []. split_and!; [done|by apply inv_runtime|by apply later_evolves|].
  set (w2 := with_runtime rt' w1). assert (later w w2) as Hl by (etrans; [exact Hl1|by apply later_evolves]).
  apply (slot_good_later _ _ _ _ Hl) in Hgood.
  assert (slot_good w2 (AtResponder (sp_id packet)) (SResponder (with_session ps p))) as Hgood2
    by (simpl in *; by rewrite Hid, Hh).
  reach. destruct (Responder_is_ready ps) eqn:Hready;
    [|by apply (safe_put_responder _ (with_session ps p))].
  destruct Hgood2 as (Hid2 & Hn2 & _). apply safe_bind, safe_attempt.
  unfold Responder_session_steps. unfold Responder_is_ready in Hready. rewrite Hready.
  apply safe_bind, safe_rt; [apply quiet_abort|]. intros w3 w4 Hl3 Hl4. reach.
  eapply safe_weaken; [|apply safe_Session_new].
  intros r os cs w5 Hl5 (s & -> & -> & -> & Hs & Hc). reach. apply safe_log_err.
  eapply safe_weaken; [|apply safe_upgrade; [by rewrite Hs|done|]].
  - by intros [] os cs w6 _.
  - apply (la_notices _ _ Hl5), (la_notices _ _ Hl4), (la_notices _ _ Hl3), Hn2.
Qed.

(** A packet of an established session. *)
Lemma safe_on_core {A} (Q : post A) l (m : M SessionCore Error A) os cs w :
  keeps_dead m → is_Some (cores (runtime w) !! l) →
  (∀ c w', later w w' → Q (m c).2 os cs w') → safe Q (rt (on_core l m)) os cs w.
Proof.
  intros Hm Hc HQ. apply safe_rt; [by apply quiet_on_core|]. intros w1 w2 Hl1 Hl2.
  destruct (la_cores _ _ Hl1 _ Hc) as [c Hc1]. unfold on_core. rewrite Hc1.
  specialize (HQ c w2). destruct (m c). apply HQ. by etrans.
Qed.

Lemma safe_handle_session s packet w :
  is_Some (cores (runtime w) !! s_core s) →
  safe processed (Session_handle_incoming_steps s packet) [] [] w.
Proof.
  intros Hc. unfold Session_handle_incoming_steps.
  destruct (deserialize (sp_data packet)) as [[| | |e]|]; try done.
  apply safe_bind, safe_bind, safe_on_core; [apply keeps_dead_get_transport|done|].
  intros c w1 Hl1. unfold get_transport, zoom.
  pose proof (decrypt_returns e (transport c)) as Hret.
  destruct (decrypt e (transport c)) as [t [plain|err| | |]]; try done. reach.
  apply safe_bind. destruct (deserialize plain) as [[|d]|]; try done; reach.
  - apply safe_on_core; [by apply keeps_dead_modify|by apply (la_cores _ _ Hl1)|done].
  - apply safe_bind, safe_on_core; [apply keeps_dead_queue_message|by apply (la_cores _ _ Hl1)|].
    intros c2 w2 Hl2. unfold queue_message. destruct (chan_send _ _) as [q []]; [|done]. reach.
    apply safe_bind, safe_on_core; [apply keeps_dead_pop_waker| |].
    { by apply (la_cores _ _ Hl2), (la_cores _ _ Hl1). }
    intros c3 w3 Hl3. rewrite pop_waker_eq. reach.
    apply safe_rt; [apply quiet_wake_option|]. intros w4 w5 _ _. by rewrite wake_option_eq.
Qed.

Lemma safe_dispatch src packet w : safe processed (dispatch_steps src packet) [] [] w.
Proof.
  unfold dispatch_steps.
  apply safe_take_poker; [intros w1 _|intros p w1 _; apply safe_handle_poker].
  apply safe_take_initiator; [intros w2 _|intros p w2 _; apply safe_handle_initiator].
  apply safe_take_responder; [intros w3 _|intros p w3 _; apply safe_handle_responder].
  apply safe_bind. intros w4 osF csF Hl4 Hi. exists [], []. split_and!; [done|done|done|]. reach.
  destruct (established w4 !! sp_id packet) as [[o s]|] eqn:Hid; [|done].
  apply safe_log_err. eapply safe_weaken; [|apply safe_handle_session].
  - by intros [] os cs w5 _.
  - apply (inv_slot _ _ _ Hi (AtEstablished (sp_id packet)) (SEstablished o s)). simpl. by rewrite Hid.
Qed.

Lemma safe_handle_incoming src data w : safe processed (handle_incoming_steps src data) [] [] w.
Proof.
  unfold handle_incoming_steps. destruct (deserialize data) as [packet|]; [|done].
  apply safe_dispatch.
Qed.
End packets.

(** ** New connections *)

Section connecting.
Context `{Crates, !CratesLaws}.
Implicit Types (w : World) (os : list OneTimeId) (cs : list N) (id : SessionId).

(** A process that has ended holds no session. *)
Definition no_session {A} : post A := λ r os cs w, cs = [].

Lemma new_notice_ok os cs w :
  inv os cs w →
  ∃ w' l, new_notice (E := Error) w = (w', Ok l) ∧ inv os cs w' ∧ later w w' ∧
    is_Some (notices w' !! l).
Proof.
  intros Hi. eexists _, _. split; [reflexivity|]. simpl.
  assert (evolves (runtime w) (with_next_loc (next_loc (runtime w) + 1) (runtime w))) as He
    by (split; simpl; [done|lia|done|by eauto]).
  pose proof (inv_runtime _ _ _ _ He Hi) as Hi1. pose proof (later_evolves w _ He) as Hl1.
  destruct (inv_notices _ _ (with_runtime _ w)
    (<[next_loc (runtime w) := mkNotice (bc_channel 10) []]> (notices w))
    (λ l, is_Some_insert _ _ _ l) Hi1) as [Hi2 Hl2].
  split_and!; [exact Hi2|by etrans|]. rewrite lookup_insert_eq. by eexists.
Qed.

Lemma safe_initiate rng o id info w :
  safe_if false no_session (initiate_steps rng o id info) [o] [] w.
Proof.
  apply safe_bind. apply safe_calm; [done|apply calm_remove_session|]. intros [[]| | | |] w1 Hl1; try done.
  reach. apply safe_bind, safe_calm; [done|apply calm_proc_access, calm_gets|]. intros [keys| | | |] w2 Hl2; try done.
  reach. apply safe_bind. destruct (SnowInitiator_new rng keys (public_key info)) as [i| | | |];
    try done. reach.
  apply safe_bind. eapply (safe_spawn _ _ (λ handle, mkPendingSessionInitiator handle None None id i));
    [done|by intros rt|done|].
  intros h w3 Hl3 Hh Htask. reach. intros w4 osF csF Hl4 Hi.
  destruct (new_notice_ok _ _ _ Hi) as (w5 & l & Hnew & Hi5 & Hl5 & Hnotice).
  erewrite M_bind_step by exact Hnew. erewrite M_bind_step by reflexivity. simpl in *.
  set (p := mkPending _ o l). assert (later w3 w5) as Hl by by etrans.
  destruct (put_ok osF csF w5 (with_initiators (<[id := p]> (initiators w5)) w5)
    (AtInitiator id) (SInitiator p)) as [Hi' Hl']; try done; [apply updated_insert_initiator| |].
  - split_and!; [done|done| |].
    + pose proof (la_next _ _ Hl). simpl. lia.
    + intros t Ht%(la_tasks _ _ Hl); [|done]. apply Htask in Ht as ->. by do 2 eexists.
  - exists [], []. split_and!; [done|done|by etrans|done].
Qed.

Lemma safe_respond rng o id info w :
  safe_if false no_session (respond_steps rng o id info) [o] [] w.
Proof.
  apply safe_bind. apply safe_calm; [done|apply calm_remove_session|]. intros [[]| | | |] w1 Hl1; try done.
  reach. apply safe_bind, safe_calm; [done|apply calm_proc_access, calm_gets|]. intros [keys| | | |] w2 Hl2; try done.
  reach. apply safe_bind. destruct (SnowResponder_new rng keys (public_key info)) as [i| | | |];
    try done. reach.
  apply safe_bind. eapply (safe_spawn _ _ (λ handle, mkPendingSessionPoker handle None None id i));
    [done|by intros rt|done|].
  intros h w3 Hl3 Hh Htask. reach. intros w4 osF csF Hl4 Hi.
  destruct (new_notice_ok _ _ _ Hi) as (w5 & l & Hnew & Hi5 & Hl5 & Hnotice).
  erewrite M_bind_step by exact Hnew. erewrite M_bind_step by reflexivity. simpl in *.
  set (p := mkPending _ o l). assert (later w3 w5) as Hl by by etrans.
  destruct (put_ok osF csF w5 (with_pokers (<[id := p]> (pokers w5)) w5)
    (AtPoker id) (SPoker p)) as [Hi' Hl']; try done; [apply updated_insert_poker| |].
  - split_and!; [done|done| |].
    + pose proof (la_next _ _ Hl). simpl. lia.
    + intros t Ht%(la_tasks _ _ Hl); [|done]. apply Htask in Ht as ->. by eexists.
  - exists [], []. split_and!; [done|done|by etrans|done].
Qed.

(** *** Every event *)

Definition is_packet (e : Event) : bool := match e with EvPacket _ _ => true | _ => false end.

Definition ended (e : Event) : post unit := λ r os cs w, cs = [] ∧ (is_packet e = true → returns r).

Lemma safe_event e w :
  safe_if (is_packet e) (ended e) (event_steps e) (drawn_by (Start e)) [] w.
Proof.
  assert (∀ A (p : Proc A) os, safe_if false no_session p os [] w →
    safe_if false (λ r os cs w, cs = [] ∧ (false = true → returns r)) (p;; mret tt) os [] w) as Hvoid.
  { intros A p os Hp. apply safe_bind. eapply safe_weaken; [|exact Hp].
    by intros [] os' cs w' _ Hcs. }
  assert (∀ A (p : Proc A) os, calm_proc p →
    safe_if false (λ r os cs w, cs = [] ∧ (false = true → returns r)) p os [] w) as Hcalm
    by (intros A p os Hp; by apply safe_calm).
  assert (∀ A (p : Proc A), calm_proc p → calm_proc (p;; mret tt)) as Hcalm'
    by (intros A p Hp; apply calm_proc_bind; [done|by intros]).
  destruct e; cbn [event_steps drawn_by is_packet].
  - eapply safe_weaken; [|apply safe_handle_incoming]. by intros r os cs w' _ [-> Hr].
  - apply Hvoid, safe_initiate.
  - apply Hvoid, safe_respond.
  - apply Hcalm, calm_send.
  - apply Hcalm, Hcalm', calm_proc_access, calm_recv_from.
  - apply Hcalm, Hcalm'. apply calm_proc_access, calm_bind; [apply calm_gets|]. intros. apply calm_ret.
  - apply Hcalm, calm_proc_access, (calm_closers (λ w, closers w ++ [(id, o)])).
  - apply Hcalm, calm_run_closer.
  - apply Hcalm, calm_run_task.
  - apply Hcalm, Hcalm', calm_poll_ready.
  - apply Hcalm, calm_drop_ready.
  - apply Hcalm, Hcalm', calm_poll_receiving.
  - apply Hcalm, Hcalm', calm_proc_access, calm_recv_outgoing.
Qed.
End connecting.

(** ** Schedules *)

Section schedules.
Context `{Crates, !CratesLaws}.
Implicit Types (w : World) (c : Config).

(** An operation is safe with what it holds; only a packet holds sessions. *)
Definition op_ok w (op : Event * Proc unit) (h : list OneTimeId * list N) : Prop :=
  safe_if (is_packet op.1) (ended op.1) op.2 h.1 h.2 w ∧ (is_packet op.1 = false → h.2 = []).

(** Every operation is safe; the connections of [future] are still to be drawn. *)
Definition config_ok (future : list OneTimeId) c : Prop :=
  ∃ held : list (list OneTimeId * list N),
    Forall2 (op_ok (cf_world c)) (cf_operations c) held ∧
    inv (mjoin held.*1 ++ future) (mjoin held.*2) (cf_world c).

Lemma join_delete {A} (ls : list (list A)) i l :
  ls !! i = Some l → mjoin ls ≡ₚ l ++ mjoin (delete i ls).
Proof.
  intros Hi. rewrite <- (take_drop_middle ls i l Hi) at 1. rewrite delete_take_drop.
  rewrite !join_app. simpl. by rewrite Permutation_app_swap_app.
Qed.

Lemma delete_after_insert {A} (l : list A) i x : delete i (<[i := x]> l) = delete i l.
Proof.
  rewrite !delete_take_drop. rewrite take_insert_ge by done. by rewrite drop_insert_lt by lia.
Qed.

Lemma start_ok e future c :
  config_ok (drawn_by (Start e) ++ future) c → config_ok future (act c (Start e)).
Proof.
  intros (held & Hsafe & Hi). exists (held ++ [(drawn_by (Start e), [])]). split.
  - simpl. apply Forall2_app; [done|]. constructor; [|done]. split; [apply safe_event|done].
  - rewrite !fmap_app, !join_app. simpl. rewrite !app_nil_r. by rewrite <- app_assoc.
Qed.

Lemma advance_ok i future c : config_ok future c → config_ok future (act c (Advance i)).
Proof.
  intros (held & Hsafe & Hi). simpl.
  destruct (cf_operations c !! i) as [[e [r|B m k]]|] eqn:Hop; try by exists held.
  destruct (Forall2_lookup_l _ _ _ _ _ Hsafe Hop) as ([os cs] & Hheld & Hp & _). simpl in Hp.
  destruct (Hp (cf_world c) (mjoin (delete i held.*1) ++ future) (mjoin (delete i held.*2)))
    as (os' & cs' & Hb & Hi' & Hl & Hk); [done|..].
  { eapply inv_perm; [| |exact Hi].
    - rewrite (join_delete held.*1 i os) by (by rewrite list_lookup_fmap, Hheld).
      by rewrite <- app_assoc.
    - by rewrite (join_delete held.*2 i cs) by (by rewrite list_lookup_fmap, Hheld). }
  destruct (m (cf_world c)) as [w r]. simpl in *. apply lookup_lt_Some in Hheld as Hlt.
  exists (<[i := (os', cs')]> held). split; simpl.
  - apply Forall2_insert; [|done]. eapply Forall2_impl; [exact Hsafe|].
    intros op h [Hs Hcs]. split; [|done]. eapply safe_later; [|exact Hl|exact Hs]. done.
  - eapply inv_perm; [| |exact Hi'].
    + rewrite list_fmap_insert. simpl.
      rewrite (join_delete (<[i:=os']> held.*1) i os')
        by (apply list_lookup_insert_eq; by rewrite length_fmap).
      by rewrite delete_after_insert, <- app_assoc.
    + rewrite list_fmap_insert. simpl.
      rewrite (join_delete (<[i:=cs']> held.*2) i cs')
        by (apply list_lookup_insert_eq; by rewrite length_fmap).
      by rewrite delete_after_insert.
Qed.

Lemma schedule_ok sched c :
  config_ok (drawn sched) c → config_ok [] (foldl act c sched).
Proof.
  revert c. induction sched as [|a sched IH]; intros c Hc; [done|]. simpl. apply IH.
  destruct a as [e|i]; [by apply start_ok|by apply advance_ok].
Qed.
End schedules.

(** A session that is at no place is in the hands of a packet that goes on. *)
Lemma held_unfinished `{Crates} (c : Config) held l w :
  Forall2 (op_ok w) (cf_operations c) held → l ∈ mjoin held.*2 →
  ∃ src data p, (EvPacket src data, p) ∈ cf_operations c ∧ unfinished p.
Proof.
  intros Hsafe (cs & Hl & Hcs)%list_elem_of_join.
  apply list_elem_of_fmap in Hcs as (h & -> & (i & Hh)%list_elem_of_lookup).
  destruct (Forall2_lookup_r _ _ _ _ _ Hsafe Hh) as ([e p] & Hop & Hp & Hnone).
  assert (h.2 ≠ []) as Hsome by (intros Heq; rewrite Heq in Hl; by apply elem_of_nil in Hl).
  destruct e as [src data| | | | | | | | | | | |]; try by destruct Hsome, Hnone.
  exists src, data, p. split; [by eapply list_elem_of_lookup_2|].
  destruct p as [r|]; [|done]. by destruct Hp.
Qed.

Lemma core_at_established `{Crates} w x l :
  core_at w x = Some l → ∃ id o s, established w !! id = Some (o, s) ∧ s_core s = l.
Proof.
  unfold core_at. destruct x as [id|id|id|id]; simpl; [by destruct (_ !! id)..|].
  destruct (established w !! id) as [[o s]|] eqn:Hs; simpl; [|done]. intros [= <-].
  by exists id, o, s.
Qed.


(** ** Two overlaps, run *)

Definition run_all (i : nat) : list Action := replicate 16 (Advance i).

(** A response is being processed when its connection is started again: the identifier
    then has an entry in two maps, of two connections. *)
Definition demo_overlap : list Action :=
  [Start (EvInitiate 3 100 7 (demo_info 2))] ++ run_all 0 ++
  [Start (EvPacket (SocketAddrV4 1 2) (demo_datagram demo_response)); Advance 1; Advance 1] ++
  [Start (EvInitiate 5 101 7 (demo_info 2))] ++ run_all 2 ++ run_all 1.


(** Two calls for one identifier both remove before either inserts: the second insertion
    drops the entry of the first, whose retransmission task nobody can stop any more. *)
Definition demo_two_calls : list Action :=
  [Start (EvInitiate 3 100 7 (demo_info 2)); Start (EvInitiate 5 101 7 (demo_info 2))] ++
  replicate 6 (Advance 0) ++ replicate 6 (Advance 1) ++ run_all 0 ++ run_all 1.

Lemma two_calls_leak_task :
  let w : @World crates := cf_world (interleaved (demo_keys 1) demo_two_calls) in
  ∃ l i, tasks (runtime w) !! l = Some (InitiateTask 7 (addresses (demo_info 2)) i) ∧
    (λ p, @psi_handle crates (pd_session p)) <$> initiators w !! 7%N ≠ Some l.
Proof. exists 0%N. eexists. split; [by vm_compute|]. by vm_compute. Qed.
