(* ===== verification/Wire.v ===== *)
(** * What a handler puts on the wire

    In every reachable world the outgoing channel is open and what is queued there is
    well formed: a packet in the range of its type, with the time to live of 64, that
    carries a serialized message.  Proved with the [triple]s of the prelude, operation
    by operation. *)

From S2P Require Import Prelude Std Externals Layout Engine SnowTypes Transport Session SessionFacts Concrete SessionProps.
From S2P Require Import Handler Table HandlerFacts Reachable Keeping HandlerProps.

Section wire.
Context `{Crates, !CratesLaws}.
Implicit Types (rt : Runtime) (w : World).

Definition id_wf (id : SessionId) : Prop := (id < 256 ^ 16)%N.

(** A message of the program and what is queued for the network. *)
Definition outgoing_wf (x : Outgoing) : Prop :=
  wf x.1.2 ∧ x.2 = 64%N ∧
  ∃ m, serialize m = Some (sp_data x.1.2) ∧ length (raw_bytes m) ≤ noise_max.

Definition task_wf (t : Task) : Prop :=
  match t with
  | PokeTask id _ => id_wf id
  | InitiateTask id _ i => id_wf id ∧ length (initiation_bytes i) ≤ noise_max
  | RespondTask id _ r => id_wf id ∧ length (response_bytes r) ≤ noise_max
  | KeepaliveTask id _ _ => id_wf id
  | HeartbeatTask _ => True
  end.

Record wire_ok rt : Prop := {
  wire_open : chan_open (outgoing rt) = true;
  wire_queue : Forall outgoing_wf (chan_contents (outgoing rt));
  wire_tasks : map_Forall (λ _, task_wf) (tasks rt);
}.

(** ** Sessions and tasks *)

Abbreviation wires := (triple wire_ok).

Lemma wires_on_core {E A} (Q : A → Prop) l (m : M SessionCore E A) :
  triple (λ _, True) Q m → wires Q (on_core l m).
Proof.
  intros Hm rt [Ho Hq Ht]. unfold on_core. destruct (cores rt !! l) as [c|]; [|done].
  destruct (Hm c I) as [_ HQ]. by destruct (m c) as [c' r].
Qed.

Lemma wires_send_out dest p ttl :
  outgoing_wf (dest, p, ttl) → wires (λ _, True) (send_out dest p ttl).
Proof.
  intros Hp rt [Ho Hq Ht]. unfold send_out.
  destruct (chan_send_open (dest, p, ttl) (outgoing rt) Ho) as (_ & Ho' & Hq').
  destruct (chan_send _ _) as [c sent]. simpl in *. split; [|done]. split; simpl; [done| |done].
  rewrite Hq'. apply Forall_app. split; [done|by apply Forall_singleton].
Qed.

Lemma wires_spawn {E} t : task_wf t → wires (λ _, True) (spawn (E := E) t).
Proof.
  intros Ht rt [Ho Hq Hts]. split; [|done]. split; simpl; [done..|].
  by apply map_Forall_insert_2.
Qed.

Lemma wires_abort {E} l : wires (λ _, True) (abort (E := E) l).
Proof.
  intros rt [Ho Hq Hts]. split; [|done]. split; simpl; [done..|]. by apply map_Forall_delete.
Qed.

Lemma wires_modify {E} f :
  (∀ rt, outgoing (f rt) = outgoing rt ∧ tasks (f rt) = tasks rt) →
  wires (λ _, True) (modify (E := E) f).
Proof.
  intros Hf. apply triple_modify; [|done]. intros rt [Ho Hq Hts]. destruct (Hf rt) as [Ho' Ht'].
  by split; rewrite ?Ho', ?Ht'.
Qed.

Lemma wires_wake {E} wk : wires (λ _, True) (wake (E := E) wk).
Proof. by apply wires_modify. Qed.

Lemma wires_wake_option {E} wk : wires (λ _, True) (wake_option (E := E) wk).
Proof. destruct wk; [apply wires_wake|by apply triple_ret]. Qed.

Lemma wires_wake_all {E} ws : wires (λ _, True) (wake_all (E := E) ws).
Proof. by apply wires_modify. Qed.

(** Bytes sealed through the buffer are no longer than the buffer. *)
Lemma encrypt_length plain t sealed : (encrypt plain t).2 = Ok sealed → length sealed ≤ noise_max.
Proof.
  unfold encrypt.
  assert (triple (λ x : LossyTransportState * bytes, length x.2 = noise_max) (λ _ : nat, True)
    (write_message plain)) as Hw.
  { unfold write_message. apply (triple_bind _ (λ _, True)).
    { by intros s Hs. }
    intros [t0 m0] _. repeat (apply (triple_bind _ (λ _, True)); [|intros ? _]);
      try (by apply triple_lift); try (by apply triple_gets); try by apply triple_ret.
    - by apply triple_modify; [intros [? ?]|].
    - apply triple_modify; [|done]. intros [? ?]. simpl. by rewrite zip_copy_length.
    - apply triple_modify; [|done]. intros [? ?]. simpl. by rewrite zip_copy_length. }
  destruct (Hw (t, replicate noise_max x00)) as [Hlen _]; [apply length_replicate|].
  destruct (write_message _ _) as [[t' buf] [len| | | |]]; simpl in *; try done.
  unfold slice_to. case_decide; intros; simplify_eq. rewrite length_take. lia.
Qed.

Lemma encrypted_packet dest id sealed data :
  id_wf id → length sealed ≤ noise_max → serialize (Encrypted sealed) = Some data →
  outgoing_wf (dest, mkSessionPacket id data, 64%N).
Proof.
  intros Hid Hlen Hs. split; [|split; [reflexivity|by exists (Encrypted sealed)]].
  split; [exact Hid|]. pose proof (raw_length _ _ Hs). simpl in *. pose proof noise_max_N.
  unfold bytes_wf, u64_modulus. simpl. lia.
Qed.

Lemma wires_encrypt l plain :
  wires (λ sealed, length sealed ≤ noise_max) (on_core l (get_transport (encrypt plain))).
Proof.
  apply wires_on_core. intros c _. split; [done|]. intros sealed. unfold get_transport, zoom.
  pose proof (encrypt_length plain (transport c)) as Hlen.
  destruct (encrypt plain (transport c)) as [t r]. simpl in *. apply Hlen.
Qed.
Lemma wires_on_core_true {E A} l (m : M SessionCore E A) : wires (λ _, True) (on_core l m).
Proof. by apply wires_on_core. Qed.

Lemma wires_lift {E A} (o : outcome E A) : wires (λ _, True) (lift o).
Proof. by apply triple_lift. Qed.

Lemma wires_ret {E A} (a : A) : wires (λ _, True) (mret (M := M Runtime E) a).
Proof. by apply triple_ret. Qed.

(** The tail [send] and the keepalive task share. *)
Lemma wires_send_sealed dest id sealed :
  id_wf id → length sealed ≤ noise_max →
  wires (λ _, True)
    (serialized ← lift (ok_or BincodeError (serialize (Encrypted sealed)));
     send_out dest (mkSessionPacket id serialized) 64).
Proof.
  intros Hid Hlen. apply (triple_bind _ (λ d, serialize (Encrypted sealed) = Some d)).
  { apply triple_lift. intros d. by destruct (serialize _); intros; simplify_eq/=. }
  intros d Hd. by eapply wires_send_out, encrypted_packet.
Qed.

Lemma wires_Session_send s d : id_wf (s_id s) → wires (λ _, True) (Session_send s d).
Proof.
  intros Hid. unfold Session_send, Session_is_dead.
  apply (triple_bind _ (λ _, True)); [apply wires_on_core_true|]. intros [] _; [apply wires_lift|].
  apply (triple_bind _ (λ _, True)); [apply wires_lift|]. intros plain _.
  apply (triple_bind _ (λ e, length e ≤ noise_max)); [apply wires_encrypt|]. intros sealed Hlen.
  by apply wires_send_sealed.
Qed.

Lemma wires_keepalive_tick {E} id addr core :
  id_wf id → wires (λ _, True) (keepalive_tick (E := E) id addr core).
Proof.
  intros Hid. unfold keepalive_tick, keepalive_send.
  apply (triple_bind _ (λ _, True)).
  - eapply triple_weaken; [by intros r _|]. apply (triple_attempt _ (λ _, True)).
    apply (triple_bind _ (λ _, True)); [apply wires_lift|]. intros plain _.
    apply (triple_bind _ (λ e, length e ≤ noise_max)); [apply wires_encrypt|]. intros e He.
    by apply wires_send_sealed.
  - intros [|] _; [|apply wires_ret].
    apply (triple_bind _ (λ _, True)); [apply wires_on_core_true|]. intros. apply wires_ret.
Qed.

Lemma wires_send_each {E} addrs p :
  (∀ a, outgoing_wf (a, p, 64%N)) → wires (λ _, True) (send_each (E := E) addrs p).
Proof.
  intros Hp. induction addrs as [|a addrs IH]; simpl; [apply wires_ret|].
  apply (triple_bind _ (λ _, True)); [|done]. by apply triple_log_err, wires_send_out.
Qed.

Lemma wires_handshake_tick {E} id addrs m :
  id_wf id → length (raw_bytes m) ≤ noise_max →
  wires (λ _, True) (handshake_tick (E := E) id addrs m).
Proof.
  intros Hid Hlen. unfold handshake_tick.
  apply (triple_bind _ (λ d, serialize m = Some d)).
  { apply triple_lift. intros d. by destruct (serialize m); intros; simplify_eq/=. }
  intros d Hd.
  apply (triple_bind _ (λ _, True)); [|intros; apply wires_ret]. apply wires_send_each.
  intros a. split; [|split; [reflexivity|by exists m]]. split; [exact Hid|].
  pose proof (raw_length _ _ Hd). pose proof noise_max_N.
  unfold bytes_wf, u64_modulus. simpl. lia.
Qed.

Lemma wires_heartbeat_tick {E} core : wires (λ _, True) (heartbeat_tick (E := E) core).
Proof.
  unfold heartbeat_tick. apply (triple_bind _ (λ _, True)); [apply wires_on_core_true|].
  intros [] _; simpl; (apply (triple_bind _ (λ _, True)); [apply wires_on_core_true|]; intros _ _).
  - apply wires_ret.
  - apply (triple_bind _ (λ _, True)); [apply wires_on_core_true|]. intros ws _.
    apply (triple_bind _ (λ _, True)); [apply wires_wake_all|]. intros. apply wires_ret.
Qed.

Lemma wires_task_tick t : task_wf t → wires (λ _, True) (task_tick t).
Proof.
  destruct t as [| ? ? i | ? ? r | |]; simpl; intros Ht;
    try (apply wires_handshake_tick; first [exact Ht | exact (proj1 Ht) | idtac]).
  - simpl. lia.
  - destruct Ht as [_ Ht]. by destruct i.
  - destruct Ht as [_ Ht]. by destruct r.
  - by apply wires_keepalive_tick.
  - apply wires_heartbeat_tick.
Qed.

Lemma wires_run_task l : wires (λ _, True) (run_task l).
Proof.
  intros rt Hok. unfold run_task. destruct (tasks rt !! l) as [t|] eqn:Hl; [|done].
  destruct (wires_task_tick t (wire_tasks _ Hok _ _ Hl) rt Hok) as [Hok' _].
  destruct (task_tick t rt) as [rt1 [[]| | | |]]; simpl in *; try done; by apply wires_abort.
Qed.

Lemma wires_Session_handle_incoming s p : wires (λ _, True) (Session_handle_incoming s p).
Proof.
  unfold Session_handle_incoming. apply (triple_bind _ (λ _, True)); [apply wires_lift|].
  intros [| | |e] _; try apply wires_ret.
  apply (triple_bind _ (λ _, True)); [apply wires_on_core_true|]. intros plain _.
  apply (triple_bind _ (λ _, True)); [apply wires_lift|]. intros [|d] _;
    [apply wires_on_core_true|].
  apply (triple_bind _ (λ _, True)); [apply wires_on_core_true|]. intros _ _.
  apply (triple_bind _ (λ _, True)); [apply wires_on_core_true|]. intros. apply wires_wake_option.
Qed.

Lemma wires_Receiving_poll {E} r wk : wires (λ _, True) (Receiving_poll (E := E) r wk).
Proof.
  unfold Receiving_poll. apply (triple_bind _ (λ _, True)); [apply wires_on_core_true|].
  intros [] _; [apply wires_ret|].
  apply (triple_bind _ (λ _, True)); [apply wires_on_core_true|].
  intros [] _; simpl; (apply (triple_bind _ (λ _, True)); [apply wires_on_core_true|]);
    intros; apply wires_ret.
Qed.

Lemma wires_Session_new id addr t :
  id_wf id → wires (λ s, id_wf (s_id s)) (Session_new id addr t).
Proof.
  intros Hid. unfold Session_new. apply (triple_bind _ (λ _, True)); [apply wires_lift|].
  intros _ _. apply (triple_bind _ (λ _, True)); [by intros rt []|]. intros core _.
  apply (triple_bind _ (λ _, True)); [by apply wires_modify|]. intros _ _.
  apply (triple_bind _ (λ _, True)); [by apply wires_spawn|]. intros _ _.
  apply (triple_bind _ (λ _, True)); [by apply wires_spawn|]. intros _ _. by apply triple_ret.
Qed.

(** The transmit loop takes a packet. *)
Lemma wires_transmit rt : wire_ok rt → wire_ok (with_outgoing (chan_try_recv (outgoing rt)).1 rt).
Proof.
  intros [Ho Hq Ht]. pose proof (chan_try_recv_open (outgoing rt)) as Hopen.
  pose proof (chan_try_recv_contents (outgoing rt)) as Hcont.
  split; simpl; [congruence| |done]. destruct (chan_contents (outgoing rt)) as [|y q] eqn:Hy.
  - rewrite Hcont. simpl. by rewrite Hy.
  - destruct Hcont as [_ ->]. by apply Forall_cons in Hq as [_ ?].
Qed.

(** ** The handler *)

#[export] Instance wire_keeps : RuntimeKeeps wire_ok id_wf (λ s, id_wf (s_id s)).
Proof.
  split; intros.
  - by intros rt [].
  - apply wires_abort.
  - by apply wires_modify.
  - by apply wires_spawn.
  - by apply wires_spawn.
  - by apply wires_spawn.
  - by apply wires_Session_new.
  - apply wires_Session_handle_incoming.
  - by apply wires_Session_send.
  - apply wires_on_core_true.
  - apply wires_on_core_true.
Qed.

(** What holds of every world: all identifiers are meant. *)
Definition world_wire w : Prop :=
  world_keeps wire_ok id_wf (λ s, id_wf (s_id s)) (λ _, True) w w.

Lemma world_wire_base w0 w :
  world_keeps wire_ok id_wf (λ s, id_wf (s_id s)) (λ _, True) w0 w → world_wire w.
Proof. by intros []; split. Qed.

Lemma world_wire_runtime rt w : wire_ok rt → world_wire w → world_wire (with_runtime rt w).
Proof. by intros Hrt []; split. Qed.

(** *** Reachable worlds *)

(** Session identifiers are 128-bit integers. *)
Definition event_wf (e : Event) : Prop :=
  match e with EvInitiate _ _ id _ | EvRespond _ _ id _ => id_wf id | _ => True end.

Lemma world_wire_event e w : event_wf e → world_wire w → world_wire (run_event e w).
Proof.
  intros He Hw.
  assert (concerns id_wf (λ _, True) e w ∨
    match e with EvTask _ | EvPollReceiving _ _ | EvTransmit => True | _ => False end) as [Hc|Hrest].
  { destruct e; simpl in *; auto. }
  { eapply world_wire_base, world_keeps_event; [apply wire_keeps|exact Hc|exact Hw]. }
  destruct e; try done; cbn [run_event].
  - pose proof (wires_run_task l (runtime w) (wk_runtime _ _ _ _ _ _ Hw)) as [Hrt _].
    unfold on_runtime, zoom. destruct (run_task l _). by apply world_wire_runtime.
  - pose proof (wires_Receiving_poll (E := Error) r waker (runtime w) (wk_runtime _ _ _ _ _ _ Hw))
      as [Hrt _].
    unfold on_runtime, zoom. destruct (Receiving_poll _ _ _). by apply world_wire_runtime.
  - pose proof (wires_transmit _ (wk_runtime _ _ _ _ _ _ Hw)) as Hrt. unfold recv_outgoing.
    destruct (chan_try_recv _) as [c []]; by apply world_wire_runtime.
Qed.

(** The worlds of a handler whose user passes 128-bit session identifiers. *)
Definition reachable_wf w : Prop :=
  ∃ keys es, Forall event_wf es ∧ w = run_events es (Handler_new keys).

Lemma reachable_wf_reachable w : reachable_wf w → reachable w.
Proof. intros (keys & es & _ & ->). by exists keys, es. Qed.

Lemma reachable_wf_event e w : event_wf e → reachable_wf w → reachable_wf (run_event e w).
Proof.
  intros He (keys & es & Hes & ->). exists keys, (es ++ [e]). unfold run_events.
  rewrite foldl_snoc. split; [|done]. apply Forall_app. split; [done|]. by apply Forall_singleton.
Qed.

Lemma world_wire_events keys es : Forall event_wf es → world_wire (run_events es (Handler_new keys)).
Proof.
  induction es as [|e es IH] using rev_ind; intros Hes.
  - split; try done. split; simpl; [apply chan_new_open|by rewrite chan_new_contents|done].
  - apply Forall_app in Hes as [Hes [He _]%Forall_cons]. unfold run_events. rewrite foldl_snoc.
    apply world_wire_event; [exact He|by apply IH].
Qed.

Lemma reachable_wf_world w : reachable_wf w → world_wire w.
Proof. intros (keys & es & Hes & ->). by apply world_wire_events. Qed.

Lemma reachable_wf_open w : reachable_wf w → chan_open (outgoing (runtime w)) = true.
Proof. intros (keys & es & Hes & ->). by destruct (world_wire_events keys es Hes) as [[]]. Qed.
End wire.

(** C15. Everything a handler queues for the network is well formed: after any events
    (session identifiers being 128-bit integers), the outgoing channel is open, and
    each entry of its queue has the time to live 64 and is a packet in the range of its
    type around a serialized message of at most 65535 bytes; so the packet serializes,
    and its datagram is read back as this packet by any peer. *)
Theorem outgoing_well_formed `{Crates, !CratesLaws} (keys : SnowKeypair) (es : list Event) :
  Forall event_wf es →
  let rt := runtime (run_events es (Handler_new keys)) in
  chan_open (outgoing rt) = true ∧
  ∀ dest p ttl, (dest, p, ttl) ∈ chan_contents (outgoing rt) →
    ttl = 64%N ∧ wf p ∧
    (∃ m, serialize m = Some (sp_data p) ∧ length (raw_bytes m) ≤ noise_max) ∧
    ∃ data, serialize p = Some data ∧ deserialize data = Some p.
Proof.
  intros Hes rt. destruct (world_wire_events keys es Hes) as [[Ho Hq _] _ _ _ _ _].
  split; [exact Ho|]. intros dest p ttl Hp. rewrite Forall_forall in Hq.
  destruct (Hq _ Hp) as (Hwf & Httl & Hm). split_and!; [exact Httl|exact Hwf|exact Hm|].
  by apply codec_roundtrip.
Qed.

Lemma outgoing_well_formed_witness :
  ∃ p, (SocketAddrV4 1 2, p, 64%N) ∈ (outgoing (runtime (@run_events crates
      [EvInitiate 3 100 7 (demo_info 2); EvTask 0] (demo_handler 1)))).2 ∧
    ∃ data, @serialize _ (@crates_packet crates) p = Some data ∧
      @deserialize _ (@crates_packet crates) data = Some p.
Proof.
  eexists. split; [left|].
  eapply (@outgoing_well_formed crates crates_laws (demo_keys 1)
    [EvInitiate 3 100 7 (demo_info 2); EvTask 0]); [|left].
  apply Forall_cons. split; [reflexivity|]. apply Forall_cons. split; [exact I|apply Forall_nil].
  exact I.
Defined.
