(* ===== verification/Connection.v ===== *)
(** * Two handlers connect

    The handshake of two handlers over the network, packet by packet, up to two
    established sessions that are the two ends of one noise session. *)

From S2P Require Import Prelude Std Externals Layout Engine SnowTypes Transport Session SessionFacts Concrete SessionProps Handler Table HandlerFacts Reachable HandlerProps.

(** ** The tasks of pending sessions *)

Section handshake_tasks.
Context `{Crates, !CratesLaws}.
Implicit Types (w : World) (T : Table) (rt : Runtime).

Lemma send_each_eq {E} addrs p rt :
  chan_open (outgoing rt) = true →
  ∃ o, send_each (E := E) addrs p rt = (with_outgoing o rt, Ok tt) ∧ chan_open o = true ∧
    chan_contents o = chan_contents (outgoing rt) ++ ((λ a, (a, p, 64%N)) <$> addrs).
Proof.
  revert rt. induction addrs as [|a addrs IH]; intros rt Hopen; simpl.
  - exists (outgoing rt). rewrite app_nil_r. by destruct rt.
  - destruct (chan_send_open (a, p, 64%N) (outgoing rt) Hopen) as (Hok & Ho & Hc).
    destruct (IH (with_outgoing (chan_send (a, p, 64%N) (outgoing rt)).1 rt) Ho)
      as (o & Hrest & Ho' & Hc').
    exists o. split_and!; [|done|].
    + unfold log_err, send_out. unfold mbind at 1, M_bind at 1.
      destruct (chan_send _ _) as [o1 sent]. simpl in *. subst sent. by rewrite Hrest.
    + rewrite Hc'. simpl. rewrite Hc. by rewrite <- app_assoc.
Qed.

(** The addresses and the message of a retransmission task. *)
Definition task_message (t : Task) : option (SessionId * list SocketAddr * RawMessage) :=
  match t with
  | PokeTask id addrs => Some (id, elements addrs, HandshakePoke)
  | InitiateTask id addrs i => Some (id, elements addrs, HandshakeInitiation i)
  | RespondTask id addr r => Some (id, [addr], HandshakeResponse r)
  | _ => None
  end.

(** A turn of a retransmission task puts its message on the wire, once for each of
    its addresses, and changes nothing else. *)
Lemma handshake_task_eq l t id addrs m w :
  tasks (runtime w) !! l = Some t → task_message t = Some (id, addrs, m) →
  (id < 256 ^ 16)%N → wf m → length (raw_bytes m) ≤ noise_max →
  chan_open (outgoing (runtime w)) = true →
  ∃ o p data, on_runtime (run_task l) w = (with_runtime (with_outgoing o (runtime w)) w, Ok tt) ∧
    chan_open o = true ∧ sp_id p = id ∧ deserialize (sp_data p) = Some m ∧
    serialize p = Some data ∧ deserialize data = Some p ∧
    chan_contents o = chan_contents (outgoing (runtime w)) ++ ((λ a, (a, p, 64%N)) <$> addrs).
Proof.
  intros Hl Ht Hid Hwf Hlen Hopen. pose proof noise_max_N.
  destruct (codec_roundtrip m Hwf) as (d & Hd & Hde). pose proof (raw_length _ _ Hd).
  destruct (codec_roundtrip (mkSessionPacket id d)) as (data & Hdata & Hdatade).
  { split; [done|]. unfold bytes_wf, u64_modulus. simpl. lia. }
  destruct (send_each_eq (E := Error) addrs (mkSessionPacket id d) (runtime w) Hopen)
    as (o & Hsend & Ho & Hc).
  exists o, (mkSessionPacket id d), data.
  split_and!; [|exact Ho|reflexivity|exact Hde|exact Hdata|exact Hdatade|].
  - unfold on_runtime, zoom, run_task. rewrite Hl.
    assert (task_tick t (runtime w) = (with_outgoing o (runtime w), Ok true)) as ->; [|done].
    assert (task_tick t = handshake_tick (E := Error) id addrs m) as ->.
    { destruct t; simpl in Ht; try discriminate Ht; injection Ht as <- <- <-; reflexivity. }
    unfold handshake_tick. rewrite Hd. unfold mbind at 1, M_bind at 1. simpl.
    by erewrite M_bind_step by exact Hsend.
  - exact Hc.
Qed.

(** So the message is on the wire to each of the addresses. *)
Lemma sent_to_each (old : list Outgoing) addrs p a :
  a ∈ addrs → (a, p, 64%N) ∈ old ++ ((λ a, (a, p, 64%N)) <$> addrs).
Proof. intros Ha. apply elem_of_app. right. apply list_elem_of_fmap. eauto. Qed.
End handshake_tasks.

(** ** One packet at a consistent handler *)

Section packets.
Context `{Crates, !CratesLaws}.
Implicit Types (w : World) (T : Table).

Lemma handle_incoming_packet src data packet w :
  deserialize data = Some packet → handle_incoming src data w = dispatch src packet w.
Proof. intros Hd. unfold handle_incoming, mbind, M_bind, lift. by rewrite Hd. Qed.

Lemma dispatch_initiation src packet w T p i t r :
  world_ok w T → pokers w !! sp_id packet = Some p →
  deserialize (sp_data packet) = Some (HandshakeInitiation i) →
  response (psp_responder (pd_session p)) i = Ok (t, r) →
  let rt := aborted (psp_handle (pd_session p)) (runtime w) in
  dispatch (E := Error) src packet w =
    (with_responders (<[sp_id packet := responding (next_loc (runtime w)) src p t]> (responders w))
       (with_runtime (spawned rt (RespondTask (sp_id packet) src r))
          (without_poker (sp_id packet) w)), Ok tt).
Proof.
  intros [HR Htab] Hp Hd Hresp. assert (T !! sp_id packet = Some (SPoker p)) as Hid by (by apply HR).
  destruct (to_slot _ _ _ Htab _ _ Hid) as (Hpid & Hw & _).
  erewrite dispatch_eq by done. rewrite Hid.
  rewrite (handle_poker_initiation _ _ _ _ i Hw Hd), Hresp. by rewrite Hpid.
Qed.

Lemma dispatch_response src packet w T p r t :
  world_ok w T → initiators w !! sp_id packet = Some p →
  deserialize (sp_data packet) = Some (HandshakeResponse r) →
  receive_response (psi_initiator (pd_session p)) r = Ok (ResponseOk t) →
  dispatch (E := Error) src packet w =
    (connected (sp_id packet) src t (pd_one_time_id p) (pd_notice p)
       (with_runtime (aborted (psi_handle (pd_session p)) (runtime w))
          (without_initiator (sp_id packet) w)), Ok tt).
Proof.
  intros [HR Htab] Hp Hd Hresp.
  assert (T !! sp_id packet = Some (SInitiator p)) as Hid by (by apply HR).
  destruct (to_slot _ _ _ Htab _ _ Hid) as (Hpid & Hw & Haddr & Hn).
  destruct (represents_Some _ _ _ _ HR Hid) as (_ & _ & _ & Hest).
  erewrite dispatch_eq by done. rewrite Hid.
  pose proof (handle_initiator_response (E := Error) src packet p
    (without_initiator (sp_id packet) w) r Hw Hpid Hest Hn Hd) as Hh.
  by rewrite Hresp in Hh.
Qed.

Lemma dispatch_first_keepalive src packet w T p n :
  world_ok w T → responders w !! sp_id packet = Some p →
  lt_size (psr_transport (pd_session p)) = 1%N →
  received_nonces (psr_transport (pd_session p)) = ∅ →
  packet_carries (stateless (psr_transport (pd_session p))) n Keepalive packet →
  dispatch (E := Error) src packet w =
    (connected (sp_id packet) (psr_remote_addr (pd_session p))
       (with_received (window_last (Some n)) (psr_transport (pd_session p)))
       (pd_one_time_id p) (pd_notice p)
       (with_runtime (aborted (psr_handle (pd_session p)) (runtime w))
          (without_responder (sp_id packet) w)), Ok tt).
Proof.
  intros [HR Htab] Hp Hsz Hrec (plain & sealed & Hraw & Hm & Hc)%packet_carries_decrypt.
  assert (T !! sp_id packet = Some (SResponder p)) as Hid by (by apply HR).
  destruct (to_slot _ _ _ Htab _ _ Hid) as (Hpid & Hw & Hready & Hn).
  destruct (represents_Some _ _ _ _ HR Hid) as (_ & _ & _ & Hest).
  erewrite dispatch_eq by done. rewrite Hid.
  pose proof (handle_responder_eq (E := Error) src packet p
    (without_responder (sp_id packet) w) Hw Hready Hpid Hest Hn) as Hh.
  pose proof (decrypt_in_order _ n _ _ None Hc Hsz Hrec eq_refl) as Hdec.
  assert (heard (sp_data packet) (psr_transport (pd_session p)) =
    (with_received (window_last (Some n)) (psr_transport (pd_session p)), true)) as Hheard.
  { unfold heard. by rewrite Hraw, Hdec, Hm. }
  by rewrite Hheard in Hh.
Qed.

(** What an established connection leaves in the world. *)
Lemma connected_facts id addr t o l w n :
  notices w !! l = Some n → bc_pending (nt_channel n) = Some 0 →
  let core := next_loc (runtime w) in
  let w' := connected id addr t o l w in
  established w' !! id = Some (o, mkSession id addr core) ∧
  cores (runtime w') !! core = Some (mkSessionCore t true false ∅ chan_new) ∧
  tasks (runtime w') !! (core + 1)%N = Some (KeepaliveTask id addr core) ∧
  outgoing (runtime w') = outgoing (runtime w) ∧
  ∃ n', notices w' !! l = Some n' ∧ bc_pending (nt_channel n') = Some 1.
Proof.
  intros Hn Hpend. destruct (bc_send_alive _ Hpend) as [Hsent Hpend1].
  unfold connected, notified. simpl. rewrite Hn.
  destruct (bc_send (nt_channel n)) as [b sent]. simpl in Hsent, Hpend1. subst sent. simpl.
  split_and!.
  - apply lookup_insert_eq.
  - apply lookup_insert_eq.
  - rewrite lookup_insert_ne by lia. apply lookup_insert_eq.
  - done.
  - eexists. rewrite lookup_insert_eq. by split.
Qed.

(** Its tasks: the two of the new session, and those there were. *)
Lemma connected_keepalives id addr t o l w k id' addr' core :
  tasks (runtime (connected id addr t o l w)) !! k = Some (KeepaliveTask id' addr' core) →
  core = next_loc (runtime w) ∨ tasks (runtime w) !! k = Some (KeepaliveTask id' addr' core).
Proof.
  assert (tasks (runtime (connected id addr t o l w)) =
    tasks (session_runtime id addr t (runtime w))) as ->.
  { unfold connected, notified. simpl.
    destruct (notices w !! l) as [n|]; [|done]. by destruct (bc_send (nt_channel n)) as [b []]. }
  simpl. intros [[_ [=]]|[_ [[_ [= _ _ <-]]|[_ Hl]]%lookup_insert_Some]]%lookup_insert_Some;
    [by left|by right].
Qed.
End packets.

(** ** The stages of a connection *)

Section stages.
Context `{Crates, !CratesLaws}.
Implicit Types (w : World) (T : Table).

(** The notification at [l] was not sent, respectively was sent and not read. *)
Definition unnotified w (l : N) : Prop :=
  ∃ n, notices w !! l = Some n ∧ bc_pending (nt_channel n) = Some 0.
Definition is_notified w (l : N) : Prop :=
  ∃ n, notices w !! l = Some n ∧ bc_pending (nt_channel n) = Some 1.

(** The world has a live session for [id], with the peer at [addr], whose transport
    is [t] and on which nothing was received. *)
Definition session_up w (id : SessionId) (o : OneTimeId) (addr : SocketAddr)
    (t : LossyTransportState) : Prop :=
  ∃ s, established w !! id = Some (o, s) ∧ s_id s = id ∧ s_remote_addr s = addr ∧
    cores (runtime w) !! s_core s = Some (mkSessionCore t true false ∅ chan_new).

(** The packet [p], whose datagram is [data], is on the wire to [addr]. *)
Definition on_wire w (addr : SocketAddr) (p : SessionPacket) (data : bytes) : Prop :=
  (addr, p, 64%N) ∈ chan_contents (outgoing (runtime w)) ∧
  serialize p = Some data ∧ deserialize data = Some p.

Lemma cleared_outgoing id w T : outgoing (runtime (cleared id w T)) = outgoing (runtime w).
Proof.
  unfold cleared. destruct (T !! id) as [[p|p|p|o s]|]; try done. simpl.
  by destruct (cores _ !! _).
Qed.

(** No session of the identifier [id] has said anything: what the runtime has queued
    for it belongs to the handshake, and no keepalive task is left. *)
Definition silent (id : SessionId) (rt : Runtime) : Prop :=
  Forall (λ x, sp_id x.1.2 = id → ∀ e, deserialize (sp_data x.1.2) ≠ Some (Encrypted e))
    (chan_contents (outgoing rt)) ∧
  ∀ l addr core, tasks rt !! l ≠ Some (KeepaliveTask id addr core).

(** The session whose core is at [core] has said its first keepalive and nothing else. *)
Definition opened (id : SessionId) (st : StatelessTransportState) (core : N) (rt : Runtime)
    : Prop :=
  Forall (λ x, sp_id x.1.2 = id →
      (∀ e, deserialize (sp_data x.1.2) ≠ Some (Encrypted e)) ∨
      packet_carries st 0 Keepalive x.1.2)
    (chan_contents (outgoing rt)) ∧
  ∀ l addr core', tasks rt !! l = Some (KeepaliveTask id addr core') → core' = core.

Lemma silent_new id keys : silent id (runtime (Handler_new keys)).
Proof. split; simpl; [by rewrite chan_new_contents|]. intros l addr core. by rewrite lookup_empty. Qed.

(** Ending tasks does not break the silence. *)
Lemma silent_fewer id rt rt' :
  outgoing rt' = outgoing rt → tasks rt' ⊆ tasks rt → silent id rt → silent id rt'.
Proof.
  intros Ho Ht [Hw Hk]. split; [by rewrite Ho|]. intros l addr core Hl.
  by eapply Hk, lookup_weaken.
Qed.

Lemma silent_cleared id w T : silent id (runtime w) → silent id (runtime (cleared id w T)).
Proof.
  unfold cleared. destruct (T !! id) as [[p|p|p|o s]|]; simpl; [..|done].
  4: by destruct (cores (runtime w) !! s_core s).
  all: apply silent_fewer; [done|apply delete_subseteq].
Qed.

(** Nor do messages of the handshake and the task that sends them. *)
Lemma silent_spawned id t rt :
  (∀ addr core, t ≠ KeepaliveTask id addr core) → silent id rt → silent id (spawned rt t).
Proof.
  intros Ht [Hw Hk]. split; [done|]. intros l addr core. simpl.
  intros [[_ ->]|[_ Hl]]%lookup_insert_Some; [by eapply Ht|by eapply Hk].
Qed.

Lemma silent_queued id o rt addrs p :
  (∀ e, deserialize (sp_data p) ≠ Some (Encrypted e)) →
  chan_contents o = chan_contents (outgoing rt) ++ ((λ a, (a, p, 64%N)) <$> addrs) →
  silent id rt → silent id (with_outgoing o rt).
Proof.
  intros Hp Hc [Hw Hk]. split; [|done]. simpl. rewrite Hc. apply Forall_app. split; [done|].
  apply Forall_fmap, Forall_true. by intros a _.
Qed.

(** The new session, after the first turn of its keepalive task. *)
Lemma opened_queued id st core rt rt0 dest p ttl o :
  silent id rt0 → outgoing rt = outgoing rt0 →
  (∀ l addr core', tasks rt !! l = Some (KeepaliveTask id addr core') →
     core' = core ∨ tasks rt0 !! l = Some (KeepaliveTask id addr core')) →
  packet_carries st 0 Keepalive p →
  chan_contents o = chan_contents (outgoing rt) ++ [(dest, p, ttl)] →
  opened id st core (with_outgoing o rt).
Proof.
  intros [Hw Hk] Ho Ht Hp Hc. split; simpl.
  - rewrite Hc, Ho. apply Forall_app. split; [|apply Forall_singleton; by right].
    eapply Forall_impl; [exact Hw|]. simpl. by auto.
  - intros l addr core' Hl. destruct (Ht l addr core' Hl) as [->|Hrt0]; [done|].
    by destruct (Hk l addr core').
Qed.

Lemma bc_channel_unnotified w l n :
  notices w !! l = Some (mkNotice (bc_channel n) []) → unnotified w l.
Proof. intros Hl. eexists. split; [exact Hl|]. apply bc_channel_pending. Qed.

(** [initiate], then a turn of the task it spawns. *)
Lemma initiator_starts eph o id info w T i dst :
  world_ok w T → SnowInitiator_new eph (keypair_ w) (public_key info) = Ok i →
  (id < 256 ^ 16)%N → length (initiation_bytes (initiation i)) ≤ noise_max →
  chan_open (outgoing (runtime w)) = true → dst ∈ addresses info →
  ∃ w1 w2 l p data T2 pend,
    initiate eph o id info w = (w1, Ok (SessionReady_new id o (pd_notice pend))) ∧
    on_runtime (run_task l) w1 = (w2, Ok tt) ∧ on_wire w2 dst p data ∧ sp_id p = id ∧
    deserialize (sp_data p) = Some (HandshakeInitiation (initiation i)) ∧
    world_ok w2 T2 ∧ initiators w2 !! id = Some pend ∧ psi_initiator (pd_session pend) = i ∧
    pd_one_time_id pend = o ∧ chan_open (outgoing (runtime w2)) = true ∧
    unnotified w2 (pd_notice pend) ∧ (silent id (runtime w) → silent id (runtime w2)).
Proof.
  intros Hok Hi Hid Hlen Hopen Hdst. pose proof noise_max_N as Hmax.
  pose proof (world_ok_cleared id w T Hok) as Hc.
  set (w0 := cleared id w T) in *. set (w1 := initiated id o info i w0).
  destruct (world_ok_initiated id o info i w0 _ (lookup_delete_eq _ _) Hc) as (q & Hok1 & _).
  assert (outgoing (runtime w1) = outgoing (runtime w)) as Hout by apply cleared_outgoing.
  assert (wf (HandshakeInitiation (initiation i))) as Hwf.
  { unfold wf, RawMessage_wf, bytes_wf, u64_modulus. destruct (initiation i).
    simpl in Hlen. lia. }
  destruct (handshake_task_eq (next_loc (runtime w0)) (InitiateTask id (addresses info)
    (initiation i)) id (elements (addresses info)) _ w1 (lookup_insert_eq _ _ _) eq_refl Hid Hwf)
    as (o' & p & data & Hrun & Ho' & Hpid & Hdes & Hser & Hde & Hwire).
  { simpl. by destruct (initiation i). }
  { by rewrite Hout. }
  exists w1. eexists _, _, p, data, _.
  exists (mkPending (mkPendingSessionInitiator (next_loc (runtime w0)) None None id i) o
    (next_loc (runtime w0) + 1)).
  split_and!; [by erewrite initiate_eq; [rewrite Hi|exact Hok]|exact Hrun| | |exact Hdes| | |
    reflexivity|reflexivity|exact Ho'| |].
  - split_and!; [|done|done]. simpl. rewrite Hwire. by apply sent_to_each, elem_of_elements.
  - done.
  - apply world_ok_runtime; [|exact Hok1]. split; simpl; [done|lia|done|by eauto].
  - apply lookup_insert_eq.
  - apply (bc_channel_unnotified _ _ 10). simpl. apply lookup_insert_eq.
  - intros Hs. apply (silent_queued id o' (runtime w1) (elements (addresses info)) p); [|done|].
    + intros e. by rewrite Hdes.
    + apply silent_spawned; [done|]. by apply silent_cleared.
Qed.

(** [respond]. *)
Lemma responder_starts eph o id info w T r :
  world_ok w T → SnowResponder_new eph (keypair_ w) (public_key info) = Ok r →
  ∃ w1 T1 pend,
    respond eph o id info w = (w1, Ok (SessionReady_new id o (pd_notice pend))) ∧
    world_ok w1 T1 ∧ pokers w1 !! id = Some pend ∧ psp_responder (pd_session pend) = r ∧
    pd_one_time_id pend = o ∧ outgoing (runtime w1) = outgoing (runtime w) ∧
    unnotified w1 (pd_notice pend).
Proof.
  intros Hok Hr. pose proof (world_ok_cleared id w T Hok) as Hc.
  set (w0 := cleared id w T) in *. set (w1 := responded id o info r w0).
  destruct (world_ok_responded id o info r w0 _ (lookup_delete_eq _ _) Hc) as (q & Hok1 & _).
  exists w1. eexists _.
  exists (mkPending (mkPendingSessionPoker (next_loc (runtime w0)) None None id r) o
    (next_loc (runtime w0) + 1)).
  split_and!; [by erewrite respond_eq; [rewrite Hr|exact Hok]|exact Hok1| |reflexivity|
    reflexivity|apply cleared_outgoing|].
  - apply lookup_insert_eq.
  - apply (bc_channel_unnotified _ _ 10). simpl. apply lookup_insert_eq.
Qed.

(** The initiation arrives, then a turn of the task the responder spawns. *)
Lemma responder_answers src data packet id w T pend i t r :
  world_ok w T → pokers w !! id = Some pend → unnotified w (pd_notice pend) →
  deserialize data = Some packet → sp_id packet = id →
  deserialize (sp_data packet) = Some (HandshakeInitiation i) →
  response (psp_responder (pd_session pend)) i = Ok (t, r) →
  (id < 256 ^ 16)%N → length (response_bytes r) ≤ noise_max →
  chan_open (outgoing (runtime w)) = true →
  ∃ w2 w3 l p data' T' pend',
    handle_incoming src data w = (w2, Ok tt) ∧ on_runtime (run_task l) w2 = (w3, Ok tt) ∧
    on_wire w3 src p data' ∧ sp_id p = id ∧
    deserialize (sp_data p) = Some (HandshakeResponse r) ∧
    world_ok w3 T' ∧ responders w3 !! id = Some pend' ∧
    psr_transport (pd_session pend') = t ∧ psr_remote_addr (pd_session pend') = src ∧
    pd_one_time_id pend' = pd_one_time_id pend ∧ pd_notice pend' = pd_notice pend ∧
    unnotified w3 (pd_notice pend).
Proof.
  intros Hok Hpend Hun Hdata <- Hd Hresp Hid Hlen Hopen. pose proof noise_max_N as Hmax.
  pose proof (dispatch_initiation src packet w T pend i t r Hok Hpend Hd Hresp) as Hdisp.
  cbv zeta in Hdisp.
  destruct (dispatch_ok src packet w T Hok) as (w2 & Hw2 & Hok2).
  rewrite Hdisp in Hw2. injection Hw2 as Hw2.
  assert (wf (HandshakeResponse r)) as Hwf.
  { unfold wf, RawMessage_wf, bytes_wf, u64_modulus. destruct r. simpl in Hlen. lia. }
  destruct (handshake_task_eq (next_loc (runtime w)) (RespondTask (sp_id packet) src r)
    (sp_id packet) [src] _ w2 ltac:(rewrite <- Hw2; apply lookup_insert_eq) eq_refl Hid Hwf)
    as (o' & p & data' & Hrun & Ho' & Hpid & Hdes & Hser & Hde & Hwire).
  { simpl. by destruct r. }
  { rewrite <- Hw2. exact Hopen. }
  exists w2. eexists _, _, p, data', _, (responding (next_loc (runtime w)) src pend t).
  split_and!; [|exact Hrun| |exact Hpid|exact Hdes| | |reflexivity|reflexivity|reflexivity|
    reflexivity|].
  - rewrite (handle_incoming_packet _ _ packet _ Hdata), Hdisp. by rewrite Hw2.
  - split_and!; [|done|done]. simpl. rewrite Hwire. by apply sent_to_each, list_elem_of_singleton.
  - apply world_ok_runtime; [|exact Hok2]. split; simpl; [done|lia|done|by eauto].
  - rewrite <- Hw2. apply lookup_insert_eq.
  - destruct Hun as (n & Hn & Hpend'). exists n. rewrite <- Hw2. split; [exact Hn|exact Hpend'].
Qed.

(** The response arrives, then a turn of the keepalive task of the new session. *)
Lemma initiator_connects src data packet id w T pend r st st' :
  world_ok w T → initiators w !! id = Some pend → unnotified w (pd_notice pend) →
  deserialize data = Some packet → sp_id packet = id →
  deserialize (sp_data packet) = Some (HandshakeResponse r) →
  receive_response (psi_initiator (pd_session pend)) r = Ok (ResponseOk (from_stateless st)) →
  sealed_for st st' → (id < 256 ^ 16)%N → chan_open (outgoing (runtime w)) = true →
  ∃ w2 w3 l p data',
    handle_incoming src data w = (w2, Ok tt) ∧ on_runtime (run_task l) w2 = (w3, Ok tt) ∧
    on_wire w3 src p data' ∧ sp_id p = id ∧ packet_carries st' 0 Keepalive p ∧
    session_up w3 id (pd_one_time_id pend) src (with_next_nonce 1 (from_stateless st)) ∧
    is_notified w3 (pd_notice pend) ∧
    (silent id (runtime w) →
     ∀ o s, established w3 !! id = Some (o, s) → opened id st' (s_core s) (runtime w3)).
Proof.
  intros Hok Hpend (n & Hn & Hun) Hdata <- Hd Hresp Hseal Hid Hopen.
  pose proof (dispatch_response src packet w T pend r _ Hok Hpend Hd Hresp) as Hdisp.
  set (w0 := with_runtime _ _) in Hdisp. set (w2 := connected _ _ _ _ _ w0) in Hdisp.
  destruct (connected_facts (sp_id packet) src (from_stateless st) (pd_one_time_id pend)
    (pd_notice pend) w0 n Hn Hun) as (Hest & Hcore & Htask & Hout & Hnotice).
  fold w2 in Hest, Hcore, Htask, Hout, Hnotice. cbv zeta in *.
  set (core := next_loc (runtime w0)) in *.
  set (c := mkSessionCore (from_stateless st) true false ∅ chan_new) in Hcore.
  destruct (keepalive_tick_eq (sp_id packet) src core c (runtime w2) st' Hcore Hseal)
    as (p & Hcar & Hpid & Hpwf & Htick); [by vm_compute|].
  assert (chan_open (outgoing (runtime w2)) = true) as Hopen2 by (by rewrite Hout).
  destruct (chan_send_open (src, p, 64%N) (outgoing (runtime w2)) Hopen2) as (Hsent & _ & Hcont).
  rewrite Hsent in Htick.
  destruct (codec_roundtrip p) as (data' & Hser & Hde).
  { split; [by rewrite Hpid|exact Hpwf]. }
  exists w2. eexists _, (core + 1)%N, p, data'. split_and!.
  - by rewrite (handle_incoming_packet _ _ packet _ Hdata), Hdisp.
  - unfold on_runtime, zoom, run_task. rewrite Htask. simpl task_tick. rewrite Htick. reflexivity.
  - split_and!; [|exact Hser|exact Hde]. simpl. rewrite Hcont. apply elem_of_app. right.
    by apply list_elem_of_singleton.
  - exact Hpid.
  - exact Hcar.
  - exists (mkSession (sp_id packet) src core).
    split_and!; [exact Hest|reflexivity|reflexivity|]. simpl. apply lookup_insert_eq.
  - exact Hnotice.
  - intros Hs o s. simpl. rewrite Hest. intros [= <- <-]. simpl.
    apply (opened_queued _ st' core (set_core core _ (runtime w2)) (runtime w0) src p 64);
      [|exact Hout| |exact Hcar|exact Hcont].
    + eapply silent_fewer, Hs; [done|apply delete_subseteq].
    + intros l addr core' Hl. apply connected_keepalives in Hl. fold core in Hl. tauto.
Qed.

(** The first keepalive message arrives at the responder. *)
Lemma responder_connects src data packet id w T pend st :
  world_ok w T → responders w !! id = Some pend → unnotified w (pd_notice pend) →
  deserialize data = Some packet → sp_id packet = id →
  psr_transport (pd_session pend) = from_stateless st → packet_carries st 0 Keepalive packet →
  ∃ w2, handle_incoming src data w = (w2, Ok tt) ∧
    session_up w2 id (pd_one_time_id pend) (psr_remote_addr (pd_session pend))
      (with_received (window_last (Some 0%N)) (from_stateless st)) ∧
    is_notified w2 (pd_notice pend).
Proof.
  intros Hok Hpend (n & Hn & Hun) Hdata <- Htr Hcar.
  pose proof (dispatch_first_keepalive src packet w T pend 0 Hok Hpend) as Hdisp.
  rewrite Htr in Hdisp. specialize (Hdisp eq_refl eq_refl Hcar).
  set (w0 := with_runtime _ _) in Hdisp. set (t := with_received _ _) in *.
  destruct (connected_facts (sp_id packet) (psr_remote_addr (pd_session pend)) t
    (pd_one_time_id pend) (pd_notice pend) w0 n Hn Hun) as (Hest & Hcore & _ & _ & Hnotice).
  eexists. split_and!.
  - by rewrite (handle_incoming_packet _ _ packet _ Hdata), Hdisp.
  - by eexists (mkSession _ _ _).
  - exact Hnotice.
Qed.
End stages.

(** Two handlers, in whatever states they are, connect when each is told of the
    other's public key and one initiates while the other responds: the initiation,
    the response and the first keepalive message, each put on the wire by a task and
    delivered once, leave both with a live session towards the address the other
    sends from, the transports of which are the two ends of one noise session, and
    both futures are notified. *)
Lemma handlers_connect `{Crates, !CratesLaws, !NoiseLaws NOISE_PARAMS} (wA wB : World)
    (rngA rngB ephA ephB : N) (keysA keysB : SnowKeypair) (oA oB : OneTimeId) (id : SessionId)
    (infoA infoB : ConnectionInfo) (dst srcA srcB : SocketAddr) :
  reachable wA → reachable wB →
  SnowKeypair_new rngA = Ok keysA → SnowKeypair_new rngB = Ok keysB →
  keypair_ wA = keysA → keypair_ wB = keysB →
  public_key infoA = public keysA → public_key infoB = public keysB →
  dst ∈ addresses infoB → (id < 256 ^ 16)%N →
  chan_open (outgoing (runtime wA)) = true → chan_open (outgoing (runtime wB)) = true →
  ∃ wA1 nA wB1 nB lA wA2 p1 d1 wB2 lB wB3 p2 d2 wA3 lK wA4 p3 d3 wB4 sA sB,
    initiate ephA oA id infoB wA = (wA1, Ok (SessionReady_new id oA nA)) ∧
    respond ephB oB id infoA wB = (wB1, Ok (SessionReady_new id oB nB)) ∧
    on_runtime (run_task lA) wA1 = (wA2, Ok tt) ∧ on_wire wA2 dst p1 d1 ∧
    handle_incoming srcA d1 wB1 = (wB2, Ok tt) ∧
    on_runtime (run_task lB) wB2 = (wB3, Ok tt) ∧ on_wire wB3 srcA p2 d2 ∧
    handle_incoming srcB d2 wA2 = (wA3, Ok tt) ∧
    on_runtime (run_task lK) wA3 = (wA4, Ok tt) ∧ on_wire wA4 srcB p3 d3 ∧
    handle_incoming srcA d3 wB3 = (wB4, Ok tt) ∧
    session_up wA4 id oA srcB (with_next_nonce 1 (from_stateless sA)) ∧
    session_up wB4 id oB srcA (with_received (window_last (Some 0%N)) (from_stateless sB)) ∧
    sealed_for sA sB ∧ sealed_for sB sA ∧
    is_notified wA4 nA ∧ is_notified wB4 nB ∧
    (silent id (runtime wA) →
     ∀ o s, established wA4 !! id = Some (o, s) → opened id sB (s_core s) (runtime wA4)).
Proof.
  intros [TA HokA]%reachable_ok [TB HokB]%reachable_ok HkA HkB HwA HwB HiA HiB Hdst Hid HoA HoB.
  destruct (handshake_messages rngA rngB ephA ephB keysA keysB HkA HkB)
    as (i & r & sA & sB & resp & Hi & Hr & Hresp & Hrec & Hli & Hlr & HsAB & HsBA).
  rewrite <- HiB, <- HwA in Hi. rewrite <- HiA, <- HwB in Hr.
  destruct (initiator_starts ephA oA id infoB wA TA i dst HokA Hi Hid Hli HoA Hdst)
    as (wA1 & wA2 & lA & p1 & d1 & TA2 & pA & Hinit & HrunA & Hwire1 & Hp1 & Hd1 & HokA2 & HpA &
        HiA2 & HotA & HoA2 & HunA & HsilA).
  destruct (responder_starts ephB oB id infoA wB TB r HokB Hr)
    as (wB1 & TB1 & pB & Hrespond & HokB1 & HpB & HrB & HotB & HoB1 & HunB).
  rewrite <- HrB in Hresp. rewrite <- HoB1 in HoB. rewrite <- HiA2 in Hrec.
  destruct (responder_answers srcA d1 p1 id wB1 TB1 pB _ _ _ HokB1 HpB HunB (proj2 (proj2 Hwire1))
    Hp1 Hd1 Hresp Hid Hlr HoB)
    as (wB2 & wB3 & lB & p2 & d2 & TB3 & qB & HinB & HrunB & Hwire2 & Hp2 & Hd2 & HokB3 & HqB &
        HtrB & HaddrB & HotB3 & HnB3 & HunB3).
  destruct (initiator_connects srcB d2 p2 id wA2 TA2 pA resp sA sB HokA2 HpA HunA
    (proj2 (proj2 Hwire2)) Hp2 Hd2 Hrec HsAB Hid HoA2)
    as (wA3 & wA4 & lK & p3 & d3 & HinA & HrunK & Hwire3 & Hp3 & Hcar & HupA & HnotA & HopenA).
  rewrite <- HnB3 in HunB3.
  destruct (responder_connects srcA d3 p3 id wB3 TB3 qB sB HokB3 HqB HunB3
    (proj2 (proj2 Hwire3)) Hp3 HtrB Hcar) as (wB4 & HinB4 & HupB & HnotB).
  rewrite HotB3, HotB in HupB. rewrite HaddrB in HupB. rewrite HnB3 in HnotB.
  rewrite HotA in HupA.
  exists wA1. eexists _, wB1, _, lA, wA2, p1, d1, wB2, lB, wB3, p2, d2, wA3, lK, wA4, p3, d3,
    wB4, sA, sB.
  split_and!; try eassumption; eauto.
Qed.
