(* ===== verification/DualStack.v ===== *)
(** * Sockets: one family or both

    Models [src/dualstack/]: the traits [BidirSocket] and [MaybeDual] as classes, the
    socket of one address family and the pair of one of each.  The sockets of tokio
    are a parameter; an [async] receive is what one poll of it does, [Pending] when
    no datagram is there. *)

From S2P Require Import Prelude Std Externals.

Inductive IoError :=
  | InvalidInput (msg : string)
  | OsError.

(** What a receive returns: the buffer, the length of the datagram, its source. *)
Abbreviation Datagram := (bytes * nat * SocketAddr)%type.

(** ** tokio::net::UdpSocket *)

Class Udp := {
  UdpSocket : Type;
  udp_bind : SocketAddr → option UdpSocket;
  udp_local_addr : UdpSocket → option SocketAddr;
  udp_recv_from : bytes → M UdpSocket IoError Datagram;
  udp_set_ttl : N → M UdpSocket IoError unit;
  udp_send_to : bytes → SocketAddr → M UdpSocket IoError nat;
}.

(** A receive writes into the buffer it is given and is cancel-safe. *)
Class UdpLaws `{Udp} := {
  udp_recv_length u buf u' b n src :
    udp_recv_from buf u = (u', Ok (b, n, src)) → length b = length buf ∧ n ≤ length b;
  udp_recv_pending u buf u' : udp_recv_from buf u = (u', Pending) → u' = u;
}.

(** ** The traits *)

(** [choices] are the branches [select!] draws to poll first. *)
Class BidirSocket (S : Type) := {
  bs_recv_from : list bool → bytes → M S IoError Datagram;
  bs_set_ttl : N → M S IoError unit;
  bs_send_to : bytes → SocketAddr → M S IoError nat;
}.

Class MaybeDual (S T : Type) := {
  md_v4 : S → option T;
  md_v6 : S → option T;
}.

(** ** One family *)

Inductive VersionedSocket `{Udp} :=
  | V4 (socket : UdpSocket)
  | V6 (socket : UdpSocket).
#[global] Arguments V4 {_}.
#[global] Arguments V6 {_}.

Section versioned.
Context `{Udp}.

Definition VersionedSocket_v4 (addr : SocketAddr) : outcome IoError VersionedSocket :=
  s ← ok_or OsError (udp_bind addr); mret (V4 s).
Definition VersionedSocket_v6 (addr : SocketAddr) : outcome IoError VersionedSocket :=
  s ← ok_or OsError (udp_bind addr); mret (V6 s).

(** [parsed] is [addr.parse()]. *)
Definition VersionedSocket_bind (parsed : option SocketAddr) : outcome IoError VersionedSocket :=
  match parsed with
  | Some addr => if addr_is_ipv4 addr then VersionedSocket_v4 addr else VersionedSocket_v6 addr
  | None => Err (InvalidInput "Invalid address")
  end.

Definition on_udp {A} (m : M UdpSocket IoError A) : M VersionedSocket IoError A := λ s,
  match s with
  | V4 u => let '(u', r) := m u in (V4 u', r)
  | V6 u => let '(u', r) := m u in (V6 u', r)
  end.

#[export] Instance VersionedSocket_BidirSocket : BidirSocket VersionedSocket := {|
  bs_recv_from _ buf := on_udp (udp_recv_from buf);
  bs_set_ttl ttl := on_udp (udp_set_ttl ttl);
  bs_send_to buf addr := on_udp (udp_send_to buf addr);
|}.

#[export] Instance VersionedSocket_MaybeDual : MaybeDual VersionedSocket UdpSocket := {|
  md_v4 s := match s with V4 u => Some u | V6 _ => None end;
  md_v6 s := match s with V4 _ => None | V6 u => Some u end;
|}.
End versioned.

(** ** Both families *)

Record DualSocket (A B : Type) := mkDualSocket { v4_socket : A; v6_socket : B }.
#[global] Arguments mkDualSocket {A B}.
#[global] Arguments v4_socket {A B}.
#[global] Arguments v6_socket {A B}.

Section dual.
Context {A B : Type} `{BidirSocket A, BidirSocket B}.

Definition DualSocket_new (a : A) (b : B) : DualSocket A B := mkDualSocket a b.

Definition on_v4 {X} (m : M A IoError X) : M (DualSocket A B) IoError X :=
  zoom v4_socket (λ a s, mkDualSocket a (v6_socket s)) m.
Definition on_v6 {X} (m : M B IoError X) : M (DualSocket A B) IoError X :=
  zoom v6_socket (λ b s, mkDualSocket (v4_socket s) b) m.

(** A branch of the [select!]: [buf.copy_from_slice(&other[..buf.len()]); res]. *)
Definition select_copy (buf : bytes) (res : outcome IoError Datagram) : outcome IoError Datagram :=
  '(other, len, src) ← res;
  copied ← slice_to (length buf) other;
  mret (copied, len, src).

(** Poll [first]; if it is pending, poll [second]. *)
Definition select_two {S X} (first second : M S IoError X) : M S IoError X := λ s,
  match first s with
  | (s', Pending) => second s'
  | r => r
  end.

Definition dual_recv_from (choices : list bool) (buf : bytes)
    : M (DualSocket A B) IoError Datagram :=
  let fresh := replicate (length buf) x00 in
  let v4 : M (DualSocket A B) IoError Datagram := λ s,
    let '(s', res) := on_v4 (bs_recv_from (tail choices) fresh) s in (s', select_copy buf res) in
  let v6 : M (DualSocket A B) IoError Datagram := λ s,
    let '(s', res) := on_v6 (bs_recv_from (tail choices) fresh) s in (s', select_copy buf res) in
  if default true (head choices) then select_two v4 v6 else select_two v6 v4.

Definition dual_set_ttl (ttl : N) : M (DualSocket A B) IoError unit :=
  on_v4 (bs_set_ttl ttl);;
  on_v6 (bs_set_ttl ttl).

Definition dual_send_to (buf : bytes) (addr : SocketAddr) : M (DualSocket A B) IoError nat :=
  match addr with
  | SocketAddrV4 _ _ => on_v4 (bs_send_to buf addr)
  | SocketAddrV6 _ _ _ _ => on_v6 (bs_send_to buf addr)
  end.

#[export] Instance DualSocket_BidirSocket : BidirSocket (DualSocket A B) := {|
  bs_recv_from := dual_recv_from;
  bs_set_ttl := dual_set_ttl;
  bs_send_to := dual_send_to;
|}.
End dual.

#[export] Instance DualSocket_MaybeDual {A T} `{MaybeDual A T} : MaybeDual (DualSocket A A) T := {|
  md_v4 s := md_v4 (v4_socket s);
  md_v6 s := md_v6 (v6_socket s);
|}.

(** [DualSocket::dualstack]: both sockets are bound before either error is looked at. *)
Definition DualSocket_dualstack `{Udp} (v4_addr v6_addr : SocketAddr)
    : outcome IoError (DualSocket VersionedSocket VersionedSocket) :=
  let v4 := VersionedSocket_v4 v4_addr in
  let v6 := VersionedSocket_v6 v6_addr in
  a ← v4; b ← v6; mret (DualSocket_new a b).

(** ** A concrete socket

    An address, the datagrams that arrived, the datagrams sent, the time to live. *)
Record ListSocket := mkListSocket {
  ls_addr : SocketAddr;
  ls_inbox : list (bytes * SocketAddr);
  ls_outbox : list (bytes * SocketAddr);
  ls_ttl : N;
}.

Definition list_udp : Udp := {|
  UdpSocket := ListSocket;
  udp_bind a := Some (mkListSocket a [] [] 64);
  udp_local_addr s := Some (ls_addr s);
  udp_recv_from buf s :=
    match ls_inbox s with
    | (d, src) :: inbox =>
        (mkListSocket (ls_addr s) inbox (ls_outbox s) (ls_ttl s),
         Ok (zip_copy buf d, length d `min` length buf, src))
    | [] => (s, Pending)
    end;
  udp_set_ttl ttl s :=
    if decide (ttl = 0)%N then (s, Err OsError)
    else (mkListSocket (ls_addr s) (ls_inbox s) (ls_outbox s) ttl, Ok tt);
  udp_send_to d a s :=
    (mkListSocket (ls_addr s) (ls_inbox s) (ls_outbox s ++ [(d, a)]) (ls_ttl s), Ok (length d));
|}.

Lemma list_udp_laws : @UdpLaws list_udp.
Proof.
  split; simpl.
  - intros u buf u' b n src. destruct (ls_inbox u) as [|[d a] inbox]; [done|].
    intros [= _ <- <- _]. rewrite zip_copy_length. split; [done|lia].
  - intros u buf u'. destruct (ls_inbox u) as [|[d a] inbox]; [by intros [= <-]|done].
Qed.

(** ** Properties *)

Section dual_facts.
Context `{Udp, !UdpLaws}.

(** A received datagram survives the copy into the caller's buffer. *)
Lemma select_copy_udp u buf u' r :
  udp_recv_from (replicate (length buf) x00) u = (u', r) → select_copy buf r = r.
Proof.
  intros Hr. destruct r as [[[b n] src]| | | |]; try done.
  destruct (udp_recv_length _ _ _ _ _ _ Hr) as [Hlen _]. rewrite length_replicate in Hlen.
  unfold select_copy, mbind, outcome_bind, slice_to.
  rewrite decide_True by lia. by rewrite <- Hlen, firstn_all.
Qed.
End dual_facts.

(** C30. Receiving on the pair of sockets is receiving on one of them, which keeps
    the buffer, the length and the source, and leaves the other as it was: the one
    polled first if it has a datagram, else the other; the call is pending only when
    both sockets are. *)
Theorem dual_recv_from_either `{Udp, !UdpLaws} (u4 u6 u4' u6' : UdpSocket) (buf : bytes)
    (r4 r6 : outcome IoError Datagram) (v4_first : bool) (choices : list bool) :
  udp_recv_from (replicate (length buf) x00) u4 = (u4', r4) →
  udp_recv_from (replicate (length buf) x00) u6 = (u6', r6) →
  bs_recv_from (v4_first :: choices) buf (mkDualSocket (V4 u4) (V6 u6)) =
    match r4, r6, v4_first with
    | Pending, Pending, _ => (mkDualSocket (V4 u4) (V6 u6), Pending)
    | Pending, _, _ => (mkDualSocket (V4 u4) (V6 u6'), r6)
    | _, Pending, _ => (mkDualSocket (V4 u4') (V6 u6), r4)
    | _, _, true => (mkDualSocket (V4 u4') (V6 u6), r4)
    | _, _, false => (mkDualSocket (V4 u4) (V6 u6'), r6)
    end.
Proof.
  intros H4 H6. pose proof (select_copy_udp _ _ _ _ H4) as Hc4.
  pose proof (select_copy_udp _ _ _ _ H6) as Hc6.
  assert (r4 = Pending → u4' = u4) as Hp4 by (intros ->; by eapply udp_recv_pending).
  assert (r6 = Pending → u6' = u6) as Hp6 by (intros ->; by eapply udp_recv_pending).
  simpl. unfold dual_recv_from, select_two, on_v4, on_v6, zoom. simpl.
  destruct v4_first; simpl.
  - rewrite H4. rewrite Hc4.
    destruct r4 as [[[? ?] ?]| | | |]; try by destruct r6 as [[[? ?] ?]| | | |].
    rewrite Hp4 by done. simpl. rewrite H6, Hc6. destruct r6; try done. by rewrite Hp6.
  - rewrite H6. rewrite Hc6.
    destruct r6 as [[[? ?] ?]| | | |]; try by destruct r4 as [[[? ?] ?]| | | |].
    rewrite Hp6 by done. simpl. rewrite H4, Hc4. destruct r4; try done. by rewrite Hp4.
Qed.

Lemma dual_recv_from_either_witness :
  @bs_recv_from _ (@DualSocket_BidirSocket _ _ (@VersionedSocket_BidirSocket list_udp)
      (@VersionedSocket_BidirSocket list_udp)) [true] [x00; x00; x00]
    (mkDualSocket (@V4 list_udp (mkListSocket (SocketAddrV4 0 9) [] [] 64))
       (@V6 list_udp (mkListSocket (SocketAddrV6 0 9 0 0)
          [([x01; x02], SocketAddrV6 5 6 0 0)] [] 64))) =
  (mkDualSocket (@V4 list_udp (mkListSocket (SocketAddrV4 0 9) [] [] 64))
     (@V6 list_udp (mkListSocket (SocketAddrV6 0 9 0 0) [] [] 64)),
   Ok ([x01; x02; x00], 2, SocketAddrV6 5 6 0 0)).
Proof.
  exact (@dual_recv_from_either list_udp list_udp_laws
    (mkListSocket (SocketAddrV4 0 9) [] [] 64)
    (mkListSocket (SocketAddrV6 0 9 0 0) [([x01; x02], SocketAddrV6 5 6 0 0)] [] 64)
    _ _ [x00; x00; x00] _ _ true [] eq_refl eq_refl).
Defined.

(** The pair of sockets sends a datagram through the socket of the family of its
    destination only, and sets the time to live on both, unless the first socket
    refuses it: the second one then keeps its own. *)
Theorem dual_send_to_family `{Udp} (u4 u6 : UdpSocket) (buf : bytes) (addr : SocketAddr)
    (ttl : N) :
  bs_send_to buf addr (mkDualSocket (V4 u4) (V6 u6)) =
    (if addr_is_ipv4 addr
     then let '(u, r) := udp_send_to buf addr u4 in (mkDualSocket (V4 u) (V6 u6), r)
     else let '(u, r) := udp_send_to buf addr u6 in (mkDualSocket (V4 u4) (V6 u), r)) ∧
  bs_set_ttl ttl (mkDualSocket (V4 u4) (V6 u6)) =
    match udp_set_ttl ttl u4 with
    | (u, Ok _) => let '(u', r) := udp_set_ttl ttl u6 in (mkDualSocket (V4 u) (V6 u'), r)
    | (u, r) => (mkDualSocket (V4 u) (V6 u6), r)
    end.
Proof.
  simpl. unfold dual_send_to, dual_set_ttl, on_v4, on_v6, zoom. split.
  - destruct addr; simpl; by destruct (udp_send_to _ _ _).
  - unfold mbind, M_bind. simpl. destruct (udp_set_ttl ttl u4) as [u [[]| | | |]]; try done.
    simpl. by destruct (udp_set_ttl ttl u6).
Qed.
