(* ===== verification/IpDiscovery.v ===== *)
(** * Address discovery

    Models [src/ip_discovery/mod.rs].  The network interfaces, the resolver and the
    STUN client are a parameter: functions of the call, numbered [k], since they may
    answer differently each time. *)

From S2P Require Import Prelude Std Externals DualStack.

(** The crates network_interface and stunclient, and the resolver of the system. *)
Class Discovery `{Udp} := {
  (** [NetworkInterface::show()]: the addresses of each interface. *)
  show : nat → option (list (list IpAddr));
  (** [to_socket_addrs()] *)
  to_socket_addrs : string → nat → option (list SocketAddr);
  (** [StunClient::new(server).query_external_address_async(socket)] *)
  query_external_address : SocketAddr → UdpSocket → nat → option SocketAddr;
}.

Section discovery.
Context `{Udp, !Discovery}.

Definition STUN_SERVER : string := "stun.l.google.com:19302".

(** [filter_map(..).map(..).collect()] *)
Definition local_ips_v4 (k : nat) (port : N) : outcome Error (gset SocketAddr) :=
  ifs ← ok_or (Anyhow "network_interface") (show k);
  mret (list_to_set (omap (λ ip, match ip with
    | IpV4 o => Some (SocketAddrV4 o port) | IpV6 _ => None end) (concat ifs))).

Definition local_ips_v6 (k : nat) (port : N) : outcome Error (gset SocketAddr) :=
  ifs ← ok_or (Anyhow "network_interface") (show k);
  mret (list_to_set (omap (λ ip, match ip with
    | IpV6 o => Some (SocketAddrV6 o port 0 0) | IpV4 _ => None end) (concat ifs))).

(** [SocketAddr::new(ip, port)] *)
Definition SocketAddr_new (ip : IpAddr) (port : N) : SocketAddr :=
  match ip with IpV4 o => SocketAddrV4 o port | IpV6 o => SocketAddrV6 o port 0 0 end.

Definition local_ips (k : nat) (port : N) : outcome Error (gset SocketAddr) :=
  ifs ← ok_or (Anyhow "network_interface") (show k);
  mret (list_to_set ((λ ip, SocketAddr_new ip port) <$> concat ifs)).

(** The server's first address of a family. *)
Definition stun_addr (family : SocketAddr → bool) (k : nat) : option SocketAddr :=
  addrs ← to_socket_addrs STUN_SERVER k;
  snd <$> list_find (λ a, Is_true (family a)) addrs.

Definition public_v4 (k : nat) (socket : UdpSocket) : gset SocketAddr :=
  match stun_addr addr_is_ipv4 k with
  | Some server =>
      match query_external_address server socket k with
      | Some addr => {[ addr ]}
      | None => ∅
      end
  | None => ∅
  end.

Definition public_v6 (k : nat) (socket : UdpSocket) : outcome Error (gset SocketAddr) :=
  match stun_addr addr_is_ipv6 k with
  | Some server =>
      match query_external_address server socket k with
      | Some addr =>
          local ← ok_or (Anyhow "local_addr") (udp_local_addr socket);
          mret ({[ addr ]} ∪ {[ addr_set_port addr (addr_port local) ]})
      | None => mret ∅
      end
  | None => mret ∅
  end.

Definition discover_v4 (socket : option UdpSocket) : outcome Error (gset SocketAddr) :=
  match socket with
  | Some v4_socket =>
      local_addr ← ok_or (Anyhow "local_addr") (udp_local_addr v4_socket);
      ips ← local_ips_v4 0 (addr_port local_addr);
      mret ({[ local_addr ]} ∪ ips ∪ public_v4 0 v4_socket)
  | None => mret ∅
  end.

(** An error of [public_v6] is ignored. *)
Definition discover_v6 (socket : option UdpSocket) : outcome Error (gset SocketAddr) :=
  match socket with
  | Some v6_socket =>
      local_addr ← ok_or (Anyhow "local_addr") (udp_local_addr v6_socket);
      ips ← local_ips_v6 1 (addr_port local_addr);
      mret ({[ local_addr ]} ∪ ips ∪
            match public_v6 1 v6_socket with Ok public => public | _ => ∅ end)
  | None => mret ∅
  end.

Definition discover_ips {S} `{MaybeDual S UdpSocket} (socket : S)
    : outcome Error (gset SocketAddr) :=
  ips4 ← discover_v4 (md_v4 socket);
  ips6 ← discover_v6 (md_v6 socket);
  mret (filter (λ x, ip_is_unspecified (addr_ip x) = false) (ips4 ∪ ips6)).
(** ** What discovery finds *)

(** The socket has an address and the interfaces can be listed. *)
Definition listable (k : nat) (u : UdpSocket) : Prop :=
  is_Some (udp_local_addr u) ∧ is_Some (show k).

Definition found_v4 (u : UdpSocket) (a : SocketAddr) : Prop :=
  ∃ l ifs, udp_local_addr u = Some l ∧ show 0 = Some ifs ∧
    (a = l ∨ (∃ o, IpV4 o ∈ concat ifs ∧ a = SocketAddrV4 o (addr_port l)) ∨
     (∃ server, stun_addr addr_is_ipv4 0 = Some server ∧
        query_external_address server u 0 = Some a)).

Definition found_v6 (u : UdpSocket) (a : SocketAddr) : Prop :=
  ∃ l ifs, udp_local_addr u = Some l ∧ show 1 = Some ifs ∧
    (a = l ∨ (∃ o, IpV6 o ∈ concat ifs ∧ a = SocketAddrV6 o (addr_port l) 0 0) ∨
     (∃ server p, stun_addr addr_is_ipv6 1 = Some server ∧
        query_external_address server u 1 = Some p ∧
        (a = p ∨ a = addr_set_port p (addr_port l)))).

Lemma discover_v4_spec (o : option UdpSocket) :
  (∀ u, o = Some u → listable 0 u) →
  ∃ ips, discover_v4 o = Ok ips ∧ ∀ a, a ∈ ips ↔ ∃ u, o = Some u ∧ found_v4 u a.
Proof.
  destruct o as [u|]; [|intros _; exists ∅; split; [done|set_solver]].
  intros Hl. destruct (Hl u eq_refl) as [[l Haddr] [ifs Hshow]].
  unfold discover_v4, local_ips_v4. rewrite Haddr. simpl. rewrite Hshow. simpl.
  eexists. split; [reflexivity|]. intros a.
  rewrite !elem_of_union, elem_of_singleton, elem_of_list_to_set, list_elem_of_omap.
  assert (a ∈ public_v4 0 u ↔ ∃ server, stun_addr addr_is_ipv4 0 = Some server ∧
    query_external_address server u 0 = Some a) as ->.
  { unfold public_v4. destruct (stun_addr _ _) as [s|]; [|set_solver].
    destruct (query_external_address _ _ _) eqn:Hq; [|set_solver].
    rewrite elem_of_singleton. naive_solver. }
  split.
  - intros Ha. exists u. split; [done|]. exists l, ifs. split_and!; [done..|].
    destruct Ha as [[?|([o|o] & ? & ?)]|?]; naive_solver.
  - intros (u' & [= <-] & l' & ifs' & Hl' & Hs' & Ha). simplify_eq.
    destruct Ha as [?|[(o & ? & ?)|?]]; [tauto| |tauto].
    left; right. exists (IpV4 o). by subst.
Qed.

Lemma discover_v6_spec (o : option UdpSocket) :
  (∀ u, o = Some u → listable 1 u) →
  ∃ ips, discover_v6 o = Ok ips ∧ ∀ a, a ∈ ips ↔ ∃ u, o = Some u ∧ found_v6 u a.
Proof.
  destruct o as [u|]; [|intros _; exists ∅; split; [done|set_solver]].
  intros Hl. destruct (Hl u eq_refl) as [[l Haddr] [ifs Hshow]].
  unfold discover_v6, local_ips_v6. rewrite Haddr. simpl. rewrite Hshow. simpl.
  eexists. split; [reflexivity|]. intros a.
  rewrite !elem_of_union, elem_of_singleton, elem_of_list_to_set, list_elem_of_omap.
  assert (a ∈ match public_v6 1 u with Ok public => public | _ => ∅ end ↔
    ∃ server p, stun_addr addr_is_ipv6 1 = Some server ∧
      query_external_address server u 1 = Some p ∧
      (a = p ∨ a = addr_set_port p (addr_port l))) as ->.
  { unfold public_v6. destruct (stun_addr _ _) as [s|]; [|set_solver].
    destruct (query_external_address _ _ _) eqn:Hq; [|set_solver].
    rewrite Haddr. simpl. rewrite elem_of_union, !elem_of_singleton. naive_solver. }
  split.
  - intros Ha. exists u. split; [done|]. exists l, ifs. split_and!; [done..|].
    destruct Ha as [[?|([o|o] & ? & ?)]|?]; naive_solver.
  - intros (u' & [= <-] & l' & ifs' & Hl' & Hs' & Ha). simplify_eq.
    destruct Ha as [?|[(o & ? & ?)|?]]; [tauto| |tauto].
    left; right. exists (IpV6 o). by subst.
Qed.

Lemma discover_v4_fails u : ¬ listable 0 u → ∃ e, discover_v4 (Some u) = Err e.
Proof.
  intros Hl. unfold discover_v4, local_ips_v4, listable in *.
  destruct (udp_local_addr u); simpl; [|by eexists].
  destruct (show 0); simpl; [|by eexists]. by destruct Hl; split; eexists.
Qed.

Lemma discover_v6_fails u : ¬ listable 1 u → ∃ e, discover_v6 (Some u) = Err e.
Proof.
  intros Hl. unfold discover_v6, local_ips_v6, listable in *.
  destruct (udp_local_addr u); simpl; [|by eexists].
  destruct (show 1); simpl; [|by eexists]. by destruct Hl; split; eexists.
Qed.
End discovery.

(** C29. Discovery over a socket of either family or of both: if every bound socket has
    an address and the interfaces can be listed, it returns exactly the addresses it
    found less the unspecified ones (for each family bound, the socket's own address,
    every interface address of the family with the socket's port, and what the STUN
    server reports, for IPv6 also with the socket's port); if not, it fails. *)
Theorem discover_ips_spec `{Udp, !Discovery} {S} `{MaybeDual S UdpSocket} (socket : S) :
  ((∀ u, md_v4 socket = Some u → listable 0 u) → (∀ u, md_v6 socket = Some u → listable 1 u) →
   ∃ ips, discover_ips socket = Ok ips ∧
     ∀ a, a ∈ ips ↔ ip_is_unspecified (addr_ip a) = false ∧
       ((∃ u, md_v4 socket = Some u ∧ found_v4 u a) ∨
        (∃ u, md_v6 socket = Some u ∧ found_v6 u a))) ∧
  ((∃ u, md_v4 socket = Some u ∧ ¬ listable 0 u) ∨
   (∃ u, md_v6 socket = Some u ∧ ¬ listable 1 u) →
   ∃ e, discover_ips socket = Err e).
Proof.
  split.
  - intros (ips4 & H4 & Hin4)%discover_v4_spec (ips6 & H6 & Hin6)%discover_v6_spec.
    eexists. split; [unfold discover_ips; by rewrite H4, H6|].
    intros a. by rewrite elem_of_filter, elem_of_union, Hin4, Hin6.
  - intros [(u & Hu & Hl)|(u & Hu & Hl)]; unfold discover_ips.
    + destruct (discover_v4_fails u Hl) as [e He]. rewrite Hu, He. by eexists.
    + destruct (discover_v6_fails u Hl) as [e He]. rewrite Hu, He.
      destruct (md_v4 socket) as [u4|]; [|by eexists].
      unfold discover_v4, local_ips_v4. destruct (udp_local_addr u4); simpl; [|by eexists].
      destruct (show 0); simpl; by eexists.
Qed.

(** Interfaces with a loopback address of each family, and no resolver. *)
Definition demo_discovery : @Discovery list_udp := {|
  show _ := Some [[IpV4 2130706433]; [IpV6 1; IpV4 0]];
  to_socket_addrs _ _ := None;
  query_external_address _ _ _ := None;
|}.

Definition demo_v4 : ListSocket := mkListSocket (SocketAddrV4 0 9) [] [] 64.
Definition demo_v6 : ListSocket := mkListSocket (SocketAddrV6 0 7 0 0) [] [] 64.
Definition demo_dual : DualSocket (@VersionedSocket list_udp) (@VersionedSocket list_udp) :=
  mkDualSocket (@V4 list_udp demo_v4) (@V6 list_udp demo_v6).
Definition dual_sockets : MaybeDual _ ListSocket :=
  @DualSocket_MaybeDual _ _ (@VersionedSocket_MaybeDual list_udp).

Lemma discover_ips_spec_witness :
  ∃ ips, @discover_ips list_udp demo_discovery _ dual_sockets demo_dual = Ok ips ∧
    SocketAddrV4 2130706433 9 ∈ ips ∧ SocketAddrV6 1 7 0 0 ∈ ips ∧ SocketAddrV4 0 9 ∉ ips.
Proof.
  destruct (@discover_ips_spec list_udp demo_discovery _ dual_sockets demo_dual) as [Hok _].
  destruct Hok as (ips & Hips & Hin).
  - intros u [= <-]. split; by eexists.
  - intros u [= <-]. split; by eexists.
  - exists ips. split_and!; [exact Hips|..].
    + apply Hin. split; [done|]. left. exists demo_v4. split; [done|].
      eexists _, _. split_and!; [done..|]. right. left. exists 2130706433%N. split; [left|done].
    + apply Hin. split; [done|]. right. exists demo_v6. split; [done|].
      eexists _, _. split_and!; [done..|]. right. left. exists 1%N. split; [right; left|done].
    + intros Hz%Hin. by destruct Hz as [Hz _].
Defined.
