(* ===== verification/Delegates.v ===== *)
(** * Delegates that implement a queue

    The chunker is written against the trait [Bidirectional].  This file states what
    it promises to a chunker when it implements a queue, and shows that a chunker
    over such a delegate does what it does over [VecDeque]: the theorems on the
    queue then hold for every implementation. *)

From S2P Require Import Prelude Std Externals Transform Reassembly.

(** [R d q]: the delegate [d] holds the packets [q].  A packet may be pushed after
    [q] if [P q x]. *)
Class Pops {D} `{Bidirectional D} (R : D → list bytes → Prop) : Prop :=
  brecv_pops d x q : R d (x :: q) → ∃ d', brecv d = (d', Ok x) ∧ R d' q.

Class Pushes {D} `{Bidirectional D} (R : D → list bytes → Prop)
    (P : list bytes → bytes → Prop) : Prop :=
  bsend_pushes d q x : R d q → P q x → ∃ d', bsend x d = (d', Ok tt) ∧ R d' (q ++ [x]).

#[export] Instance VecDeque_pops : Pops (D := list bytes) eq.
Proof. intros d x q ->. by eexists. Qed.
#[export] Instance VecDeque_pushes : Pushes (D := list bytes) eq (λ _ _, True).
Proof. intros d q x -> _. by eexists. Qed.

Section delegates.
Context `{Platform, Codec ChunkedData} {D : Type} `{Bidirectional D}.

(** The chunker [c] over another delegate. *)
Definition redelegate {D1 D2} (d : D2) (c : Chunker D1) : Chunker D2 :=
  mkChunker d (chunk_size c) (current_group c) (chunk_groups c) (completed_chunks c).

(** Reassembly does not touch the delegate. *)
Lemma add_chunk_redelegate {D1 D2 E} ch (c : Chunker D1) (d : D2) :
  add_chunk (E := E) ch (redelegate d c) =
    let '(c', r) := add_chunk (E := E) ch c in (redelegate d c', r).
Proof.
  unfold add_chunk, complete_group, evict_old. unfold_monad.
  destruct (insert_chunk ch (chunk_groups c)) as [m [[]| | | |]]; simpl; try done.
  - destruct (m !! cd_group ch) as [g|]; simpl; [|done].
    destruct (ChunkGroup_collect g); simpl; try done. by case_decide.
  - by case_decide.
Qed.

(** One turn of the receive loop. *)
Lemma recv_turn_eq `{Bidirectional D1} fuel (c : Chunker D1) :
  Chunker_recv (S fuel) c =
    match completed_chunks c with
    | m :: q => (with_completed q c, Ok m)
    | [] =>
        match brecv (delegate c) with
        | (d, Ok bs) =>
            match deserialize bs with
            | Some ch =>
                match add_chunk ch (with_delegate d c) with
                | (c', Ok _) => Chunker_recv fuel c'
                | (c', Err e) => (c', Err e)
                | (c', Panic) => (c', Panic)
                | (c', Pending) => (c', Pending)
                | (c', OutOfFuel) => (c', OutOfFuel)
                end
            | None => (with_delegate d c, Panic)
            end
        | (d, Err e) => (with_delegate d c, Err e)
        | (d, Panic) => (with_delegate d c, Panic)
        | (d, Pending) => (with_delegate d c, Pending)
        | (d, OutOfFuel) => (with_delegate d c, OutOfFuel)
        end
    end.
Proof.
  simpl. unfold next_ready_chunk, zoom. unfold_monad.
  destruct (completed_chunks c); [|done].
  destruct (brecv (delegate c)) as [d [bs| | | |]]; simpl; try done.
  by destruct (deserialize bs).
Qed.

(** The receive loop over a delegate that holds what the queue holds. *)
Lemma Chunker_recv_refines (R : D → list bytes → Prop) `{!Pops R} fuel d
    (c c' : Chunker (list bytes)) x :
  R d (delegate c) → Chunker_recv fuel c = (c', Ok x) →
  ∃ d', Chunker_recv fuel (redelegate d c) = (redelegate d' c', Ok x) ∧ R d' (delegate c').
Proof.
  revert d c. induction fuel as [|fuel IH]; intros d c HR; [done|].
  destruct (completed_chunks c) as [|m q] eqn:Hcomp.
  - destruct (delegate c) as [|bs q] eqn:Hdel; [by rewrite recv_turn_eq, Hcomp, Hdel|].
    destruct (brecv_pops d bs q HR) as (d1 & Hrecv & HR1).
    rewrite !recv_turn_eq. simpl. rewrite Hcomp, Hdel, Hrecv. simpl.
    destruct (deserialize bs) as [ch|]; [|done].
    change (with_delegate d1 (redelegate d c)) with (redelegate d1 (with_delegate q c)).
    rewrite (add_chunk_redelegate ch (with_delegate q c) d1).
    destruct (add_chunk ch (with_delegate q c)) as [c1 [[]| | | |]] eqn:Hadd; try done.
    intros Hrest. apply (IH d1 c1); [|done].
    assert (delegate c1 = q) as ->; [|done].
    pose proof (add_chunk_redelegate (E := VeqError) ch c q) as Hq.
    change (redelegate q c) with (with_delegate q c) in Hq. rewrite Hadd in Hq.
    destruct (add_chunk ch c) as [c2 r2]. by injection Hq as -> _.
  - rewrite !recv_turn_eq. simpl. rewrite Hcomp. intros [= <- <-]. exists d. by split.
Qed.

(** Sending the chunks of a message pushes its packets. *)
Lemma send_all_refines (R : D → list bytes → Prop) P `{!Pushes R P} ds d q (c : Chunker D) :
  delegate c = d → R d q →
  (∀ i x, ds !! i = Some x → P (q ++ take i ds) x) →
  ∃ d', send_all ds c = (with_delegate d' c, Ok tt) ∧ R d' (q ++ ds).
Proof.
  revert d q c. induction ds as [|x ds IH]; intros d q c <- HR HP; simpl.
  - exists (delegate c). rewrite app_nil_r. by destruct c.
  - destruct (bsend_pushes (delegate c) q x HR) as (d1 & Hsend & HR1).
    { specialize (HP 0 x eq_refl). by rewrite app_nil_r in HP. }
    destruct (IH d1 (q ++ [x]) (with_delegate d1 c)) as (d2 & Hrest & HR2); [done|done| |].
    { intros i y Hi. specialize (HP (S i) y Hi). simpl in HP. by rewrite <- app_assoc. }
    exists d2. rewrite <- app_assoc in HR2. split; [|done].
    unfold mbind, M_bind, zoom. rewrite Hsend. by rewrite Hrest.
Qed.

(** A send is the sends of the packets of the message, in the next group. *)
Lemma Chunker_send_eq `{!CodecLaws ChunkedData} data (c : Chunker D) :
  (0 < chunk_size c < u64_modulus)%N → (current_group c + 1 < u64_modulus)%N →
  (N.of_nat (length data) < u64_modulus)%N →
  Chunker_send data c =
    send_all (packets (N.to_nat (chunk_size c)) (current_group c) data)
      (with_current_group (current_group c + 1) c).
Proof.
  intros Hn Hg Hlen. unfold Chunker_send, chunks, send_write_group. unfold_monad.
  rewrite decide_False by lia. rewrite u64_add_small by done. simpl.
  fold (message_chunks (N.to_nat (chunk_size c)) (current_group c) data).
  by rewrite mapM_serialize_Ok; [|apply make_chunks_wf; lia].
Qed.

Lemma Chunker_send_refines `{!CodecLaws ChunkedData} (R : D → list bytes → Prop) P
    `{!Pushes R P} data q (c : Chunker D) :
  let ps := packets (N.to_nat (chunk_size c)) (current_group c) data in
  R (delegate c) q → (∀ i x, ps !! i = Some x → P (q ++ take i ps) x) →
  (0 < chunk_size c < u64_modulus)%N → (current_group c + 1 < u64_modulus)%N →
  (N.of_nat (length data) < u64_modulus)%N →
  ∃ d', Chunker_send data c =
      (with_current_group (current_group c + 1) (with_delegate d' c), Ok tt) ∧
    R d' (q ++ ps).
Proof.
  intros ps HR HP Hn Hg Hlen.
  destruct (send_all_refines R P ps (delegate c) q
    (with_current_group (current_group c + 1) c) eq_refl HR HP) as (d' & Hsend & HR').
  exists d'. split; [|done]. by rewrite Chunker_send_eq.
Qed.

(** Sequences of messages. *)
Lemma send_messages_refines `{!CodecLaws ChunkedData} (R : D → list bytes → Prop) P
    `{!Pushes R P} ds q (c : Chunker D) :
  let ps := all_packets (N.to_nat (chunk_size c)) (current_group c) ds in
  R (delegate c) q → (∀ i x, ps !! i = Some x → P (q ++ take i ps) x) →
  (0 < chunk_size c < u64_modulus)%N →
  (current_group c + N.of_nat (length ds) < u64_modulus)%N →
  Forall (λ d, (N.of_nat (length d) < u64_modulus)%N) ds →
  ∃ d', send_messages ds c =
      (with_current_group (current_group c + N.of_nat (length ds)) (with_delegate d' c), Ok tt) ∧
    R d' (q ++ ps).
Proof.
  revert q c. induction ds as [|x ds IH]; intros q c ps HR HP Hn Hg Hds; simpl.
  { exists (delegate c). unfold ps. simpl. rewrite app_nil_r, N.add_0_r. by destruct c. }
  apply Forall_cons in Hds as [Hx Hds]. simpl in Hg.
  set (ps1 := packets (N.to_nat (chunk_size c)) (current_group c) x).
  set (ps2 := all_packets (N.to_nat (chunk_size c)) (current_group c + 1) ds).
  change ps with (ps1 ++ ps2) in *.
  destruct (Chunker_send_refines R P x q c HR) as (d1 & Hsend & HR1); [|done|lia|done|].
  { intros i y Hi. specialize (HP i y). rewrite lookup_app_l in HP by (by eapply lookup_lt_Some).
    rewrite take_app_le in HP by (apply Nat.lt_le_incl; by eapply lookup_lt_Some). auto. }
  destruct (IH (q ++ ps1) (with_current_group (current_group c + 1) (with_delegate d1 c)))
    as (d2 & Hrest & HR2); simpl; [done| |done|lia|done|].
  { intros i y Hi. specialize (HP (length ps1 + i) y).
    rewrite lookup_app_r, take_app_add in HP by lia.
    rewrite Nat.add_comm, Nat.add_sub in HP. rewrite <- app_assoc. auto. }
  exists d2. rewrite <- app_assoc in HR2. split; [|done].
  erewrite M_bind_step by done. rewrite Hrest. simpl.
  unfold with_current_group, with_delegate. simpl. do 2 f_equal. lia.
Qed.

Lemma recv_messages_refines (R : D → list bytes → Prop) `{!Pops R} fuel k d
    (c c' : Chunker (list bytes)) xs :
  R d (delegate c) → recv_messages fuel k c = (c', Ok xs) →
  ∃ d', recv_messages fuel k (redelegate d c) = (redelegate d' c', Ok xs) ∧ R d' (delegate c').
Proof.
  revert d c xs. induction k as [|k IH]; intros d c xs HR; simpl.
  { intros [= <- <-]. by exists d. }
  intros (c1 & x & Hx & (c2 & xs' & Hxs & [= <- <-])%M_bind_Ok)%M_bind_Ok.
  destruct (Chunker_recv_refines R fuel d c c1 x HR Hx) as (d1 & Hrecv & HR1).
  destruct (IH d1 c1 xs' HR1 Hxs) as (d2 & Hrest & HR2).
  exists d2. split; [|done]. erewrite M_bind_step by done. by erewrite M_bind_step by done.
Qed.
End delegates.

(** ** The receive loop ends *)

(** [remaining d] bounds the packets the delegate can still give; it never runs out
    of fuel itself. *)
Class Drains {D} `{Bidirectional D} (remaining : D → nat) : Prop := {
  brecv_drains d d' x : brecv d = (d', Ok x) → remaining d' < remaining d;
  brecv_answers d : (brecv d).2 ≠ OutOfFuel;
}.

#[export] Instance VecDeque_drains : Drains (D := list bytes) length.
Proof. split; [by intros [|x q] d' y [= <- <-]; simpl; lia|by intros []]. Qed.

Create HintDb answers.

Section answers.
Context {S E : Type}.

(** The computation gives an answer, whatever the state. *)
Definition answers {A} (m : M S E A) : Prop := ∀ s, (m s).2 ≠ OutOfFuel.

Lemma answers_bind {A B} (m : M S E A) (f : A → M S E B) :
  answers m → (∀ a, answers (f a)) → answers (m ≫= f).
Proof.
  intros Hm Hf s. specialize (Hm s). unfold mbind, M_bind.
  destruct (m s) as [s' []]; try done. apply Hf.
Qed.

Lemma answers_ret {A} (a : A) : answers (mret (M := M S E) a).
Proof. by intros s. Qed.

Lemma answers_modify f : answers (modify (E := E) f).
Proof. by intros s. Qed.

Lemma answers_gets {A} (f : S → A) : answers (gets (E := E) f).
Proof. by intros s. Qed.

Lemma answers_lift {A} (o : outcome E A) : o ≠ OutOfFuel → answers (lift o).
Proof. by intros Ho s. Qed.

Lemma answers_zoom {T A} (proj : S → T) upd (m : M T E A) :
  (∀ t, (m t).2 ≠ OutOfFuel) → answers (zoom proj upd m).
Proof. intros Hm s. specialize (Hm (proj s)). unfold zoom. by destruct (m _). Qed.
End answers.

#[export] Hint Resolve answers_bind answers_ret answers_modify answers_gets answers_lift
  answers_zoom : answers.

Lemma collect_chunks_answers {E} cs out : collect_chunks (E := E) cs out ≠ OutOfFuel.
Proof. revert out. induction cs as [|[c|] cs IH]; intros out; simpl; [done|apply IH|done]. Qed.

Lemma insert_chunk_answers `{Platform} {E} ch : answers (insert_chunk (E := E) ch).
Proof.
  apply answers_bind; [|intros _].
  - intros m. unfold entry_or_insert. destruct (m !! _); [done|]. unfold_monad.
    unfold ChunkGroup_new. by case_decide.
  - intros m. unfold on_group. destruct (m !! _) as [g|]; [|done].
    assert (answers (ChunkGroup_add_chunk (E := E) ch;; gets ChunkGroup_is_complete)) as Hg.
    { apply answers_bind; [|auto with answers]. intros g'. unfold ChunkGroup_add_chunk. unfold_monad.
      unfold vec_remove. destruct (_ !! _); simpl; [|done].
      unfold vec_insert. case_decide; simpl; [|done].
      unfold u64_add. case_decide; [done|]. by destruct overflow_checks. }
    specialize (Hg g). by destruct ((ChunkGroup_add_chunk ch ≫= _) g).
Qed.

Lemma add_chunk_answers `{Platform} {D E} ch : answers (S := Chunker D) (add_chunk (E := E) ch).
Proof.
  apply answers_bind; [apply answers_zoom, insert_chunk_answers|]. intros b.
  apply answers_bind; [|intros _; apply answers_modify].
  destruct b; [|apply answers_ret]. unfold complete_group.
  apply answers_bind; [auto with answers|]. intros m.
  apply answers_bind; [apply answers_lift; by destruct (m !! _)|]. intros g.
  apply answers_bind; [auto with answers|]. intros _.
  apply answers_bind; [apply answers_lift, collect_chunks_answers|auto with answers].
Qed.

Lemma add_chunk_counters `{Platform} {D E} ch (c : Chunker D) :
  (chunk_size (add_chunk (E := E) ch c).1, current_group (add_chunk (E := E) ch c).1) =
    (chunk_size c, current_group c).
Proof.
  unfold add_chunk, complete_group, evict_old. unfold_monad.
  destruct (insert_chunk ch (chunk_groups c)) as [m [[]| | | |]]; simpl; try done.
  - destruct (m !! cd_group ch) as [g|]; simpl; [|done].
    destruct (ChunkGroup_collect g); simpl; try done. by case_decide.
  - by case_decide.
Qed.

Section termination.
Context `{Platform, Codec ChunkedData} {D : Type} `{Bidirectional D}.

(** Reassembly leaves the delegate alone. *)
Lemma add_chunk_delegate {E} ch (c : Chunker D) :
  delegate (add_chunk (E := E) ch c).1 = delegate c.
Proof.
  pose proof (add_chunk_redelegate (E := E) ch c (delegate c)) as Hq.
  assert (redelegate (delegate c) c = c) as Hc by (by destruct c). rewrite Hc in Hq.
  destruct (add_chunk ch c) as [c' r]. by injection Hq as ->.
Qed.

(** With one turn more than the packets left, the receive loop answers, and more
    fuel changes nothing. *)
Lemma Chunker_recv_terminates remaining `{!Drains (D := D) remaining} fuel (c : Chunker D) :
  remaining (delegate c) < fuel →
  (Chunker_recv fuel c).2 ≠ OutOfFuel ∧
  ∀ more, Chunker_recv (fuel + more) c = Chunker_recv fuel c.
Proof.
  revert c. induction fuel as [|fuel IH]; intros c Hfuel; [lia|].
  assert (∀ d bs ch c1, brecv (delegate c) = (d, Ok bs) →
    add_chunk (E := VeqError) ch (with_delegate d c) = (c1, Ok tt) →
    remaining (delegate c1) < fuel) as Hdec.
  { intros d bs ch c1 Hr Hadd. pose proof (brecv_drains _ _ _ Hr).
    pose proof (add_chunk_delegate (E := VeqError) ch (with_delegate d c)) as Hd.
    rewrite Hadd in Hd. simpl in Hd. rewrite Hd. lia. }
  pose proof (brecv_answers (remaining := remaining) (delegate c)) as Hans. split.
  - rewrite recv_turn_eq. destruct (completed_chunks c); [|done].
    destruct (brecv (delegate c)) as [d [bs| | | |]] eqn:Hr; try done.
    destruct (deserialize bs) as [ch|]; [|done].
    pose proof (add_chunk_answers (E := VeqError) ch (with_delegate d c)) as Ha.
    destruct (add_chunk ch (with_delegate d c)) as [c1 [[]| | | |]] eqn:Hadd; try done.
    apply IH. by eapply Hdec.
  - intros more. simpl Nat.add. rewrite !recv_turn_eq. destruct (completed_chunks c); [|done].
    destruct (brecv (delegate c)) as [d [bs| | | |]] eqn:Hr; try done.
    destruct (deserialize bs) as [ch|]; [|done].
    destruct (add_chunk ch (with_delegate d c)) as [c1 [[]| | | |]] eqn:Hadd; try done.
    apply IH. by eapply Hdec.
Qed.
End termination.

(** ** What a chunker keeps *)

Section keeps.
Context `{Platform, Codec ChunkedData} {D : Type} `{Bidirectional D} (J : D → Prop).

(** A send uses the delegate and the counter of groups. *)
Lemma Chunker_send_keeps x data :
  (∀ d, triple J (λ _, True) (bsend d)) →
  triple (λ c, J (delegate c) ∧ (chunk_size c, chunk_groups c, completed_chunks c) = x)
    (λ _, True) (Chunker_send data).
Proof.
  intros Hsend. unfold Chunker_send, send_read_group, send_write_group.
  repeat first [ apply (triple_bind _ (λ _, True)); [|intros ? _]
               | by apply triple_gets | by apply triple_lift | by apply triple_modify ].
  match goal with |- triple _ _ (send_all ?ds) => induction ds as [|d ds IH] end; simpl.
  - by apply triple_ret.
  - apply (triple_bind _ (λ _, True)); [|done].
    apply (triple_zoom _ J); [by intros c []|by intros d' c []|done].
Qed.

(** A receive uses the delegate and the groups. *)
Lemma Chunker_recv_keeps x fuel :
  triple J (λ _, True) brecv →
  triple (λ c, J (delegate c) ∧ (chunk_size c, current_group c) = x) (λ _, True)
    (Chunker_recv fuel).
Proof.
  intros Hrecv. induction fuel as [|fuel IH]; simpl; [by apply triple_lift|].
  apply (triple_bind _ (λ _, True)).
  { intros c Hc. unfold next_ready_chunk. by destruct (completed_chunks c). }
  intros [ready|] _; [by apply triple_ret|]. apply (triple_bind _ (λ _, True)).
  { apply (triple_zoom _ J); [by intros c []|by intros d c []|done]. }
  intros bs _. apply (triple_bind _ (λ _, True)); [by apply triple_lift|]. intros ch _.
  apply (triple_bind _ (λ _, True)); [|done].
  intros c Hc. by rewrite add_chunk_delegate, add_chunk_counters.
Qed.
End keeps.

(** ** The receive loop without its fuel *)

(** The delegate has nothing more and the call waits. *)
Class Stalls {D} `{Bidirectional D} (R : D → list bytes → Prop) : Prop :=
  brecv_stalls d : R d [] → ∃ d', brecv d = (d', Pending) ∧ R d' [].

Section reference.
Context `{Platform, Codec ChunkedData}.

(** Reference reader over the packets [q]: the chunker, the packets left, and the
    message, by recursion on the packets. *)
Fixpoint read_queue (q : list bytes) (c : Chunker unit)
    : Chunker unit * list bytes * outcome VeqError bytes :=
  match completed_chunks c with
  | m :: ms => (with_completed ms c, q, Ok m)
  | [] =>
      match q with
      | [] => (c, [], Pending)
      | bs :: q =>
          match deserialize bs with
          | None => (c, q, Panic)
          | Some ch =>
              match add_chunk (E := VeqError) ch c with
              | (c, Ok _) => read_queue q c
              | (c, Err e) => (c, q, Err e)
              | (c, Panic) => (c, q, Panic)
              | (c, Pending) => (c, q, Pending)
              | (c, OutOfFuel) => (c, q, OutOfFuel)
              end
          end
      end
  end.

(** The loop over a delegate that holds the packets [q] is the reference reader. *)
Lemma Chunker_recv_reads {D} `{Bidirectional D} (R : D → list bytes → Prop)
    `{!Pops R, !Stalls R} q fuel d (c : Chunker unit) :
  R d q → length q < fuel →
  ∃ d', Chunker_recv fuel (redelegate d c) =
      (redelegate d' (read_queue q c).1.1, (read_queue q c).2) ∧
    R d' (read_queue q c).1.2.
Proof.
  revert fuel d c. induction q as [|bs q IH]; intros [|fuel] d c HR Hfuel; simpl in Hfuel;
    try lia; rewrite recv_turn_eq; simpl;
    destruct (completed_chunks c) as [|m ms] eqn:Hcomp; try (by exists d).
  - destruct (brecv_stalls d HR) as (d1 & -> & HR1). by exists d1.
  - destruct (brecv_pops d bs q HR) as (d1 & -> & HR1).
    change (with_delegate d1 (redelegate d c)) with (redelegate d1 c).
    destruct (deserialize bs) as [ch|]; [|by exists d1].
    rewrite (add_chunk_redelegate ch c d1).
    destruct (add_chunk ch c) as [c1 [[]| | | |]]; try (by exists d1).
    apply IH; [done|lia].
Qed.
End reference.
