(* ===== verification/Streams.v ===== *)
(** * Reading a stream that lost packets

    The chunks of consecutive messages arrive in the order they were sent, some of
    them missing.  The reader of [Delegates] then returns messages of the sender, in
    order and each at most once, and never panics. *)

From S2P Require Import Prelude Std Externals Transform Reassembly Delegates.
From stdpp Require Import sorting.

(** ** Sorted lists and their sublists *)

Section sorted_lists.
Context {A : Type} (R : relation A).

Lemma StronglySorted_sublist l k : StronglySorted R l → k `sublist_of` l → StronglySorted R k.
Proof.
  intros Hl. revert k. induction Hl as [|x l Hl IH Hx]; intros k Hk.
  - apply sublist_nil_r in Hk as ->. constructor.
  - apply sublist_cons_r in Hk as [Hk|(k' & -> & Hk)]; [auto|]. constructor; [auto|].
    rewrite Forall_forall in *. intros y Hy. apply Hx. by eapply elem_of_sublist.
Qed.

Lemma StronglySorted_snoc l x :
  StronglySorted R (l ++ [x]) ↔ StronglySorted R l ∧ ∀ y, y ∈ l → R y x.
Proof.
  rewrite StronglySorted_app. setoid_rewrite list_elem_of_singleton. split.
  - intros (Hx & Hl & _). split; [done|]. intros y Hy. by apply Hx.
  - intros [Hl Hx]. split_and!; [by intros y ? Hy ->; apply Hx|done|]. by repeat constructor.
Qed.

(** What was taken from a sorted list below its element [x] can be followed by [x]. *)
Lemma sublist_snoc_sorted l k x :
  StronglySorted R l → x ∈ l → k `sublist_of` l → Forall (λ y, ¬ R x y ∧ y ≠ x) k →
  k ++ [x] `sublist_of` l.
Proof.
  intros Hl. revert k. induction Hl as [|y l Hl IH Hy]; intros k Hx Hk Hbelow.
  { by apply not_elem_of_nil in Hx. }
  apply elem_of_cons in Hx as [->|Hx].
  - destruct k as [|z k]; [apply sublist_skip, sublist_nil_l|]. exfalso.
    apply Forall_cons in Hbelow as [[Hz Hne] _].
    assert (z ∈ y :: l) as [->|Hin]%elem_of_cons by (eapply elem_of_sublist; [left|exact Hk]); [done|].
    rewrite Forall_forall in Hy. by apply Hz, Hy.
  - apply sublist_cons_r in Hk as [Hk|(k' & -> & Hk)].
    + by apply sublist_cons, IH.
    + apply Forall_cons in Hbelow as [_ Hbelow]. simpl. by apply sublist_skip, IH.
Qed.
End sorted_lists.

(** The elements at increasing positions are a sublist. *)
Lemma sublist_of_positions {A} (l k : list A) (ps : list N) :
  StronglySorted N.lt ps → Forall2 (λ i x, l !! N.to_nat i = Some x) ps k → k `sublist_of` l.
Proof.
  intros Hs Hk.
  assert (∀ m, Forall (λ i, (N.of_nat m ≤ i)%N) ps → k `sublist_of` drop m l) as Hall.
  { revert k Hk. induction Hs as [|i ps Hs IH Hi]; intros k Hk m Hm.
    - apply Forall2_nil_inv_l in Hk as ->. apply sublist_nil_l.
    - apply Forall2_cons_inv_l in Hk as (x & k' & Hx & Hk & ->).
      apply Forall_cons in Hm as [Him _].
      assert (k' `sublist_of` drop (S (N.to_nat i)) l) as Hrest.
      { apply IH; [done|]. eapply Forall_impl; [exact Hi|]. simpl. intros j Hj. lia. }
      transitivity (drop (N.to_nat i) l).
      + rewrite (drop_S _ _ _ Hx). by apply sublist_skip.
      + replace (N.to_nat i) with (m + (N.to_nat i - m)) by lia. rewrite <- drop_drop.
        apply sublist_drop. }
  specialize (Hall 0). rewrite drop_0 in Hall. apply Hall. apply Forall_true. intros i. lia.
Qed.

(** ** The chunks of consecutive messages *)

(** Their order on the wire: by group, then by index. *)
Definition chunk_before (a b : ChunkedData) : Prop :=
  (cd_group a < cd_group b ∨ cd_group a = cd_group b ∧ cd_index a < cd_index b)%N.

Fixpoint all_chunks (n : nat) (g : N) (ds : list bytes) : list ChunkedData :=
  match ds with
  | [] => []
  | d :: ds => message_chunks n g d ++ all_chunks n (g + 1) ds
  end.

Lemma elem_of_all_chunks n g ds ch :
  ch ∈ all_chunks n g ds →
  ∃ i d, ds !! i = Some d ∧ cd_group ch = (g + N.of_nat i)%N ∧ ch ∈ message_chunks n (cd_group ch) d.
Proof.
  revert g. induction ds as [|d ds IH]; intros g; simpl; [by intros []%not_elem_of_nil|].
  rewrite elem_of_app. intros [Hch|Hch].
  - pose proof (message_chunks_index _ _ _ _ Hch) as (_ & Hg & _).
    exists 0, d. rewrite Hg, N.add_0_r. by split_and!.
  - apply IH in Hch as (i & d' & Hi & Hg & Hch). exists (S i), d'. split_and!; [done|lia|done].
Qed.

Lemma message_chunks_sorted n g d : StronglySorted chunk_before (message_chunks n g d).
Proof.
  assert (∀ l k, StronglySorted chunk_before
    (imap (λ i x, mkChunkedData g (N.of_nat (k + i)) (N.of_nat (length (chunks_fuel (length d) n d))) x) l)) as Hall.
  { induction l as [|x l IH]; intros k; simpl; [constructor|]. constructor.
    - specialize (IH (S k)). eapply (eq_rect _ (StronglySorted chunk_before)); [exact IH|].
      apply imap_ext. intros i y _. simpl. do 2 f_equal. lia.
    - apply Forall_forall. intros ch. rewrite list_elem_of_lookup. intros [i Hi].
      rewrite list_lookup_imap in Hi. destruct (l !! i); simplify_eq/=. right. simpl. lia. }
  apply (Hall _ 0).
Qed.

Lemma all_chunks_sorted n g ds : StronglySorted chunk_before (all_chunks n g ds).
Proof.
  revert g. induction ds as [|d ds IH]; intros g; simpl; [constructor|].
  apply StronglySorted_app. split_and!; [|apply message_chunks_sorted|apply IH].
  intros a b Ha Hb. pose proof (message_chunks_index _ _ _ _ Ha) as (_ & Hg & _).
  apply elem_of_all_chunks in Hb as (i & d' & _ & Hg' & _). left. rewrite Hg, Hg'. lia.
Qed.

Lemma chunk_before_irrefl ch : ¬ chunk_before ch ch.
Proof. unfold chunk_before. lia. Qed.

Section packets_of_chunks.
Context `{Platform, Codec ChunkedData, !CodecLaws ChunkedData}.

Lemma all_packets_chunks n g ds : all_packets n g ds = omap serialize (all_chunks n g ds).
Proof.
  revert g. induction ds as [|d ds IH]; intros g; simpl; [done|].
  by rewrite omap_app, IH.
Qed.

Lemma all_chunks_wf n g ds :
  n ≠ 0 → (g + N.of_nat (length ds) ≤ u64_modulus)%N →
  Forall (λ d, (N.of_nat (length d) < u64_modulus)%N) ds → Forall wf (all_chunks n g ds).
Proof.
  intros Hn. revert g. induction ds as [|d ds IH]; intros g Hg Hds; simpl in *; [constructor|].
  apply Forall_cons in Hds as [Hd Hds]. apply Forall_app. split.
  - apply make_chunks_wf; [lia|done|done].
  - apply IH; [lia|done].
Qed.

(** What arrived of the packets is what was serialized of some chunks. *)
Lemma arrived_chunks l qs :
  Forall wf l → qs `sublist_of` omap serialize l →
  Forall (λ bs, is_Some (deserialize (T := ChunkedData) bs)) qs ∧
  omap deserialize qs `sublist_of` l.
Proof.
  intros Hl. revert qs. induction Hl as [|ch l Hch Hl IH]; intros qs; simpl.
  { intros ->%sublist_nil_r. split; [constructor|done]. }
  destruct (codec_roundtrip ch Hch) as (bs & Hser & Hde). rewrite Hser. simpl.
  intros [Hq|(qs' & -> & Hq)]%sublist_cons_r.
  - destruct (IH qs Hq). split; [done|]. by apply sublist_cons.
  - destruct (IH qs' Hq). simpl. rewrite Hde. split; [by constructor|]. by apply sublist_skip.
Qed.
End packets_of_chunks.

(** ** A chunker fed with what arrived

    [consumed] are the packets taken so far, [got] the messages returned so far. *)
Section feeding.
Context `{Platform, Codec ChunkedData, !CodecLaws ChunkedData}.
Context (n : nat) (ds : list bytes).
Hypothesis n_pos : n ≠ 0.
Hypothesis ds_count : (N.of_nat (length ds) ≤ u64_modulus)%N.
Hypothesis ds_fit : Forall (λ d, (N.of_nat (length d) ≤ alloc_slots)%N) ds.
Implicit Types (c : Chunker unit) (consumed got : list bytes) (dn : list N).

Definition message_of (g : N) : option bytes := ds !! N.to_nat g.

Definition returned (got : list bytes) c : Chunker unit :=
  with_completed (got ++ completed_chunks c) c.

Record fed consumed got c dn : Prop := {
  fd_inv : chunker_inv n message_of (reverse (omap deserialize consumed)) dn (returned got c);
  fd_sorted : StronglySorted N.lt dn;
  fd_done g : g ∈ dn → ∃ ch : ChunkedData, ch ∈ omap deserialize consumed ∧ cd_group ch = g;
}.

Definition feed consumed got c : Prop := ∃ dn, fed consumed got c dn.

Lemma feed_new (d : unit) k : feed [] [] (Chunker_new d k).
Proof. exists []. split; [by apply chunker_inv_new|constructor|by intros g ?%not_elem_of_nil]. Qed.

(** The messages returned, and those waiting in the chunker, are the sender's, in order. *)
Lemma feed_sublist consumed got c :
  feed consumed got c → got ++ completed_chunks c `sublist_of` ds.
Proof.
  intros (dn & [Hinv Hs _]). by eapply sublist_of_positions, (ci_completed _ _ _ _ _ Hinv).
Qed.

Lemma feed_pop consumed got c m ms :
  feed consumed got c → completed_chunks c = m :: ms →
  feed consumed (got ++ [m]) (with_completed ms c).
Proof.
  intros (dn & [Hinv Hs Hd]) Hc. exists dn. split; [|done|done].
  unfold returned in *. rewrite Hc in Hinv. simpl. by rewrite <- app_assoc.
Qed.

(** [add_chunk] only appends to the completed messages. *)
Lemma add_chunk_returned {E} got ch c :
  add_chunk (E := E) ch (returned got c) =
    let '(c', r) := add_chunk (E := E) ch c in (returned got c', r).
Proof.
  unfold add_chunk, complete_group, evict_old, returned. unfold_monad.
  destruct (insert_chunk ch (chunk_groups c)) as [m [[]| | | |]]; simpl; try done.
  - destruct (m !! cd_group ch) as [g|]; simpl; [|done].
    destruct (ChunkGroup_collect g); simpl; try done.
    case_decide; unfold with_completed, with_chunk_groups; simpl; by rewrite app_assoc.
  - by case_decide.
Qed.

Lemma message_of_fits g d :
  message_of g = Some d → (N.of_nat (length (message_chunks n g d)) ≤ alloc_slots)%N.
Proof using All.
  intros Hd%list_elem_of_lookup_2. rewrite Forall_forall in ds_fit. apply ds_fit in Hd.
  pose proof (message_chunks_length_le n g d). lia.
Qed.

Lemma stream_wf : Forall wf (all_chunks n 0 ds).
Proof using All.
  apply all_chunks_wf; [done|lia|]. eapply Forall_impl; [exact ds_fit|]. simpl.
  intros d Hd. pose proof alloc_slots_le. unfold u64_modulus. lia.
Qed.

(** One more packet: it is a chunk, and adding it does not panic. *)
Lemma feed_packet {E} consumed got c bs :
  feed consumed got c → consumed ++ [bs] `sublist_of` all_packets n 0 ds →
  ∃ ch c', deserialize bs = Some ch ∧ add_chunk (E := E) ch c = (c', Ok tt) ∧
    feed (consumed ++ [bs]) got c'.
Proof using All.
  intros (dn & [Hinv Hs Hd]) Hsub. rewrite all_packets_chunks in Hsub.
  destruct (arrived_chunks _ _ stream_wf Hsub) as [Hde Hchs].
  apply Forall_app in Hde as [_ [[ch Hch] _]%Forall_cons].
  assert (omap deserialize (consumed ++ [bs]) = omap deserialize consumed ++ [ch]) as Homap
    by (rewrite omap_app; simpl; by rewrite Hch).
  rewrite Homap in Hchs. pose proof (all_chunks_sorted n 0 ds) as Hsorted.
  pose proof (StronglySorted_sublist _ _ _ Hsorted Hchs) as Hlast.
  apply StronglySorted_snoc in Hlast as [_ Hlast].
  destruct (elem_of_all_chunks n 0 ds ch) as (i & d & Hi & Hg & Hin).
  { eapply elem_of_sublist; [|exact Hchs]. set_solver. }
  assert (message_of (cd_group ch) = Some d) as Hmsg.
  { unfold message_of. by rewrite Hg, N.add_0_l, Nat2N.id. }
  assert (ch ∉ reverse (omap deserialize consumed)) as Hnew.
  { rewrite elem_of_reverse. intros Hold. by eapply chunk_before_irrefl, Hlast. }
  destruct (add_chunk_honest (E := E) n message_of n_pos message_of_fits _ _ _ _ _ Hinv Hnew Hmsg Hin)
    as (grp & Hm & _ & Hadd).
  pose proof (after_chunk_inv (E := E) n message_of n_pos message_of_fits _ _ _ _ _ _ Hinv Hnew Hmsg
    Hin Hm) as Hinv'.
  pose proof (not_done _ _ _ _ _ _ _ Hinv Hnew Hmsg Hin) as Hnd.
  rewrite add_chunk_returned in Hadd. destruct (add_chunk ch c) as [c' r] eqn:Hr.
  injection Hadd as Hc' ->. rewrite <- Hc', <- reverse_snoc, <- Homap in Hinv'.
  exists ch, c'. split_and!; [done|done|]. exists (after_done ch grp dn). split; [exact Hinv'|..];
    unfold after_done; destruct (ChunkGroup_is_complete grp).
  - apply StronglySorted_snoc. split; [done|]. intros g Hgd.
    destruct (Hd g Hgd) as (x & Hx & <-). assert (cd_group x ≠ cd_group ch) by congruence.
    destruct (Hlast x Hx); lia.
  - done.
  - intros g. rewrite Homap, elem_of_app, list_elem_of_singleton. intros [Hgd| ->].
    + destruct (Hd g Hgd) as (x & ? & ?). exists x. set_solver.
    + exists ch. set_solver.
  - intros g Hgd. destruct (Hd g Hgd) as (x & ? & ?). exists x. rewrite Homap. set_solver.
Qed.

(** The reference reader on what arrived. *)
Lemma feed_read q consumed got c :
  feed consumed got c → consumed ++ q `sublist_of` all_packets n 0 ds →
  ∃ eaten, let '(c', rest, r) := read_queue q c in
    q = eaten ++ rest ∧
    ((∃ m, r = Ok m ∧ feed (consumed ++ eaten) (got ++ [m]) c') ∨
     r = Pending ∧ rest = [] ∧ feed (consumed ++ eaten) got c').
Proof using All.
  revert consumed c. induction q as [|bs q IH]; intros consumed c Hf Hsub; simpl;
    destruct (completed_chunks c) as [|m ms] eqn:Hc;
    try (exists []; rewrite (app_nil_r consumed); split; [done|]; left; exists m; split; [done|];
         by apply feed_pop).
  - exists []. rewrite (app_nil_r consumed). split; [done|]. by right.
  - destruct (feed_packet (E := VeqError) consumed got c bs Hf) as (ch & c' & Hde & Hadd & Hf').
    { etrans; [|exact Hsub]. apply sublist_app; [done|]. apply sublist_skip, sublist_nil_l. }
    rewrite Hde, Hadd. destruct (IH _ _ Hf') as (eaten & IHe); [by rewrite <- app_assoc|].
    exists (bs :: eaten). destruct (read_queue q c') as [[c2 rest] r].
    destruct IHe as [-> Hr]. split; [done|]. rewrite <- app_assoc in Hr. exact Hr.
Qed.
End feeding.
