(* ===== verification/Endpoint.v ===== *)
(** * One end of a session, whatever happens around it

    What the runtime of a handler keeps of an established session while its tasks
    run, packets arrive and messages are sent.  Two views of its core: what it has
    said ([speaking]: the log of the messages it sealed, numbered upwards, and every
    packet of it on the wire carrying one of them) and what it has heard
    ([hearing]: the messages taken from the log of the peer, in its order). *)

From S2P Require Import Prelude Std Externals Layout Engine SnowTypes Transport Streams.
From S2P Require Import Session SessionFacts SessionProps Handler Table HandlerFacts Keeping Wire.
From stdpp Require Import sorting.

(** ** Steps that keep the core of a session *)

Section core_inv.
Context `{Crates} (l : N) (P : SessionCore → Prop) (F : chan Outgoing → gmap N Task → Prop).

Definition core_inv (rt : Runtime) : Prop :=
  F (outgoing rt) (tasks rt) ∧ ∃ c, cores rt !! l = Some c ∧ P c.

Abbreviation cores_keep := (triple core_inv (λ _, True)).

Lemma cores_keep_on_core {E A} k (m : M SessionCore E A) :
  (k = l → triple P (λ _, True) m) → cores_keep (on_core k m).
Proof.
  intros Hm rt [HF (c & Hc & HP)]. split; [|done]. unfold on_core.
  destruct (cores rt !! k) as [d|] eqn:Hd; [|by split; eauto].
  destruct (m d) as [d' r] eqn:Hr. split; [done|]. simpl.
  destruct (decide (k = l)) as [->|Hne].
  - exists d'. rewrite lookup_insert_eq. split; [done|]. simplify_eq.
    destruct (Hm eq_refl c HP) as [HP' _]. by rewrite Hr in HP'.
  - exists c. by rewrite lookup_insert_ne.
Qed.

Lemma cores_keep_modify {E} f :
  (∀ rt, F (outgoing rt) (tasks rt) → F (outgoing (f rt)) (tasks (f rt))) →
  (∀ rt, cores (f rt) = cores rt) → cores_keep (modify (E := E) f).
Proof.
  intros HF Hf. apply triple_modify; [|done]. intros rt [HFrt Hc]. split; [auto|].
  by rewrite Hf.
Qed.

Lemma cores_keep_wake_option {E} w : cores_keep (wake_option (E := E) w).
Proof. destruct w; [by apply cores_keep_modify|by apply triple_ret]. Qed.

Lemma cores_keep_wake_all {E} ws : cores_keep (wake_all (E := E) ws).
Proof. by apply cores_keep_modify. Qed.

Context (P_heartbeat : ∀ b c, P c → P (with_heartbeat b c)).
Context (P_dead : ∀ c, P c → P (with_dead true c)).
Context (P_wakers : ∀ ws c, P c → P (with_wakers ws c)).

Lemma cores_keep_is_dead {E} k : cores_keep (on_core k (gets (E := E) dead)).
Proof. apply cores_keep_on_core. intros _. by apply triple_gets. Qed.

Lemma cores_keep_close {E} s : cores_keep (Session_close (E := E) s).
Proof using P_dead. apply cores_keep_on_core. intros _. by apply triple_modify. Qed.

Lemma cores_keep_recv {E} s fresh : cores_keep (Session_recv (E := E) s fresh).
Proof.
  apply (triple_bind _ (λ _, True)); [apply cores_keep_is_dead|]. intros. by apply triple_ret.
Qed.

Lemma cores_keep_heartbeat_tick {E} k : cores_keep (heartbeat_tick (E := E) k).
Proof using P_heartbeat P_dead.
  apply (triple_bind _ (λ _, True)); [apply cores_keep_on_core; intros _; by apply triple_gets|].
  intros [] _; simpl; (apply (triple_bind _ (λ _, True));
    [apply cores_keep_on_core; intros _; apply triple_modify; auto|intros _ _]).
  - by apply triple_ret.
  - apply (triple_bind _ (λ _, True)); [apply cores_keep_on_core; intros _; by apply triple_gets|].
    intros ws _. apply (triple_bind _ (λ _, True)); [apply cores_keep_wake_all|].
    intros. by apply triple_ret.
Qed.
End core_inv.

Section quiet_sends.
Context `{Crates} (l : N) (P : SessionCore → Prop).
Context (P_heartbeat : ∀ b c, P c → P (with_heartbeat b c)).
Context (P_dead : ∀ c, P c → P (with_dead true c)).
Context (P_nonce : ∀ n c, P c → P (with_transport (with_next_nonce n (transport c)) c)).

Abbreviation keep := (triple (core_inv l P (λ _ _, True)) (λ _, True)).

(** Sealing changes the counter of nonces only. *)
Lemma encrypt_transport plain t : ∃ n, (encrypt plain t).1 = with_next_nonce n t.
Proof.
  unfold encrypt.
  assert (triple (λ x : LossyTransportState * bytes, ∃ n, x.1 = with_next_nonce n t)
    (λ _ : nat, True) (write_message plain)) as Hw.
  { unfold write_message. apply (triple_bind _ (λ _, True)); [by intros s Hs|].
    intros [t0 m0] _. repeat (apply (triple_bind _ (λ _, True)); [|intros ? _]);
      try (by apply triple_lift); try (by apply triple_gets); try by apply triple_ret.
    all: apply triple_modify; [|done]; intros [? ?] [n Hn]; simpl in *; subst; by eexists. }
  destruct (Hw (t, replicate noise_max x00)) as [Ht _]; [exists (next_nonce t); by destruct t|].
  by destruct (write_message _ _) as [[t' buf] r].
Qed.

Lemma keep_encrypt k plain : keep (on_core k (get_transport (encrypt plain))).
Proof using P_nonce.
  apply cores_keep_on_core. intros _ c Hc. split; [|done]. unfold get_transport, zoom.
  destruct (encrypt_transport plain (transport c)) as [n Hn].
  destruct (encrypt plain (transport c)) as [t r]. simpl in *. subst. by apply P_nonce.
Qed.

Lemma keep_send_out dest p ttl : keep (send_out dest p ttl).
Proof.
  intros rt [_ Hc]. unfold send_out. destruct (chan_send _ _) as [c []]; by split; [split|].
Qed.

Lemma keep_Session_send s d : keep (Session_send s d).
Proof using P_nonce.
  apply (triple_bind _ (λ _, True)); [apply cores_keep_is_dead|]. intros [] _; [by apply triple_lift|].
  apply (triple_bind _ (λ _, True)); [by apply triple_lift|]. intros plain _.
  apply (triple_bind _ (λ _, True)); [apply keep_encrypt|]. intros sealed _.
  apply (triple_bind _ (λ _, True)); [by apply triple_lift|]. intros. apply keep_send_out.
Qed.

Lemma keep_keepalive_tick {E} id addr k : keep (keepalive_tick (E := E) id addr k).
Proof using P_nonce.
  apply (triple_bind _ (λ _, True)).
  - eapply triple_weaken; [by intros r _|]. apply (triple_attempt _ (λ _, True)).
    apply (triple_bind _ (λ _, True)); [by apply triple_lift|]. intros plain _.
    apply (triple_bind _ (λ _, True)); [apply keep_encrypt|]. intros sealed _.
    apply (triple_bind _ (λ _, True)); [by apply triple_lift|]. intros. apply keep_send_out.
  - intros [|] _; [|by apply triple_ret].
    apply (triple_bind _ (λ _, True)); [apply cores_keep_is_dead|]. intros. by apply triple_ret.
Qed.

Lemma keep_handshake_tick {E} id addrs m : keep (handshake_tick (E := E) id addrs m).
Proof.
  apply (triple_bind _ (λ _, True)); [by apply triple_lift|]. intros d _.
  apply (triple_bind _ (λ _, True)); [|by intros; apply triple_ret].
  induction addrs as [|a addrs IH]; simpl; [by apply triple_ret|].
  apply (triple_bind _ (λ _, True)); [apply triple_log_err, keep_send_out|done].
Qed.

Lemma keep_run_task k : keep (run_task k).
Proof using P_heartbeat P_dead P_nonce.
  intros rt Hrt. unfold run_task. destruct (tasks rt !! k) as [t|]; [|done].
  assert (keep (task_tick t)) as Ht.
  { destruct t; simpl; try apply keep_handshake_tick; [apply keep_keepalive_tick|].
    by apply cores_keep_heartbeat_tick. }
  destruct (Ht rt Hrt) as [Hrt' _]. destruct (task_tick t rt) as [rt' [[]| | | |]]; simpl in *;
    (split; [exact Hrt'|done]).
Qed.
End quiet_sends.

(** ** Packets *)

Section packets.
Context `{Crates, !CratesLaws}.
Implicit Types (st : StatelessTransportState) (p : SessionPacket) (log : list (N * Message)).

(** No message opens it under the key of the session: a packet of the handshake, of
    another session, or anything an outsider can make. *)
Definition inauthentic st p : Prop :=
  ∀ sealed n c, deserialize (sp_data p) = Some (Encrypted sealed) →
    deserialize sealed = Some (mkNonced n c) → st_read_message st n c noise_max = None.

(** What the holder of the other key sealed, or nothing that counts. *)
Definition heard st log p : Prop :=
  inauthentic st p ∨ ∃ n m, (n, m) ∈ log ∧ packet_carries st n m p.

Definition numbered_before (a b : N * Message) : Prop := (a.1 < b.1)%N.

(** The payloads of a log. *)
Definition payloads log : list bytes :=
  omap (λ e, match e.2 with Payload d => Some d | Keepalive => None end) log.

Lemma heard_app st log log' p : heard st log p → heard st (log ++ log') p.
Proof.
  intros [Hp|(n & m & Hin & Hp)]; [by left|right]. exists n, m. split; [|done].
  apply elem_of_app. by left.
Qed.

Lemma payloads_app log log' : payloads (log ++ log') = payloads log ++ payloads log'.
Proof. apply omap_app. Qed.

Lemma payloads_sublist log log' :
  log `sublist_of` log' → payloads log `sublist_of` payloads log'.
Proof.
  induction 1 as [|[n [|d]] log log' Hl IH|[n [|d]] log log' Hl IH]; simpl; try done.
  - by apply sublist_skip.
  - by apply sublist_cons.
Qed.

(** A packet of the handshake opens under no key. *)
Lemma handshake_inauthentic st id m data :
  wf m → match m with Encrypted _ => False | _ => True end → serialize m = Some data →
  inauthentic st (mkSessionPacket id data).
Proof.
  intros Hwf Hm Hs sealed n c Hde. pose proof (codec_deserialize_serialize _ _ Hwf Hs).
  by simplify_eq/=.
Qed.
End packets.

(** ** What a session hears *)

Section hearing.
Context `{Crates, !CratesLaws}.
Context (l : N) (st : StatelessTransportState) (log : list (N * Message)).
Hypothesis log_sorted : StronglySorted numbered_before log.

(** [acc] was accepted of the log of the peer: [consumed] of its payloads were read,
    [q] wait. *)
Record hears (consumed q : list bytes) (c : SessionCore) : Prop := {
  hr_state : stateless (transport c) = st;
  hr_accepted : ∃ last acc, window_at last c ∧ acc `sublist_of` log ∧
    payloads acc = consumed ++ q ∧
    Forall (λ e, ∃ m, last = Some m ∧ (e.1 ≤ m)%N) acc;
  hr_open : chan_open (messages c) = true;
  hr_queue : chan_contents (messages c) = q;
}.

Definition hearing (consumed q : list bytes) : Runtime → Prop :=
  core_inv l (hears consumed q) (λ _ _, True).

Lemma hears_same consumed q c c' :
  hears consumed q c → stateless (transport c') = stateless (transport c) →
  lt_size (transport c') = lt_size (transport c) →
  received_nonces (transport c') = received_nonces (transport c) → messages c' = messages c →
  hears consumed q c'.
Proof.
  intros [Hst (last & acc & [Hsz Hrec] & Hacc) Ho Hq] E1 E2 E3 E4.
  split; [by rewrite E1| |by rewrite E4..]. exists last, acc. split; [|done].
  by split; [rewrite E2|rewrite E3].
Qed.

Lemma hearing_run_task consumed q k : triple (hearing consumed q) (λ _, True) (run_task k).
Proof. apply keep_run_task; intros; by eapply hears_same. Qed.

Lemma hearing_Session_send consumed q s d :
  triple (hearing consumed q) (λ _, True) (Session_send s d).
Proof. apply keep_Session_send; intros; by eapply hears_same. Qed.

Lemma hearing_close {E} consumed q s :
  triple (hearing consumed q) (λ _, True) (Session_close (E := E) s).
Proof. apply cores_keep_close; intros; by eapply hears_same. Qed.

Lemma set_core_with_wake c wk rt : cores (with_wake wk (set_core l c rt)) !! l = Some c.
Proof. destruct wk; apply lookup_set_core. Qed.

(** A newer window. *)
Lemma is_newer_above last (acc : list (N * Message)) n m :
  is_newer last n = true →
  Forall (λ e, ∃ m, last = Some m ∧ (e.1 ≤ m)%N) acc →
  Forall (λ e, ¬ numbered_before (n, m) e ∧ e ≠ (n, m)) acc ∧
  Forall (λ e, ∃ m, Some n = Some m ∧ (e.1 ≤ m)%N) acc.
Proof.
  intros Hn Hacc. split; (eapply Forall_impl; [exact Hacc|]); simpl;
    intros e (k & -> & Hk); apply bool_decide_eq_true in Hn.
  - unfold numbered_before. simpl. split; [lia|]. intros ->. simpl in Hk. lia.
  - exists n. split; [done|lia].
Qed.

(** What opens to nothing moves the window at most. *)
Lemma decrypt_inauthentic t last sealed :
  lt_size t = 1%N → received_nonces t = window_last last →
  (∀ n c, deserialize sealed = Some (mkNonced n c) →
     st_read_message (stateless t) n c noise_max = None) →
  ∃ last' e, decrypt sealed t = (with_received (window_last last') t, Err e) ∧
    (last' = last ∨ ∃ n, last' = Some n ∧ is_newer last n = true).
Proof.
  intros Hsz Hrec Hno. unfold decrypt. rewrite read_message_eq, Hrec.
  destruct (deserialize sealed) as [[n c]|];
    [|exists last, BincodeError; rewrite <- Hrec; split; [by destruct t|by left]].
  rewrite window_rejects_last. destruct (is_newer last n) eqn:Hn; simpl.
  - rewrite length_replicate, (Hno n c eq_refl), Hsz, window_insert_last by done.
    exists (Some n), SnowError. split; [done|]. right. by exists n.
  - exists last, SnowError. rewrite <- Hrec. split; [by destruct t|by left].
Qed.

Lemma hearing_inauthentic consumed q s p rt :
  s_core s = l → inauthentic st p → hearing consumed q rt →
  returns (Session_handle_incoming s p rt).2 ∧
  hearing consumed q (Session_handle_incoming s p rt).1.
Proof.
  intros Hl Hp (_ & c & Hc & Hh). unfold Session_handle_incoming. unfold_monad.
  destruct (deserialize (sp_data p)) as [raw|] eqn:Hde; simpl; [|by split; [|split; eauto]].
  destruct raw as [| | |sealed]; try by split; [|split; eauto].
  destruct Hh as [Hst (last & acc & [Hsz Hrec] & Hacc & Hpay & Hlast) Ho Hq].
  destruct (decrypt_inauthentic (transport c) last sealed Hsz Hrec) as (last' & e & Hdec & Hl').
  { rewrite Hst. intros n ct. by apply Hp. }
  rewrite Hl. erewrite on_core_eq; [|exact Hc|by apply get_transport_eq]. split; [done|].
  split; [done|]. eexists. split; [apply lookup_set_core|]. split; simpl; try done.
  exists last', acc. split_and!; [by split|done|done|].
  destruct Hl' as [->|(n & -> & Hn)]; [done|]. by apply (is_newer_above _ _ _ Keepalive Hn Hlast).
Qed.

(** A message of the log: it is queued if it is new. *)
Lemma hearing_carried consumed q s n m p rt :
  s_core s = l → (n, m) ∈ log → packet_carries st n m p → hearing consumed q rt →
  returns (Session_handle_incoming s p rt).2 ∧
  ∃ new, hearing consumed (q ++ new) (Session_handle_incoming s p rt).1.
Proof using All.
  intros Hl Hin Hp (_ & c & Hc & Hh). pose proof Hh as Hh0. rewrite <- Hl in Hc.
  destruct Hh as [Hst (last & acc & Hwin & Hacc & Hpay & Hlast) Ho Hq].
  rewrite <- Hst in Hp. destruct (is_newer last n) eqn:Hn.
  2: { rewrite (receive_stale s n m p rt c last) by done. split; [done|]. exists [].
       rewrite app_nil_r. rewrite Hl in Hc. by split; eauto. }
  destruct (is_newer_above last acc n m Hn Hlast) as [Hbelow Hlast'].
  assert (acc ++ [(n, m)] `sublist_of` log) as Hacc' by (by eapply sublist_snoc_sorted).
  assert (∃ m0, Some n = Some m0 ∧ (n ≤ m0)%N) as Hself by (exists n; split; [done|lia]).
  destruct m as [|d].
  - rewrite (receive_keepalive s n p rt c last), Hl by done. split; [done|]. exists [].
    rewrite app_nil_r. split; [done|]. eexists. split; [apply lookup_set_core|].
    split; simpl; try done. exists (Some n), (acc ++ [(n, Keepalive)]).
    split_and!; [by destruct Hwin; split|done| |].
    + rewrite payloads_app, Hpay. simpl. by rewrite app_nil_r.
    + apply Forall_app. split; [done|]. by repeat constructor.
  - rewrite (receive_payload s n d p rt c last), Hl by done. split; [done|]. exists [d].
    split; [done|]. eexists. split; [apply set_core_with_wake|].
    destruct (chan_send_open d (messages c) Ho) as (_ & Ho' & Hcont).
    split; simpl; [done| |done|by rewrite Hcont, Hq].
    exists (Some n), (acc ++ [(n, Payload d)]). split_and!; [by destruct Hwin; split|done| |].
    + rewrite payloads_app, Hpay. simpl. by rewrite app_assoc.
    + apply Forall_app. split; [done|]. by repeat constructor.
Qed.

Lemma hearing_packet consumed q s p rt :
  s_core s = l → heard st log p → hearing consumed q rt →
  returns (Session_handle_incoming s p rt).2 ∧
  ∃ new, hearing consumed (q ++ new) (Session_handle_incoming s p rt).1.
Proof using All.
  intros Hl [Hp|(n & m & Hin & Hp)] Hh.
  - destruct (hearing_inauthentic consumed q s p rt Hl Hp Hh) as [Hr Hh']. split; [done|].
    exists []. by rewrite app_nil_r.
  - by eapply hearing_carried.
Qed.

(** The poll of a live session takes the first message that waits. *)
Lemma hearing_poll {E} consumed q r w rt c :
  r_core r = l → cores rt !! l = Some c → dead c = false → hears consumed q c →
  ∃ c' p, Receiving_poll (E := E) r w rt = (set_core l c' rt, Ok p) ∧ dead c' = false ∧
    match q with
    | [] => p = PollPending ∧ hears consumed [] c'
    | d :: q => p = Ready (inl d) ∧ hears (consumed ++ [d]) q c'
    end.
Proof.
  intros Hl Hc Hd Hh. rewrite <- Hl in *. destruct q as [|d q].
  - rewrite (Receiving_poll_empty r w rt c) by (done || apply Hh).
    eexists _, _. split_and!; [done|done|done|]. by eapply hears_same.
  - unfold Receiving_poll, poll_dead.
    erewrite M_bind_step by (by apply on_core_gets). rewrite Hd.
    erewrite M_bind_step by (eapply poll_try_recv_cons; [done|apply Hh]). unfold poll_wakers.
    erewrite M_bind_step; [|eapply on_core_eq; [apply lookup_set_core|reflexivity]].
    rewrite set_core_set_core. eexists _, _. split_and!; [reflexivity|done|done|].
    destruct Hh as [Hst (last & acc & Hwin & Hacc & Hpay & Hlast) Ho Hq].
    pose proof (chan_try_recv_contents (messages c)) as Htry. rewrite Hq in Htry.
    split; simpl; [done| |by rewrite chan_try_recv_open|apply Htry].
    exists last, acc. rewrite Hpay, <- app_assoc. by split_and!.
Qed.
End hearing.

(** ** What a session says *)

Section speaking.
Context `{Crates, !CratesLaws}.
Context (l : N) (id : SessionId) (st st' : StatelessTransportState).
Hypothesis sealed : sealed_for st st'.
Implicit Types (k : N) (log : list (N * Message)).

(** No task of another session of this identifier is left. *)
Definition own_keepalives (ts : gmap N Task) : Prop :=
  ∀ h id' addr core, ts !! h = Some (KeepaliveTask id' addr core) → id' = id → core = l.

(** [log] is what the session sealed so far, [k] the nonces it may still use. *)
Record speaking k log rt : Prop := {
  sp_core : ∃ c, cores rt !! l = Some c ∧ stateless (transport c) = st ∧
    (next_nonce (transport c) + k ≤ u64_max)%N ∧
    Forall (λ e, (e.1 < next_nonce (transport c))%N) log;
  sp_sorted : StronglySorted numbered_before log;
  sp_open : chan_open (outgoing rt) = true;
  sp_wire : Forall (λ x, sp_id x.1.2 = id → heard st' log x.1.2) (chan_contents (outgoing rt));
  sp_tasks : own_keepalives (tasks rt) ∧ map_Forall (λ _, task_wf) (tasks rt);
}.

Lemma speaking_weaken k k' log rt : (k' ≤ k)%N → speaking k log rt → speaking k' log rt.
Proof.
  intros Hk [(c & Hc & Hst & Hn & Hlog) Hs Ho Hw Ht]. split; try done.
  exists c. split_and!; [done|done|lia|done].
Qed.

Definition voice (c : SessionCore) : StatelessTransportState * N :=
  (stateless (transport c), next_nonce (transport c)).

(** What changes neither the counter nor the wire. *)
Lemma speaking_quiet {E A} k log (m : M Runtime E A) rt :
  (∀ v o ts, triple (core_inv l (λ c, voice c = v) (λ o' ts', o' = o ∧ ts' = ts)) (λ _, True) m) →
  speaking k log rt → speaking k log (m rt).1.
Proof.
  intros Hm [(c & Hc & Hst & Hn & Hlog) Hs Ho Hw Ht].
  destruct (Hm (voice c) (outgoing rt) (tasks rt) rt) as [[[Eo Et] (c' & Hc' & [= E1 E2])] _];
    [by split; eauto|].
  split; rewrite ?Eo, ?Et; try done. exists c'. by rewrite E1, E2.
Qed.

Lemma speaking_handle_incoming k log s p rt :
  speaking k log rt → speaking k log (Session_handle_incoming s p rt).1.
Proof.
  apply speaking_quiet. intros v o ts. unfold Session_handle_incoming.
  apply (triple_bind _ (λ _, True)); [by apply triple_lift|].
  intros [| | |e] _; try by apply triple_ret.
  apply (triple_bind _ (λ _, True)).
  { apply cores_keep_on_core. intros _ c Hc. split; [|done]. unfold get_transport, zoom.
    assert (∃ w, (decrypt e (transport c)).1 = with_received w (transport c)) as [w Hw].
    { unfold decrypt. pose proof (read_message_state e (transport c) (replicate noise_max x00)) as Hr.
      destruct (read_message _ _) as [[t buf] r]. simpl in *. subst t.
      destruct (passed_nonce _ _); [by eexists|]. exists (received_nonces (transport c)).
      by destruct (transport c). }
    destruct (decrypt e (transport c)) as [t r]. simpl in *. by subst t. }
  intros plain _. apply (triple_bind _ (λ _, True)); [by apply triple_lift|]. intros [|d] _.
  { apply cores_keep_on_core. intros _. by apply triple_modify. }
  apply (triple_bind _ (λ _, True)).
  { apply cores_keep_on_core. intros _ c Hc. unfold queue_message. by destruct (chan_send _ _). }
  intros _ _. apply (triple_bind _ (λ _, True)); [|intros; apply cores_keep_wake_option].
  apply cores_keep_on_core. intros _ c Hc. unfold pop_waker. by destruct (map_pop_first _).
Qed.

Lemma speaking_poll {E} k log r w rt :
  speaking k log rt → speaking k log (Receiving_poll (E := E) r w rt).1.
Proof.
  apply speaking_quiet. intros v o ts. unfold Receiving_poll.
  apply (triple_bind _ (λ _, True)); [apply cores_keep_is_dead|].
  intros [] _; [by apply triple_ret|]. apply (triple_bind _ (λ _, True)).
  { apply cores_keep_on_core. intros _ c Hc. by destruct (chan_try_recv _). }
  intros [] _; simpl; (apply (triple_bind _ (λ _, True));
    [apply cores_keep_on_core; intros _; by apply triple_modify|intros; by apply triple_ret]).
Qed.

Lemma speaking_close {E} k log s rt :
  speaking k log rt → speaking k log (Session_close (E := E) s rt).1.
Proof. apply speaking_quiet. intros v o ts. by apply cores_keep_close. Qed.

Lemma speaking_heartbeat_tick {E} k log core rt :
  speaking k log rt → speaking k log (heartbeat_tick (E := E) core rt).1.
Proof. apply speaking_quiet. intros v o ts. by apply cores_keep_heartbeat_tick. Qed.

Lemma speaking_abort {E} k log h rt :
  speaking k log rt → speaking k log (abort (E := E) h rt).1.
Proof.
  intros [Hc Hs Ho Hw [Ht Hwf]]. split; simpl; try done. split.
  - intros h' id' addr core [_ Hh]%lookup_delete_Some. by eapply Ht.
  - by apply map_Forall_delete.
Qed.

(** The transmit loop takes a packet. *)
Lemma speaking_transmit k log rt :
  speaking k log rt →
  speaking k log (with_outgoing (chan_try_recv (outgoing rt)).1 rt) ∧
  ∀ x, (chan_try_recv (outgoing rt)).2 = Some x → sp_id x.1.2 = id → heard st' log x.1.2.
Proof.
  intros [Hc Hs Ho Hw Ht]. pose proof (chan_try_recv_open (outgoing rt)) as Hopen.
  pose proof (chan_try_recv_contents (outgoing rt)) as Hcont.
  destruct (chan_contents (outgoing rt)) as [|y q] eqn:Hq.
  - rewrite Hcont. simpl. split; [|done]. split; simpl; try done. by rewrite Hq.
  - destruct Hcont as [-> Hrest]. apply Forall_cons in Hw as [Hy Hw].
    split; [|by intros x [= <-]]. split; simpl; try done; [by rewrite Hopen|by rewrite Hrest].
Qed.

(** One packet on the wire. *)
Lemma says_send_out k log dest p ttl :
  (sp_id p = id → heard st' log p) →
  triple (speaking k log) (λ _, True) (send_out dest p ttl).
Proof.
  intros Hp rt [Hc Hs Ho Hw Ht]. unfold send_out.
  destruct (chan_send_open (dest, p, ttl) (outgoing rt) Ho) as (_ & Ho' & Hq').
  destruct (chan_send _ _) as [o sent]. simpl in *. split; [|done]. split; simpl; try done.
  rewrite Hq'. apply Forall_app. split; [done|]. by constructor.
Qed.

Lemma says_on_core_other {E A} k log core (m : M SessionCore E A) :
  core ≠ l → triple (speaking k log) (λ _, True) (on_core core m).
Proof.
  intros Hne rt [Hc Hs Ho Hw Ht]. split; [|done]. unfold on_core.
  destruct (cores rt !! core) as [c|]; [|done]. destruct (m c) as [c' r].
  split; simpl; try done. by rewrite lookup_insert_ne.
Qed.

Lemma says_handshake {E} k log id' addrs m :
  id_wf id' → length (raw_bytes m) ≤ noise_max →
  match m with Encrypted _ => False | _ => True end →
  triple (speaking k log) (λ _, True) (handshake_tick (E := E) id' addrs m).
Proof.
  intros Hid Hlen Hm.
  apply (triple_bind _ (λ d, serialize m = Some d)).
  { apply triple_lift. intros d. by destruct (serialize m); intros; simplify_eq/=. }
  intros d Hd. apply (triple_bind _ (λ _, True)); [|by intros; apply triple_ret].
  induction addrs as [|a addrs IH]; simpl; [by apply triple_ret|].
  apply (triple_bind _ (λ _, True)); [|done]. apply triple_log_err, says_send_out. intros _.
  left. eapply handshake_inauthentic; [|exact Hm|exact Hd]. pose proof noise_max_N.
  assert (∀ b, length b ≤ noise_max → bytes_wf b) as Hb by (unfold bytes_wf, u64_modulus; lia).
  destruct m as [|[b]|[b]|b]; [exact I|exact (Hb b Hlen)..].
Qed.

(** A keepalive of another session. *)
Lemma says_keepalive_other {E} k log id' addr core :
  core ≠ l → id' ≠ id → triple (speaking k log) (λ _, True) (keepalive_tick (E := E) id' addr core).
Proof.
  intros Hcore Hid. apply (triple_bind _ (λ _, True)).
  - eapply triple_weaken; [by intros r _|]. apply (triple_attempt _ (λ _, True)).
    apply (triple_bind _ (λ _, True)); [by apply triple_lift|]. intros plain _.
    apply (triple_bind _ (λ _, True)); [by apply says_on_core_other|]. intros e _.
    apply (triple_bind _ (λ _, True)); [by apply triple_lift|]. intros. by apply says_send_out.
  - intros [|] _; [|by apply triple_ret].
    apply (triple_bind _ (λ _, True)); [by apply says_on_core_other|]. intros. by apply triple_ret.
Qed.

(** One more message of the log. *)
Lemma speaking_sent k log s p c rt m :
  s_core s = l → cores rt !! l = Some c → speaking (k + 1) log rt →
  packet_carries st' (next_nonce (transport c)) m p →
  speaking k (log ++ [(next_nonce (transport c), m)]) (sent_packet s p c rt).
Proof.
  intros Hl Hc [(c0 & Hc0 & Hst & Hn & Hlog) Hs Ho Hw Ht] Hp. simplify_eq.
  destruct (chan_send_open (s_remote_addr s, p, 64%N) (outgoing rt) Ho) as (_ & Ho' & Hq').
  unfold sent_packet. split; simpl; try done.
  - rewrite Hl, lookup_insert_eq. eexists. split; [done|]. simpl. split_and!; [done|lia|].
    apply Forall_app. split; [eapply Forall_impl; [exact Hlog|]; simpl; lia|].
    constructor; [simpl; lia|constructor].
  - apply StronglySorted_snoc. split; [done|]. rewrite Forall_forall in Hlog.
    intros y Hy. by apply Hlog.
  - rewrite Hq'. apply Forall_app. split.
    + eapply Forall_impl; [exact Hw|]. simpl. intros x Hx Hid. by apply heard_app, Hx.
    + constructor; [|constructor]. intros _. right. eexists _, _. split; [|exact Hp].
      apply elem_of_app. right. by left.
Qed.

Lemma speaking_keepalive k log id' addr rt :
  speaking (k + 1) log rt →
  ∃ new, payloads new = [] ∧ speaking k (log ++ new) (keepalive_tick (E := Error) id' addr l rt).1.
Proof using All.
  intros Hsp. destruct (sp_core _ _ _ Hsp) as (c & Hc & Hst & Hn & _).
  pose proof sealed as Hseal. rewrite <- Hst in Hseal.
  destruct (keepalive_tick_eq id' addr l c rt st' Hc Hseal) as (p & Hp & _ & _ & ->); [lia|].
  eexists [_]. split; [|by apply (speaking_sent k log _ p c rt Keepalive)]. done.
Qed.

Lemma speaking_run_task k log h rt :
  speaking (k + 1) log rt →
  ∃ new, payloads new = [] ∧ speaking k (log ++ new) (run_task h rt).1.
Proof using All.
  intros Hsp. assert (speaking k log rt) as Hsp0 by (eapply speaking_weaken; [|exact Hsp]; lia).
  unfold run_task. destruct (tasks rt !! h) as [t|] eqn:Hh;
    [|exists []; by rewrite app_nil_r].
  destruct (sp_tasks _ _ _ Hsp) as [Hown Hwf]. specialize (Hwf _ _ Hh). simpl in Hwf.
  assert (∃ new, payloads new = [] ∧ speaking k (log ++ new) (task_tick t rt).1) as (new & Hnew & Hrt).
  { assert (∀ m : M Runtime Error bool, triple (speaking k log) (λ _, True) m →
      ∃ new, payloads new = [] ∧ speaking k (log ++ new) (m rt).1) as Hquiet.
    { intros m Hm. exists []. rewrite app_nil_r. split; [done|]. by apply Hm. }
    pose proof noise_max_N as Hmax.
    destruct t as [id' a|id' a i|id' a r|id' a core|core]; simpl in *.
    - apply Hquiet, says_handshake; [done|simpl; lia|done].
    - apply Hquiet, says_handshake; [by apply Hwf|by destruct i, Hwf|done].
    - apply Hquiet, says_handshake; [by apply Hwf|by destruct r, Hwf|done].
    - destruct (decide (core = l)) as [->|Hne]; [by apply speaking_keepalive|].
      apply Hquiet, says_keepalive_other; [done|]. intros Hid. by apply Hne, (Hown h id' a).
    - exists []. rewrite app_nil_r. split; [done|]. by apply speaking_heartbeat_tick. }
  exists new. split; [done|]. destruct (task_tick t rt) as [rt' [[]| | | |]]; simpl in *;
    [done|by apply (speaking_abort (E := Error))..].
Qed.

Lemma speaking_Session_send k log s d rt :
  s_core s = l → length d + 44 ≤ noise_max → speaking (k + 1) log rt →
  ∃ new, payloads new `sublist_of` [d] ∧ speaking k (log ++ new) (Session_send s d rt).1.
Proof using All.
  intros Hl Hd Hsp. destruct (sp_core _ _ _ Hsp) as (c & Hc & Hst & Hn & _).
  pose proof sealed as Hseal. rewrite <- Hst in Hseal.
  destruct (dead c) eqn:Hdead.
  - exists []. rewrite app_nil_r. split; [apply sublist_nil_l|].
    eapply speaking_weaken; [|unfold Session_send, Session_is_dead; rewrite Hl;
      erewrite M_bind_step by (by apply on_core_gets); rewrite Hdead; exact Hsp]. lia.
  - pose proof Hc as Hc'. rewrite <- Hl in Hc'.
    destruct (Session_send_Ok s d rt c st' Hc' Hdead (sp_open _ _ _ Hsp) Hseal)
      as (p & -> & _ & _ & Hp); [lia|done|].
    eexists [_]. split; [|by apply (speaking_sent k log _ p c rt (Payload d))]. done.
Qed.
End speaking.

(** ** Apart from a session

    What is done on behalf of other sessions of the handler. *)

Section apart.
Context `{Crates, !CratesLaws} (l : N) (id : SessionId).
Implicit Types (J : Runtime → Prop).

(** No task of another session has this identifier. *)
Definition task_apart (t : Task) : Prop :=
  task_wf t ∧ match t with KeepaliveTask id' _ _ => id' ≠ id | _ => True end.

(** [J] says nothing of other cores, of tasks and packets of other identifiers, nor of
    wakers. *)
Class Apart J : Prop := {
  ap_core core c rt : core ≠ l → J rt → J (with_cores (<[core := c]> (cores rt)) rt);
  ap_woken ws rt : J rt → J (with_woken ws rt);
  ap_next_loc n rt : J rt → J (with_next_loc n rt);
  ap_abort h rt : J rt → J (with_tasks (delete h (tasks rt)) rt);
  ap_spawn h t rt : task_apart t → J rt → J (with_tasks (<[h := t]> (tasks rt)) rt);
  ap_send dest p ttl rt : sp_id p ≠ id → J rt →
    J (with_outgoing (chan_send (dest, p, ttl) (outgoing rt)).1 rt);
}.

Context J `{!Apart J}.

(** With the session's core among those allocated. *)
Definition allocated rt : Prop := J rt ∧ (l < next_loc rt)%N.

Abbreviation apart := (triple allocated).

Lemma apart_on_core {E A} core (m : M SessionCore E A) :
  core ≠ l → apart (λ _, True) (on_core core m).
Proof.
  intros Hne rt [HJ Hl]. split; [|done]. unfold on_core. destruct (cores rt !! core); [|done].
  destruct (m _) as [c r]. split; [by apply ap_core|done].
Qed.

Lemma apart_send_out dest p ttl : sp_id p ≠ id → apart (λ _, True) (send_out dest p ttl).
Proof.
  intros Hp rt [HJ Hl]. split; [|done]. pose proof (ap_send dest p ttl rt Hp HJ) as HJ'.
  unfold send_out. by destruct (chan_send _ _) as [o []].
Qed.

Lemma ap_spawned rt t : task_apart t → J rt → J (spawned rt t).
Proof.
  intros Ht HJ. apply (ap_spawn _ _ (with_next_loc (next_loc rt + 1) rt) Ht). by apply ap_next_loc.
Qed.

Lemma apart_spawn {E} t : task_apart t → apart (λ _, True) (spawn (E := E) t).
Proof.
  intros Ht rt [HJ Hl]. split; [|done]. split; simpl; [|lia]. by apply (ap_spawned rt t).
Qed.

Lemma apart_wake_option {E} wk : apart (λ _, True) (wake_option (E := E) wk).
Proof.
  destruct wk; [|by apply triple_ret]. intros rt [HJ Hl]. split; [|done].
  split; [by apply ap_woken|done].
Qed.

Lemma apart_incoming s p : s_core s ≠ l → apart (λ _, True) (Session_handle_incoming s p).
Proof.
  intros Hs. unfold Session_handle_incoming.
  apply (triple_bind _ (λ _, True)); [by apply triple_lift|].
  intros [| | |e] _; try by apply triple_ret.
  apply (triple_bind _ (λ _, True)); [by apply apart_on_core|]. intros plain _.
  apply (triple_bind _ (λ _, True)); [by apply triple_lift|].
  intros [|d] _; [by apply apart_on_core|].
  apply (triple_bind _ (λ _, True)); [by apply apart_on_core|]. intros _ _.
  apply (triple_bind _ (λ _, True)); [by apply apart_on_core|].
  intros. apply apart_wake_option.
Qed.

Lemma apart_Session_send s d :
  s_core s ≠ l → s_id s ≠ id → apart (λ _, True) (Session_send s d).
Proof.
  intros Hs Hid. apply (triple_bind _ (λ _, True)); [by apply apart_on_core|].
  intros [] _; [by apply triple_lift|].
  apply (triple_bind _ (λ _, True)); [by apply triple_lift|]. intros plain _.
  apply (triple_bind _ (λ _, True)); [by apply apart_on_core|]. intros sealed _.
  apply (triple_bind _ (λ _, True)); [by apply triple_lift|]. intros. by apply apart_send_out.
Qed.

Lemma apart_poll {E} r w : r_core r ≠ l → apart (λ _, True) (Receiving_poll (E := E) r w).
Proof.
  intros Hr. unfold Receiving_poll. apply (triple_bind _ (λ _, True)); [by apply apart_on_core|].
  intros [] _; [by apply triple_ret|].
  apply (triple_bind _ (λ _, True)); [by apply apart_on_core|].
  intros [] _; simpl; (apply (triple_bind _ (λ _, True)); [by apply apart_on_core|]);
    intros; by apply triple_ret.
Qed.

#[export] Instance apart_keeps :
  RuntimeKeeps allocated (λ i, i ≠ id ∧ id_wf i) (λ s, s_core s ≠ l ∧ s_id s ≠ id).
Proof.
  split.
  - intros E rt [HJ Hl]. split; [|done]. split; [by apply ap_next_loc|simpl; lia].
  - intros E h rt [HJ Hl]. split; [|done]. split; [by apply ap_abort|done].
  - intros E ws rt [HJ Hl]. split; [|done]. split; [by apply ap_woken|done].
  - intros E i a [Hi Hwf]. by apply apart_spawn.
  - intros E i a m [Hi Hwf] Hm. by apply apart_spawn.
  - intros E i a m [Hi Hwf] Hm. by apply apart_spawn.
  - intros i addr t [Hi Hwf] rt [HJ Hl]. rewrite Session_new_eq. split.
    + split; simpl; [|lia].
      assert (J (with_new_core t rt)) as HJ1.
      { apply (ap_core (next_loc rt) _ (with_next_loc (next_loc rt + 1) rt)); [lia|].
        by apply ap_next_loc. }
      by apply ap_spawned; [split|apply ap_spawned; [split|]].
    + intros s [= <-]. simpl. split; [lia|done].
  - intros s p [Hs Hid]. by apply apart_incoming.
  - intros s d [Hs Hid]. by apply apart_Session_send.
  - intros E s [Hs Hid]. by apply apart_on_core.
  - intros E s [Hs Hid]. by apply apart_on_core.
Qed.
End apart.

#[export] Instance hearing_apart `{Crates, !CratesLaws} l id st log consumed q :
  Apart l id (hearing l st log consumed q).
Proof.
  split; unfold hearing, core_inv.
  - intros core c rt Hne (_ & c' & Hc'). split; [done|]. exists c'. simpl; by rewrite lookup_insert_ne.
  - by intros.
  - by intros.
  - by intros.
  - by intros.
  - by intros.
Qed.

#[export] Instance speaking_apart `{Crates, !CratesLaws} l id st st' k log :
  Apart l id (speaking l id st st' k log).
Proof.
  split.
  - intros core c rt Hne [Hc Hs Ho Hw Ht]. split; simpl; try done. by rewrite lookup_insert_ne.
  - by intros ws rt [].
  - by intros n rt [].
  - intros h rt Hsp. by apply (speaking_abort (E := Error) l id st st' k log h rt).
  - intros h t rt [Hwf Hid] [Hc Hs Ho Hw [Ht Hts]]. split; simpl; try done. split.
    + intros h' id' a core [[_ ->]|[_ Hh]]%lookup_insert_Some; [done|by eapply Ht].
    + by apply map_Forall_insert_2.
  - intros dest p ttl rt Hp Hsp.
    destruct (says_send_out l id st st' k log dest p ttl ltac:(done) rt Hsp) as [Hsp' _].
    revert Hsp'. unfold send_out. by destruct (chan_send _ _) as [o []].
Qed.
