(* ===== verification/Veq.v ===== *)
(** * The socket and the session of the user

    Models [src/veq.rs]: a [VeqSocket] over the handler, the two loops that join the
    handler to the network socket, and the [VeqSession] a connection gives, a chunker
    over the session of the handler.  The state of the handler ([World]) is the state
    of the computations. *)

From S2P Require Import Prelude Std Externals SnowTypes Transform Session Handler DualStack IpDiscovery.

(** ** The order of public keys

    [derive(PartialOrd)] on [SnowPublicKey(Vec<u8>)]: lexicographic. *)
Fixpoint bytes_lt (a b : bytes) : bool :=
  match a, b with
  | [], [] => false
  | [], _ :: _ => true
  | _ :: _, [] => false
  | x :: a, y :: b =>
      if decide (to_N x < to_N y)%N then true
      else if decide (to_N y < to_N x)%N then false
      else bytes_lt a b
  end.

Definition SnowPublicKey_lt (a b : SnowPublicKey) : bool :=
  bytes_lt (public_bytes a) (public_bytes b).

(** ** The socket *)

(** The handler is the state the operations work on. *)
Record VeqSocket := mkVeqSocket {
  vs_connection_info : ConnectionInfo;
  vs_keypair : SnowKeypair;
}.

Section socket.
Context `{Crates, Udp, !Discovery}.

(** The socket and its handler; [discover_ips] comes first.  The two loops are
    spawned, see [receive_turn] and [transmit_turn]. *)
Definition from_socket {S} `{MaybeDual S UdpSocket} (socket : S) (keypair : SnowKeypair)
    : outcome Error (VeqSocket * World) :=
  addresses ← discover_ips socket;
  mret (mkVeqSocket (mkConnectionInfo addresses (public keypair)) keypair,
        Handler_new keypair).

Definition io_error {A} (r : outcome IoError A) : outcome Error A :=
  map_err (λ _, Anyhow "io") r.

(** [parsed] is what the address string parses to. *)
Definition bind_with_keypair (parsed : option SocketAddr) (keypair : SnowKeypair)
    : outcome Error (VeqSocket * World) :=
  socket ← io_error (VersionedSocket_bind parsed);
  from_socket socket keypair.

Definition bind (rng : N) (parsed : option SocketAddr) : outcome Error (VeqSocket * World) :=
  keypair ← SnowKeypair_new rng;
  bind_with_keypair parsed keypair.

Definition dualstack_with_keypair (v4_addr v6_addr : SocketAddr) (keypair : SnowKeypair)
    : outcome Error (VeqSocket * World) :=
  socket ← io_error (DualSocket_dualstack v4_addr v6_addr);
  from_socket socket keypair.

Definition dualstack (rng : N) (parsed_v4 parsed_v6 : option SocketAddr)
    : outcome Error (VeqSocket * World) :=
  keypair ← SnowKeypair_new rng;
  v4_addr ← ok_or (Anyhow "parse") parsed_v4;
  v6_addr ← ok_or (Anyhow "parse") parsed_v6;
  dualstack_with_keypair v4_addr v6_addr keypair.
End socket.

(** ** The loops over the network socket *)

(** The length of the receive buffer. *)
Definition datagram_max : nat := N.to_nat 65536.

Section loops.
Context `{Crates} {S : Type} `{BidirSocket S}.

(** One turn of the receive loop: what arrived goes to the handler; errors are
    logged. *)
Definition receive_turn {E} (choices : list bool) : M (S * World) E unit :=
  received ← attempt (zoom fst (λ s '(_, w), (s, w))
    (bs_recv_from choices (replicate datagram_max x00)));
  match received with
  | inl (buf, len, src) =>
      data ← lift (slice_to len buf);
      log_err (zoom snd (λ w '(s, _), (s, w)) (handle_incoming src data))
  | inr _ => mret tt
  end.

(** One turn of the transmit loop. *)
Definition transmit_turn {E} : M (S * World) E unit :=
  '(dest, packet, ttl) ← zoom snd (λ w '(s, _), (s, w)) recv_outgoing;
  match serialize packet with
  | None => mret tt
  | Some serialized =>
      log_err (zoom fst (λ s '(_, w), (s, w)) (bs_set_ttl ttl));;
      attempt (zoom fst (λ s '(_, w), (s, w)) (bs_send_to serialized dest));;
      mret tt
  end.
End loops.

(** ** Connections *)

Record BidirectionalSession := mkBidirectionalSession {
  bds_id : SessionId;
  bds_one_time_id : OneTimeId;
}.

Record VeqSession (T : Type) := mkVeqSession { vsn_delegate : T; vsn_remote_addr : SocketAddr }.
#[global] Arguments mkVeqSession {T}.
#[global] Arguments vsn_delegate {T}.
#[global] Arguments vsn_remote_addr {T}.

Section connections.
Context `{Crates}.

Definition connection_info (s : VeqSocket) : ConnectionInfo := vs_connection_info s.
Definition keypair (s : VeqSocket) : SnowKeypair := vs_keypair s.

Definition is_initiator (s : VeqSocket) (info : ConnectionInfo) : bool :=
  SnowPublicKey_lt (public_key (vs_connection_info s)) (public_key info).

(** The call that gives the future, which is awaited next. *)
Definition connect_start (s : VeqSocket) (rng : N) (one_time_id : OneTimeId) (id : SessionId)
    (info : ConnectionInfo) : M World Error SessionReady :=
  if is_initiator s info
  then initiate rng one_time_id id info
  else respond rng one_time_id id info.

(** A poll of [connect] from then on: the future again, or the session. *)
Definition connect_resume (r : SessionReady) (waker : Waker)
    : M World Error (SessionReady + VeqSession (Chunker BidirectionalSession)) :=
  '(r, p) ← SessionReady_poll r waker;
  match p with
  | PollPending => mret (inl r)
  | Ready (id, one_time_id) =>
      SessionReady_drop r;;
      addr ← remote_addr id;
      remote_addr ← lift (ok_or (Anyhow "Failed to get remote addr") addr);
      mret (inr (mkVeqSession
        (Chunker_new (mkBidirectionalSession id one_time_id) 4096) remote_addr))
  end.

(** [impl Drop for BidirectionalSession] *)
Definition BidirectionalSession_drop {E} (b : BidirectionalSession) : M World E unit :=
  close_session (bds_id b) (bds_one_time_id b).

(** *** Sending and receiving

    The state of a session in use: its identifiers, the world of its handler, the
    waker of the task that uses it, and the next identifier [Uuid::new_v4] draws. *)
Record SessionInUse := mkSessionInUse {
  siu_session : BidirectionalSession;
  siu_world : World;
  siu_waker : Waker;
  siu_fresh : N;
}.

Definition with_siu_world (w : World) (s : SessionInUse) : SessionInUse :=
  mkSessionInUse (siu_session s) w (siu_waker s) (siu_fresh s).
Definition with_siu_fresh (n : N) (s : SessionInUse) : SessionInUse :=
  mkSessionInUse (siu_session s) (siu_world s) (siu_waker s) n.

Definition BidirectionalSession_send (data : bytes) : M SessionInUse VeqError unit := λ s,
  let '(w, r) := send (bds_id (siu_session s)) data (siu_world s) in
  (with_siu_world w s, map_err (λ _, Disconnected) r).

(** The future of [recv], polled once: [Pending] when it has to wait.  A program that
    waits is one that calls [recv] again at the next poll, with a new [Receiving], while
    the code polls the [Receiving] it has (veq.rs, lines 190 to 198); the [Receiving]
    left behind keeps its waker registered, as a dropped one does. *)
Definition BidirectionalSession_recv : M SessionInUse VeqError bytes :=
  s ← get;
  future ← zoom siu_world with_siu_world
    (recv_from (bds_id (siu_session s)) (siu_fresh s));
  modify (with_siu_fresh (siu_fresh s + 1));;
  future ← lift (ok_or Disconnected future);
  p ← zoom siu_world with_siu_world (on_runtime (Receiving_poll future (siu_waker s)));
  match p with
  | Ready (inl data) => mret data
  | Ready (inr _) => lift (Err Disconnected)
  | PollPending => lift Pending
  end.

#[export] Instance BidirectionalSession_Bidirectional : Bidirectional SessionInUse := {|
  bsend := BidirectionalSession_send;
  brecv := BidirectionalSession_recv;
|}.
End connections.

(** [impl<T: Bidirectional> VeqSession<T>] *)
Section session.
Context {T : Type} `{Bidirectional T}.

Definition with_vsn_delegate (d : T) (s : VeqSession T) : VeqSession T :=
  mkVeqSession d (vsn_remote_addr s).

Definition VeqSession_send (data : bytes) : M (VeqSession T) VeqError unit :=
  zoom vsn_delegate with_vsn_delegate (bsend data).
Definition VeqSession_recv : M (VeqSession T) VeqError bytes :=
  zoom vsn_delegate with_vsn_delegate brecv.
Definition VeqSession_remote_addr {E} : M (VeqSession T) E SocketAddr :=
  gets vsn_remote_addr.
End session.

#[global] Arguments datagram_max : simpl never.
#[global] Opaque datagram_max.
#[global] Arguments BidirectionalSession_send : simpl never.
#[global] Arguments BidirectionalSession_recv : simpl never.
