(* ===== verification/VeqProps.v ===== *)
(** * Properties of the socket and the session of the user

    Who initiates, what the loops over the network socket do, and the delivery of
    non-empty messages of any length from one user to the other. *)

From S2P Require Import Prelude Std Externals Layout Engine SnowTypes Transport Transform Reassembly Delegates.
From S2P Require Import Session SessionFacts Concrete SessionProps Handler Table HandlerFacts Reachable HandlerProps Connection DualStack IpDiscovery Veq.

(** ** Who initiates *)

Lemma bytes_lt_irrefl a : bytes_lt a a = false.
Proof. induction a as [|x a IH]; simpl; [done|]. by rewrite !decide_False by lia. Qed.

Lemma bytes_lt_flip a b : a ≠ b → bytes_lt a b = negb (bytes_lt b a).
Proof.
  revert b. induction a as [|x a IH]; intros [|y b] Hne; simpl; try done.
  destruct (decide (to_N x < to_N y)%N) as [Hlt|Hge].
  - by rewrite (decide_False (P := (to_N y < to_N x)%N)) by lia.
  - destruct (decide (to_N y < to_N x)%N) as [Hgt|Hle]; [done|].
    apply IH. intros ->. apply Hne. f_equal.
    assert (to_N x = to_N y) as Heq by lia.
    pose proof (of_to_N x) as Hx. rewrite Heq, of_to_N in Hx. by injection Hx.
Qed.

(** C31. Of two sockets with different public keys, told of each other, exactly one
    initiates; with the same key neither does, and both wait. *)
Theorem one_initiator (s1 s2 : VeqSocket) :
  xorb (is_initiator s1 (connection_info s2)) (is_initiator s2 (connection_info s1)) =
    negb (bool_decide (public_bytes (public_key (connection_info s1)) =
                       public_bytes (public_key (connection_info s2)))).
Proof.
  unfold is_initiator, SnowPublicKey_lt, connection_info.
  set (a := public_bytes _). set (b := public_bytes _). case_bool_decide as Heq.
  - by rewrite Heq, !bytes_lt_irrefl.
  - rewrite (bytes_lt_flip a b Heq). by destruct (bytes_lt b a).
Qed.

(** ** The loops over the network socket *)

(** C25. Nothing the network does stops the loops of a socket: whatever a receive
    returns, a turn of the receive loop hands the handler exactly the bytes of the
    datagram and goes on; a turn of the transmit loop sends the packet at the head of
    the queue, serialized, to its destination, even when the time to live could not
    be set, and goes on when it could not be sent. *)
Theorem loops_go_on `{Crates, !CratesLaws} {S} `{BidirSocket S} (s s' : S) (w : World)
    (choices : list bool) (r : outcome IoError Datagram) (dest : SocketAddr)
    (p : SessionPacket) (ttl : N) (q : list Outgoing) (data : bytes) (s1 s2 : S)
    (r1 : outcome IoError unit) (r2 : outcome IoError nat) :
  reachable w →
  bs_recv_from choices (replicate datagram_max x00) s = (s', r) → returns r →
  (∀ b n a, r = Ok (b, n, a) → n ≤ length b) →
  chan_contents (outgoing (runtime w)) = (dest, p, ttl) :: q → serialize p = Some data →
  bs_set_ttl ttl s = (s1, r1) → returns r1 → bs_send_to data dest s1 = (s2, r2) → returns r2 →
  receive_turn (E := Error) choices (s, w) =
    ((s', match r with
          | Ok (buf, len, src) => (handle_incoming src (take len buf) w).1
          | _ => w
          end), Ok tt) ∧
  ∃ w', transmit_turn (E := Error) (s, w) = ((s2, w'), Ok tt) ∧
    chan_contents (outgoing (runtime w')) = q ∧
    pokers w' = pokers w ∧ initiators w' = initiators w ∧ responders w' = responders w ∧
    established w' = established w ∧ cores (runtime w') = cores (runtime w) ∧
    tasks (runtime w') = tasks (runtime w).
Proof.
  intros [T Hok]%reachable_ok Hrecv Hr Hlen Hq Hser Httl Hr1 Hsend Hr2. split.
  - unfold receive_turn, attempt, zoom. unfold_monad. simpl. rewrite Hrecv.
    destruct r as [[[buf len] src]| | | |]; try done. simpl. unfold slice_to.
    rewrite decide_True by (by eapply Hlen). simpl.
    assert (∃ w', handle_incoming src (take len buf) w = (w', Ok tt) ∨
      handle_incoming src (take len buf) w = (w', Err BincodeError)) as (w' & [-> | ->]); [|done..].
    unfold handle_incoming, mbind, M_bind, lift.
    destruct (deserialize _) as [packet|]; [|by eexists; right].
    destruct (dispatch_ok src packet w T Hok) as (w' & Hd & _). exists w'. by left.
  - pose proof (chan_try_recv_contents (outgoing (runtime w))) as Htry. rewrite Hq in Htry.
    destruct Htry as [Hhead Hrest].
    unfold transmit_turn, recv_outgoing, attempt, zoom. unfold_monad. simpl.
    destruct (chan_try_recv (outgoing (runtime w))) as [c item]. simpl in *. subst item.
    simpl. rewrite Hser. simpl. rewrite Httl. simpl.
    destruct r1 as [[]| | | |]; try done; simpl; rewrite Hsend;
      destruct r2; try done; simpl; eexists; (split; [reflexivity|]); done.
Qed.

Definition loop_world : @World crates :=
  (@on_runtime crates Error unit (run_task 0) demo_initiating).1.

Definition loop_socket (inbox outbox : list (bytes * SocketAddr)) : @VersionedSocket list_udp :=
  @V4 list_udp (mkListSocket (SocketAddrV4 0 9) inbox outbox 64).

Lemma loops_go_on_witness :
  ∃ q w', @chan_contents _ _ (list_channel_laws Outgoing) (outgoing (runtime loop_world)) = [q] ∧
    @transmit_turn crates _ (@VersionedSocket_BidirSocket list_udp) Error
      (loop_socket [([x01], SocketAddrV4 5 5)] [], loop_world)
    = (loop_socket [([x01], SocketAddrV4 5 5)] [(demo_datagram q.1.2, SocketAddrV4 1 2)], w',
       Ok tt).
Proof.
  set (buf := replicate datagram_max x00).
  set (p := default (mkSessionPacket 0 []) ((λ q, q.1.2) <$> head (outgoing (runtime loop_world)).2)).
  destruct (@loops_go_on crates crates_laws _ (@VersionedSocket_BidirSocket list_udp)
    (loop_socket [([x01], SocketAddrV4 5 5)] []) (loop_socket [] []) loop_world []
    (Ok (zip_copy buf [x01], 1 `min` length buf, SocketAddrV4 5 5))
    (SocketAddrV4 1 2) p 64 [] (demo_datagram p) (loop_socket [([x01], SocketAddrV4 5 5)] [])
    (loop_socket [([x01], SocketAddrV4 5 5)] [(demo_datagram p, SocketAddrV4 1 2)])
    (Ok tt) (Ok (length (demo_datagram p)))) as (_ & w' & Ht & _).
  - by exists (demo_keys 1), [EvInitiate 3 100 7 (demo_info 2); EvTask 0].
  - reflexivity.
  - exact I.
  - intros b n a Heq. assert (b = zip_copy buf [x01]) as -> by congruence.
    assert (n = 1 `min` length buf) as -> by congruence.
    rewrite zip_copy_length. apply Nat.le_min_r.
  - reflexivity.
  - reflexivity.
  - reflexivity.
  - exact I.
  - reflexivity.
  - exact I.
  - exists (SocketAddrV4 1 2, p, 64%N), w'. split; [reflexivity|exact Ht].
Defined.

(** ** From user to user *)

(** The length bincode documents for a chunk: four integers and its data. *)
Class ChunkLayout `{Codec ChunkedData} := {
  chunk_length c bs : serialize c = Some bs → length bs = 32 + length (cd_data c);
}.

Section end_to_end.
Context `{Crates, !CratesLaws, Codec ChunkedData, !CodecLaws ChunkedData, !ChunkLayout}.

(** No packet of a message cut into chunks of [n] bytes is longer than [n + 32]. *)
Lemma packets_length n g d x : x ∈ packets n g d → length x ≤ n + 32.
Proof.
  unfold packets. rewrite list_elem_of_omap. intros (ch & Hch & Hx).
  rewrite (chunk_length _ _ Hx).
  apply list_elem_of_lookup in Hch as [i Hi].
  apply make_chunks_lookup in Hi as (c & Hc & ->). simpl.
  apply list_elem_of_lookup_2 in Hc. apply chunks_fuel_size in Hc. lia.
Qed.

Lemma packets_count n g d : length (packets n g d) ≤ length d.
Proof.
  etrans; [|apply (message_chunks_length_le n g)].
  unfold packets. induction (message_chunks n g d) as [|ch chs IH]; simpl; [done|].
  destruct (serialize ch); simpl; [by apply le_n_S|by apply le_S].
Qed.

Lemma numbered_snoc st n l addr p ttl d :
  numbered st n l → packet_carries st (n + N.of_nat (length l)) (Payload d) p →
  numbered st n (l ++ [(addr, p, ttl, d)]).
Proof.
  induction 1 as [n|n addr' p' ttl' d' l Hp Hl IH]; simpl; intros Hcar.
  - rewrite N.add_0_r in Hcar. constructor; [done|constructor].
  - constructor; [done|]. apply IH.
    by replace (n + 1 + N.of_nat (length l))%N with (n + N.of_nat (S (length l)))%N by lia.
Qed.

(** The packets [q] the session in use has sent so far are on the wire after [base]:
    each in one message of the session, numbered from [n0] on. *)
Record sending (o : OneTimeId) (sess : Session) (st st' : StatelessTransportState) (n0 : N)
    (base : list Outgoing) (s : SessionInUse) (q : list bytes) : Prop := {
  sn_entry : established (siu_world s) !! bds_id (siu_session s) = Some (o, sess);
  sn_core : ∃ c, cores (runtime (siu_world s)) !! s_core sess = Some c ∧ dead c = false ∧
    stateless (transport c) = st ∧ next_nonce (transport c) = (n0 + N.of_nat (length q))%N;
  sn_open : chan_open (outgoing (runtime (siu_world s))) = true;
  sn_wire : ∃ ps, chan_contents (outgoing (runtime (siu_world s))) = base ++ ps ∧
    length ps = length q ∧ numbered st' n0 (zip ps q) ∧
    Forall (λ m, sp_id m.1.2 = s_id sess ∧ bytes_wf (sp_data m.1.2)) ps;
}.

Lemma session_pushes o sess st st' n0 base :
  sealed_for st st' →
  Pushes (sending o sess st st' n0 base)
    (λ q x, (n0 + N.of_nat (length q) < u64_max)%N ∧ length x + 44 ≤ noise_max).
Proof.
  intros Hseal s q x [Hentry (c & Hc & Hd & Hst & Hnext) Hopen (ps & Hps & Hlen & Hnum & Hall)]
    [Hmax Hx].
  rewrite <- Hst in Hseal. rewrite <- Hnext in Hmax.
  destruct (Session_send_Ok sess x (runtime (siu_world s)) c st' Hc Hd Hopen Hseal Hmax Hx)
    as (p & Hsend & Hpid & Hpwf & Hcar).
  destruct (chan_send_open (s_remote_addr sess, p, 64%N) (outgoing (runtime (siu_world s)))
    Hopen) as (_ & Hopen' & Hcont).
  exists (with_siu_world (with_runtime (sent_packet sess p c (runtime (siu_world s)))
    (siu_world s)) s). split.
  - simpl. unfold BidirectionalSession_send, send. unfold_monad. rewrite Hentry.
    unfold on_runtime, zoom. by rewrite Hsend.
  - split; simpl.
    + done.
    + eexists. rewrite lookup_insert_eq. split_and!; [done|done|done|].
      simpl. rewrite Hnext, length_app. simpl. lia.
    + done.
    + exists (ps ++ [(s_remote_addr sess, p, 64%N)]). rewrite Hcont, Hps, <- app_assoc.
      split_and!; [done|by rewrite !length_app, Hlen| |].
      * rewrite zip_with_app by done. apply numbered_snoc; [done|].
        rewrite length_zip_with_l_eq by done. by rewrite Hlen, <- Hnext.
      * apply Forall_app. split; [done|]. by repeat constructor.
Qed.

(** The messages queued at a live session in use are [q]. *)
Record receiving (o : OneTimeId) (sess : Session) (s : SessionInUse) (q : list bytes) : Prop := {
  rc_entry : established (siu_world s) !! bds_id (siu_session s) = Some (o, sess);
  rc_core : ∃ c, cores (runtime (siu_world s)) !! s_core sess = Some c ∧ dead c = false ∧
    chan_contents (messages c) = q;
}.

#[export] Instance session_pops o sess : Pops (receiving o sess).
Proof.
  intros s x q [Hentry (c & Hc & Hd & Hcont)].
  destruct (Receiving_poll_cons (E := VeqError) (Receiving_new (s_core sess) (siu_fresh s))
    (siu_waker s) (runtime (siu_world s)) c x q Hc Hd Hcont)
    as (rt' & c' & Hpoll & Hc' & Hd' & Hcont').
  assert (recv_from (E := VeqError) (bds_id (siu_session s)) (siu_fresh s) (siu_world s) =
    (siu_world s, Ok (Some (Receiving_new (s_core sess) (siu_fresh s))))) as Hrecv.
  { unfold recv_from. erewrite M_bind_step by reflexivity. rewrite Hentry.
    erewrite M_bind_step by (by apply is_dead_eq). rewrite Hd.
    unfold on_runtime, zoom, Session_recv, Session_is_dead.
    erewrite M_bind_step by (by apply on_core_gets). rewrite Hd. by destruct (siu_world s). }
  exists (with_siu_fresh (siu_fresh s + 1)
    (with_siu_world (with_runtime rt' (siu_world s)) s)). split.
  - simpl. unfold BidirectionalSession_recv. unfold_monad. rewrite Hrecv. simpl.
    unfold on_runtime, zoom. rewrite Hpoll. done.
  - split; simpl; [done|]. by exists c'.
Qed.

(** The datagrams of the packets [ps] arrive one after the other from [src]. *)
Fixpoint deliver (src : SocketAddr) (ps : list Outgoing) : M World Error unit :=
  match ps with
  | [] => mret tt
  | (_, p, _) :: ps =>
      data ← lift (ok_or BincodeError (serialize p));
      handle_incoming src data;;
      deliver src ps
  end.

(** Datagrams for an established session are handed to it. *)
Lemma deliver_established src ps w T id o s rt' :
  represents w T → established w !! id = Some (o, s) → (id < 256 ^ 16)%N →
  Forall (λ m, sp_id m.1.2 = id ∧ bytes_wf (sp_data m.1.2)) ps →
  handle_all s ps (runtime w) = (rt', Ok tt) →
  deliver src ps w = (with_runtime rt' w, Ok tt).
Proof.
  intros HR Hs Hid Hps. revert w HR Hs.
  induction ps as [|[[addr p] ttl] ps IH]; intros w HR Hs; simpl.
  { intros [= <-]. by destruct w. }
  apply Forall_cons in Hps as [[Hpid Hpwf] Hps]. simpl in Hpid, Hpwf.
  intros (rt1 & [] & Hin & Hrest)%M_bind_Ok.
  destruct (codec_roundtrip p) as (data & Hser & Hde).
  { split; [by rewrite Hpid|exact Hpwf]. }
  erewrite M_bind_step by (unfold lift; by rewrite Hser).
  assert (handle_incoming src data w = (with_runtime rt1 w, Ok tt)) as Hdisp.
  { rewrite (handle_incoming_packet _ _ p) by done. erewrite dispatch_eq by done.
    rewrite Hpid. assert (T !! id = Some (SEstablished o s)) as -> by (by apply HR).
    unfold log_err, on_runtime, zoom. by rewrite Hin. }
  erewrite M_bind_step by exact Hdisp.
  rewrite (IH Hps (with_runtime rt1 w)); [by destruct w| | |exact Hrest].
  - by eapply represents_same; try exact HR.
  - exact Hs.
Qed.

(** The packets of several messages. *)
Lemma all_packets_length n g ds x : x ∈ all_packets n g ds → length x ≤ n + 32.
Proof.
  revert g. induction ds as [|d ds IH]; intros g; simpl; [by intros []%not_elem_of_nil|].
  rewrite elem_of_app. intros [Hx|Hx]; [by eapply packets_length|by eapply IH].
Qed.

Lemma all_packets_count n g ds : length (all_packets n g ds) ≤ length (concat ds).
Proof.
  revert g. induction ds as [|d ds IH]; intros g; simpl; [done|].
  rewrite !length_app. pose proof (packets_count n g d). specialize (IH (g + 1)%N). lia.
Qed.

(** The messages a user sends, and receives, one after the other. *)
Fixpoint veq_send_all (ds : list bytes) : M (VeqSession (Chunker SessionInUse)) VeqError unit :=
  match ds with
  | [] => mret tt
  | d :: ds => VeqSession_send (H := Chunker_Bidirectional 0) d;; veq_send_all ds
  end.

Fixpoint veq_recv_all (fuel k : nat)
    : M (VeqSession (Chunker SessionInUse)) VeqError (list bytes) :=
  match k with
  | O => mret []
  | S k =>
      d ← VeqSession_recv (H := Chunker_Bidirectional fuel);
      ds ← veq_recv_all fuel k;
      mret (d :: ds)
  end.

Lemma veq_send_all_eq ds v :
  veq_send_all ds v = zoom vsn_delegate with_vsn_delegate (send_messages ds) v.
Proof.
  revert v. induction ds as [|d ds IH]; intros v; unfold zoom; simpl.
  - by destruct v.
  - unfold mbind, M_bind, VeqSession_send, zoom. simpl.
    destruct (Chunker_send d (vsn_delegate v)) as [c [[]| | | |]]; try reflexivity.
    rewrite IH. unfold zoom. simpl. by destruct (send_messages ds c).
Qed.

Lemma veq_recv_all_eq fuel k v :
  veq_recv_all fuel k v = zoom vsn_delegate with_vsn_delegate (recv_messages fuel k) v.
Proof.
  revert v. induction k as [|k IH]; intros v; unfold zoom; simpl.
  - by destruct v.
  - unfold mbind, M_bind, VeqSession_recv, zoom. simpl.
    destruct (Chunker_recv fuel (vsn_delegate v)) as [c [d| | | |]]; try reflexivity.
    rewrite IH. unfold zoom. simpl. by destruct (recv_messages fuel k c) as [c' [| | | |]].
Qed.

(** The session of a user, as [connect] returns it, in the hands of a task. *)
Definition in_use (id : SessionId) (o : OneTimeId) (addr : SocketAddr) (w : World)
    (waker : Waker) (fresh : N) : VeqSession (Chunker SessionInUse) :=
  mkVeqSession (Chunker_new (mkSessionInUse (mkBidirectionalSession id o) w waker fresh) 4096)
    addr.

Definition world_of (v : VeqSession (Chunker SessionInUse)) : World :=
  siu_world (delegate (vsn_delegate v)).
(** A user sends over a live session: the messages, numbered on from the session's
    counter, are on the wire. *)
Lemma user_sends w id o sess c st addr waker fresh ds :
  reachable w → established w !! id = Some (o, sess) → cores (runtime w) !! s_core sess = Some c →
  dead c = false → chan_open (outgoing (runtime w)) = true →
  sealed_for (stateless (transport c)) st →
  Forall (λ d, (N.of_nat (length d) < u64_modulus)%N) ds →
  (next_nonce (transport c) + N.of_nat (length (concat ds)) ≤ u64_max)%N →
  (N.of_nat (length ds) < u64_modulus)%N →
  ∃ v ps, veq_send_all ds (in_use id o addr w waker fresh) = (v, Ok tt) ∧
    chan_contents (outgoing (runtime (world_of v))) = chan_contents (outgoing (runtime w)) ++ ps ∧
    length ps = length (all_packets (N.to_nat 4096) 0 ds) ∧
    numbered st (next_nonce (transport c)) (zip ps (all_packets (N.to_nat 4096) 0 ds)) ∧
    Forall (λ m, sp_id m.1.2 = id ∧ bytes_wf (sp_data m.1.2)) ps.
Proof.
  intros [T [HR Htab]]%reachable_ok Hid Hc Hd Hopen Hseal Hds Hmax Hcount.
  pose proof noise_max_N as Hnm.
  assert (s_id sess = id) as Hsid.
  { assert (T !! id = Some (SEstablished o sess)) as Hsl by (by apply HR).
    by destruct (to_slot _ _ _ Htab _ _ Hsl). }
  set (n0 := next_nonce (transport c)) in *.
  set (qs := all_packets (N.to_nat 4096) 0 ds).
  pose proof (all_packets_count (N.to_nat 4096) 0 ds) as Hqs. fold qs in Hqs.
  pose proof (session_pushes o sess (stateless (transport c)) st n0
    (chan_contents (outgoing (runtime w))) Hseal) as Hpush.
  destruct (send_messages_refines _ _ (Pushes0 := Hpush) ds []
    (vsn_delegate (in_use id o addr w waker fresh))) as (s' & Hsend & HR'); simpl.
  { split; simpl; [done| |done|].
    - exists c. split_and!; [done|done|done|]. by rewrite N.add_0_r.
    - exists []. rewrite app_nil_r. split_and!; [done|done|constructor|constructor]. }
  { fold qs. intros i x Hi. pose proof (lookup_lt_Some _ _ _ Hi) as Hlt.
    rewrite length_take. split; [lia|].
    apply list_elem_of_lookup_2, all_packets_length in Hi. lia. }
  { unfold u64_modulus. simpl. lia. }
  { simpl. lia. }
  { exact Hds. }
  fold qs in HR'. rewrite app_nil_l in HR'. destruct HR' as [_ _ _ (ps & Hps & Hlen & Hnum & Hall)].
  exists (with_vsn_delegate
    (with_current_group (0 + N.of_nat (length ds)) (with_delegate s'
       (vsn_delegate (in_use id o addr w waker fresh)))) (in_use id o addr w waker fresh)), ps.
  rewrite Hsid in Hall. split; [|split; [exact Hps|split; [exact Hlen|split; assumption]]].
  rewrite veq_send_all_eq. unfold zoom. by rewrite Hsend.
Qed.

(** The packets arrive, and the user at the other end receives the messages. *)
Lemma user_receives src ps w id o sess c last n addr waker fresh ds fuel :
  reachable w → established w !! id = Some (o, sess) → cores (runtime w) !! s_core sess = Some c →
  dead c = false → chan_open (messages c) = true → chan_contents (messages c) = [] →
  window_at last c → is_newer last n = true → (id < 256 ^ 16)%N → Forall (sendable fuel) ds →
  (N.of_nat (length ds) < u64_modulus)%N →
  length ps = length (all_packets (N.to_nat 4096) 0 ds) →
  numbered (stateless (transport c)) n (zip ps (all_packets (N.to_nat 4096) 0 ds)) →
  Forall (λ m, sp_id m.1.2 = id ∧ bytes_wf (sp_data m.1.2)) ps →
  ∃ w' v, deliver src ps w = (w', Ok tt) ∧
    veq_recv_all fuel (length ds) (in_use id o addr w' waker fresh) = (v, Ok ds).
Proof.
  intros [T Hok]%reachable_ok Hid Hc Hd Hopen Hempty Hwin Hnew Hidmax Hds Hcount Hlen Hnum Hall.
  set (qs := all_packets (N.to_nat 4096) 0 ds) in *.
  destruct (handle_all_sub sess n (zip ps qs) (zip ps qs) (runtime w) c last Hnum
    ltac:(reflexivity) Hc Hopen Hwin Hnew) as (rt' & c' & Hhandle & Hc' & Hd' & Hm').
  rewrite fst_zip in Hhandle by lia. rewrite snd_zip, Hempty, app_nil_l in Hm' by lia.
  exists (with_runtime rt' w).
  pose proof (deliver_established src ps w T id o sess rt' (proj1 Hok) Hid Hidmax Hall Hhandle)
    as Hdeliver.
  destruct (recv_messages_refines (receiving o sess) fuel (length ds)
    (mkSessionInUse (mkBidirectionalSession id o) (with_runtime rt' w) waker fresh)
    (mkChunker qs 4096 0 ∅ []) (mkChunker [] 4096 0 ∅ []) ds) as (d' & Hrecv & _).
  { split; simpl; [done|]. exists c'. split_and!; [done|congruence|done]. }
  { apply (recv_messages_VecDeque (N.to_nat 4096)); [lia|simpl; lia|done]. }
  eexists. split; [exact Hdeliver|]. rewrite veq_recv_all_eq. unfold zoom.
  change (vsn_delegate (in_use id o addr (with_runtime rt' w) waker fresh)) with
    (redelegate (mkSessionInUse (mkBidirectionalSession id o) (with_runtime rt' w) waker fresh)
       (mkChunker qs 4096 0 ∅ [])).
  rewrite Hrecv. reflexivity.
Qed.

Lemma sendable_u64 fuel ds :
  Forall (sendable fuel) ds → Forall (λ d, (N.of_nat (length d) < u64_modulus)%N) ds.
Proof.
  intros Hds. pose proof alloc_slots_le. eapply Forall_impl; [exact Hds|].
  intros d (_ & _ & Hd). unfold u64_modulus. lia.
Qed.
End end_to_end.

(** C4. What one user sends the other receives: non-empty messages of any length the
    allocator grants (an empty one is never received: [empty_message_lost]), cut into
    chunks of 4096 bytes, sealed, put on the wire, delivered in order to the handler
    of the peer, opened and reassembled, come out unchanged and in order, with no
    panic on the way, within the length of the longest message (plus one) of turns of
    the receive loop per message. *)
Theorem messages_end_to_end `{Crates, !CratesLaws, Codec ChunkedData, !CodecLaws ChunkedData,
    !ChunkLayout} (wA wB : World) (id : SessionId) (oA oB : OneTimeId) (sA sB : Session)
    (cA cB : SessionCore) (last : option N) (src addrA addrB : SocketAddr)
    (wakA wakB : Waker) (frA frB : N) (ds : list bytes) (fuel : nat) :
  reachable wA → reachable wB →
  established wA !! id = Some (oA, sA) → cores (runtime wA) !! s_core sA = Some cA →
  dead cA = false → chan_open (outgoing (runtime wA)) = true →
  established wB !! id = Some (oB, sB) → cores (runtime wB) !! s_core sB = Some cB →
  dead cB = false → chan_open (messages cB) = true → chan_contents (messages cB) = [] →
  sealed_for (stateless (transport cA)) (stateless (transport cB)) →
  window_at last cB → is_newer last (next_nonce (transport cA)) = true →
  (id < 256 ^ 16)%N → Forall (sendable fuel) ds →
  (next_nonce (transport cA) + N.of_nat (length (concat ds)) ≤ u64_max)%N →
  (N.of_nat (length ds) < u64_modulus)%N →
  ∃ vA ps wB' vB,
    veq_send_all ds (in_use id oA addrA wA wakA frA) = (vA, Ok tt) ∧
    chan_contents (outgoing (runtime (world_of vA))) =
      chan_contents (outgoing (runtime wA)) ++ ps ∧
    deliver src ps wB = (wB', Ok tt) ∧
    veq_recv_all fuel (length ds) (in_use id oB addrB wB' wakB frB) = (vB, Ok ds).
Proof.
  intros HrA HrB HA HcA HdA HoA HB HcB HdB HoB HmB Hseal Hwin Hnew Hid Hds Hmax Hcount.
  destruct (user_sends wA id oA sA cA _ addrA wakA frA ds HrA HA HcA HdA HoA Hseal
    (sendable_u64 _ _ Hds) Hmax Hcount) as (vA & ps & Hsend & Hps & Hlen & Hnum & Hall).
  destruct (user_receives src ps wB id oB sB cB last _ addrB wakB frB ds fuel HrB HB HcB HdB HoB
    HmB Hwin Hnew Hid Hds Hcount Hlen Hnum Hall) as (wB' & vB & Hdel & Hrecv).
  exists vA, ps, wB', vB. split; [exact Hsend|]. split; [exact Hps|]. by split.
Qed.

Lemma chunk_layout : @ChunkLayout chunk_codec.
Proof.
  split. intros c bs Hs. rewrite <- (inj Some _ _ Hs). unfold chunk_coder, iso_coder, pair_coder.
  cbn [put vec_coder int_coder fst snd]. rewrite !length_app, !length_le_put. cbn [fst snd]. lia.
Qed.

(** Two handlers of the concrete crates after the handshake. *)
Definition demo_initiation_packet : SessionPacket :=
  mkSessionPacket 7 (put raw_coder (HandshakeInitiation (mkSnowInitiation (x01 :: le_put 8 1 ++ le_put 8 3)))).
Definition demo_first_keepalive : SessionPacket :=
  mkSessionPacket 7 (put raw_coder (Encrypted (put nonced_coder
    (mkNonced 0 (put message_coder Keepalive ++ engine_tag demo_session_key 0))))).
Definition demo_connected_A : @World crates := @run_events crates
  [EvInitiate 3 100 7 (demo_info 2); EvTask 0;
   EvPacket (SocketAddrV4 1 2) (demo_datagram demo_response); EvTask 3] (demo_handler 1).
Definition demo_connected_B : @World crates := @run_events crates
  [EvRespond 4 200 7 (demo_info 1); EvPacket (SocketAddrV4 1 1) (demo_datagram demo_initiation_packet);
   EvTask 2; EvPacket (SocketAddrV4 1 1) (demo_datagram demo_first_keepalive)] (demo_handler 2).
Definition core_of (w : @World crates) (l : N) : @SessionCore crates :=
  default demo_core (cores (runtime w) !! l).

Lemma messages_end_to_end_witness :
  ∃ vA ps wB' vB,
    @veq_send_all crates chunk_codec [[x01; x02]; [x03]]
      (in_use 7 100 (SocketAddrV4 1 2) demo_connected_A 31 0) = (vA, Ok tt) ∧
    deliver (SocketAddrV4 1 1) ps demo_connected_B = (wB', Ok tt) ∧
    @veq_recv_all crates chunk_codec 5 2 (in_use 7 200 (SocketAddrV4 1 1) wB' 32 0) =
      (vB, Ok [[x01; x02]; [x03]]).
Proof.
  destruct (@messages_end_to_end crates crates_laws chunk_codec chunk_codec_laws chunk_layout
    demo_connected_A demo_connected_B 7 100 200 (mkSession 7 (SocketAddrV4 1 2) 2)
    (mkSession 7 (SocketAddrV4 1 1) 3) (core_of demo_connected_A 2) (core_of demo_connected_B 3)
    (Some 0%N) (SocketAddrV4 1 1) (SocketAddrV4 1 2) (SocketAddrV4 1 1) 31 32 0 0
    [[x01; x02]; [x03]] 5) as (vA & ps & wB' & vB & Hsend & _ & Hdel & Hrecv).
  - by eexists _, _.
  - by eexists _, _.
  - reflexivity.
  - reflexivity.
  - reflexivity.
  - reflexivity.
  - reflexivity.
  - reflexivity.
  - reflexivity.
  - reflexivity.
  - reflexivity.
  - apply (engine_sealed_for demo_session_key).
  - split; reflexivity.
  - reflexivity.
  - reflexivity.
  - repeat (apply Forall_cons; split); try apply Forall_nil; try exact I; unfold sendable;
      (split; [discriminate|split; [simpl; lia|discriminate]]).
  - apply N.leb_le. reflexivity.
  - reflexivity.
  - exists vA, ps, wB', vB. split_and!; assumption.
Defined.
