(* ===== verification/Receive.v ===== *)
(** * Receiving on the session of a user

    What [VeqSession::recv] does in every state of the handler: it ends, and over a
    live session it is the reference reader of [Delegates] on the packets queued. *)

From S2P Require Import Prelude Std Externals Layout Engine SnowTypes Transport Transform Reassembly Delegates.
From S2P Require Import Session SessionFacts Concrete SessionProps Handler Table HandlerFacts Reachable HandlerProps Connection DualStack IpDiscovery Veq VeqProps.

Section receive.
Context `{Crates, !CratesLaws}.
Implicit Types (s : SessionInUse) (w : World).

(** A session that is alive gives a future. *)
Lemma recv_from_alive {E} id fresh w o sess c :
  established w !! id = Some (o, sess) → cores (runtime w) !! s_core sess = Some c →
  dead c = false →
  recv_from (E := E) id fresh w = (w, Ok (Some (Receiving_new (s_core sess) fresh))).
Proof.
  intros Hentry Hc Hd. unfold recv_from. erewrite M_bind_step by reflexivity. rewrite Hentry.
  erewrite M_bind_step by (by apply is_dead_eq). rewrite Hd.
  unfold on_runtime, zoom, Session_recv, Session_is_dead.
  erewrite M_bind_step by (by apply on_core_gets). rewrite Hd. by destruct w.
Qed.

(** A session that is dead is removed. *)
Lemma recv_from_dead {E} id fresh w o sess c :
  established w !! id = Some (o, sess) → cores (runtime w) !! s_core sess = Some c →
  dead c = true →
  recv_from (E := E) id fresh w =
    (with_established (delete id (established w)) w, Ok None).
Proof.
  intros Hentry Hc Hd. unfold recv_from. erewrite M_bind_step by reflexivity. rewrite Hentry.
  erewrite M_bind_step by (by apply is_dead_eq). rewrite Hd.
  erewrite M_bind_step by (by eapply delete_established_eq).
  assert (with_dead true c = c) as -> by (destruct c; simpl in *; by subst).
  by rewrite set_core_id.
Qed.

(** The messages waiting at the session, if it is alive. *)
Definition queued s : list bytes :=
  match established (siu_world s) !! bds_id (siu_session s) with
  | Some (_, sess) =>
      match cores (runtime (siu_world s)) !! s_core sess with
      | Some c => if dead c then [] else chan_contents (messages c)
      | None => []
      end
  | None => []
  end.

#[export] Instance session_stalls o sess : Stalls (receiving o sess).
Proof.
  intros s [Hentry (c & Hc & Hd & Hcont)].
  pose proof (recv_from_alive (E := VeqError) _ (siu_fresh s) _ _ _ _ Hentry Hc Hd) as Hrecv.
  pose proof (Receiving_poll_empty (E := VeqError) (Receiving_new (s_core sess) (siu_fresh s))
    (siu_waker s) _ _ Hc Hd Hcont) as Hpoll.
  eexists. split.
  - simpl. unfold BidirectionalSession_recv. unfold_monad. rewrite Hrecv. simpl.
    unfold on_runtime, zoom. rewrite Hpoll. reflexivity.
  - split; simpl; [done|]. eexists. by rewrite lookup_insert_eq.
Qed.
(** In any state of the handler, a receive answers, and a message it returns was
    waiting at the session. *)
#[export] Instance session_drains : Drains (D := SessionInUse) (λ s, length (queued s)).
Proof.
  assert (∀ s, (∀ o sess c, established (siu_world s) !! bds_id (siu_session s) = Some (o, sess) →
      cores (runtime (siu_world s)) !! s_core sess = Some c → dead c = false → False) →
    ∀ d x, (brecv s).2 ≠ OutOfFuel ∧ brecv s ≠ (d, Ok x)) as Hno.
  { intros s Hs d x. simpl. unfold BidirectionalSession_recv, recv_from. unfold_monad.
    destruct (established (siu_world s) !! _) as [[o sess]|] eqn:He; simpl; [|done].
    unfold on_runtime, zoom, Session_is_dead, on_core.
    destruct (cores (runtime (siu_world s)) !! s_core sess) as [c|] eqn:Hc; [|done]. simpl.
    destruct (dead c) eqn:Hd; [|by destruct (Hs o sess c)].
    unfold delete_established, drop_established, on_runtime, zoom. unfold_monad. rewrite He.
    unfold Session_drop, Session_close, on_core. simpl. rewrite lookup_insert_eq. done. }
  assert (∀ s, (brecv s).2 ≠ OutOfFuel ∧
    ∀ d x, brecv s = (d, Ok x) → length (queued d) < length (queued s)) as Hall.
  { intros s.
    destruct (established (siu_world s) !! bds_id (siu_session s)) as [[o sess]|] eqn:He;
      [destruct (cores (runtime (siu_world s)) !! s_core sess) as [c|] eqn:Hc;
        [destruct (dead c) eqn:Hd|]|];
      try (split; [apply (Hno s ltac:(intros; congruence) s [])
                  |intros d x Hb; by destruct (proj2 (Hno s ltac:(intros; congruence) d x))]).
    destruct (chan_contents (messages c)) as [|x q] eqn:Hq.
    - destruct (brecv_stalls (R := receiving o sess) s) as (d & -> & _); [by split; eauto|done].
    - destruct (brecv_pops (R := receiving o sess) s x q) as (d & -> & [He' (c' & Hc' & Hd' & Hq')]);
        [by split; eauto|].
      split; [done|]. intros d' y [= <- <-]. unfold queued.
      rewrite He, Hc, Hd, He', Hc', Hd', Hq, Hq'. simpl. lia. }
  split; [intros d d' x; apply Hall|intros d; apply Hall].
Qed.
End receive.

(** C18. [VeqSession::recv] ends: in any state of the handler and of the chunker, one
    turn of the loop more than there are messages waiting at the session is enough for
    an answer (a message, an error, a panic, or waiting), and the bound on the turns
    does not change the answer. *)
Theorem recv_terminates `{Crates, !CratesLaws, Codec ChunkedData}
    (v : VeqSession (Chunker SessionInUse)) (more : nat) :
  let turns := S (length (queued (delegate (vsn_delegate v)))) in
  (VeqSession_recv (H := Chunker_Bidirectional turns) v).2 ≠ OutOfFuel ∧
  VeqSession_recv (H := Chunker_Bidirectional (turns + more)) v =
    VeqSession_recv (H := Chunker_Bidirectional turns) v.
Proof.
  intros turns. unfold VeqSession_recv, zoom. cbn [brecv Chunker_Bidirectional].
  destruct (Chunker_recv_terminates (λ s, length (queued s)) turns (vsn_delegate v)
    (Nat.lt_succ_diag_r _)) as [Hans Hmore].
  rewrite Hmore. by destruct (Chunker_recv turns (vsn_delegate v)).
Qed.

(** C10. Over a live session [VeqSession::recv] is the reference reader on the messages
    that wait there: same result, panics on malformed chunks included, same state of
    the chunker, and the messages it did not read still wait; when they run out, it
    waits too. *)
Theorem recv_is_read_queue `{Crates, !CratesLaws, Codec ChunkedData} (o : OneTimeId)
    (sess : Session) (s : SessionInUse) (c : Chunker unit) (addr : SocketAddr)
    (q : list bytes) (fuel : nat) :
  receiving o sess s q → length q < fuel →
  ∃ s', VeqSession_recv (H := Chunker_Bidirectional fuel) (mkVeqSession (redelegate s c) addr) =
      (mkVeqSession (redelegate s' (read_queue q c).1.1) addr, (read_queue q c).2) ∧
    receiving o sess s' (read_queue q c).1.2.
Proof.
  intros HR Hfuel.
  destruct (Chunker_recv_reads (receiving o sess) q fuel s c HR Hfuel) as (s' & Hrecv & HR').
  exists s'. split; [|done]. unfold VeqSession_recv, zoom. simpl. by rewrite Hrecv.
Qed.

(** A live session at which a message of two chunks waits, out of order. *)
Definition waiting_chunks : list bytes :=
  [put chunk_coder (mkChunkedData 4 1 2 [x02]); put chunk_coder (mkChunkedData 4 0 2 [x01])].
Definition waiting_session : @SessionInUse crates :=
  @mkSessionInUse crates (mkBidirectionalSession 7 200)
    (@with_runtime crates (@set_core crates 3
       (@with_messages crates (true, waiting_chunks) (core_of demo_connected_B 3))
       (runtime demo_connected_B)) demo_connected_B) 32 0.

Lemma recv_is_read_queue_witness :
  ∃ s', @VeqSession_recv _ (@Chunker_Bidirectional (@crates_platform crates) chunk_codec _
      (@BidirectionalSession_Bidirectional crates) 3)
      (mkVeqSession (redelegate waiting_session (Chunker_new tt 4096)) (SocketAddrV4 1 1)) =
    (mkVeqSession (redelegate s' (Chunker_new tt 4096)) (SocketAddrV4 1 1), Ok [x01; x02]).
Proof.
  destruct (@recv_is_read_queue crates crates_laws chunk_codec 200
    (mkSession 7 (SocketAddrV4 1 1) 3) waiting_session (Chunker_new tt 4096) (SocketAddrV4 1 1)
    waiting_chunks 3) as (s' & Hrecv & _).
  - split; [reflexivity|]. eexists. split_and!; reflexivity.
  - apply Nat.lt_succ_diag_r.
  - exists s'. exact Hrecv.
Defined.
