(* ===== verification/Lifecycle.v ===== *)
(** * The life of a connection

    How [connect] ends, and how the end of a connection reaches the peer: the user
    drops the session, its keepalive stops, and the heartbeat of the peer disconnects
    the user there. *)

From S2P Require Import Prelude Std Externals Layout Engine SnowTypes Transport Transform Reassembly Delegates.
From S2P Require Import Session SessionFacts Concrete SessionProps Handler Table HandlerFacts Reachable HandlerProps Connection DualStack IpDiscovery Veq VeqProps Receive.

(** ** The polls of [connect] *)

(** C22. A poll of [connect] while the connection is pending keeps its waker (unless it
    kept one before) and waits.  Once the connection was notified, the poll returns a
    session with the identifiers of the connection, a fresh chunker of 4096 bytes and
    the address the peer used, or an error if the identifier has no session any more;
    the future is spent: its drop spawns no removal. *)
Theorem connect_resume_spec `{Crates, !CratesLaws} (w : World) (r : SessionReady)
    (waker : Waker) (n : Notice) (k : nat) :
  notices w !! sr_notice r = Some n → bc_pending (nt_channel n) = Some k →
  ∃ w' result, connect_resume r waker w = (w', result) ∧
    established w' = established w ∧ closers w' = closers w ∧ runtime w' = runtime w ∧
    match k with
    | O => ∃ r', result = Ok (inl r') ∧ sr_id r' = sr_id r ∧
        sr_one_time_id r' = sr_one_time_id r ∧ sr_added_waker r' = true ∧
        sr_completed r' = sr_completed r ∧
        ∃ n', notices w' !! sr_notice r = Some n' ∧
          nt_wakers n' = nt_wakers n ++ (if sr_added_waker r then [] else [waker])
    | S _ =>
        result = match established w !! sr_id r with
                 | Some (_, s) =>
                     Ok (inr (mkVeqSession
                       (Chunker_new (mkBidirectionalSession (sr_id r) (sr_one_time_id r)) 4096)
                       (s_remote_addr s)))
                 | None => Err (Anyhow "Failed to get remote addr")
                 end
    end.
Proof.
  intros Hn Hk. unfold connect_resume, SessionReady_poll, ready_try_recv, on_notice.
  unfold_monad. rewrite Hn. destruct k as [|k].
  - rewrite (bc_try_recv_none _ Hk). simpl. unfold ready_add_waker, on_notice. unfold_monad.
    destruct (sr_added_waker r) eqn:Hadded; simpl.
    + eexists _, _. split_and!; [reflexivity|done..|]. exists r. split_and!; try done.
      simpl. rewrite lookup_insert_eq, app_nil_r. by eexists.
    + rewrite lookup_insert_eq. simpl. eexists _, _. split_and!; [reflexivity|done..|].
      eexists. split_and!; [reflexivity|done..|]. simpl. rewrite lookup_insert_eq. by eexists.
  - destruct (bc_try_recv_some _ _ Hk) as [Hrecv _].
    destruct (bc_try_recv (nt_channel n)) as [b ok]. simpl in Hrecv. subst ok. simpl.
    unfold SessionReady_drop, remote_addr, on_notice. unfold_monad. rewrite lookup_insert_eq.
    simpl. destruct (established w !! sr_id r) as [[o s]|]; simpl;
      (eexists _, _; split_and!; [reflexivity|done..|reflexivity]).
Qed.

(** The future of the connection of [demo_connected_A], notified and not polled yet. *)
Definition demo_future : SessionReady := SessionReady_new 7 100 1.

Lemma connect_resume_spec_witness :
  ∃ w', @connect_resume crates demo_future 31 demo_connected_A =
    (w', Ok (inr (mkVeqSession (Chunker_new (mkBidirectionalSession 7 100) 4096)
       (SocketAddrV4 1 2)))).
Proof.
  destruct (@connect_resume_spec crates crates_laws demo_connected_A demo_future 31
    (default (@mkNotice crates None []) (notices demo_connected_A !! 1%N)) 1)
    as (w' & result & Hres & _ & _ & _ & Heq); [reflexivity|reflexivity|].
  exists w'. rewrite Hres. f_equal. exact Heq.
Defined.

(** ** The end of a connection *)

Section ending.
Context `{Crates, !CratesLaws}.
Implicit Types (w : World).

(** The drop of the session of a user, and the removal it spawns. *)
Lemma drop_and_close w id o s c :
  reachable w → established w !! id = Some (o, s) → cores (runtime w) !! s_core s = Some c →
  (BidirectionalSession_drop (E := Error) (mkBidirectionalSession id o);;
   run_closer (length (closers w))) w =
    (with_runtime (set_core (s_core s) (with_dead true c) (runtime w))
       (with_established (delete id (established w)) w), Ok tt).
Proof.
  intros [T Hok]%reachable_ok Hid Hc.
  assert (T !! id = Some (SEstablished o s)) as Hsl by (by apply Hok).
  erewrite M_bind_step by reflexivity. unfold run_closer.
  erewrite M_bind_step by reflexivity. cbn [closers with_closers bds_id bds_one_time_id].
  rewrite lookup_app_r, Nat.sub_diag by lia. simpl.
  erewrite M_bind_step by reflexivity.
  assert (with_closers (delete (length (closers w)) (closers w ++ [(id, o)]))
    (with_closers (closers w ++ [(id, o)]) w) = w) as ->.
  { rewrite delete_middle, app_nil_r. by destruct w. }
  rewrite (remove_session_eq _ _ _ T Hok), Hsl. simpl. rewrite bool_decide_true by done.
  by rewrite Hc.
Qed.

(** Two ticks of the heartbeat with nothing received in between. *)
Lemma two_silent_ticks w l core c :
  tasks (runtime w) !! l = Some (HeartbeatTask core) → cores (runtime w) !! core = Some c →
  heartbeat c = true →
  ∃ w2 w3, on_runtime (run_task l) w = (w2, Ok tt) ∧ on_runtime (run_task l) w2 = (w3, Ok tt) ∧
    tasks (runtime w3) !! l = None ∧ established w3 = established w ∧
    cores (runtime w3) !! core = Some (with_dead true (with_heartbeat false c)) ∧
    ∀ k waker, wakers c !! k = Some waker → waker ∈ woken (runtime w3).
Proof.
  intros Hl Hc Hb. unfold on_runtime, zoom, run_task. rewrite Hl. simpl task_tick.
  rewrite (heartbeat_tick_beat core c _ Hc Hb).
  eexists _, _. split; [reflexivity|]. simpl. rewrite Hl. simpl task_tick.
  rewrite (heartbeat_tick_silent core (with_heartbeat false c)) by
    (try apply lookup_set_core; done).
  split; [reflexivity|]. split_and!; simpl.
  - apply lookup_delete_eq.
  - done.
  - rewrite insert_insert_eq. apply lookup_insert_eq.
  - intros k waker Hk. apply elem_of_app. right. by eapply waker_values_complete.
Qed.

(** On a dead session the user is told. *)
Lemma dead_session_recv id o s c w waker fresh :
  established w !! id = Some (o, s) → cores (runtime w) !! s_core s = Some c → dead c = true →
  ∃ d, BidirectionalSession_recv
      (mkSessionInUse (mkBidirectionalSession id o) w waker fresh) = (d, Err Disconnected) ∧
    established (siu_world d) !! id = None.
Proof.
  intros Hid Hc Hd.
  pose proof (recv_from_dead (E := VeqError) id fresh w o s c Hid Hc Hd) as Hrecv.
  eexists. split; [unfold BidirectionalSession_recv; unfold_monad; by rewrite Hrecv|].
  apply lookup_delete_eq.
Qed.

Lemma dead_session_send id o s c w waker fresh data :
  established w !! id = Some (o, s) → cores (runtime w) !! s_core s = Some c → dead c = true →
  BidirectionalSession_send data
      (mkSessionInUse (mkBidirectionalSession id o) w waker fresh) =
    (mkSessionInUse (mkBidirectionalSession id o) w waker fresh, Err Disconnected).
Proof.
  intros Hid Hc Hd. unfold BidirectionalSession_send, send. simpl.
  erewrite M_bind_step by reflexivity. rewrite Hid. unfold on_runtime, zoom, Session_send.
  unfold Session_is_dead. erewrite M_bind_step by (by apply on_core_gets). rewrite Hd.
  unfold lift. simpl. unfold with_siu_world. simpl. by destruct w.
Qed.

(** A keepalive that arrives at an established session. *)
Lemma keepalive_arrives src w id o s c last n p data :
  reachable w → established w !! id = Some (o, s) → cores (runtime w) !! s_core s = Some c →
  window_at last c → is_newer last n = true → sp_id p = id →
  packet_carries (stateless (transport c)) n Keepalive p → deserialize data = Some p →
  handle_incoming src data w =
    (with_runtime (set_core (s_core s) (with_heartbeat true (advance n c)) (runtime w)) w, Ok tt).
Proof.
  intros [T Hok]%reachable_ok Hid Hc Hwin Hn Hp Hcar Hdata.
  assert (T !! id = Some (SEstablished o s)) as Hsl by (by apply Hok).
  rewrite (handle_incoming_packet _ _ p) by done. erewrite dispatch_eq by apply Hok.
  rewrite Hp, Hsl. unfold log_err, on_runtime, zoom.
  by rewrite (receive_keepalive s n p (runtime w) c last Hc Hwin Hn Hcar).
Qed.
End ending.

(** C11. The end of a connection reaches the peer.  When a user drops the session, the
    removal this spawns takes it out of the handler (sending on it fails from then on);
    its keepalive task puts one last keepalive on the wire and ends.  After this packet
    the second tick of the heartbeat at the peer disconnects the session there: its task
    ends, every reader that waited is woken, and sending and receiving return
    [VeqError::Disconnected]; the receive also removes the entry. *)
Theorem drop_disconnects_peer `{Crates, !CratesLaws} (wA wB : World) (id : SessionId)
    (oA oB : OneTimeId) (sA sB : Session) (cA cB : SessionCore) (lK lH : N)
    (last : option N) (src : SocketAddr) :
  reachable wA → reachable wB → (id < 256 ^ 16)%N →
  established wA !! id = Some (oA, sA) → cores (runtime wA) !! s_core sA = Some cA →
  tasks (runtime wA) !! lK = Some (KeepaliveTask id (s_remote_addr sA) (s_core sA)) →
  chan_open (outgoing (runtime wA)) = true → (next_nonce (transport cA) < u64_max)%N →
  established wB !! id = Some (oB, sB) → cores (runtime wB) !! s_core sB = Some cB →
  tasks (runtime wB) !! lH = Some (HeartbeatTask (s_core sB)) →
  sealed_for (stateless (transport cA)) (stateless (transport cB)) →
  window_at last cB → is_newer last (next_nonce (transport cA)) = true →
  ∃ wA1 wA2 p data wB1 wB2 wB3,
    (BidirectionalSession_drop (E := Error) (mkBidirectionalSession id oA);;
     run_closer (length (closers wA))) wA = (wA1, Ok tt) ∧
    established wA1 !! id = None ∧
    (∀ d, send id d wA1 = (wA1, Err (Anyhow "SessionId {id} is not in established sessions"))) ∧
    on_runtime (run_task lK) wA1 = (wA2, Ok tt) ∧ tasks (runtime wA2) !! lK = None ∧
    chan_contents (outgoing (runtime wA2)) =
      chan_contents (outgoing (runtime wA)) ++ [(s_remote_addr sA, p, 64%N)] ∧
    serialize p = Some data ∧ handle_incoming src data wB = (wB1, Ok tt) ∧
    on_runtime (run_task lH) wB1 = (wB2, Ok tt) ∧ on_runtime (run_task lH) wB2 = (wB3, Ok tt) ∧
    tasks (runtime wB3) !! lH = None ∧
    (∀ k waker, wakers cB !! k = Some waker → waker ∈ woken (runtime wB3)) ∧
    ∀ waker fresh d,
      let user := mkSessionInUse (mkBidirectionalSession id oB) wB3 waker fresh in
      BidirectionalSession_send d user = (user, Err Disconnected) ∧
      ∃ user', BidirectionalSession_recv user = (user', Err Disconnected) ∧
        established (siu_world user') !! id = None.
Proof.
  intros HA HB Hidmax HidA HcA HlK Hopen Hmax HidB HcB HlH Hseal Hwin Hnew.
  pose proof (drop_and_close wA id oA sA cA HA HidA HcA) as Hdrop.
  set (wA1 := with_runtime _ _) in Hdrop.
  assert (cores (runtime wA1) !! s_core sA = Some (with_dead true cA)) as HcA1
    by apply lookup_set_core.
  destruct (keepalive_tick_eq id (s_remote_addr sA) (s_core sA) (with_dead true cA)
    (runtime wA1) (stateless (transport cB)) HcA1 Hseal Hmax) as (p & Hcar & Hpid & Hpwf & Htick).
  destruct (chan_send_open (s_remote_addr sA, p, 64%N) (outgoing (runtime wA1)) Hopen)
    as (Hsent & _ & Hcont).
  rewrite Hsent in Htick.
  destruct (codec_roundtrip p) as (data & Hser & Hde).
  { split; [by rewrite Hpid|exact Hpwf]. }
  pose proof (keepalive_arrives src wB id oB sB cB last _ p data HB HidB HcB Hwin Hnew Hpid Hcar
    Hde) as Harr.
  set (wB1 := with_runtime _ wB) in Harr.
  destruct (two_silent_ticks wB1 lH (s_core sB) _ HlH (lookup_set_core _ _ _) eq_refl)
    as (wB2 & wB3 & Ht1 & Ht2 & HlB & HeB & HcB3 & Hwoken).
  exists wA1. eexists _, p, data, wB1, wB2, wB3.
  assert (established wA1 !! id = None) as HnoA by apply lookup_delete_eq.
  split_and!; [exact Hdrop|exact HnoA| | | | |exact Hser|exact Harr|exact Ht1|exact Ht2|exact HlB
    |exact Hwoken|].
  - intros d. unfold send. erewrite M_bind_step by reflexivity. by rewrite HnoA.
  - unfold on_runtime, zoom, run_task. change (tasks (runtime wA1)) with (tasks (runtime wA)).
    rewrite HlK. simpl task_tick. change (set_core _ _ _) with (runtime wA1).
    rewrite Htick. reflexivity.
  - apply lookup_delete_eq.
  - exact Hcont.
  - intros waker fresh d user.
    assert (established wB3 !! id = Some (oB, sB)) as HidB3 by (rewrite HeB; exact HidB).
    split; [by eapply dead_session_send|by eapply dead_session_recv].
Qed.

Lemma drop_disconnects_peer_witness :
  ∃ (wA1 wA2 : @World crates) (data : bytes) (wB1 wB2 wB3 : @World crates),
    established wA1 !! 7%N = None ∧ on_runtime (run_task 3) wA1 = (wA2, Ok tt) ∧
    handle_incoming (SocketAddrV4 1 1) data demo_connected_B = (wB1, Ok tt) ∧
    on_runtime (run_task 5) wB1 = (wB2, Ok tt) ∧ on_runtime (run_task 5) wB2 = (wB3, Ok tt) ∧
    ∃ user', BidirectionalSession_recv (mkSessionInUse (mkBidirectionalSession 7 200) wB3 31 0) =
      (user', Err Disconnected).
Proof.
  destruct (@drop_disconnects_peer crates crates_laws demo_connected_A demo_connected_B 7 100 200
    (mkSession 7 (SocketAddrV4 1 2) 2) (mkSession 7 (SocketAddrV4 1 1) 3)
    (core_of demo_connected_A 2) (core_of demo_connected_B 3) 3 5 (Some 0%N) (SocketAddrV4 1 1))
    as (wA1 & wA2 & p & data & wB1 & wB2 & wB3 & _ & Hgone & _ & Hkeep & _ & _ & _ & Harr &
        Ht1 & Ht2 & _ & _ & Huser).
  - by eexists _, _.
  - by eexists _, _.
  - reflexivity.
  - reflexivity.
  - reflexivity.
  - reflexivity.
  - reflexivity.
  - apply N.ltb_lt. reflexivity.
  - reflexivity.
  - reflexivity.
  - reflexivity.
  - apply (engine_sealed_for demo_session_key).
  - split; reflexivity.
  - reflexivity.
  - destruct (Huser 31%N 0%N []) as (_ & user' & Hrecv & _).
    exists wA1, wA2, data, wB1, wB2, wB3. split; [exact Hgone|].
    split; [exact Hkeep|]. split; [exact Harr|]. split; [exact Ht1|]. split; [exact Ht2|].
    exists user'. exact Hrecv.
Defined.
