(* ===== verification/Handles.v ===== *)
(** * The sessions a program owns

    Models what [#[derive(Clone)]] on [Chunker] and [VeqSession] and the [Arc] around
    [BidirectionalSession] (src/transform.rs, src/veq.rs) make of a session: a value
    that can be cloned, whose clones share the chunk counters and queues and the
    connection, and whose connection is closed by the drop of the last clone.  The
    values a program owns, with what they point to, are one state, around the world
    of the handler. *)

From S2P Require Import Prelude Std Externals Layout Engine SnowTypes Transport Transform Reassembly Delegates.
From S2P Require Import Session SessionFacts Concrete SessionProps Handler Table HandlerFacts Reachable HandlerProps Wire Connection DualStack IpDiscovery Veq VeqProps Receive Lifecycle.

(** ** State *)

(** A [VeqSession<Chunker<Arc<BidirectionalSession>>>]: [h_session] is the [Arc] of the
    delegate, [h_cells] the three [Arc<Mutex<..>>] of the chunker, which [Chunker::new]
    allocates, and [clone] copies, together. *)
Record Handle := mkHandle {
  h_session : N;
  h_chunk_size : N;
  h_cells : N;
  h_remote_addr : SocketAddr;
}.

(** What is behind the mutexes of a chunker. *)
Record Cells := mkCells {
  cl_current_group : N;
  cl_chunk_groups : gmap N ChunkGroup;
  cl_completed : list bytes;
}.

(** [us_sessions] holds the sessions behind their [Arc]s with the strong counts. *)
Record User `{Crates} := mkUser {
  us_world : World;
  us_handles : gmap N Handle;
  us_sessions : gmap N (BidirectionalSession * nat);
  us_cells : gmap N Cells;
  us_next : N;
}.
#[global] Arguments mkUser {_}.

Section operations.
Context `{Crates, Codec ChunkedData}.
Implicit Types (u : User) (x y l : N).

Definition with_us_world (w : World) u : User :=
  mkUser w (us_handles u) (us_sessions u) (us_cells u) (us_next u).
Definition with_handles (m : gmap N Handle) u : User :=
  mkUser (us_world u) m (us_sessions u) (us_cells u) (us_next u).
Definition with_sessions (m : gmap N (BidirectionalSession * nat)) u : User :=
  mkUser (us_world u) (us_handles u) m (us_cells u) (us_next u).
Definition with_cells (m : gmap N Cells) u : User :=
  mkUser (us_world u) (us_handles u) (us_sessions u) m (us_next u).

Definition User_new (keys : SnowKeypair) : User := mkUser (Handler_new keys) ∅ ∅ ∅ 0.

(** A new value. *)
Definition new_handle {E} (h : Handle) : M User E N := λ u,
  (mkUser (us_world u) (<[us_next u := h]> (us_handles u)) (us_sessions u) (us_cells u)
     (us_next u + 1), Ok (us_next u)).

(** [Arc::new] of the delegate and of the three mutexes of a chunker. *)
Definition new_session {E} (v : VeqSession (Chunker BidirectionalSession)) : M User E N := λ u,
  let c := vsn_delegate v in
  new_handle (mkHandle (us_next u) (chunk_size c) (us_next u) (vsn_remote_addr v))
    (with_sessions (<[us_next u := (delegate c, 1)]> (us_sessions u))
      (with_cells (<[us_next u := mkCells (current_group c) (chunk_groups c)
         (completed_chunks c)]> (us_cells u)) u)).

(** A poll of [connect]; the session it returns is owned from then on. *)
Definition user_connect (r : SessionReady) (waker : Waker) : M User Error (SessionReady + N) :=
  p ← zoom us_world with_us_world (connect_resume r waker);
  match p with
  | inl r => mret (inl r)
  | inr v => x ← new_session v; mret (inr x)
  end.

(** The value [x]; that a program uses only values it owns is the compiler's promise. *)
Definition owned {E} x : M User E Handle := λ u, (u, unwrap (us_handles u !! x)).

(** [Arc::clone] and the drop of an [Arc], as the standard library has them: a count of
    the values, and at the last drop the drop of what it holds, [impl Drop for
    BidirectionalSession]. *)
Definition Arc_clone {E} l : M User E unit := λ u,
  match us_sessions u !! l with
  | Some (b, n) => (with_sessions (<[l := (b, S n)]> (us_sessions u)) u, Ok tt)
  | None => (u, Panic)
  end.
Definition Arc_drop {E} l : M User E unit := λ u,
  match us_sessions u !! l with
  | Some (b, S (S n)) => (with_sessions (<[l := (b, S n)]> (us_sessions u)) u, Ok tt)
  | Some (b, _) =>
      zoom us_world with_us_world (BidirectionalSession_drop b)
        (with_sessions (delete l (us_sessions u)) u)
  | None => (u, Panic)
  end.

(** [#[derive(Clone)]] *)
Definition VeqSession_clone {E} x : M User E N :=
  h ← owned x;
  Arc_clone (h_session h);;
  new_handle h.

Definition VeqSession_drop {E} x : M User E unit :=
  h ← owned x;
  modify (λ u, with_handles (delete x (us_handles u)) u);;
  Arc_drop (h_session h).

(** *** Methods

    What a task with the waker [waker] reads through a value, and writes back. *)
Definition view u (waker : Waker) (fresh : N) (h : Handle)
    : option (VeqSession (Chunker SessionInUse)) :=
  '(b, _) ← us_sessions u !! h_session h;
  c ← us_cells u !! h_cells h;
  Some (mkVeqSession (mkChunker (mkSessionInUse b (us_world u) waker fresh) (h_chunk_size h)
    (cl_current_group c) (cl_chunk_groups c) (cl_completed c)) (h_remote_addr h)).

Definition put_back (h : Handle) (v : VeqSession (Chunker SessionInUse)) u : User :=
  let c := vsn_delegate v in
  with_us_world (world_of v)
    (with_cells (<[h_cells h :=
       mkCells (current_group c) (chunk_groups c) (completed_chunks c)]> (us_cells u)) u).

Definition through {A} (h : Handle) (waker : Waker) (fresh : N)
    (m : M (VeqSession (Chunker SessionInUse)) VeqError A) : M User VeqError A := λ u,
  match view u waker fresh h with
  | Some v => let '(v, r) := m v in (put_back h v u, r)
  | None => (u, Panic)
  end.

Definition on_session {A} x (waker : Waker) (fresh : N)
    (m : M (VeqSession (Chunker SessionInUse)) VeqError A) : M User VeqError A :=
  h ← owned x;
  through h waker fresh m.

Definition user_send x (waker : Waker) (data : bytes) : M User VeqError unit :=
  on_session x waker 0 (VeqSession_send (H := Chunker_Bidirectional 0) data).
Definition user_recv x (waker : Waker) (fresh : N) (fuel : nat) : M User VeqError bytes :=
  on_session x waker fresh (VeqSession_recv (H := Chunker_Bidirectional fuel)).

(** *** Programs

    What a program does with its sessions, and what happens to the handler. *)
Inductive UserStep :=
  | UConnect (r : SessionReady) (waker : Waker)
  | UClone x
  | UDrop x
  | USend x (waker : Waker) (data : bytes)
  | URecv x (waker : Waker) (fresh : N) (fuel : nat)
  | UEvent (e : Event).

Definition run_user_step (s : UserStep) u : User :=
  match s with
  | UConnect r waker => (user_connect r waker u).1
  | UClone x => (VeqSession_clone (E := Error) x u).1
  | UDrop x => (VeqSession_drop (E := Error) x u).1
  | USend x waker data => (user_send x waker data u).1
  | URecv x waker fresh fuel => (user_recv x waker fresh fuel u).1
  | UEvent e => with_us_world (run_event e (us_world u)) u
  end.

Definition user_reachable u : Prop :=
  ∃ keys ss, u = foldl (λ u s, run_user_step s u) (User_new keys) ss.
End operations.

(** ** Counting *)

Section counting.
Implicit Types (m : gmap N Handle) (x l : N).

(** The values whose delegate is the [Arc] at [l]. *)
Definition refs m l : nat := size (filter (λ p : N * Handle, h_session p.2 = l) m).

Lemma refs_insert m x h l :
  m !! x = None →
  refs (<[x := h]> m) l = (if decide (h_session h = l) then 1 else 0) + refs m l.
Proof.
  intros Hx. unfold refs. rewrite map_filter_insert. simpl. case_decide.
  - apply map_size_insert_None, map_lookup_filter_None. by left.
  - by rewrite delete_id.
Qed.

Lemma refs_delete m x h l :
  m !! x = Some h →
  refs m l = (if decide (h_session h = l) then 1 else 0) + refs (delete x m) l.
Proof.
  intros Hx. rewrite <- (refs_insert _ x) by apply lookup_delete_eq.
  by rewrite insert_delete_id.
Qed.

(** No count is zero while a value is left. *)
Lemma refs_zero m l : refs m l = 0 ↔ ∀ x h, m !! x = Some h → h_session h ≠ l.
Proof.
  unfold refs. rewrite map_size_empty_iff, map_empty_filter. done.
Qed.
End counting.

Section invariant.
Context `{Crates, !CratesLaws, Codec ChunkedData}.
Implicit Types (u : User) (x y l : N).

(** Every strong count is the number of values, and is not zero; every value points to a
    session and to the cells allocated with it; the values of a session are copies. *)
Record user_ok u : Prop := {
  uo_handle x h : us_handles u !! x = Some h →
    (x < us_next u)%N ∧ h_cells h = h_session h ∧
    is_Some (us_sessions u !! h_session h) ∧ is_Some (us_cells u !! h_cells h);
  uo_session l b n : us_sessions u !! l = Some (b, n) →
    (l < us_next u)%N ∧ 0 < n ∧ n = refs (us_handles u) l;
  uo_copies x y hx hy : us_handles u !! x = Some hx → us_handles u !! y = Some hy →
    h_session hx = h_session hy → hx = hy;
}.

Lemma user_ok_new keys : user_ok (User_new keys).
Proof. by split. Qed.

Lemma user_ok_cells u u' :
  user_ok u → us_handles u' = us_handles u → us_sessions u' = us_sessions u →
  us_next u' = us_next u →
  (∀ l, is_Some (us_cells u !! l) → is_Some (us_cells u' !! l)) → user_ok u'.
Proof.
  intros [Hh Hs Hc] Eh Es En Hcells. split; rewrite ?Eh, ?Es, ?En; [|done|done].
  intros x h Hx. destruct (Hh x h Hx) as (? & ? & ? & ?). auto.
Qed.

(** A session that was never there. *)
Lemma user_ok_new_session {E} u v :
  user_ok u → ∃ u', new_session (E := E) v u = (u', Ok (us_next u)) ∧ user_ok u' ∧
    us_world u' = us_world u.
Proof.
  intros [Hh Hs Hc]. eexists. split; [reflexivity|]. split; [|done]. set (n := us_next u).
  assert (us_handles u !! n = None) as Hn.
  { apply eq_None_not_Some. intros [h Hx]. apply Hh in Hx as [Hx _]. unfold n in Hx. lia. }
  assert (∀ x h, us_handles u !! x = Some h → h_session h ≠ n) as Hfresh.
  { intros x h Hx Heq. destruct (Hh x h Hx) as (_ & _ & [[b k] Hk] & _).
    apply Hs in Hk as [Hk _]. unfold n in Heq. lia. }
  split; simpl; fold n.
  - intros x h [[<- <-]|[Hne Hx]]%lookup_insert_Some; simpl.
    + rewrite !lookup_insert_eq. split_and!; [lia|done|by eexists..].
    + destruct (Hh x h Hx) as (? & ? & ? & ?).
      split_and!; [lia|done|by apply is_Some_insert..].
  - intros l b k Hl. rewrite refs_insert by done. simpl.
    apply lookup_insert_Some in Hl as [[<- [= <- <-]]|[Hne Hl]].
    + rewrite decide_True by done. rewrite (proj2 (refs_zero _ _)) by done. lia.
    + rewrite decide_False by done. apply Hs in Hl. lia.
  - intros x y hx hy Hx Hy Heq.
    apply lookup_insert_Some in Hx as [[<- <-]|[Hxn Hx]];
      apply lookup_insert_Some in Hy as [[<- <-]|[Hyn Hy]]; simpl in *.
    + done.
    + by apply Hfresh in Hy.
    + by apply Hfresh in Hx.
    + by eapply Hc.
Qed.

Lemma fresh_handle u : user_ok u → us_handles u !! us_next u = None.
Proof. intros Hok. apply eq_None_not_Some. intros [h [Hx _]%uo_handle]; [lia|done]. Qed.

Lemma owned_eq {E} u x h :
  us_handles u !! x = Some h → owned (E := E) x u = (u, Ok h).
Proof. intros Hx. unfold owned. by rewrite Hx. Qed.

(** The session of a value, with its count. *)
Lemma counted u x h :
  user_ok u → us_handles u !! x = Some h →
  ∃ b, us_sessions u !! h_session h = Some (b, refs (us_handles u) (h_session h)).
Proof.
  intros Hok Hx. destruct (uo_handle _ Hok _ _ Hx) as (_ & _ & [[b n] Hl] & _).
  exists b. rewrite Hl. by apply uo_session in Hl as (_ & _ & <-).
Qed.

Lemma user_clone_eq {E} u x h :
  user_ok u → us_handles u !! x = Some h →
  ∃ u', VeqSession_clone (E := E) x u = (u', Ok (us_next u)) ∧ user_ok u' ∧
    us_world u' = us_world u ∧ us_handles u' = <[us_next u := h]> (us_handles u) ∧
    us_cells u' = us_cells u.
Proof.
  intros Hok Hx. destruct (counted u x h Hok Hx) as [b Hb].
  pose proof (fresh_handle u Hok) as Hn. destruct (uo_handle _ Hok _ _ Hx) as (_ & Hce & _ & Hcells).
  eexists. split.
  { unfold VeqSession_clone. erewrite M_bind_step by (by apply owned_eq).
    unfold Arc_clone. unfold_monad. rewrite Hb. reflexivity. }
  split; [|done]. destruct Hok as [Hh Hs Hc]. split; simpl.
  - intros y hy [[<- <-]|[_ Hy]]%lookup_insert_Some.
    + split_and!; [lia|done|by rewrite lookup_insert_eq|done].
    + destruct (Hh y hy Hy) as (? & ? & ? & ?).
      split_and!; [lia|done|by apply is_Some_insert|done].
  - intros l b' k Hl. rewrite refs_insert by done.
    apply lookup_insert_Some in Hl as [[<- [= <- <-]]|[Hne Hl]].
    + rewrite decide_True by done. apply Hs in Hb. lia.
    + rewrite decide_False by done. apply Hs in Hl. lia.
  - intros y z hy hz [[<- <-]|[_ Hy]]%lookup_insert_Some [[<- <-]|[_ Hz]]%lookup_insert_Some;
      eauto.
Qed.

Lemma user_drop_eq {E} u x h :
  user_ok u → us_handles u !! x = Some h →
  let l := h_session h in
  let rest := refs (delete x (us_handles u)) l in
  ∃ b u', us_sessions u !! l = Some (b, S rest) ∧
    VeqSession_drop (E := E) x u = (u', Ok tt) ∧ user_ok u' ∧
    us_handles u' = delete x (us_handles u) ∧ us_cells u' = us_cells u ∧
    us_sessions u' =
      (if decide (rest = 0) then delete l (us_sessions u) else <[l := (b, rest)]> (us_sessions u)) ∧
    us_world u' =
      (if decide (rest = 0)
       then with_closers (closers (us_world u) ++ [(bds_id b, bds_one_time_id b)]) (us_world u)
       else us_world u).
Proof.
  intros Hok Hx l rest. destruct (counted u x h Hok Hx) as [b Hb].
  rewrite (refs_delete _ x h) in Hb by done. rewrite decide_True in Hb by done.
  fold l rest in Hb. simpl in Hb. exists b.
  set (ss := if decide (rest = 0) then delete l (us_sessions u) else <[l := (b, rest)]> (us_sessions u)).
  set (w := if decide (rest = 0)
    then with_closers (closers (us_world u) ++ [(bds_id b, bds_one_time_id b)]) (us_world u)
    else us_world u).
  exists (mkUser w (delete x (us_handles u)) ss (us_cells u) (us_next u)).
  split_and!; try done.
  { unfold VeqSession_drop. erewrite M_bind_step by (by apply owned_eq).
    erewrite M_bind_step by reflexivity. unfold Arc_drop. simpl. fold l. rewrite Hb. unfold ss, w.
    by destruct rest. }
  destruct Hok as [Hh Hs Hc]. unfold ss. split; simpl.
  - intros y hy [Hne Hy]%lookup_delete_Some. destruct (Hh y hy Hy) as (? & ? & ? & ?).
    split_and!; [done..| |done]. case_decide as Hz; [|by apply is_Some_insert].
    rewrite lookup_delete_ne; [done|]. intros Heq.
    eapply (proj1 (refs_zero _ _) Hz y hy); [|done]. by rewrite lookup_delete_ne.
  - intros l' b' k Hl.
    assert (l' ≠ l → us_sessions u !! l' = Some (b', k) →
      (l' < us_next u)%N ∧ 0 < k ∧ k = refs (delete x (us_handles u)) l') as Hother.
    { intros Hne (? & ? & ->)%Hs. rewrite (refs_delete _ x h) in * by done.
      rewrite decide_False in * by done. done. }
    destruct (decide (rest = 0)).
    + apply lookup_delete_Some in Hl as [Hne Hl]. by apply Hother.
    + apply lookup_insert_Some in Hl as [[<- [= <- <-]]|[Hne Hl]]; [|by apply Hother].
      apply Hs in Hb as (? & _). split_and!; [done|lia|done].
  - intros y z hy hz [_ Hy]%lookup_delete_Some [_ Hz]%lookup_delete_Some. by eapply Hc.
Qed.

(** A method used through a value writes the cells of its session only. *)
Lemma user_ok_put_back u h v :
  user_ok u → user_ok (put_back h v u).
Proof. intros Hok. by apply (user_ok_cells u); [..|intros l; apply is_Some_insert]. Qed.

(** *** The handler behind the sessions *)

(** What a session does to its handler are events of the handler. *)
Lemma session_send_keeps d : triple (λ s, reachable (siu_world s)) (λ _, True) (bsend d).
Proof.
  intros s Hs. split; [|done]. simpl. unfold BidirectionalSession_send.
  pose proof (reachable_event (EvSend (bds_id (siu_session s)) d) _ Hs) as Hev. simpl in Hev.
  by destruct (send _ _ _).
Qed.

(** The error type of a computation that returns no error does not matter. *)
Lemma recv_from_world {E F} id fresh w :
  reachable w → (recv_from (E := E) id fresh w).1 = (recv_from (E := F) id fresh w).1.
Proof.
  intros [T [HR Htab]]%reachable_ok. destruct (established w !! id) as [[o s]|] eqn:Hid.
  - assert (T !! id = Some (SEstablished o s)) as Hsl by (by apply HR).
    destruct (to_slot _ _ _ Htab _ _ Hsl) as (_ & c & Hc).
    destruct (dead c) eqn:Hd.
    + by rewrite !(recv_from_dead _ _ _ _ _ _ Hid Hc Hd).
    + by rewrite !(recv_from_alive _ _ _ _ _ _ Hid Hc Hd).
  - unfold recv_from. unfold_monad. by rewrite Hid.
Qed.

Lemma Receiving_poll_world {E F} r waker rt :
  (Receiving_poll (E := E) r waker rt).1 = (Receiving_poll (E := F) r waker rt).1.
Proof.
  unfold Receiving_poll, poll_dead, poll_try_recv, poll_wakers, on_core. unfold_monad.
  destruct (cores rt !! r_core r) as [c|]; [|done]. destruct (dead c); simpl; [done|].
  rewrite lookup_insert_eq. destruct (chan_try_recv (messages c)) as [q [m|]]; simpl;
    by rewrite lookup_insert_eq.
Qed.

Lemma session_recv_keeps : triple (λ s, reachable (siu_world s)) (λ _, True) brecv.
Proof.
  simpl. unfold BidirectionalSession_recv.
  apply (triple_bind _ (λ _, True)); [by apply triple_gets|]. intros s _.
  apply (triple_bind _ (λ _, True)).
  { apply (triple_zoom _ reachable); [done|done|]. intros w Hw. split; [|done].
    erewrite recv_from_world by done.
    by apply (reachable_event (EvRecvFrom (bds_id (siu_session s)) (siu_fresh s))). }
  intros future _.
  apply (triple_bind _ (λ _, True)); [by apply triple_modify|]. intros [] _.
  apply (triple_bind _ (λ _, True)); [by apply triple_lift|]. intros r _.
  apply (triple_bind _ (λ _, True)).
  { apply (triple_zoom _ reachable); [done|done|]. intros w Hw. split; [|done].
    apply (reachable_event (EvPollReceiving r (siu_waker s))) in Hw. simpl in Hw.
    unfold on_runtime, zoom in *.
    pose proof (Receiving_poll_world (E := Error) (F := VeqError) r (siu_waker s) (runtime w)) as Heq.
    by do 2 destruct (Receiving_poll _ _ _); simpl in *; subst. }
  intros [[data|e]|] _; [by apply triple_ret|by apply triple_lift..].
Qed.

Lemma connect_resume_keeps r waker : triple reachable (λ _, True) (connect_resume r waker).
Proof.
  apply (triple_bind _ (λ _, True)).
  { intros w Hw. split; [|done]. by apply (reachable_event (EvPollReady r waker)) in Hw. }
  intros [r' [[id o]|]] _; [|by apply triple_ret]. apply (triple_bind _ (λ _, True)).
  { intros w Hw. split; [|done]. by apply (reachable_event (EvDropReady r')) in Hw. }
  intros [] _. apply (triple_bind _ (λ _, True)); [by intros w Hw|]. intros a _.
  apply (triple_bind _ (λ _, True)); [by apply triple_lift|]. intros addr _. by apply triple_ret.
Qed.

(** ** What every program keeps *)

Definition user_inv u : Prop := user_ok u ∧ reachable (us_world u).

Lemma user_inv_world u w : user_inv u → reachable w → user_inv (with_us_world w u).
Proof. intros [Hok _] Hw. split; [by apply (user_ok_cells u)|done]. Qed.

Lemma user_connect_keeps r waker : triple user_inv (λ _, True) (user_connect r waker).
Proof.
  apply (triple_bind _ (λ _, True)).
  { apply (triple_zoom _ reachable); [by intros u []|by intros; apply user_inv_world|].
    apply connect_resume_keeps. }
  intros [r'|v] _; [by apply triple_ret|].
  apply (triple_bind _ (λ _, True)); [|by intros; apply triple_ret].
  intros u [Hok Hw]. destruct (user_ok_new_session (E := Error) u v Hok) as (u' & -> & Hok' & Hw').
  by rewrite <- Hw' in Hw.
Qed.

Lemma user_clone_keeps {E} x : triple (E := E) user_inv (λ _, True) (VeqSession_clone x).
Proof.
  intros u [Hok Hw]. destruct (us_handles u !! x) as [h|] eqn:Hx.
  - destruct (user_clone_eq (E := E) u x h Hok Hx) as (u' & -> & Hok' & Hw' & _).
    by rewrite <- Hw' in Hw.
  - unfold VeqSession_clone, owned. unfold_monad. by rewrite Hx.
Qed.

Lemma user_drop_keeps {E} x : triple (E := E) user_inv (λ _, True) (VeqSession_drop x).
Proof.
  intros u [Hok Hw]. destruct (us_handles u !! x) as [h|] eqn:Hx.
  - destruct (user_drop_eq (E := E) u x h Hok Hx) as (b & u' & _ & -> & Hok' & _ & _ & _ & Hw').
    split; [|done]. split; [done|]. simpl. rewrite Hw'. case_decide; [|done].
    by apply (reachable_event (EvClose (bds_id b) (bds_one_time_id b))).
  - unfold VeqSession_drop, owned. unfold_monad. by rewrite Hx.
Qed.

Lemma on_session_keeps {A} x waker fresh (m : M (VeqSession (Chunker SessionInUse)) VeqError A) :
  triple (λ v, reachable (world_of v)) (λ _, True) m →
  triple user_inv (λ _, True) (on_session x waker fresh m).
Proof.
  intros Hm. apply (triple_bind _ (λ _, True)); [by intros u Hu|]. intros h _ u [Hok Hw].
  unfold through, view. destruct (us_sessions u !! h_session h) as [[b n]|]; [|done]. simpl.
  destruct (us_cells u !! h_cells h) as [c|]; [|done]. simpl.
  match goal with |- context [m ?v] => specialize (Hm v Hw) as [Hv _]; destruct (m v) end.
  split; [|done]. split; [by apply user_ok_put_back|done].
Qed.

Definition chunker_frame (v : VeqSession (Chunker SessionInUse))
    : N * gmap N ChunkGroup * list bytes :=
  let c := vsn_delegate v in (chunk_size c, chunk_groups c, completed_chunks c).

Lemma user_step_keeps s u : user_inv u → user_inv (run_user_step s u).
Proof.
  intros Hu. destruct s; simpl.
  - by apply user_connect_keeps.
  - by apply user_clone_keeps.
  - by apply user_drop_keeps.
  - apply on_session_keeps; [|done]. intros v Hv. split; [|done].
    apply (triple_keeps (λ v', reachable (world_of v') ∧ chunker_frame v' = chunker_frame v)
      (λ _, True)); [|done].
    apply (triple_zoom _ (λ c, reachable (siu_world (delegate c)) ∧
      (chunk_size c, chunk_groups c, completed_chunks c) = chunker_frame v)); [done|done|].
    apply (Chunker_send_keeps (λ s, reachable (siu_world s))), session_send_keeps.
  - apply on_session_keeps; [|done]. intros v Hv. split; [|done].
    apply (triple_keeps (λ v', reachable (world_of v') ∧
      (chunk_size (vsn_delegate v'), current_group (vsn_delegate v')) =
        (chunk_size (vsn_delegate v), current_group (vsn_delegate v))) (λ _, True)); [|done].
    apply (triple_zoom _ (λ c, reachable (siu_world (delegate c)) ∧
      (chunk_size c, current_group c) =
        (chunk_size (vsn_delegate v), current_group (vsn_delegate v)))); [done|done|].
    apply (Chunker_recv_keeps (λ s, reachable (siu_world s))), session_recv_keeps.
  - apply user_inv_world; [done|]. by apply reachable_event, Hu.
Qed.

Lemma user_reachable_inv u : user_reachable u → user_inv u.
Proof.
  intros (keys & ss & ->). induction ss as [|s ss IH] using rev_ind.
  - split; [apply user_ok_new|by exists keys, []].
  - rewrite foldl_snoc. by apply user_step_keeps.
Qed.
End invariant.

(** ** Clones are one session *)

Section clones.
Context `{Crates, !CratesLaws, Codec ChunkedData}.
Implicit Types (u : User) (x y l : N) (v : VeqSession (Chunker SessionInUse)).

(** What a send leaves as it is. *)
Definition frame v : BidirectionalSession * Waker * N * N * SocketAddr :=
  let s := delegate (vsn_delegate v) in
  (siu_session s, siu_waker s, siu_fresh s, chunk_size (vsn_delegate v), vsn_remote_addr v).

Lemma send_frame data v :
  frame (VeqSession_send (H := Chunker_Bidirectional 0) data v).1 = frame v.
Proof.
  destruct v as [[s n g m q] addr].
  apply (triple_keeps (λ v', frame v' = (siu_session s, siu_waker s, siu_fresh s, n, addr))
    (λ _, True)); [|done].
  apply (triple_zoom _ (λ c,
    (siu_session (delegate c), siu_waker (delegate c), siu_fresh (delegate c)) =
      (siu_session s, siu_waker s, siu_fresh s) ∧ chunk_size c = n)).
  - intros [[s' n' g' m' q'] addr']. unfold frame. simpl. by intros [= -> -> -> -> ->].
  - intros [s' n' g' m' q'] [c' addr']. unfold frame. simpl. intros [= _ _ _ _ ->].
    by intros [[= -> -> ->] ->].
  - intros c [Hc Hn]. split; [|done].
    destruct (Chunker_send_keeps (λ s', (siu_session s', siu_waker s', siu_fresh s') =
      (siu_session s, siu_waker s, siu_fresh s))
      (chunk_size c, chunk_groups c, completed_chunks c) data) with (s := c) as [[Hc' Hx] _];
      [|by split|].
    + intros d s' Hs'. split; [|done]. simpl. unfold BidirectionalSession_send.
      by destruct (send _ _ _).
    + split; [exact Hc'|]. injection Hx as Hx _ _. by rewrite <- Hn.
Qed.

(** What was written back is what is read next, through any value of the session. *)
Lemma view_put_back u waker fresh h v v' :
  view u waker fresh h = Some v → frame v' = frame v →
  view (put_back h v' u) waker fresh h = Some v'.
Proof.
  unfold view, put_back, frame. intros Hv Hf. simpl.
  destruct (us_sessions u !! h_session h) as [[b n]|]; simpl in *; [|done].
  destruct (us_cells u !! h_cells h) as [c|]; simpl in *; [|done].
  injection Hv as <-. rewrite lookup_insert_eq. simpl in *.
  destruct v' as [[[b' w' wk fr] n' g m q] a]. simpl in *. by simplify_eq.
Qed.

Lemma put_back_view u waker fresh h v : view u waker fresh h = Some v → put_back h v u = u.
Proof.
  unfold view, put_back. destruct (us_sessions u !! h_session h) as [[b n]|]; simpl; [|done].
  destruct (us_cells u !! h_cells h) as [c|] eqn:Hc; simpl; [|done].
  intros [= <-]. destruct u as [w hs ss cs nx], c. simpl in *. unfold with_us_world, with_cells.
  simpl. by rewrite insert_id.
Qed.

Lemma put_back_put_back u h v v' : put_back h v' (put_back h v u) = put_back h v' u.
Proof.
  unfold put_back, with_us_world, with_cells. simpl. by rewrite insert_insert_eq.
Qed.

(** A computation that does the same after a change [f] of its state, but for [f]. *)
Definition commutes {S E A} (f : S → S) (m : M S E A) : Prop :=
  ∀ s, m (f s) = let '(s', r) := m s in (f s', r).

Lemma commutes_bind {S E A B} f (m : M S E A) (k : A → M S E B) :
  commutes f m → (∀ a, commutes f (k a)) → commutes f (m ≫= k).
Proof.
  intros Hm Hk s. unfold mbind, M_bind. rewrite Hm. destruct (m s) as [s' []]; try done. apply Hk.
Qed.

Lemma commutes_zoom {S T E A} f g (proj : S → T) upd (m : M T E A) :
  (∀ s, proj (f s) = g (proj s)) → (∀ t s, upd (g t) (f s) = f (upd t s)) →
  commutes g m → commutes f (zoom proj upd m).
Proof.
  intros Hproj Hupd Hm s. unfold zoom. rewrite Hproj, Hm.
  destruct (m (proj s)) as [t r]. by rewrite Hupd.
Qed.

(** The value in the hands of a task with another waker. *)
Definition siu_by (waker : Waker) (s : SessionInUse) : SessionInUse :=
  mkSessionInUse (siu_session s) (siu_world s) waker (siu_fresh s).
Definition chunker_by (waker : Waker) (c : Chunker SessionInUse) : Chunker SessionInUse :=
  with_delegate (siu_by waker (delegate c)) c.
Definition veq_by (waker : Waker) v : VeqSession (Chunker SessionInUse) :=
  with_vsn_delegate (chunker_by waker (vsn_delegate v)) v.

(** A send does not depend on the waker of the task that runs it. *)
Lemma send_commutes waker data :
  commutes (veq_by waker) (VeqSession_send (H := Chunker_Bidirectional 0) data).
Proof.
  apply (commutes_zoom _ (chunker_by waker)); [done|done|].
  assert (∀ d, commutes (siu_by waker) (bsend d)) as Hsend.
  { intros d s. simpl. unfold BidirectionalSession_send, siu_by. simpl. by destruct (send _ _ _). }
  assert (∀ ds, commutes (chunker_by waker) (send_all ds)) as Hall.
  { induction ds as [|d ds IH]; [done|]. apply commutes_bind; [|done].
    by apply (commutes_zoom _ (siu_by waker)). }
  apply commutes_bind; [done|]. intros n. apply commutes_bind; [done|]. intros cs.
  apply commutes_bind; [done|]. intros group. apply commutes_bind; [done|]. intros next.
  apply commutes_bind; [done|]. intros _. by apply commutes_bind.
Qed.

Lemma view_by u k waker h v :
  view u waker 0 h = Some v → view u k 0 h = Some (veq_by k v).
Proof.
  unfold view. destruct (us_sessions u !! h_session h) as [[b n]|]; simpl; [|done].
  destruct (us_cells u !! h_cells h); simpl; [|done]. by intros [= <-].
Qed.

(** Messages sent through values, each by a task of its own, one after the other. *)
Fixpoint user_send_all (xs : list (N * Waker * bytes)) : M User VeqError unit :=
  match xs with
  | [] => mret tt
  | (x, waker, data) :: xs => user_send x waker data;; user_send_all xs
  end.

Lemma user_send_all_eq waker h xs u v :
  Forall (λ p, us_handles u !! p.1.1 = Some h) xs → view u waker 0 h = Some v →
  user_send_all xs u =
    let '(v', r) := veq_send_all (snd <$> xs) v in (put_back h v' u, r).
Proof.
  revert u v. induction xs as [|[[x k] data] xs IH]; intros u v Hxs Hv; simpl.
  { by erewrite put_back_view. }
  apply Forall_cons in Hxs as [Hx Hxs]. simpl in Hx.
  pose proof (send_frame data v) as Hf. unfold mbind, M_bind.
  unfold user_send, on_session. erewrite M_bind_step by (by apply owned_eq).
  unfold through. rewrite (view_by _ _ _ _ _ Hv), send_commutes.
  destruct (VeqSession_send data v) as [v1 [[]| | | |]]; try done.
  change (put_back h (veq_by k v1) u) with (put_back h v1 u).
  simpl in Hf. rewrite (IH (put_back h v1 u) v1 Hxs) by (by eapply view_put_back).
  change (list_fmap _ _ snd xs) with (xs.*2).
  destruct (veq_send_all xs.*2 v1) as [v' r]. by rewrite put_back_put_back.
Qed.
End clones.

(** C12. A connection is closed by the drop of the last value of its session and by no
    other: the drop of a value with a clone left changes nothing in the handler and
    the session stays; the drop of the last spawns exactly one removal, of the
    session's own connection, and the session is gone. *)
Theorem last_drop_closes `{Crates, !CratesLaws, Codec ChunkedData} (u : User) (x : N)
    (h : Handle) :
  user_reachable u → us_handles u !! x = Some h →
  ∃ b n u', us_sessions u !! h_session h = Some (b, n) ∧
    VeqSession_drop (E := Error) x u = (u', Ok tt) ∧
    us_handles u' = delete x (us_handles u) ∧
    (∀ y hy, y ≠ x → us_handles u !! y = Some hy → h_session hy = h_session h →
       us_world u' = us_world u ∧ fst <$> us_sessions u' !! h_session h = Some b) ∧
    ((∀ y hy, y ≠ x → us_handles u !! y = Some hy → h_session hy ≠ h_session h) →
       us_world u' = with_closers (closers (us_world u) ++ [(bds_id b, bds_one_time_id b)])
         (us_world u) ∧
       us_sessions u' !! h_session h = None).
Proof.
  intros [Hok Hw]%user_reachable_inv Hx.
  destruct (user_drop_eq (E := Error) u x h Hok Hx) as (b & u' & Hb & Hdrop & _ & Hh & _ & Hs & Hw').
  eexists b, _, u'. split_and!; [exact Hb|exact Hdrop|exact Hh|..].
  - intros y hy Hne Hy Heq.
    assert (refs (delete x (us_handles u)) (h_session h) ≠ 0) as Hz.
    { intros Hz. eapply (proj1 (refs_zero _ _) Hz y hy); [|done]. by rewrite lookup_delete_ne. }
    rewrite Hs, Hw', !decide_False by done. split; [done|]. by rewrite lookup_insert_eq.
  - intros Hlast.
    assert (refs (delete x (us_handles u)) (h_session h) = 0) as Hz.
    { apply refs_zero. intros y hy [Hne Hy]%lookup_delete_Some. by eapply Hlast. }
    rewrite Hs, Hw', !decide_True by done. split; [done|]. apply lookup_delete_eq.
Qed.

(** C14. Clones are one session: a clone owns what its original owns, and messages sent
    through any mix of the values of a session, by any tasks, each send completed before
    the next one starts, have together the effect and the result of sending them all
    through one of them; so they are numbered in one sequence, and arrive as
    [messages_end_to_end] states of one value.  (Sends that overlap can mix messages:
    [concurrent_sends_mix_messages].) *)
Theorem clones_are_one_session `{Crates, !CratesLaws, Codec ChunkedData} (u : User) (x : N)
    (h : Handle) (waker : Waker) :
  user_reachable u → us_handles u !! x = Some h →
  (∃ u' y, VeqSession_clone (E := Error) x u = (u', Ok y) ∧ us_handles u !! y = None ∧
     us_handles u' = <[y := h]> (us_handles u) ∧ us_world u' = us_world u ∧
     view u' waker 0 h = view u waker 0 h) ∧
  ∃ v, view u waker 0 h = Some v ∧
    ∀ xs : list (N * Waker * bytes),
      (∀ y, y ∈ xs.*1.*1 → ∃ hy, us_handles u !! y = Some hy ∧ h_session hy = h_session h) →
      user_send_all xs u =
        let '(v', r) := veq_send_all xs.*2 v in (put_back h v' u, r).
Proof.
  intros Hu Hx. pose proof (user_reachable_inv _ Hu) as [Hok Hw]. split.
  - destruct (user_clone_eq (E := Error) u x h Hok Hx) as (u' & Hc & Hok' & Hw' & Hh & Hce).
    exists u', (us_next u). split_and!; [done|by apply fresh_handle|done|done|].
    destruct (counted u x h Hok Hx) as [b Hb]. unfold view. rewrite Hb, Hce, Hw'.
    unfold VeqSession_clone in Hc. erewrite M_bind_step in Hc by (by apply owned_eq).
    unfold Arc_clone in Hc. unfold_monad in Hc. rewrite Hb in Hc. simpl in Hc.
    injection Hc as <-. simpl. by rewrite lookup_insert_eq.
  - destruct (counted u x h Hok Hx) as [b Hb].
    destruct (uo_handle _ Hok _ _ Hx) as (_ & _ & _ & [c Hc]).
    assert (∃ v, view u waker 0 h = Some v) as [v Hv].
    { unfold view. rewrite Hb. simpl. rewrite Hc. by eexists. }
    exists v. split; [done|]. intros xs Hxs. apply (user_send_all_eq waker); [|done].
    apply Forall_forall. intros [[y k] d] Hy.
    destruct (Hxs y) as (hy & Hhy & Heq).
    { apply list_elem_of_fmap. exists (y, k). split; [done|].
      apply list_elem_of_fmap. by exists (y, k, d). }
    simpl. by rewrite <- (uo_copies _ Hok _ _ _ _ Hhy Hx Heq).
Qed.

(** ** A program with two values of one session *)

Definition demo_steps : list UserStep :=
  (UEvent <$> [EvInitiate 3 100 7 (demo_info 2); EvTask 0;
     EvPacket (SocketAddrV4 1 2) (demo_datagram demo_response); EvTask 3]) ++
  [UConnect demo_future 31; UClone 0].

Definition demo_run (ss : list UserStep) : @User crates :=
  foldl (λ u s, @run_user_step crates chunk_codec s u) (User_new (demo_keys 1)) ss.

Definition demo_handle : Handle := mkHandle 0 4096 0 (SocketAddrV4 1 2).

Lemma last_drop_closes_witness :
  ∃ u1 u2, @VeqSession_drop crates Error 0 (demo_run demo_steps) = (u1, Ok tt) ∧
    closers (us_world u1) = [] ∧
    @VeqSession_drop crates Error 1 (demo_run (demo_steps ++ [UDrop 0])) = (u2, Ok tt) ∧
    closers (us_world u2) = [(7%N, 100%N)].
Proof.
  destruct (@last_drop_closes crates crates_laws chunk_codec (demo_run demo_steps) 0 demo_handle)
    as (b & n & u1 & _ & Hdrop1 & _ & Hleft & _).
  - exists (demo_keys 1), demo_steps. reflexivity.
  - reflexivity.
  - destruct (@last_drop_closes crates crates_laws chunk_codec
      (demo_run (demo_steps ++ [UDrop 0])) 1 demo_handle)
      as (b2 & n2 & u2 & Hb2 & Hdrop2 & _ & _ & Hlast).
    + exists (demo_keys 1), (demo_steps ++ [UDrop 0]). reflexivity.
    + reflexivity.
    + exists u1, u2. split; [exact Hdrop1|]. split.
      { destruct (Hleft 1%N demo_handle) as [-> _]; [discriminate|reflexivity..]. }
      split; [exact Hdrop2|]. destruct Hlast as [-> _].
      { intros y hy Hne Hy _. revert y Hne hy Hy.
        change (us_handles (demo_run (demo_steps ++ [UDrop 0]))) with
          ({[ 1%N := demo_handle ]} : gmap N Handle).
        intros y Hne hy [Hy _]%lookup_singleton_Some. exfalso. apply Hne. symmetry. exact Hy. }
      assert (b2 = mkBidirectionalSession 7 100) as ->; [|reflexivity].
      vm_compute in Hb2. injection Hb2 as <- _. reflexivity.
Defined.

Lemma clones_are_one_session_witness :
  ∃ v, @view crates (demo_run demo_steps) 31 0 demo_handle = Some v ∧
    @user_send_all crates chunk_codec [(0%N, 31%N, [x01; x02]); (1%N, 32%N, [x03])]
      (demo_run demo_steps) =
      let '(v', r) := @veq_send_all crates chunk_codec [[x01; x02]; [x03]] v in
      (put_back demo_handle v' (demo_run demo_steps), r).
Proof.
  destruct (@clones_are_one_session crates crates_laws chunk_codec (demo_run demo_steps) 0
    demo_handle 31) as (_ & v & Hv & Hsend).
  - exists (demo_keys 1), demo_steps. reflexivity.
  - reflexivity.
  - exists v. split; [exact Hv|].
    apply (Hsend [(0%N, 31%N, [x01; x02]); (1%N, 32%N, [x03])]).
    intros y Hy. exists demo_handle. split; [|reflexivity]. revert y Hy.
    change (us_handles (demo_run demo_steps)) with
      (<[1%N := demo_handle]> {[ 0%N := demo_handle ]} : gmap N Handle).
    intros y. simpl. rewrite elem_of_cons, list_elem_of_singleton.
    intros [->| ->]; reflexivity.
Defined.
