(* ===== verification/Users.v ===== *)
(** * Two users connect and talk

    The composition of the whole program: two sockets connect to each other, and the
    messages one user sends the other receives. *)

From S2P Require Import Prelude Std Externals Layout Engine SnowTypes Transport Transform Reassembly Delegates.
From S2P Require Import Session SessionFacts Concrete SessionProps Handler Table HandlerFacts Reachable HandlerProps Wire Connection DualStack IpDiscovery Veq VeqProps.

Section users.
Context `{Crates, !CratesLaws}.
Implicit Types (w : World).

(** Of two sockets one initiates. *)
Lemma responder_of_initiator (s1 s2 : VeqSocket) :
  is_initiator s1 (connection_info s2) = true → is_initiator s2 (connection_info s1) = false.
Proof.
  unfold is_initiator, SnowPublicKey_lt, connection_info.
  set (a := public_bytes _). set (b := public_bytes _). intros Hlt.
  rewrite bytes_lt_flip, Hlt; [done|]. intros Heq. by rewrite Heq, bytes_lt_irrefl in Hlt.
Qed.

Definition completed (r : SessionReady) : SessionReady :=
  mkSessionReady (sr_id r) (sr_one_time_id r) (sr_notice r) (sr_added_waker r) true.

(** The poll of [connect] after the notification. *)
Lemma connect_resume_notified w r waker o s :
  is_notified w (sr_notice r) → established w !! sr_id r = Some (o, s) →
  let w' := run_event (EvDropReady (completed r)) (run_event (EvPollReady r waker) w) in
  connect_resume r waker w =
    (w', Ok (inr (mkVeqSession
       (Chunker_new (mkBidirectionalSession (sr_id r) (sr_one_time_id r)) 4096)
       (s_remote_addr s)))) ∧
  runtime w' = runtime w ∧ established w' = established w.
Proof.
  intros (n & Hn & Hk) Hs. destruct (bc_try_recv_some _ _ Hk) as [Hrecv _].
  unfold connect_resume, run_event, SessionReady_poll, SessionReady_drop, remote_addr,
    ready_try_recv, on_notice. unfold_monad. rewrite Hn.
  destruct (bc_try_recv (nt_channel n)) as [b ok]. simpl in Hrecv. subst ok. simpl.
  rewrite lookup_insert_eq. simpl. rewrite Hs. by split.
Qed.

(** A handler stays reachable through an operation that is an event. *)
Lemma reachable_wf_then {A} e w w' (res : World * A) (a : A) :
  event_wf e → reachable_wf w → run_event e w = fst res → res = (w', a) → reachable_wf w'.
Proof. intros He Hw Hrun ->. simpl in Hrun. rewrite <- Hrun. by apply reachable_wf_event. Qed.

(** So the poll after the notification returns the session from a reachable state. *)
Lemma connect_resumes w r waker o s :
  reachable_wf w → is_notified w (sr_notice r) → established w !! sr_id r = Some (o, s) →
  ∃ w' v, connect_resume r waker w = (w', Ok (inr v)) ∧ vsn_remote_addr v = s_remote_addr s ∧
    v = mkVeqSession (Chunker_new (mkBidirectionalSession (sr_id r) (sr_one_time_id r)) 4096)
          (s_remote_addr s) ∧
    reachable_wf w' ∧ runtime w' = runtime w ∧ established w' !! sr_id r = Some (o, s).
Proof.
  intros Hw Hn Hs. destruct (connect_resume_notified w r waker o s Hn Hs) as (Hres & Hrt & Hest).
  eexists _, _. split_and!; [exact Hres|done|done| |exact Hrt|by rewrite Hest].
  by apply reachable_wf_event, reachable_wf_event.
Qed.

(** The session [connect] returned, in the hands of a task with the waker [waker]. *)
Definition in_hands (v : VeqSession (Chunker BidirectionalSession)) w (waker : Waker) (fresh : N)
    : VeqSession (Chunker SessionInUse) :=
  mkVeqSession
    (redelegate (mkSessionInUse (delegate (vsn_delegate v)) w waker fresh) (vsn_delegate v))
    (vsn_remote_addr v).

(** Two users [connect]: three packets and two polls later both have a session, in
    states their handlers reach by events. *)
Lemma users_connect `{!NoiseLaws NOISE_PARAMS} (sockA sockB : VeqSocket) (wA wB : World)
    (rngA rngB ephA ephB : N) (keysA keysB : SnowKeypair) (oA oB : OneTimeId) (id : SessionId)
    (dst srcA srcB : SocketAddr) (wakA wakB : Waker) :
  reachable_wf wA → reachable_wf wB →
  SnowKeypair_new rngA = Ok keysA → SnowKeypair_new rngB = Ok keysB →
  keypair_ wA = keysA → keypair_ wB = keysB →
  public_key (connection_info sockA) = public keysA →
  public_key (connection_info sockB) = public keysB →
  is_initiator sockA (connection_info sockB) = true →
  dst ∈ addresses (connection_info sockB) → id_wf id →
  ∃ wA1 rA wB1 rB lA wA2 p1 d1 wB2 lB wB3 p2 d2 wA3 lK wA4 p3 d3 wB4 wA5 wB5 stA stB,
    (connect_start sockA ephA oA id (connection_info sockB) wA = (wA1, Ok rA) ∧
     connect_start sockB ephB oB id (connection_info sockA) wB = (wB1, Ok rB) ∧
     on_runtime (run_task lA) wA1 = (wA2, Ok tt) ∧ on_wire wA2 dst p1 d1 ∧
     handle_incoming srcA d1 wB1 = (wB2, Ok tt) ∧
     on_runtime (run_task lB) wB2 = (wB3, Ok tt) ∧ on_wire wB3 srcA p2 d2 ∧
     handle_incoming srcB d2 wA2 = (wA3, Ok tt) ∧
     on_runtime (run_task lK) wA3 = (wA4, Ok tt) ∧ on_wire wA4 srcB p3 d3 ∧
     handle_incoming srcA d3 wB3 = (wB4, Ok tt) ∧
     connect_resume rA wakA wA4 = (wA5, Ok (inr (mkVeqSession
       (Chunker_new (mkBidirectionalSession id oA) 4096) srcB))) ∧
     connect_resume rB wakB wB4 = (wB5, Ok (inr (mkVeqSession
       (Chunker_new (mkBidirectionalSession id oB) 4096) srcA)))) ∧
    reachable_wf wA5 ∧ session_up wA5 id oA srcB (with_next_nonce 1 (from_stateless stA)) ∧
    reachable_wf wB5 ∧ session_up wB5 id oB srcA
      (with_received (window_last (Some 0%N)) (from_stateless stB)) ∧
    sealed_for stA stB ∧
    (silent id (runtime wA) →
     ∀ o s, established wA5 !! id = Some (o, s) → opened id stB (s_core s) (runtime wA5)).
Proof.
  intros HrA HrB HkA HkB HwA HwB HpA HpB Hfirst Hdst Hid.
  pose proof (responder_of_initiator _ _ Hfirst) as Hsecond.
  destruct (handlers_connect wA wB rngA rngB ephA ephB keysA keysB oA oB id
    (connection_info sockA) (connection_info sockB) dst srcA srcB (reachable_wf_reachable _ HrA)
    (reachable_wf_reachable _ HrB) HkA HkB HwA HwB HpA HpB Hdst Hid (reachable_wf_open _ HrA)
    (reachable_wf_open _ HrB))
    as (wA1 & nA & wB1 & nB & lA & wA2 & p1 & d1 & wB2 & lB & wB3 & p2 & d2 & wA3 & lK & wA4 &
        p3 & d3 & wB4 & tA & tB & HA1 & HB1 & HA2 & Hw1 & HB2 & HB3 & Hw2 & HA3 & HA4 & Hw3 &
        HB4 & (sA & HsA & HidA & HaddrA & HcA) & (sB & HsB & HidB & HaddrB & HcB) & Hseal & _ &
        HnA & HnB & Hopen).
  set (rA := SessionReady_new id oA nA) in *. set (rB := SessionReady_new id oB nB) in *.
  assert (reachable_wf wA4) as HrA4.
  { eapply (reachable_wf_then (EvTask lK)), HA4; [exact I| |reflexivity].
    eapply (reachable_wf_then (EvPacket srcB d2)), HA3; [exact I| |reflexivity].
    eapply (reachable_wf_then (EvTask lA)), HA2; [exact I| |reflexivity].
    eapply (reachable_wf_then (EvInitiate ephA oA id (connection_info sockB))), HA1;
      [exact Hid|exact HrA|reflexivity]. }
  assert (reachable_wf wB4) as HrB4.
  { eapply (reachable_wf_then (EvPacket srcA d3)), HB4; [exact I| |reflexivity].
    eapply (reachable_wf_then (EvTask lB)), HB3; [exact I| |reflexivity].
    eapply (reachable_wf_then (EvPacket srcA d1)), HB2; [exact I| |reflexivity].
    eapply (reachable_wf_then (EvRespond ephB oB id (connection_info sockA))), HB1;
      [exact Hid|exact HrB|reflexivity]. }
  destruct (connect_resumes wA4 rA wakA oA sA HrA4 HnA HsA)
    as (wA5 & vA & HA5 & _ & -> & HrA5 & HrtA & HestA).
  destruct (connect_resumes wB4 rB wakB oB sB HrB4 HnB HsB)
    as (wB5 & vB & HB5 & _ & -> & HrB5 & HrtB & HestB).
  rewrite HaddrA in HA5. rewrite HaddrB in HB5. simpl in HestA, HestB.
  exists wA1, rA, wB1, rB, lA, wA2, p1, d1, wB2, lB, wB3, p2, d2, wA3, lK, wA4, p3, d3, wB4,
    wA5, wB5, tA, tB.
  split; [split_and!; try assumption; unfold connect_start; by rewrite ?Hfirst, ?Hsecond|].
  split_and!; [done| |done| |done|].
  - exists sA. by rewrite HrtA.
  - exists sB. by rewrite HrtB.
  - intros Hs o s. rewrite HrtA, HestA. intros [= <- <-]. by apply (Hopen Hs oA).
Qed.
End users.

(** C2. Two users connect and talk.  Two sockets with generated keys, in whatever states
    their handlers are, are told of each other and [connect] with the same identifier:
    the one with the lesser key initiates, and once the initiation, the response and
    the first keepalive message, each put on the wire by a task of its handler, have
    arrived, both calls return a session towards the address the other sends from.
    Then the non-empty messages one user sends, of any length the allocator grants, are
    received by the other unchanged and in order (an empty message is never received:
    [empty_message_lost]). *)
Theorem users_connect_and_talk `{Crates, !CratesLaws, !NoiseLaws NOISE_PARAMS, Codec ChunkedData,
    !CodecLaws ChunkedData, !ChunkLayout} (sockA sockB : VeqSocket) (wA wB : World)
    (rngA rngB ephA ephB : N) (keysA keysB : SnowKeypair) (oA oB : OneTimeId) (id : SessionId)
    (dst srcA srcB : SocketAddr) (wakA wakB : Waker) (frA frB : N) (ds : list bytes)
    (fuel : nat) :
  reachable_wf wA → reachable_wf wB →
  SnowKeypair_new rngA = Ok keysA → SnowKeypair_new rngB = Ok keysB →
  keypair_ wA = keysA → keypair_ wB = keysB →
  public_key (connection_info sockA) = public keysA →
  public_key (connection_info sockB) = public keysB →
  is_initiator sockA (connection_info sockB) = true →
  dst ∈ addresses (connection_info sockB) → id_wf id →
  Forall (sendable fuel) ds → (1 + N.of_nat (length (concat ds)) ≤ u64_max)%N →
  (N.of_nat (length ds) < u64_modulus)%N →
  ∃ wA1 rA wB1 rB lA wA2 p1 d1 wB2 lB wB3 p2 d2 wA3 lK wA4 p3 d3 wB4 wA5 vA wB5 vB vA' ps wB6
      vB',
    connect_start sockA ephA oA id (connection_info sockB) wA = (wA1, Ok rA) ∧
    connect_start sockB ephB oB id (connection_info sockA) wB = (wB1, Ok rB) ∧
    on_runtime (run_task lA) wA1 = (wA2, Ok tt) ∧ on_wire wA2 dst p1 d1 ∧
    handle_incoming srcA d1 wB1 = (wB2, Ok tt) ∧
    on_runtime (run_task lB) wB2 = (wB3, Ok tt) ∧ on_wire wB3 srcA p2 d2 ∧
    handle_incoming srcB d2 wA2 = (wA3, Ok tt) ∧
    on_runtime (run_task lK) wA3 = (wA4, Ok tt) ∧ on_wire wA4 srcB p3 d3 ∧
    handle_incoming srcA d3 wB3 = (wB4, Ok tt) ∧
    connect_resume rA wakA wA4 = (wA5, Ok (inr vA)) ∧ vsn_remote_addr vA = srcB ∧
    connect_resume rB wakB wB4 = (wB5, Ok (inr vB)) ∧ vsn_remote_addr vB = srcA ∧
    veq_send_all ds (in_hands vA wA5 wakA frA) = (vA', Ok tt) ∧
    chan_contents (outgoing (runtime (world_of vA'))) =
      chan_contents (outgoing (runtime wA5)) ++ ps ∧
    deliver srcA ps wB5 = (wB6, Ok tt) ∧
    veq_recv_all fuel (length ds) (in_hands vB wB6 wakB frB) = (vB', Ok ds).
Proof.
  intros HrA HrB HkA HkB HwA HwB HpA HpB Hfirst Hdst Hid Hds Hmax Hcount.
  destruct (users_connect sockA sockB wA wB rngA rngB ephA ephB keysA keysB oA oB id dst srcA srcB
    wakA wakB HrA HrB HkA HkB HwA HwB HpA HpB Hfirst Hdst Hid)
    as (wA1 & rA & wB1 & rB & lA & wA2 & p1 & d1 & wB2 & lB & wB3 & p2 & d2 & wA3 & lK & wA4 &
        p3 & d3 & wB4 & wA5 & wB5 & tA & tB & Hsteps & HrA5 & (sA & HsA & _ & _ & HcA) & HrB5 &
        (sB & HsB & _ & _ & HcB) & Hseal & _).
  destruct (user_sends wA5 id oA sA _ tB srcB wakA frA ds
    (reachable_wf_reachable _ HrA5) HsA HcA eq_refl (reachable_wf_open _ HrA5) Hseal
    (sendable_u64 _ _ Hds) Hmax Hcount) as (vA' & ps & Hsend & Hps & Hlen & Hnum & Hall).
  destruct (user_receives srcA ps wB5 id oB sB _ (Some 0%N) 1 srcA wakB frB ds fuel
    (reachable_wf_reachable _ HrB5) HsB HcB eq_refl chan_new_open chan_new_contents
    ltac:(split; reflexivity) eq_refl Hid Hds Hcount Hlen Hnum Hall) as (wB6 & vB' & Hdel & Hrecv).
  destruct Hsteps as (HA1 & HB1 & HA2 & Hw1 & HB2 & HB3 & Hw2 & HA3 & HA4 & Hw3 & HB4 & HA5 & HB5).
  eexists wA1, rA, wB1, rB, lA, wA2, p1, d1, wB2, lB, wB3, p2, d2, wA3, lK, wA4, p3, d3, wB4,
    wA5, _, wB5, _, vA', ps, wB6, vB'.
  split_and!; [exact HA1|exact HB1|exact HA2|exact Hw1|exact HB2|exact HB3|exact Hw2|exact HA3
    |exact HA4|exact Hw3|exact HB4|exact HA5|reflexivity|exact HB5|reflexivity|exact Hsend
    |exact Hps|exact Hdel|exact Hrecv].
Qed.

Definition demo_socket (n : N) : VeqSocket := mkVeqSocket (demo_info n) (demo_keys n).

Lemma users_connect_and_talk_witness :
  ∃ rA wA1 wA4 wA5 vA vA' ps wB5 wB6 vB vB',
    @connect_start crates (demo_socket 1) 3 100 7 (demo_info 2) (demo_handler 1) = (wA1, Ok rA) ∧
    connect_resume rA 31 wA4 = (wA5, Ok (inr vA)) ∧ vsn_remote_addr vA = SocketAddrV4 1 2 ∧
    @veq_send_all crates chunk_codec [[x01; x02]; [x03]] (in_hands vA wA5 31 0) = (vA', Ok tt) ∧
    deliver (SocketAddrV4 1 1) ps wB5 = (wB6, Ok tt) ∧
    @veq_recv_all crates chunk_codec 5 2 (in_hands vB wB6 32 0) =
      (vB', Ok [[x01; x02]; [x03]]).
Proof.
  destruct (@users_connect_and_talk crates crates_laws engine_laws chunk_codec chunk_codec_laws
    chunk_layout (demo_socket 1) (demo_socket 2) (demo_handler 1) (demo_handler 2) 1 2 3 4
    (demo_keys 1) (demo_keys 2) 100 200 7 (SocketAddrV4 1 2) (SocketAddrV4 1 1)
    (SocketAddrV4 1 2) 31 32 0 0 [[x01; x02]; [x03]] 5)
    as (wA1 & rA & wB1 & rB & lA & wA2 & p1 & d1 & wB2 & lB & wB3 & p2 & d2 & wA3 & lK & wA4 &
        p3 & d3 & wB4 & wA5 & vA & wB5 & vB & vA' & ps & wB6 & vB' & HA1 & _ & _ & _ & _ & _ &
        _ & _ & _ & _ & _ & HA5 & HaddrA & _ & _ & Hsend & _ & Hdel & Hrecv).
  - exists (demo_keys 1), []. split; [apply Forall_nil; exact I|reflexivity].
  - exists (demo_keys 2), []. split; [apply Forall_nil; exact I|reflexivity].
  - reflexivity.
  - reflexivity.
  - reflexivity.
  - reflexivity.
  - reflexivity.
  - reflexivity.
  - reflexivity.
  - unfold demo_socket, demo_info. simpl. apply elem_of_singleton. reflexivity.
  - reflexivity.
  - repeat (apply Forall_cons; split); try apply Forall_nil; try exact I; unfold sendable;
      (split; [discriminate|split; [simpl; lia|discriminate]]).
  - apply N.leb_le. reflexivity.
  - reflexivity.
  - exists rA, wA1, wA4, wA5, vA, vA', ps, wB5, wB6, vB, vB'.
    split; [exact HA1|]. split; [exact HA5|]. split; [exact HaddrA|]. split; [exact Hsend|].
    split; [exact Hdel|exact Hrecv].
Defined.
