(* ===== verification/Network.v ===== *)
(** * Two users and any network

    The network between two handlers may lose, repeat, delay and reorder what they
    transmit, and add packets of its own.  An endpoint is the session of a user with
    the handler behind it; its steps are what its program and its tasks do and what
    arrives.  Whatever the steps at both ends, what one user receives is what the
    other sent, in order and each message at most once, and nothing panics. *)

From S2P Require Import Prelude Std Externals Layout Engine SnowTypes Transport Transform Reassembly Delegates Streams.
From S2P Require Import Session SessionFacts Concrete SessionProps Handler Table HandlerFacts Reachable HandlerProps Keeping Wire Endpoint.
From S2P Require Import Connection DualStack IpDiscovery Veq VeqProps Receive Lifecycle Handles.
From stdpp Require Import sorting.

(** ** Steps of an endpoint *)

Abbreviation Endpoint := (VeqSession (Chunker SessionInUse)).

(** Something happens to the handler (a datagram arrives, a task has a turn, another
    connection is used); the transmit loop takes a packet; the user sends or receives. *)
Inductive NetStep :=
  | NEvent (e : Event)
  | NTransmit
  | NSend (waker : Waker) (data : bytes)
  | NReceive (waker : Waker) (fresh : N).

(** What a step shows: a packet on the network, the answer of a receive. *)
Inductive Output :=
  | Transmitted (x : Outgoing)
  | Received (r : outcome VeqError bytes).

Section steps.
Context `{Crates, !CratesLaws, Codec ChunkedData}.
Implicit Types (v : Endpoint) (w : World).

Definition with_world w v : Endpoint :=
  with_vsn_delegate (with_delegate (with_siu_world w (delegate (vsn_delegate v)))
    (vsn_delegate v)) v.

(** The session in the hands of the task with the waker [waker]; [fresh] is what
    [Uuid::new_v4] draws next. *)
Definition by_task (waker : Waker) (fresh : N) v : Endpoint :=
  let s := delegate (vsn_delegate v) in
  with_vsn_delegate (with_delegate (mkSessionInUse (siu_session s) (siu_world s) waker fresh)
    (vsn_delegate v)) v.

(** A receive gets the turns it needs ([recv_terminates]). *)
Definition receive v : Endpoint * list Output :=
  let turns := S (length (queued (delegate (vsn_delegate v)))) in
  let '(v, r) := VeqSession_recv (H := Chunker_Bidirectional turns) v in (v, [Received r]).

Definition run_net_step (s : NetStep) v : Endpoint * list Output :=
  match s with
  | NEvent e => (with_world (run_event e (world_of v)) v, [])
  | NTransmit =>
      let '(w, r) := recv_outgoing (E := Error) (world_of v) in
      (with_world w v, match r with Ok x => [Transmitted x] | _ => [] end)
  | NSend waker data =>
      ((VeqSession_send (H := Chunker_Bidirectional 0) data (by_task waker 0 v)).1, [])
  | NReceive waker fresh => receive (by_task waker fresh v)
  end.

Fixpoint run_net (ss : list NetStep) v : Endpoint * list Output :=
  match ss with
  | [] => (v, [])
  | s :: ss =>
      let '(v1, out1) := run_net_step s v in
      let '(v2, out2) := run_net ss v1 in (v2, out1 ++ out2)
  end.

Lemma run_net_app ss ss' v :
  run_net (ss ++ ss') v =
    let '(v1, out1) := run_net ss v in
    let '(v2, out2) := run_net ss' v1 in (v2, out1 ++ out2).
Proof.
  revert v. induction ss as [|s ss IH]; intros v; simpl; [by destruct (run_net ss' v)|].
  destruct (run_net_step s v) as [v1 out1]. rewrite IH.
  destruct (run_net ss v1) as [v2 out2], (run_net ss' v2) as [v3 out3]. by rewrite app_assoc.
Qed.
End steps.

(** What a program sent and received, and what was put on the network. *)
Definition messages_sent (ss : list NetStep) : list bytes :=
  omap (λ s, match s with NSend _ d => Some d | _ => None end) ss.
Definition transmissions (out : list Output) : list Outgoing :=
  omap (λ o, match o with Transmitted x => Some x | _ => None end) out.
Definition answers_of (out : list Output) : list (outcome VeqError bytes) :=
  omap (λ o, match o with Received r => Some r | _ => None end) out.
Definition messages_received (out : list Output) : list bytes :=
  omap (λ r, match r with Ok m => Some m | _ => None end) (answers_of out).

(** The nonces the steps of an endpoint may take: one for each task that has a turn
    and no more than one for each byte that is sent. *)
Definition step_cost (s : NetStep) : N :=
  match s with NEvent (EvTask _) => 1 | NSend _ d => 1 + N.of_nat (length d) | _ => 0 end.
Definition steps_cost (ss : list NetStep) : N := foldr (λ s n, (step_cost s + n)%N) 0%N ss.

(** The events of a handler next to a session: anything but a second use of its
    identifier, a send or a read at it past its user, or a transmission, which is a
    step of its own; of the packets that arrive for it [P] holds. *)
Definition may_happen (id : SessionId) (core : N) (P : SessionPacket → Prop)
    `{Crates} (e : Event) : Prop :=
  match e with
  | EvPacket _ data => ∀ p, deserialize data = Some p → sp_id p = id → P p
  | EvInitiate _ _ i _ | EvRespond _ _ i _ => i ≠ id ∧ id_wf i
  | EvSend i _ | EvRecvFrom i _ => i ≠ id
  | EvPollReceiving r _ => r_core r ≠ core
  | EvTransmit => False
  | EvTask _ | EvRemoteAddr _ | EvClose _ _ | EvRunCloser _ | EvPollReady _ _ | EvDropReady _ => True
  end.

Definition steps_may `{Crates} id core P (ss : list NetStep) : Prop :=
  ∀ e, NEvent e ∈ ss → may_happen id core P e.

(** ** The session in the handler *)

Section placed.
Context `{Crates, !CratesLaws}.
Context (id : SessionId) (o : OneTimeId) (sess : Session).
Implicit Types (w : World) (J : Runtime → Prop).

(** The identifier is in use for the session, or for nothing any more. *)
Record placed w : Prop := {
  pl_poker : pokers w !! id = None;
  pl_initiator : initiators w !! id = None;
  pl_responder : responders w !! id = None;
  pl_established : established w !! id = Some (o, sess) ∨ established w !! id = None;
}.

(** The other entries have other identifiers and other cores. *)
Abbreviation others J := (world_keeps (allocated (s_core sess) J) (λ i, i ≠ id ∧ id_wf i)
  (λ s, s_core s ≠ s_core sess ∧ s_id s ≠ id) (λ i, i ≠ id)).

(** The session is where it belongs, and the runtime is as [J] says. *)
Definition at_end J w : Prop := placed w ∧ others J w w.

Definition endpoint J (s : SessionInUse) : Prop :=
  bds_id (siu_session s) = id ∧ at_end J (siu_world s).

Lemma at_end_J J w : at_end J w → J (runtime w).
Proof. intros [_ [[HJ _]]]. exact HJ. Qed.

Lemma at_end_runtime J J' rt w :
  at_end J w → evolves (runtime w) rt → J' rt → at_end J' (with_runtime rt w).
Proof.
  intros [[] [[_ Hl]]] He HJ'. pose proof (ev_next _ _ He).
  split; split; simpl; try done. split; [done|lia].
Qed.

Lemma at_end_delete J w : at_end J w → at_end J (with_established (delete id (established w)) w).
Proof.
  intros [[] []]. split; split; simpl; try done.
  - right. apply lookup_delete_eq.
  - by apply map_Forall_delete.
Qed.

Lemma at_end_weaken J J' w : (J (runtime w) → J' (runtime w)) → at_end J w → at_end J' w.
Proof.
  intros HJ Hw. pose proof (HJ (at_end_J _ _ Hw)). destruct Hw as [Hp [[_ Hl]]].
  by split; [|split].
Qed.

(** An operation on the runtime. *)
Lemma at_end_quiet {E A} J J' (m : M Runtime E A) w :
  quiet m → (J (runtime w) → J' (m (runtime w)).1) → at_end J w → at_end J' (on_runtime m w).1.
Proof.
  intros Hm HJ Hw. specialize (Hm (runtime w)). specialize (HJ (at_end_J _ _ Hw)).
  unfold on_runtime, zoom. destruct (m (runtime w)) as [rt r]. by eapply at_end_runtime.
Qed.

(** A packet of the session reaches the session or nothing. *)
Lemma arrival_eq src data p w :
  placed w → deserialize data = Some p → sp_id p = id →
  (handle_incoming src data w).1 = w ∨
  (handle_incoming src data w).1 = (on_runtime (Session_handle_incoming sess p) w).1.
Proof.
  intros [H1 H2 H3 H4] Hde Hp. unfold handle_incoming, mbind, M_bind, lift. rewrite Hde. simpl.
  rewrite dispatch_maps, Hp, H1, H2, H3. destruct H4 as [-> | ->]; [right|by left].
  unfold log_err. by destruct (on_runtime _ w) as [w' []].
Qed.

(** The connection is closed: its own session at most goes. *)
Lemma at_end_close {E} J ot :
  (∀ rt, J rt → J (Session_close (E := E) sess rt).1) →
  triple (at_end J) (λ _, True) (remove_session (E := E) id ot).
Proof.
  intros HJ. apply (triple_bind _ (λ _, True)).
  { apply (triple_bind _ (λ _, True)); [by apply triple_gets|].
    intros [[o' s']|] _; [|by apply triple_ret]. destruct (matches _ _); [|by apply triple_ret].
    apply (triple_bind _ (λ old, ∀ e, old = Some e → e.2 = sess)).
    { apply triple_gets. intros w [[_ _ _ [He|He]] _] e; rewrite He; by intros [= <-]. }
    intros old Hold. apply (triple_bind _ (λ _, True)).
    { apply triple_modify; [|done]. apply at_end_delete. }
    intros _ _. destruct old as [[o1 s1]|]; [|by apply triple_ret].
    intros w Hw. split; [|done]. pose proof (Hold _ eq_refl) as Heq. simpl in Heq. subst s1.
    eapply at_end_quiet; [apply quiet_Session_close|apply HJ|exact Hw]. }
  intros _ _. apply (triple_bind _ (λ _, True)).
  { apply (triple_bind _ (λ x, x = None)); [apply triple_gets; by intros w [[]]|].
    intros x ->. by apply triple_ret. }
  intros _ _. apply (triple_bind _ (λ _, True)).
  { apply (triple_bind _ (λ x, x = None)); [apply triple_gets; by intros w [[]]|].
    intros x ->. by apply triple_ret. }
  intros _ _. apply (triple_bind _ (λ x, x = None)); [apply triple_gets; by intros w [[]]|].
  intros x ->. by apply triple_ret.
Qed.

Lemma at_end_closers J l w : at_end J w → at_end J (with_closers l w).
Proof. intros [[] []]. by split; split. Qed.

(** A packet of the session, a task, or something else. *)
Lemma event_cases e :
  (∃ src data p, e = EvPacket src data ∧ deserialize data = Some p ∧ sp_id p = id) ∨
  (∃ h, e = EvTask h) ∨
  (∀ h, e ≠ EvTask h) ∧
    ∀ core P, may_happen id core P e → may_happen id core (λ _, False) e.
Proof.
  destruct e as [src data| | | | | | | |h| | | |]; try (right; right; by split); [|right; left; eauto].
  destruct (deserialize data) as [p|] eqn:Hde; [destruct (decide (sp_id p = id))|].
  - left. by exists src, data, p.
  - right. right. split; [done|]. simpl. intros. by simplify_eq.
  - right. right. split; [done|]. simpl. intros. by simplify_eq.
Qed.

(** What happens on behalf of other connections. *)
Lemma at_end_concerns J e w :
  Apart (s_core sess) id J →
  concerns (λ i, i ≠ id ∧ id_wf i) (λ i, i ≠ id) e w → at_end J w → at_end J (run_event e w).
Proof.
  intros HJ He [[] Hw].
  pose proof (world_keeps_event _ _ _ _ w e w He Hw) as [H1 H2 H3 H4 H5 H6].
  assert (slots (run_event e w) id = slots w id) as Hid by (apply H6; by intros []).
  unfold slots in Hid. injection Hid as E1 E2 E3 E4. split; [|by split].
  by split; rewrite ?E1, ?E2, ?E3, ?E4.
Qed.

Lemma at_end_event J e w :
  Apart (s_core sess) id J → (∀ rt, J rt → J (Session_close (E := Error) sess rt).1) →
  may_happen id (s_core sess) (λ _, False) e → (∀ h, e ≠ EvTask h) →
  at_end J w → at_end J (run_event e w).
Proof.
  intros HJ Hclose He Ht Hw.
  destruct e as [src data|rng ot i info|rng ot i info|i d|i fresh|i|i ot|k|h|r wk|r|r wk|];
    simpl in He; try (apply at_end_concerns; [done| |exact Hw]; simpl; first [done|tauto]).
  - cbn [run_event]. unfold run_closer. erewrite M_bind_step by reflexivity.
    destruct (closers w !! k) as [[i ot]|] eqn:Hk; [|done].
    destruct (decide (i = id)) as [->|Hne].
    + eapply (triple_keeps _ (λ _, True)); [|exact Hw].
      apply (triple_bind _ (λ _, True)); [|intros _ _; by apply at_end_close].
      apply triple_modify; [|done]. intros w' Hw'. by apply at_end_closers.
    + pose proof (at_end_concerns J (EvRunCloser k) w HJ) as Hc. cbn [run_event] in Hc.
      unfold run_closer in Hc. erewrite M_bind_step in Hc by reflexivity. rewrite Hk in Hc.
      apply Hc; [|exact Hw]. simpl. rewrite Hk. by intros ? ? [= <- <-].
  - by destruct (Ht h).
  - eapply at_end_quiet; [apply quiet_Receiving_poll| |exact Hw]. intros HJw.
    destruct Hw as [_ [Hall]]. by destruct (apart_poll (E := Error) _ _ J r wk He (runtime w) Hall) as [[]].
Qed.

Lemma endpoint_send J J' d s :
  (∀ rt, J rt → J' rt) → (∀ rt, J rt → J' (Session_send sess d rt).1) →
  endpoint J s → endpoint J' (bsend d s).1.
Proof.
  intros HJ HJ' [Hid Hw]. simpl. unfold BidirectionalSession_send, send. unfold_monad.
  rewrite Hid. destruct (pl_established _ (proj1 Hw)) as [-> | ->]; simpl.
  - pose proof (at_end_quiet J J' (Session_send sess d) _ (quiet_Session_send _ _) (HJ' _) Hw) as Hw'.
    by destruct (on_runtime _ _) as [w r].
  - split; [done|]. apply (at_end_weaken J J'); [by apply HJ|exact Hw].
Qed.

(** A receive on a session that is dead or gone ends it; any other polls it. *)
Lemma endpoint_brecv J s c :
  endpoint J s → cores (runtime (siu_world s)) !! s_core sess = Some c →
  (∃ s', brecv s = (s', Err Disconnected) ∧ endpoint J s') ∨
  established (siu_world s) !! id = Some (o, sess) ∧ dead c = false.
Proof.
  intros [Hid Hw] Hc. simpl. unfold BidirectionalSession_recv. unfold_monad.
  rewrite Hid. destruct (pl_established _ (proj1 Hw)) as [He|He].
  - destruct (dead c) eqn:Hd; [left|by right]. rewrite (recv_from_dead id _ _ o sess c) by done.
    simpl. eexists. split; [reflexivity|]. split; [done|]. by apply at_end_delete.
  - left. unfold recv_from. unfold_monad. rewrite He. simpl. eexists. split; [reflexivity|].
    by split.
Qed.

Definition polled (r : outcome VeqError (Poll (bytes + unit))) : outcome VeqError bytes :=
  p ← r;
  match p with
  | Ready (inl data) => Ok data
  | Ready (inr _) => Err Disconnected
  | PollPending => Pending
  end.

Lemma brecv_alive s c rt p :
  bds_id (siu_session s) = id → established (siu_world s) !! id = Some (o, sess) →
  cores (runtime (siu_world s)) !! s_core sess = Some c → dead c = false →
  Receiving_poll (Receiving_new (s_core sess) (siu_fresh s)) (siu_waker s)
    (runtime (siu_world s)) = (rt, p) →
  brecv s = (with_siu_fresh (siu_fresh s + 1)
    (with_siu_world (with_runtime rt (siu_world s)) s), polled p).
Proof.
  intros Hid He Hc Hd Hpoll. simpl. unfold BidirectionalSession_recv. unfold_monad.
  rewrite Hid, (recv_from_alive id _ _ o sess c) by done. simpl.
  unfold on_runtime, zoom. simpl. rewrite Hpoll. by destruct p as [[[]|]| | | |].
Qed.
End placed.

(** ** The listening end *)

Section listening.
Context `{Crates, !CratesLaws, Codec ChunkedData, !CodecLaws ChunkedData}.
Context (id : SessionId) (o : OneTimeId) (sess : Session) (st : StatelessTransportState).
Context (log : list (N * Message)) (ds : list bytes).
Hypothesis log_sorted : StronglySorted numbered_before log.
Hypothesis log_packets : payloads log `sublist_of` all_packets (N.to_nat 4096) 0 ds.
Hypothesis ds_count : (N.of_nat (length ds) ≤ u64_modulus)%N.
Hypothesis ds_fit : Forall (λ d, (N.of_nat (length d) ≤ alloc_slots)%N) ds.
Implicit Types (v : Endpoint) (s : SessionInUse) (consumed got q : list bytes).

Abbreviation hearing_at consumed q :=
  (endpoint id o sess (hearing (s_core sess) st log consumed q)).

(** [got] was returned to the user so far. *)
Definition listener got v : Prop :=
  ∃ consumed q, hearing_at consumed q (delegate (vsn_delegate v)) ∧
    feed (N.to_nat 4096) ds consumed got (redelegate tt (vsn_delegate v)).

(** The packets taken from the session and those that wait are some of the sender's. *)
Lemma hearing_packets consumed q rt :
  hearing (s_core sess) st log consumed q rt →
  consumed ++ q `sublist_of` all_packets (N.to_nat 4096) 0 ds.
Proof using log_packets.
  intros (_ & c & _ & [_ (last & acc & _ & Hacc & <- & _) _ _]).
  etrans; [by apply payloads_sublist|done].
Qed.

(** A session that is alive, its packets a queue: [total] arrived so far. *)
Definition readable (total : list bytes) s q : Prop :=
  ∃ consumed c, total = consumed ++ q ∧ hearing_at consumed q s ∧
    established (siu_world s) !! id = Some (o, sess) ∧
    cores (runtime (siu_world s)) !! s_core sess = Some c ∧ dead c = false ∧
    hears st log consumed q c.

Lemma readable_poll total s q :
  readable total s q →
  ∃ s', readable total s' (tail q) ∧
    brecv s = (s', match q with [] => Pending | x :: _ => Ok x end).
Proof.
  intros (consumed & c & -> & [Hid Hw] & He & Hc & Hd & Hh).
  pose proof (quiet_Receiving_poll (E := VeqError) (Receiving_new (s_core sess) (siu_fresh s))
    (siu_waker s) (runtime (siu_world s))) as Hev.
  destruct (hearing_poll (E := VeqError) (s_core sess) st log consumed q
    (Receiving_new (s_core sess) (siu_fresh s)) (siu_waker s) (runtime (siu_world s)) c
    eq_refl Hc Hd Hh) as (c' & p & Hpoll & Hd' & Hq).
  rewrite (brecv_alive id o sess s c _ _ Hid He Hc Hd Hpoll). rewrite Hpoll in Hev.
  assert (∃ consumed', consumed ++ q = consumed' ++ tail q ∧ hears st log consumed' (tail q) c')
    as (consumed' & Heq & Hh').
  { destruct q as [|x q]; destruct Hq as [_ Hh']; [by exists consumed|].
    exists (consumed ++ [x]). by rewrite <- app_assoc. }
  eexists. split; [|destruct q; destruct Hq as [-> _]; reflexivity].
  exists consumed', c'. split; [done|]. split.
  - split; [done|]. eapply at_end_runtime; [exact Hw|exact Hev|]. split; [done|].
    exists c'. split; [apply lookup_set_core|done].
  - split; [exact He|]. split; [apply lookup_set_core|by split].
Qed.

#[export] Instance readable_pops total : Pops (readable total).
Proof. intros s x q Hs. destruct (readable_poll total s _ Hs) as (s' & Hs' & ->). by exists s'. Qed.

#[export] Instance readable_stalls total : Stalls (readable total).
Proof. intros s Hs. destruct (readable_poll total s _ Hs) as (s' & Hs' & ->). by exists s'. Qed.

(** What may happen at this end: the packets that arrive for the session were sealed
    by the peer or do not open. *)
Lemma listener_event got v e :
  may_happen id (s_core sess) (heard st log) e →
  listener got v → listener got (run_net_step (NEvent e) v).1.
Proof using All.
  intros He (consumed & q & [Hid Hw] & Hf).
  assert (∃ new, at_end id o sess (hearing (s_core sess) st log consumed (q ++ new))
    (run_event e (world_of v))) as (new & Hw'); [|by exists consumed, (q ++ new)].
  assert (∀ w, at_end id o sess (hearing (s_core sess) st log consumed q) w →
    ∃ new, at_end id o sess (hearing (s_core sess) st log consumed (q ++ new)) w) as Hsame.
  { intros w. exists []. by rewrite app_nil_r. }
  destruct (event_cases id e) as [(src & data & p & -> & Hde & Hp)|[[h ->]|[Ht Hother]]].
  - cbn [run_event]. destruct (arrival_eq id o sess src data p (world_of v) (proj1 Hw) Hde Hp)
      as [-> | ->]; [by apply Hsame|].
    destruct (hearing_packet (s_core sess) st log log_sorted consumed q sess p _ eq_refl
      (He p Hde Hp) (at_end_J _ _ _ _ _ Hw)) as (_ & new & Hrt).
    exists new. eapply at_end_quiet; [apply quiet_Session_handle_incoming|by intros _|exact Hw].
  - apply Hsame. eapply at_end_quiet; [apply quiet_run_task| |exact Hw].
    intros Hrt. by apply hearing_run_task.
  - apply Hsame, at_end_event; [apply _| |by eapply Hother|done|done].
    intros rt Hrt. by apply hearing_close.
Qed.

Lemma listener_transmit got v : listener got v → listener got (run_net_step NTransmit v).1.
Proof.
  intros (consumed & q & [Hid Hw] & Hf). exists consumed, q. simpl.
  unfold recv_outgoing. destruct (chan_try_recv _) as [c [x|]]; (split; [|done]);
    (split; [done|]); (eapply at_end_runtime; [exact Hw|split; simpl; [done|lia|done|by eauto]|]);
    by apply at_end_J in Hw.
Qed.

Lemma listener_send got v d :
  listener got v → listener got (VeqSession_send (H := Chunker_Bidirectional 0) d v).1.
Proof.
  intros (consumed & q & Hs & Hf). exists consumed, q. simpl. unfold VeqSession_send, zoom. simpl.
  destruct (Chunker_send_keeps (hearing_at consumed q)
    (chunk_size (vsn_delegate v), chunk_groups (vsn_delegate v), completed_chunks (vsn_delegate v))
    d) with (s := vsn_delegate v) as [[Hs' [= E1 E2 E3]] _]; [|by split|].
  - intros x s' Hs'. split; [|done]. eapply endpoint_send; [done| |exact Hs'].
    intros rt Hrt. by apply hearing_Session_send.
  - destruct (Chunker_send d (vsn_delegate v)) as [c r]. simpl in *. split; [done|].
    destruct Hf as (dn & [[] Hsort Hdone]). exists dn. unfold returned in *.
    split; [|done|done]. split; simpl in *; by rewrite ?E2, ?E3.
Qed.

(** A receive returns a message of the sender, waits or reports the end. *)
Lemma listener_receive got v :
  listener got v →
  ∃ r, (receive v).2 = [Received r] ∧
    match r with
    | Ok m => listener (got ++ [m]) (receive v).1
    | Err _ | Pending => listener got (receive v).1
    | _ => False
    end.
Proof using All.
  intros (consumed & q & Hs & Hf). destruct v as [c addr]. unfold receive. simpl in *.
  unfold VeqSession_recv, zoom. cbn [brecv Chunker_Bidirectional vsn_delegate].
  pose proof Hs as [Hid Hw]. pose proof (at_end_J _ _ _ _ _ Hw) as (_ & core & Hc & Hh).
  destruct (completed_chunks c) as [|m ms] eqn:Hcomp.
  - destruct (endpoint_brecv id o sess _ _ core Hs Hc) as [(s' & Hr & Hs')|[He Hd]].
    + rewrite recv_turn_eq, Hcomp, Hr. eexists. split; [reflexivity|]. by exists consumed, q.
    + assert (readable (consumed ++ q) (delegate c) q) as HR
        by (by exists consumed, core).
      destruct (Chunker_recv_reads (readable (consumed ++ q)) q (S (length (queued (delegate c))))
        (delegate c) (redelegate tt c) HR) as (s' & Hrecv & HR').
      { unfold queued. rewrite Hid, He, Hc, Hd. rewrite (hr_queue _ _ _ _ _ Hh). lia. }
      assert (redelegate (delegate c) (redelegate tt c) = c) as Hcc by (by destruct c).
      rewrite Hcc in Hrecv. rewrite Hrecv. simpl.
      destruct (feed_read (N.to_nat 4096) ds) with (q := q) (consumed := consumed) (got := got)
        (c := redelegate tt c) as (eaten & Hread); [lia|done|done|done| |].
      { eapply hearing_packets. split; [done|]. by exists core. }
      destruct (read_queue q (redelegate tt c)) as [[c' rest] r]. simpl in *.
      destruct HR' as (consumed' & c1 & Heq & Hs' & _). destruct Hread as [-> Hr].
      rewrite app_assoc in Heq. apply app_inv_tail in Heq as <-.
      destruct Hr as [(m & -> & Hf')|(-> & -> & Hf')]; (eexists; split; [reflexivity|]);
        eexists _, _; (split; [exact Hs'|]); by destruct c' as [[] ? ? ? ?].
  - rewrite recv_turn_eq, Hcomp. eexists. split; [reflexivity|]. exists consumed, q.
    split; [done|]. by apply (feed_pop _ _ _ _ (redelegate tt c)).
Qed.

Definition answer_ok (r : outcome VeqError bytes) : Prop :=
  match r with Ok _ | Err Disconnected | Pending => True | _ => False end.

Lemma listener_run ss got v :
  steps_may id (s_core sess) (heard st log) ss → listener got v →
  listener (got ++ messages_received (run_net ss v).2) (run_net ss v).1 ∧
  Forall answer_ok (answers_of (run_net ss v).2).
Proof using All.
  revert got v. induction ss as [|x ss IH]; intros got v Hmay Hv; simpl.
  { rewrite app_nil_r. by split. }
  assert (∃ got', listener (got ++ got') (run_net_step x v).1 ∧
    messages_received (run_net_step x v).2 = got' ∧
    Forall answer_ok (answers_of (run_net_step x v).2)) as (got' & Hv' & Hgot & Hans).
  { destruct x as [e| |waker d|waker fresh].
    - exists []. rewrite app_nil_r. split_and!; [|done|constructor].
      apply listener_event; [|done]. apply Hmay. by left.
    - exists []. rewrite app_nil_r. split_and!; [by apply listener_transmit| |];
        simpl; unfold recv_outgoing; destruct (chan_try_recv _) as [? []]; simpl; done || constructor.
    - exists []. rewrite app_nil_r. split_and!; [by apply (listener_send got (by_task waker 0 v))|done|constructor].
    - destruct (listener_receive got (by_task waker fresh v) Hv) as (r & Hr0 & Hr).
      cbn [run_net_step]. rewrite Hr0. destruct r as [m|[]| | |]; try done.
      + exists [m]. split_and!; [done..|by repeat constructor].
      + exists []. rewrite app_nil_r. split_and!; [done..|by repeat constructor].
      + exists []. rewrite app_nil_r. split_and!; [done..|by repeat constructor]. }
  assert (steps_may id (s_core sess) (heard st log) ss) as Hmay'
    by (intros e He; apply Hmay; by right).
  destruct (run_net_step x v) as [v1 out1]. simpl in *.
  destruct (IH _ _ Hmay' Hv') as [Hv2 Hans2]. destruct (run_net ss v1) as [v2 out2]. simpl in *.
  unfold messages_received, answers_of in *. rewrite !omap_app. split.
  - by rewrite Hgot, app_assoc.
  - by apply Forall_app.
Qed.

Lemma listener_sublist got v : listener got v → got `sublist_of` ds.
Proof.
  intros (consumed & q & _ & Hf). etrans; [|by eapply feed_sublist].
  by apply sublist_inserts_r.
Qed.
End listening.

(** ** The speaking end *)

Lemma all_packets_snoc `{Codec ChunkedData} n g ds d :
  all_packets n g (ds ++ [d]) = all_packets n g ds ++ packets n (g + N.of_nat (length ds)) d.
Proof.
  revert g. induction ds as [|d' ds IH]; intros g; simpl.
  - by rewrite N.add_0_r, app_nil_r.
  - rewrite IH, <- app_assoc. do 3 f_equal. lia.
Qed.

Section talking.
Context `{Crates, !CratesLaws, Codec ChunkedData, !CodecLaws ChunkedData, !ChunkLayout}.
Context (id : SessionId) (o : OneTimeId) (sess : Session) (st st' : StatelessTransportState).
Hypothesis sealed : sealed_for st st'.
Implicit Types (v : Endpoint) (s : SessionInUse) (k : N) (log : list (N * Message)).

Abbreviation speaking_at k log := (endpoint id o sess (speaking (s_core sess) id st st' k log)).

(** The user called [send] with the messages [out] so far; [log] was sealed, and [k]
    nonces may still be used. *)
Record speaker k (out : list bytes) log v : Prop := {
  sk_size : chunk_size (vsn_delegate v) = 4096%N;
  sk_group : current_group (vsn_delegate v) = N.of_nat (length out);
  sk_room : (N.of_nat (length out) + k ≤ u64_max)%N;
  sk_said : payloads log `sublist_of` all_packets (N.to_nat 4096) 0 out;
  sk_speaking : speaking_at k log (delegate (vsn_delegate v));
}.

Lemma speaking_at_weaken k k' log s : (k' ≤ k)%N → speaking_at k log s → speaking_at k' log s.
Proof.
  intros Hk [Hid Hw]. split; [done|]. eapply at_end_weaken; [|exact Hw].
  intros Hs. by eapply speaking_weaken.
Qed.

Lemma speaker_task k out log v waker fresh :
  speaker k out log v → speaker k out log (by_task waker fresh v).
Proof. by intros [Hsz Hg Hroom Hsaid Hs]. Qed.

(** A step of the handler that seals nothing for the user. *)
Lemma speaker_world k k' out log log' v w :
  (k' ≤ k)%N → payloads log' = payloads log → speaker k out log v →
  at_end id o sess (speaking (s_core sess) id st st' k' log') w →
  speaker k' out log' (with_world w v).
Proof.
  intros Hk Hlog [Hsz Hg Hroom Hsaid [Hid _]] Hw.
  split; simpl; [done|done|lia|by rewrite Hlog|by split].
Qed.

Definition event_cost (e : Event) : N := match e with EvTask _ => 1 | _ => 0 end.

Lemma speaker_event k out log v e :
  may_happen id (s_core sess) (λ _, True) e →
  speaker (k + event_cost e) out log v →
  ∃ new, speaker k out (log ++ new) (run_net_step (NEvent e) v).1.
Proof using sealed.
  intros He Hv. pose proof (sk_speaking _ _ _ _ Hv) as [Hid Hw].
  assert (∃ new, payloads new = [] ∧ at_end id o sess
      (speaking (s_core sess) id st st' k (log ++ new)) (run_event e (world_of v)))
    as (new & Hnew & Hw').
  2: { exists new. eapply speaker_world; [|by rewrite payloads_app, Hnew, app_nil_r|exact Hv|done].
       lia. }
  assert (∀ w, at_end id o sess (speaking (s_core sess) id st st' (k + event_cost e) log) w →
    ∃ new, payloads new = [] ∧
      at_end id o sess (speaking (s_core sess) id st st' k (log ++ new)) w) as Hsame.
  { intros w Hw1. exists []. rewrite app_nil_r. split; [done|].
    eapply at_end_weaken; [|exact Hw1]. apply speaking_weaken. lia. }
  destruct (event_cases id e) as [(src & data & p & -> & Hde & Hp)|[[h ->]|[Ht Hother]]].
  - apply Hsame. cbn [run_event].
    destruct (arrival_eq id o sess src data p (world_of v) (proj1 Hw) Hde Hp) as [-> | ->];
      [exact Hw|].
    eapply at_end_quiet; [apply quiet_Session_handle_incoming| |exact Hw].
    apply speaking_handle_incoming.
  - destruct (speaking_run_task _ _ _ _ sealed k log h _ (at_end_J _ _ _ _ _ Hw))
      as (new & Hnew & Hrt).
    exists new. split; [exact Hnew|]. eapply at_end_quiet; [apply quiet_run_task|by intros _|exact Hw].
  - apply Hsame, at_end_event; [apply _| |by eapply Hother|done|exact Hw].
    intros rt Hrt. by apply speaking_close.
Qed.

Lemma speaker_transmit k out log v :
  speaker k out log v →
  speaker k out log (run_net_step NTransmit v).1 ∧
  Forall (λ x, sp_id x.1.2 = id → heard st' log x.1.2)
    (transmissions (run_net_step NTransmit v).2).
Proof.
  intros Hv. pose proof (sk_speaking _ _ _ _ Hv) as [Hid Hw].
  pose proof (speaking_transmit _ _ _ _ _ _ _ (at_end_J _ _ _ _ _ Hw)) as [Hs Hx].
  simpl. unfold recv_outgoing, world_of. destruct (chan_try_recv _) as [c [x|]]; simpl in *;
    (split; [eapply speaker_world; [done|done|exact Hv|];
       eapply at_end_runtime; [exact Hw|split; simpl; [done|lia|done|by eauto]|exact Hs]|]);
    [by constructor; [apply Hx|]|done].
Qed.

Lemma speaker_receive k out log v :
  speaker k out log v → speaker k out log (receive v).1.
Proof.
  intros [Hsz Hg Hroom Hsaid Hs]. unfold receive, VeqSession_recv, zoom.
  cbn [brecv Chunker_Bidirectional].
  generalize (S (length (queued (delegate (vsn_delegate v))))) as turns. intros turns.
  destruct (Chunker_recv_keeps (speaking_at k log)
    (chunk_size (vsn_delegate v), current_group (vsn_delegate v)) turns)
    with (s := vsn_delegate v) as [[Hs' [= E1 E2]] _]; [|by split|].
  - intros s Hs'. split; [|done]. pose proof Hs' as [Hid Hw].
    pose proof (at_end_J _ _ _ _ _ Hw) as Hsp. destruct (sp_core _ _ _ _ _ _ _ Hsp) as (c & Hc & _).
    destruct (endpoint_brecv id o sess _ s c Hs' Hc) as [(s1 & -> & Hs1)|[He Hd]]; [done|].
    pose proof (speaking_poll (E := VeqError) _ _ _ _ k log
      (Receiving_new (s_core sess) (siu_fresh s)) (siu_waker s) _ Hsp) as Hsp'.
    pose proof (quiet_Receiving_poll (E := VeqError) (Receiving_new (s_core sess) (siu_fresh s))
      (siu_waker s) (runtime (siu_world s))) as Hev.
    destruct (Receiving_poll _ _ _) as [rt p] eqn:Hpoll.
    rewrite (brecv_alive id o sess s c rt p Hid He Hc Hd Hpoll).
    split; [done|]. by eapply at_end_runtime.
  - destruct (Chunker_recv turns (vsn_delegate v)) as [c r]. simpl in *.
    split; simpl; [by rewrite E1|by rewrite E2|done|done|done].
Qed.

Lemma speaker_sends k log ds (c : Chunker SessionInUse) :
  s_id sess = id → Forall (λ x, length x + 44 ≤ noise_max) ds →
  speaking_at (k + N.of_nat (length ds)) log (delegate c) →
  ∃ new d', (send_all ds c).1 = with_delegate d' c ∧ payloads new `sublist_of` ds ∧
    speaking_at k (log ++ new) d'.
Proof using sealed.
  intros Hsid Hds. revert log c. induction Hds as [|x ds Hx Hds IH]; intros log c Hs; simpl.
  { exists [], (delegate c). rewrite app_nil_r, N.add_0_r in *. by destruct c. }
  set (k' := (k + N.of_nat (length ds))%N) in *.
  assert (speaking_at (k' + 1) log (delegate c)) as Hs0
    by (eapply speaking_at_weaken; [|exact Hs]; unfold k'; simpl; lia).
  assert (∃ new, payloads new `sublist_of` [x] ∧
    speaking_at k' (log ++ new) (bsend x (delegate c)).1) as (new & Hnew & Hs1).
  { destruct Hs0 as [Hid Hw]. pose proof (at_end_J _ _ _ _ _ Hw) as Hsp.
    destruct (speaking_Session_send _ id _ _ sealed k' log sess x _ eq_refl Hx Hsp)
      as (new & Hnew & Hrt).
    simpl. unfold BidirectionalSession_send, send. unfold_monad.
    rewrite Hid. destruct (pl_established _ _ _ _ (proj1 Hw)) as [-> | ->]; simpl.
    - exists new. split; [done|].
      pose proof (at_end_quiet id o sess _ (speaking (s_core sess) id st st' k' (log ++ new)) _ _
        (quiet_Session_send sess x) ltac:(by intros _) Hw) as Hw'.
      by destruct (on_runtime _ _) as [w r].
    - exists []. rewrite app_nil_r. split; [apply sublist_nil_l|]. split; [done|].
      eapply at_end_weaken; [|exact Hw]. apply speaking_weaken. lia. }
  unfold mbind, M_bind, zoom. simpl in Hs1.
  destruct (BidirectionalSession_send x (delegate c)) as [d' r]. simpl in *.
  assert (∃ new' d'', with_delegate d' c = with_delegate d'' c ∧
    payloads new' `sublist_of` x :: ds ∧ speaking_at k (log ++ new') d'') as Hstop.
  { exists new, d'. split_and!; [done| |eapply speaking_at_weaken; [|exact Hs1]; unfold k'; lia].
    etrans; [exact Hnew|]. apply sublist_skip, sublist_nil_l. }
  destruct r as [[]| | | |]; [|exact Hstop..].
  destruct (IH (log ++ new) (with_delegate d' c) Hs1) as (new' & d'' & Hall & Hnew' & Hs').
  exists (new ++ new'), d''. rewrite payloads_app. split_and!; [by rewrite Hall| |by rewrite app_assoc].
  by apply (sublist_app (payloads new) [x]).
Qed.

Lemma speaker_send k out log v d :
  s_id sess = id →
  speaker (k + (1 + N.of_nat (length d))) out log v →
  ∃ new, speaker k (out ++ [d]) (log ++ new)
    (VeqSession_send (H := Chunker_Bidirectional 0) d v).1.
Proof using All.
  intros Hsid [Hsz Hg Hroom Hsaid Hs].
  unfold VeqSession_send, zoom. simpl. unfold u64_max in Hroom.
  rewrite Chunker_send_eq; [|rewrite Hsz; unfold u64_modulus; lia|
    rewrite Hg; unfold u64_modulus; lia|unfold u64_modulus; lia].
  rewrite Hsz, Hg. set (ps := packets (N.to_nat 4096) (N.of_nat (length out)) d).
  pose proof (packets_count (N.to_nat 4096) (N.of_nat (length out)) d) as Hcount. fold ps in Hcount.
  destruct (speaker_sends k log ps (with_current_group (N.of_nat (length out) + 1) (vsn_delegate v))
    Hsid) as (new & d' & Hall & Hnew & Hs').
  - apply Forall_forall. intros x Hx%packets_length. pose proof noise_max_N. lia.
  - eapply speaking_at_weaken; [|exact Hs]. lia.
  - exists new. destruct (send_all _ _) as [c r]. simpl in Hall. subst c.
    split; simpl; [done|rewrite length_app; simpl; lia|rewrite length_app; simpl; unfold u64_max; lia| |done].
    rewrite all_packets_snoc, payloads_app, N.add_0_l. by apply sublist_app.
Qed.

Lemma speaker_run ss out log v :
  s_id sess = id →
  steps_may id (s_core sess) (λ _, True) ss →
  speaker (steps_cost ss) out log v →
  ∃ new, speaker 0 (out ++ messages_sent ss) (log ++ new) (run_net ss v).1 ∧
    Forall (λ x, sp_id x.1.2 = id → heard st' (log ++ new) x.1.2)
      (transmissions (run_net ss v).2).
Proof using All.
  intros Hsid. revert out log v. induction ss as [|x ss IH]; intros out log v Hmay Hv; simpl.
  { exists []. rewrite !app_nil_r. by split. }
  assert (∃ new, speaker (steps_cost ss) (out ++ messages_sent [x]) (log ++ new)
      (run_net_step x v).1 ∧
    Forall (λ y, sp_id y.1.2 = id → heard st' (log ++ new) y.1.2)
      (transmissions (run_net_step x v).2)) as (new & Hv' & Hout).
  { simpl in Hv. destruct x as [e| |waker d|waker fresh]; simpl messages_sent; rewrite ?app_nil_r.
    - rewrite N.add_comm in Hv. apply speaker_event with (e := e) in Hv as (new & Hv);
        [|apply Hmay; by left]. exists new. by split; [|constructor].
    - exists []. rewrite app_nil_r. by apply speaker_transmit.
    - rewrite N.add_comm in Hv. apply (speaker_task _ _ _ _ waker 0), speaker_send in Hv as (new & Hv); [|done].
      exists new. by split; [|constructor].
    - exists []. rewrite app_nil_r. split; [by apply speaker_receive, speaker_task|].
      cbn [run_net_step]. unfold receive. by destruct (VeqSession_recv _). }
  destruct (run_net_step x v) as [v1 out1]. simpl in Hv', Hout.
  destruct (IH _ _ _ ltac:(intros e He; apply Hmay; by right) Hv')
    as (new' & Hv2 & Hout2).
  exists (new ++ new'). destruct (run_net ss v1) as [v2 out2]. simpl in *. split.
  - rewrite <- !app_assoc in Hv2.
    by destruct x.
  - unfold transmissions. rewrite omap_app, app_assoc. apply Forall_app. split; [|by rewrite <- app_assoc in *].
    eapply Forall_impl; [exact Hout|]. simpl. intros y Hy Hid. by apply heard_app, Hy.
Qed.
End talking.

Lemma hearing_log `{Crates, !CratesLaws} l st log log' consumed q rt :
  log `sublist_of` log' → hearing l st log consumed q rt → hearing l st log' consumed q rt.
Proof.
  intros Hlog (_ & c & Hc & [Hst (last & acc & Hwin & Hacc & Hrest) Ho Hq]).
  split; [done|]. exists c. split; [done|]. split; [done| |done|done].
  exists last, acc. split; [done|]. split; [by etrans|done].
Qed.

Lemma reachable_at_end `{Crates, !CratesLaws} w id o sess (J : Runtime → Prop) :
  reachable_wf w → established w !! id = Some (o, sess) → J (runtime w) →
  at_end id o sess J w ∧ s_id sess = id.
Proof.
  intros Hw He HJ. pose proof (reachable_wf_world _ Hw) as [_ Hp Hi Hr _ _].
  apply reachable_wf_reachable, reachable_ok in Hw as (T & HR & Htab).
  assert (T !! id = Some (SEstablished o sess)) as Hsl by (by apply HR).
  destruct (represents_Some _ _ _ _ HR Hsl) as (E1 & E2 & E3 & E4).
  destruct (to_slot _ _ _ Htab _ _ Hsl) as [Hsid [c Hc]]. split; [|done].
  split; [split; [done..|by left]|]. split; [split; [done|by eapply to_core]|..].
  - intros i x Hx Hne. pose proof (Hp i x Hx I) as Hwf. apply HR in Hx.
    destruct (to_slot _ _ _ Htab _ _ Hx) as [Heq _]. split; [by rewrite Heq|exact Hwf].
  - intros i x Hx Hne. pose proof (Hi i x Hx I) as Hwf. apply HR in Hx.
    destruct (to_slot _ _ _ Htab _ _ Hx) as [Heq _]. split; [by rewrite Heq|exact Hwf].
  - intros i x Hx Hne. pose proof (Hr i x Hx I) as Hwf. apply HR in Hx.
    destruct (to_slot _ _ _ Htab _ _ Hx) as [Heq _]. split; [by rewrite Heq|exact Hwf].
  - intros i [o' s'] Hx Hne. apply HR in Hx. split.
    + intros Heq. apply Hne. by eapply (to_inj _ _ _ Htab).
    + simpl. by destruct (to_slot _ _ _ Htab _ _ Hx) as [-> _].
  - done.
Qed.

(** The two ends of a session, the network between them and the rest of the handlers. *)
Lemma two_ends `{Crates, !CratesLaws, Codec ChunkedData, !CodecLaws ChunkedData,
    !ChunkLayout} (wA wB : World) (id : SessionId) (oA oB : OneTimeId) (sA sB : Session)
    (stA stB : StatelessTransportState) (early : list (N * Message)) (addrA addrB : SocketAddr)
    (wakA wakB : Waker) (frA frB : N) (ssA ssB : list NetStep) :
  sealed_for stA stB → payloads early = [] → s_id sA = id →
  at_end id oA sA (speaking (s_core sA) id stA stB (steps_cost ssA) early) wA →
  at_end id oB sB (hearing (s_core sB) stB early [] []) wB →
  Forall (λ d, (N.of_nat (length d) ≤ alloc_slots)%N) (messages_sent ssA) →
  let outA := (run_net ssA (in_use id oA addrA wA wakA frA)).2 in
  let outB := (run_net ssB (in_use id oB addrB wB wakB frB)).2 in
  steps_may id (s_core sA) (λ _, True) ssA →
  steps_may id (s_core sB)
    (λ p, heard stB early p ∨ ∃ dest ttl, (dest, p, ttl) ∈ transmissions outA) ssB →
  Forall answer_ok (answers_of outB) ∧
  messages_received outB `sublist_of` messages_sent ssA.
Proof.
  intros Hseal Hearly Hsid HwA HwB Hfit outA outB HmayA HmayB.
  destruct (sp_core _ _ _ _ _ _ _ (at_end_J _ _ _ _ _ HwA)) as (c & _ & _ & Hroom & _).
  destruct (speaker_run id oA sA stA stB Hseal ssA [] early (in_use id oA addrA wA wakA frA) Hsid
    HmayA) as (new & [_ _ Hmax Hsaid [_ HwA']] & Hout).
  { split; simpl; [done|done|lia|by rewrite Hearly|by split]. }
  pose proof (at_end_weaken id oB sB _ (hearing (s_core sB) stB (early ++ new) [] []) wB
    (hearing_log _ _ _ (early ++ new) _ _ _ ltac:(by apply sublist_inserts_r)) HwB) as HwB'.
  destruct (listener_run id oB sB stB (early ++ new) (messages_sent ssA)
    (sp_sorted _ _ _ _ _ _ _ (at_end_J _ _ _ _ _ HwA')) Hsaid) with (ss := ssB)
    (got := @nil bytes) (v := in_use id oB addrB wB wakB frB) as [Hlis Hans].
  - simpl in Hmax. unfold u64_max, u64_modulus in *. lia.
  - exact Hfit.
  - intros e He. specialize (HmayB e He). destruct e; try done. simpl in *.
    intros p Hde Hid. destruct (HmayB p Hde Hid) as [Hp|(dest & ttl & Hp)]; [by apply heard_app|].
    rewrite Forall_forall in Hout. by apply (Hout _ Hp).
  - exists [], []. split; [by split|apply feed_new; lia].
  - split; [exact Hans|]. by eapply listener_sublist.
Qed.

(** C3. What a user receives is what the other sent, whatever the network and the rest
    of the two programs do.  Each end takes any steps in any order: datagrams arrive,
    tasks have turns, other connections are made, used and closed, packets are
    transmitted, the user sends and receives, the connection is closed.  Of the packets
    of this session any arrive at [A]; at [B] those that [A] transmitted, any number of
    times and in any order or never, and packets that do not open under its key.  Then
    every receive at [B] returns a message, waits, or reports that the session is over
    (it does not panic), and the messages it returned are, unchanged and in order, some
    of those [A] called send with, each at most once.  ([early] is what was sealed
    before: the keepalives of the connection.) *)
Theorem received_was_sent `{Crates, !CratesLaws, Codec ChunkedData, !CodecLaws ChunkedData,
    !ChunkLayout} (wA wB : World) (id : SessionId) (oA oB : OneTimeId) (sA sB : Session)
    (stA stB : StatelessTransportState) (early : list (N * Message)) (addrA addrB : SocketAddr)
    (wakA wakB : Waker) (frA frB : N) (ssA ssB : list NetStep) :
  reachable_wf wA → established wA !! id = Some (oA, sA) →
  reachable_wf wB → established wB !! id = Some (oB, sB) →
  sealed_for stA stB → payloads early = [] →
  speaking (s_core sA) id stA stB (steps_cost ssA) early (runtime wA) →
  hearing (s_core sB) stB early [] [] (runtime wB) →
  Forall (λ d, (N.of_nat (length d) ≤ alloc_slots)%N) (messages_sent ssA) →
  let outA := (run_net ssA (in_use id oA addrA wA wakA frA)).2 in
  let outB := (run_net ssB (in_use id oB addrB wB wakB frB)).2 in
  steps_may id (s_core sA) (λ _, True) ssA →
  steps_may id (s_core sB)
    (λ p, heard stB early p ∨ ∃ dest ttl, (dest, p, ttl) ∈ transmissions outA) ssB →
  Forall answer_ok (answers_of outB) ∧
  messages_received outB `sublist_of` messages_sent ssA.
Proof.
  intros HrA HA HrB HB Hseal Hearly Hsp Hh Hfit outA outB HmayA HmayB.
  destruct (reachable_at_end wA id oA sA _ HrA HA Hsp) as [HwA Hsid].
  destruct (reachable_at_end wB id oB sB _ HrB HB Hh) as [HwB _].
  by apply (two_ends wA wB id oA oB sA sB stA stB early addrA addrB wakA wakB frA frB ssA ssB).
Qed.

(** ** Two connected handlers and a network that repeats and reorders *)

Definition demo_early : list (N * Message) := [(0%N, Keepalive)].
Definition demo_sender_steps : list NetStep :=
  [NSend 31 [x01; x02]; NEvent (EvTask 3); NSend 31 [x03]; NTransmit; NTransmit; NTransmit; NTransmit;
   NTransmit; NEvent (EvPacket (SocketAddrV4 9 9) [x00])].
Abbreviation demo_sent :=
  (transmissions (@run_net crates crates_laws chunk_codec demo_sender_steps
    (in_use 7 100 (SocketAddrV4 1 2) demo_connected_A 31 0)).2).

(** No packet, every packet but the first two, and all of them again. *)
Definition demo_arriving (xs : list Outgoing) : list NetStep :=
  (λ x, NEvent (EvPacket (SocketAddrV4 1 1) (demo_datagram x.1.2))) <$> xs.
Definition demo_receiving (xs : list Outgoing) : list NetStep :=
  NEvent (EvPacket (SocketAddrV4 9 9) [x00]) :: demo_arriving (drop 2 xs) ++ demo_arriving xs ++
  [NReceive 32 0; NReceive 32 1; NReceive 33 2].
Abbreviation demo_receiver_steps := (demo_receiving demo_sent).
Abbreviation demo_received :=
  (messages_received (@run_net crates crates_laws chunk_codec demo_receiver_steps
    (in_use 7 200 (SocketAddrV4 1 1) demo_connected_B 32 0)).2).

Lemma demo_first_carries :
  @packet_carries crates demo_session_key 0 Keepalive demo_first_keepalive.
Proof.
  split; [exact I|]. eexists _, _. split_and!; [reflexivity|reflexivity|]. split.
  - pose proof noise_max_N. simpl. lia.
  - eexists. by split.
Qed.

Lemma demo_speaking :
  @speaking crates crates_laws 2 7 demo_session_key demo_session_key
    (steps_cost demo_sender_steps) demo_early (runtime demo_connected_A).
Proof.
  split.
  - exists (core_of demo_connected_A 2). split_and!; [reflexivity|reflexivity|by vm_compute|].
    repeat constructor.
  - repeat constructor.
  - reflexivity.
  - apply Forall_cons. split; [|apply Forall_singleton]; intros _.
    + left. intros sealed n c Hde. vm_compute in Hde. done.
    + right. exists 0%N, Keepalive. split; [by left|]. exact demo_first_carries.
  - assert (tasks (runtime demo_connected_A) =
      <[3%N := KeepaliveTask 7 (SocketAddrV4 1 2) 2]> {[ 4%N := HeartbeatTask 2 ]}) as -> by reflexivity.
    split.
    + intros h id' addr core [[_ [= _ _ <-]]|[_ [_ [=]]%lookup_singleton_Some]]%lookup_insert_Some _.
      reflexivity.
    + apply map_Forall_insert_2; [reflexivity|]. by apply map_Forall_singleton.
Qed.

Lemma demo_hearing :
  @hearing crates crates_laws 3 demo_session_key demo_early [] [] (runtime demo_connected_B).
Proof.
  split; [done|]. exists (core_of demo_connected_B 3). split; [reflexivity|].
  split; [reflexivity| |reflexivity|reflexivity].
  exists (Some 0%N), []. split_and!; [by split|apply sublist_nil_l|done|constructor].
Qed.

Lemma demo_sent_reads :
  List.map (λ x : Outgoing, (sp_id x.1.2,
      @deserialize _ (@crates_packet crates) (demo_datagram x.1.2))) demo_sent =
    List.map (λ x : Outgoing, (7%N, Some x.1.2)) demo_sent.
Proof. vm_compute. reflexivity. Qed.

Lemma demo_sent_packets x :
  x ∈ demo_sent →
  sp_id x.1.2 = 7%N ∧ @deserialize _ (@crates_packet crates) (demo_datagram x.1.2) = Some x.1.2.
Proof.
  intros Hx%list_elem_of_In. pose proof demo_sent_reads as Heq.
  rewrite List.map_ext_in_iff in Heq. specialize (Heq x Hx). cbv beta in Heq.
  exact (proj1 (pair_equal_spec _ _ _ _) Heq).
Qed.

Lemma demo_receiving_events xs e :
  NEvent e ∈ demo_receiving xs →
  e = EvPacket (SocketAddrV4 9 9) [x00] ∨
  ∃ x, x ∈ xs ∧ e = EvPacket (SocketAddrV4 1 1) (demo_datagram x.1.2).
Proof.
  assert (∀ ys, ys `sublist_of` xs → NEvent e ∈ demo_arriving ys →
    ∃ x, x ∈ xs ∧ e = EvPacket (SocketAddrV4 1 1) (demo_datagram x.1.2)) as Harr.
  { intros ys Hys (x & [= ->] & Hx)%list_elem_of_fmap. exists x. split; [|done].
    by eapply elem_of_sublist. }
  intros [[= ->]|[He|[He|He]%elem_of_app]%elem_of_app]%elem_of_cons; [by left|right..].
  - eapply Harr; [apply sublist_drop|done].
  - by eapply Harr.
  - rewrite !elem_of_cons in He. by destruct He as [|[|[|?%not_elem_of_nil]]].
Qed.

Lemma demo_network :
  @steps_may crates 7 3 (λ p, @heard crates demo_session_key demo_early p ∨
    ∃ dest ttl, (dest, p, ttl) ∈ demo_sent) demo_receiver_steps.
Proof.
  intros e [->|(x & Hx & ->)]%demo_receiving_events; intros p Hde _.
  - vm_compute in Hde. discriminate Hde.
  - right. destruct (demo_sent_packets x Hx) as [_ Heq].
    apply (eq_trans (eq_sym Heq)), (inj Some) in Hde as <-.
    destruct x as [[dest p] ttl]. exists dest, ttl. exact Hx.
Qed.

Lemma received_was_sent_witness :
  demo_received `sublist_of` messages_sent demo_sender_steps ∧
  demo_received = [[x01; x02]; [x03]].
Proof.
  split; [|by vm_compute].
  refine (proj2 (@received_was_sent crates crates_laws chunk_codec chunk_codec_laws chunk_layout
    demo_connected_A demo_connected_B 7 100 200 (mkSession 7 (SocketAddrV4 1 2) 2)
    (mkSession 7 (SocketAddrV4 1 1) 3) demo_session_key demo_session_key demo_early
    (SocketAddrV4 1 2) (SocketAddrV4 1 1) 31 32 0 0 demo_sender_steps demo_receiver_steps
    _ _ _ _ _ _ _ _ _ _ _)).
  - eexists _, _. split; [|reflexivity]. repeat (apply Forall_cons; split);
      try apply Forall_nil; try exact I; reflexivity.
  - reflexivity.
  - eexists _, _. split; [|reflexivity]. repeat (apply Forall_cons; split);
      try apply Forall_nil; try exact I; reflexivity.
  - reflexivity.
  - apply (engine_sealed_for demo_session_key).
  - reflexivity.
  - exact demo_speaking.
  - exact demo_hearing.
  - repeat (apply Forall_cons; split); try apply Forall_nil; try exact I; discriminate.
  - intros e He. unfold demo_sender_steps in He.
    repeat (apply elem_of_cons in He as [He|He];
      [first [discriminate He | injection He as ->; simpl; auto]|]).
    by apply not_elem_of_nil in He.
  - exact demo_network.
Defined.
