(* ===== verification/Program.v ===== *)
(** * The command line program

    Models [src/bin.rs]: the connection string a user copies to the other, and [main]
    with the task that prints.  The parsing of arguments and the text of the prompts
    are not modelled; the codecs of the base64 and zstd crates are parameters. *)

From S2P Require Import Prelude Std Externals Layout SnowTypes Session SessionFacts Transform Handler Reachable DualStack IpDiscovery Veq.
From S2P Require Import Receive Handles Network.

(** ** Text codecs *)

(** [STANDARD.encode], [STANDARD.decode] of base64; [zstd::stream::copy_encode] and
    [copy_decode], which append to an empty vector. *)
Class TextCodecs := {
  base64_encode : bytes → string;
  base64_decode : string → option bytes;
  copy_encode : N → bytes → option bytes;
  copy_decode : bytes → option bytes;
}.

(** The two characters the program removes from the line it reads. *)
Definition is_blank (c : Ascii.ascii) : bool :=
  bool_decide (c = Ascii.ascii_of_nat 10) || bool_decide (c = Ascii.ascii_of_nat 32).

Fixpoint free_of_blanks (s : string) : Prop :=
  match s with
  | EmptyString => True
  | String c s => is_blank c = false ∧ free_of_blanks s
  end.

Class TextLaws `{TextCodecs} := {
  base64_roundtrip b : base64_decode (base64_encode b) = Some b;
  base64_alphabet b : free_of_blanks (base64_encode b);
  zstd_roundtrip level b : ∃ c, copy_encode level b = Some c ∧ copy_decode c = Some b;
}.

(** ** Data *)

Record ConnectionData := mkConnectionData { cn_id : SessionId; conn_info : ConnectionInfo }.

Section program.
Context `{TextCodecs, Codec ConnectionData}.

(** The data of the local user: the identifier is always 0. *)
Definition own_data (s : VeqSocket) : ConnectionData := mkConnectionData 0 (connection_info s).

Definition connection_string {E} (d : ConnectionData) : outcome E string :=
  conn_data_serialized ← unwrap (serialize d);
  conn_data_compressed ← unwrap (copy_encode 10 conn_data_serialized);
  mret (base64_encode conn_data_compressed).

(** [replace(['\n', ' '], "")], the second argument being empty *)
Fixpoint strip_blanks (s : string) : string :=
  match s with
  | EmptyString => EmptyString
  | String c s => if is_blank c then strip_blanks s else String c (strip_blanks s)
  end.

Definition read_connection_string {E} (line : string) : outcome E ConnectionData :=
  peer_data_compressed ← unwrap (base64_decode (strip_blanks line));
  peer_data_serialized ← unwrap (copy_decode peer_data_compressed);
  unwrap (deserialize peer_data_serialized).
End program.

(** ** The program

    [main] is a task that reads the line of the other user, connects, and sends the
    lines that follow; once connected a second task prints what arrives.  The inputs of
    a run say which of the two has a turn, and what else happens: a datagram arrives, a
    task of the runtime runs, the transmit loop takes a packet.  A panic in [main] ends
    the process; a panic in the printing task ends this task. *)

Inductive MainState :=
  | Prompting
  | Connecting (r : SessionReady)
  | Talking (conn : N)
  | Ended.

(** [rn_printer] is the clone of the session the printing task owns. *)
Record Running `{Crates} := mkRunning {
  rn_socket : VeqSocket;
  rn_user : User;
  rn_main : MainState;
  rn_printer : option N;
}.
#[global] Arguments mkRunning {_}.

(** What the runtime does on its own. *)
Inductive Happening :=
  | Arrives (src : SocketAddr) (data : bytes)
  | Turn (task : N)
  | Closes (k : nat).

Inductive Input :=
  | ILine (rng : N) (one_time_id : OneTimeId) (line : string)
  | IPoll (waker : Waker)
  | ISend (waker : Waker) (data : bytes)
  | IEnd
  | IPrint (waker : Waker) (fresh : N)
  | IHappens (h : Happening)
  | ITransmit.

Definition event_of (h : Happening) : Event :=
  match h with
  | Arrives src data => EvPacket src data
  | Turn l => EvTask l
  | Closes k => EvRunCloser k
  end.

(** The arguments; [port] is a [u64]. *)
Record Args := mkArgs { port : N }.

(** What [0.0.0.0:<port>] parses to: a port has 16 bits. *)
Definition listen_addr (args : Args) : option SocketAddr :=
  if (port args <? 65536)%N then Some (SocketAddrV4 0 (port args)) else None.

Section running.
Context `{Crates, !CratesLaws, Codec ChunkedData, TextCodecs, Codec ConnectionData}.
Implicit Types (p : Running).

Definition with_rn_user (u : User) p : Running :=
  mkRunning (rn_socket p) u (rn_main p) (rn_printer p).
Definition with_rn_main (m : MainState) p : Running :=
  mkRunning (rn_socket p) (rn_user p) m (rn_printer p).
Definition with_rn_printer (x : option N) p : Running :=
  mkRunning (rn_socket p) (rn_user p) (rn_main p) x.
Definition on_user {E A} (m : M User E A) : M Running E A := zoom rn_user with_rn_user m.

(** A call in [main], of which the result is unwrapped. *)
Definition unwrapped {S E F A} (m : M S E A) : M S F A := λ s,
  let '(s, r) := m s in (s, unwrap_result r).

(** Up to the prompt: the program, and the connection string it shows. *)
Definition main_start `{Udp, !Discovery} {E} (rng : N) (args : Args) : outcome E (Running * string) :=
  '(socket, w) ← unwrap_result (bind rng (listen_addr args));
  conn_data_emoji ← connection_string (own_data socket);
  mret (mkRunning socket (mkUser w ∅ ∅ ∅ 0) Prompting None, conn_data_emoji).

(** From the prompt to the future of [connect]. *)
Definition main_line {E} (rng : N) (one_time_id : OneTimeId) (line : string)
    : M Running E unit :=
  peer_data ← lift (read_connection_string line);
  socket ← gets rn_socket;
  r ← on_user (zoom us_world with_us_world
    (unwrapped (connect_start socket rng one_time_id (cn_id peer_data) (conn_info peer_data))));
  modify (with_rn_main (Connecting r)).

(** A poll of it: connected, the session is cloned for the printing task. *)
Definition main_poll {E} (r : SessionReady) (waker : Waker) : M Running E unit :=
  res ← on_user (unwrapped (user_connect r waker));
  match res with
  | inl r => modify (with_rn_main (Connecting r))
  | inr conn =>
      conn_clone ← on_user (VeqSession_clone conn);
      modify (with_rn_printer (Some conn_clone));;
      modify (with_rn_main (Talking conn))
  end.

(** A line of the input. *)
Definition main_send {E} (conn : N) (waker : Waker) (data : bytes) : M Running E unit :=
  on_user (unwrapped (user_send conn waker data)).

(** [main] is left: the sessions are dropped, its own and that of the printing task. *)
Definition main_end {E} : M Running E unit :=
  m ← gets rn_main;
  match m with Talking conn => on_user (VeqSession_drop conn) | _ => mret tt end;;
  x ← gets rn_printer;
  match x with Some conn_clone => on_user (VeqSession_drop conn_clone) | None => mret tt end;;
  modify (with_rn_printer None);;
  modify (with_rn_main Ended).

(** A turn of [main]; a panic leaves it. *)
Definition turn (m : M Running Error unit) p : Running :=
  match m p with
  | (p, Ok _) => p
  | (p, _) => (main_end (E := Error) p).1
  end.

(** The messages that wait for a value of a session; a receive gets one turn more. *)
Definition waiting (x : N) (u : User) : nat :=
  match us_handles u !! x with
  | Some h =>
      match view u 0 0 h with
      | Some v => length (queued (delegate (vsn_delegate v)))
      | None => 0
      end
  | None => 0
  end.

(** A turn of the printing loop: the answer of [recv], which is printed unless the
    [unwrap] of an error ends the task. *)
Definition print_turn (conn_clone : N) (waker : Waker) (fresh : N)
    : M Running Error (outcome VeqError bytes) := λ p,
  let '(u, received) :=
    user_recv conn_clone waker fresh (S (waiting conn_clone (rn_user p))) (rn_user p) in
  let p := with_rn_user u p in
  match received with
  | Ok _ | Pending => (p, Ok received)
  | _ => ((on_user (E := Error) (VeqSession_drop conn_clone) (with_rn_printer None p)).1,
          Ok received)
  end.

Definition run_input (i : Input) p : Running * list Output :=
  match rn_main p, i with
  | Prompting, ILine rng one_time_id line => (turn (main_line rng one_time_id line) p, [])
  | Connecting r, IPoll waker => (turn (main_poll r waker) p, [])
  | Talking conn, ISend waker data => (turn (main_send conn waker data) p, [])
  | Talking _, IEnd => ((main_end (E := Error) p).1, [])
  | Talking _, IPrint waker fresh =>
      match rn_printer p with
      | Some conn_clone =>
          let '(p, r) := print_turn conn_clone waker fresh p in
          (p, match r with Ok received => [Received received] | _ => [] end)
      | None => (p, [])
      end
  | Ended, _ => (p, [])
  | _, IHappens h =>
      (with_rn_user (with_us_world (run_event (event_of h) (us_world (rn_user p))) (rn_user p)) p, [])
  | _, ITransmit =>
      let '(w, r) := recv_outgoing (E := Error) (us_world (rn_user p)) in
      (with_rn_user (with_us_world w (rn_user p)) p,
       match r with Ok x => [Transmitted x] | _ => [] end)
  | _, _ => (p, [])
  end.

Fixpoint run_program (inputs : list Input) p : Running * list Output :=
  match inputs with
  | [] => (p, [])
  | i :: inputs =>
      let '(p1, out1) := run_input i p in
      let '(p2, out2) := run_program inputs p1 in (p2, out1 ++ out2)
  end.
End running.

(** The lines of the input that are sent. *)
Definition typed (inputs : list Input) : list bytes :=
  omap (λ i, match i with ISend _ d => Some d | _ => None end) inputs.

(** ** Blanks *)

Lemma strip_blanks_id s : free_of_blanks s → strip_blanks s = s.
Proof. induction s as [|c s IH]; simpl; [done|]. intros [-> Hs]. by rewrite IH. Qed.

(** [line] is [s] with line ends and spaces put anywhere. *)
Inductive blanks_added : string → string → Prop :=
  | added_nil : blanks_added EmptyString EmptyString
  | added_blank c s line : is_blank c = true → blanks_added s line → blanks_added s (String c line)
  | added_char c s line : blanks_added s line → blanks_added (String c s) (String c line).

Lemma strip_blanks_added s line : blanks_added s line → strip_blanks line = strip_blanks s.
Proof.
  induction 1 as [|c s line Hc Hs IH|c s line Hs IH]; simpl; [done|by rewrite Hc|].
  by rewrite IH.
Qed.

(** What one user pastes the other reads: the connection string of any data in the
    range of its type can be computed, and read back as this data however the line is
    wrapped or spaced on the way, the line end of the terminal included. *)
Lemma connection_string_roundtrip `{TextCodecs, !TextLaws, Codec ConnectionData,
    WellFormed ConnectionData, !CodecLaws ConnectionData} {E F : Type} (d : ConnectionData) :
  wf d →
  ∃ s, connection_string (E := E) d = Ok s ∧
    ∀ line, blanks_added s line → read_connection_string (E := F) line = Ok d.
Proof.
  intros (b & Hser & Hde)%codec_roundtrip. destruct (zstd_roundtrip 10 b) as (c & Hc & Hb).
  exists (base64_encode c). split.
  - unfold connection_string. rewrite Hser. simpl. by rewrite Hc.
  - intros line Hline. unfold read_connection_string.
    rewrite (strip_blanks_added _ _ Hline), strip_blanks_id by apply base64_alphabet.
    rewrite base64_roundtrip. simpl. rewrite Hb. simpl. by rewrite Hde.
Qed.

Lemma read_back `{TextCodecs, !TextLaws, Codec ConnectionData, WellFormed ConnectionData,
    !CodecLaws ConnectionData} {E F : Type} (d : ConnectionData) s line :
  wf d → connection_string (E := E) d = Ok s → blanks_added s line →
  read_connection_string (E := F) line = Ok d.
Proof.
  intros (s' & Hs' & Hread)%(connection_string_roundtrip (E := E) (F := F)) Hs Hline.
  rewrite Hs in Hs'. injection Hs' as <-. by apply Hread.
Qed.

(** ** Concrete codecs

    Hexadecimal text, no compression, and the codec of a countable type. *)

Definition hex_digit (n : N) : Ascii.ascii := Ascii.ascii_of_N (65 + n).
Definition hex_value (c : Ascii.ascii) : N := Ascii.N_of_ascii c - 65.

Fixpoint hex_encode (b : bytes) : string :=
  match b with
  | [] => EmptyString
  | x :: b => String (hex_digit (to_N x / 16)) (String (hex_digit (to_N x mod 16)) (hex_encode b))
  end.

Fixpoint hex_decode (s : string) : option bytes :=
  match s with
  | EmptyString => Some []
  | String c (String c' s) =>
      x ← Byte.of_N (16 * hex_value c + hex_value c'); b ← hex_decode s; Some (x :: b)
  | String _ EmptyString => None
  end.

Definition hex_codecs : TextCodecs := {|
  base64_encode := hex_encode;
  base64_decode := hex_decode;
  copy_encode _ b := Some b;
  copy_decode b := Some b;
|}.

Lemma hex_digits (x : byte) :
  Byte.of_N (16 * hex_value (hex_digit (to_N x / 16)) + hex_value (hex_digit (to_N x mod 16))) =
    Some x ∧
  is_blank (hex_digit (to_N x / 16)) = false ∧ is_blank (hex_digit (to_N x mod 16)) = false.
Proof. by destruct x. Qed.

Lemma hex_laws : @TextLaws hex_codecs.
Proof.
  split; simpl.
  - induction b as [|x b IH]; simpl; [done|]. destruct (hex_digits x) as [-> _]. simpl.
    by rewrite IH.
  - induction b as [|x b IH]; simpl; [done|]. by destruct (hex_digits x) as (_ & ? & ?).
  - intros level b. by exists b.
Qed.

#[export] Instance byte_countable : Countable byte := inj_countable to_N Byte.of_N of_to_N.
#[export] Instance SnowPublicKey_eq_dec : EqDecision SnowPublicKey.
Proof. solve_decision. Defined.
#[export] Program Instance SnowPublicKey_countable : Countable SnowPublicKey :=
  inj_countable' public_bytes mkSnowPublicKey _.
Next Obligation. by intros []. Qed.
#[export] Instance ConnectionInfo_eq_dec : EqDecision ConnectionInfo.
Proof. solve_decision. Defined.
#[export] Instance ConnectionData_eq_dec : EqDecision ConnectionData.
Proof. solve_decision. Defined.
#[export] Program Instance ConnectionData_countable : Countable ConnectionData :=
  inj_countable'
    (λ d, (cn_id d, addresses (conn_info d), public_key (conn_info d)))
    (λ '(i, a, k), mkConnectionData i (mkConnectionInfo a k)) _.
Next Obligation. by intros [? []]. Qed.

(** A positive, bit by bit. *)
Fixpoint bits_put (p : positive) : bytes :=
  match p with xH => [] | xO p => x00 :: bits_put p | xI p => x01 :: bits_put p end.
Definition bits_take (b : bytes) : positive :=
  foldr (λ x p, if decide (x = x00) then xO p else xI p) xH b.

Definition countable_codec (T : Type) `{Countable T} : Codec T := {|
  serialize x := Some (bits_put (encode x));
  deserialize b := decode (bits_take b);
|}.

Definition any_data : WellFormed ConnectionData := λ _, True.

Lemma countable_codec_laws : @CodecLaws _ (countable_codec ConnectionData) any_data.
Proof.
  assert (∀ p, bits_take (bits_put p) = p) as Hbits.
  { induction p as [p IH|p IH|]; simpl; [|by rewrite IH..|done].
    unfold bits_take in *. simpl. by rewrite IH. }
  split. intros x _. exists (bits_put (encode x)). split; [done|]. simpl.
  by rewrite Hbits, decode_encode.
Qed.

Definition demo_data : ConnectionData :=
  mkConnectionData 0 (mkConnectionInfo {[ SocketAddrV4 1 2 ]} (mkSnowPublicKey [x01; x02])).

Lemma connection_string_roundtrip_witness :
  ∃ s, @connection_string hex_codecs (countable_codec ConnectionData) Error demo_data = Ok s ∧
    @read_connection_string hex_codecs (countable_codec ConnectionData) Error
      (String (Ascii.ascii_of_nat 10) (String (Ascii.ascii_of_nat 32) s)) = Ok demo_data.
Proof.
  destruct (@connection_string_roundtrip hex_codecs hex_laws (countable_codec ConnectionData)
    any_data countable_codec_laws Error Error demo_data I) as (s & Hs & Hread).
  exists s. split; [exact Hs|]. apply Hread.
  apply added_blank; [reflexivity|]. apply added_blank; [reflexivity|].
  clear Hs Hread. induction s as [|c s IH]; constructor; exact IH.
Defined.
