(* ===== verification/Programs.v ===== *)
(** * Two programs

    A program that is connected takes the steps of an endpoint of [Network]
    ([program_is_endpoint]); two programs whose users exchange their connection strings
    connect, and from then on print what was typed at the other
    ([programs_connect_and_print]). *)

From S2P Require Import Prelude Std Externals Layout Engine SnowTypes Transport Transform Reassembly Delegates Streams.
From S2P Require Import Session SessionFacts Concrete SessionProps Handler Table HandlerFacts Reachable HandlerProps Keeping Wire Endpoint.
From S2P Require Import Connection DualStack IpDiscovery Veq VeqProps Receive Lifecycle Handles Users Network Program.
From stdpp Require Import sorting.

(** ** A session in the hands of a program *)

Section session.
Context `{Crates, !CratesLaws, Codec ChunkedData}.
Implicit Types (u : User) (h : Handle) (v : Endpoint) (p : Running).

(** What no use of a session changes. *)
Definition fixed v : BidirectionalSession * N * SocketAddr :=
  (siu_session (delegate (vsn_delegate v)), chunk_size (vsn_delegate v), vsn_remote_addr v).

Lemma fixed_send data v : fixed (VeqSession_send (H := Chunker_Bidirectional 0) data v).1 = fixed v.
Proof.
  pose proof (send_frame data v) as Hf. unfold frame, fixed in *. by injection Hf as -> _ _ -> ->.
Qed.

Lemma session_recv_fixed b : triple (λ s, siu_session s = b) (λ _, True) brecv.
Proof.
  simpl. unfold BidirectionalSession_recv.
  apply (triple_bind _ (λ _, True)); [by apply triple_gets|]. intros s _.
  apply (triple_bind _ (λ _, True)); [by apply (triple_zoom _ (λ _, True))|]. intros future _.
  apply (triple_bind _ (λ _, True)); [by apply triple_modify|]. intros [] _.
  apply (triple_bind _ (λ _, True)); [by apply triple_lift|]. intros r _.
  apply (triple_bind _ (λ _, True)); [by apply (triple_zoom _ (λ _, True))|].
  intros [[data|e]|] _; [by apply triple_ret|by apply triple_lift..].
Qed.

Lemma fixed_recv fuel v : fixed (VeqSession_recv (H := Chunker_Bidirectional fuel) v).1 = fixed v.
Proof.
  destruct v as [c addr]. unfold VeqSession_recv, zoom. simpl.
  destruct (Chunker_recv_keeps (λ s, siu_session s = siu_session (delegate c))
    (chunk_size c, current_group c) fuel (session_recv_fixed _) c) as [[Hs [= Hsize _]] _]; [done|].
  unfold fixed. destruct (Chunker_recv fuel c) as [c' r]. simpl in *. by rewrite Hs, Hsize.
Qed.

(** The values of the session that [h] describes show [v], to any task. *)
Definition shows u h v : Prop :=
  ∀ waker fresh, view u waker fresh h = Some (by_task waker fresh v).

Lemma view_shows u waker fresh h v : view u waker fresh h = Some v → shows u h v.
Proof.
  unfold shows, view. destruct (us_sessions u !! h_session h) as [[b n]|]; simpl; [|done].
  destruct (us_cells u !! h_cells h) as [c|]; simpl; [|done]. intros [= <-]. reflexivity.
Qed.

Lemma shows_put_back u h v v' : shows u h v → fixed v' = fixed v → shows (put_back h v' u) h v'.
Proof.
  intros Hv Hf waker fresh. specialize (Hv waker fresh). unfold view, put_back, fixed in *. simpl.
  destruct (us_sessions u !! h_session h) as [[b n]|]; simpl in *; [|done].
  destruct (us_cells u !! h_cells h) as [c|]; simpl in *; [|done].
  rewrite lookup_insert_eq. simpl. destruct v as [[[sv wv kv fv] nv gv mv qv] av], v' as [[[sw ww kw fw] nw gw mw qw] aw].
  unfold by_task, with_vsn_delegate, with_delegate, world_of in *. simpl in *. by simplify_eq/=.
Qed.

Lemma shows_with_world u h v w : shows u h v → shows (with_us_world w u) h (with_world w v).
Proof.
  intros Hv waker fresh. specialize (Hv waker fresh). unfold view in *. simpl in *.
  destruct (us_sessions u !! h_session h) as [[b n]|]; simpl in *; [|done].
  destruct (us_cells u !! h_cells h) as [c|]; simpl in *; [|done].
  destruct v as [[[sv wv kv fv] nv gv mv qv] av]. unfold by_task, with_world, with_vsn_delegate, with_delegate in *. simpl in *. by simplify_eq/=.
Qed.

Lemma shows_world u h v : shows u h v → us_world u = world_of v.
Proof.
  intros Hv. specialize (Hv 0%N 0%N). unfold view in Hv.
  destruct (us_sessions u !! h_session h) as [[b n]|]; simpl in *; [|done].
  destruct (us_cells u !! h_cells h) as [c|]; simpl in *; [|done].
  destruct v as [[[sv wv kv fv] nv gv mv qv] av]. unfold by_task, with_vsn_delegate in *. simpl in *. by simplify_eq/=.
Qed.

(** A method through a value of the session. *)
Lemma on_session_shows {A} u h v x waker fresh (m : M Endpoint VeqError A) :
  us_handles u !! x = Some h → shows u h v →
  on_session x waker fresh m u =
    let '(v', r) := m (by_task waker fresh v) in (put_back h v' u, r).
Proof.
  intros Hx Hv. unfold on_session. erewrite M_bind_step by (by apply owned_eq).
  unfold through. by rewrite Hv.
Qed.

(** A clone shows what its original shows. *)
Lemma shows_clone {E} u h v x :
  user_ok u → us_handles u !! x = Some h → shows u h v →
  ∃ u', VeqSession_clone (E := E) x u = (u', Ok (us_next u)) ∧ user_ok u' ∧
    us_handles u' = <[us_next u := h]> (us_handles u) ∧ us_next u ≠ x ∧ shows u' h v.
Proof.
  intros Hok Hx Hv.
  destruct (user_clone_eq (E := E) u x h Hok Hx) as (u' & Hclone & Hok' & _ & Hh & _).
  exists u'. split_and!; [done..| |].
  - pose proof (fresh_handle u Hok). congruence.
  - intros waker fresh. rewrite <- (Hv waker fresh). destruct (counted u x h Hok Hx) as [b Hb].
    unfold VeqSession_clone in Hclone. erewrite M_bind_step in Hclone by (by apply owned_eq).
    unfold Arc_clone in Hclone. unfold_monad in Hclone. rewrite Hb in Hclone.
    injection Hclone as <-. unfold view. simpl. by rewrite lookup_insert_eq, Hb.
Qed.

(** The drop of a value: another is left, or it is the last. *)
Lemma drop_other {E} u h v x y :
  user_ok u → x ≠ y → us_handles u !! x = Some h → us_handles u !! y = Some h → shows u h v →
  ∃ u', VeqSession_drop (E := E) x u = (u', Ok tt) ∧ user_ok u' ∧
    us_handles u' = delete x (us_handles u) ∧ shows u' h v.
Proof.
  intros Hok Hne Hx Hy Hv.
  destruct (user_drop_eq (E := E) u x h Hok Hx) as (b & u' & Hb & Hdrop & Hok' & Hh & Hc & Hs & Hw).
  assert (refs (delete x (us_handles u)) (h_session h) ≠ 0) as Hrest.
  { intros Hz. eapply (proj1 (refs_zero _ _) Hz y h); [|done]. by rewrite lookup_delete_ne. }
  rewrite decide_False in Hs by done. rewrite decide_False in Hw by done.
  exists u'. split_and!; [done..|]. intros waker fresh. specialize (Hv waker fresh).
  unfold view in *. rewrite Hs, Hc, Hw, lookup_insert_eq. by rewrite Hb in Hv.
Qed.

Lemma drop_last {E} u h v x :
  user_ok u → us_handles u = {[x := h]} → shows u h v →
  let b := siu_session (delegate (vsn_delegate v)) in
  ∃ u', VeqSession_drop (E := E) x u = (u', Ok tt) ∧ us_handles u' = ∅ ∧
    us_world u' =
      with_closers (closers (world_of v) ++ [(bds_id b, bds_one_time_id b)]) (world_of v).
Proof.
  intros Hok Hhold Hv.
  assert (us_handles u !! x = Some h) as Hx by (rewrite Hhold; apply lookup_singleton_eq).
  destruct (user_drop_eq (E := E) u x h Hok Hx) as (b & u' & Hb & Hdrop & Hok' & Hh & _ & _ & Hw).
  rewrite Hhold, delete_singleton_eq in Hh, Hw. rewrite decide_True in Hw by done.
  exists u'. split_and!; [done..|]. rewrite Hw, (shows_world _ _ _ Hv).
  specialize (Hv 0%N 0%N). unfold view in Hv. rewrite Hb in Hv. simpl in Hv.
  destruct (us_cells u !! h_cells h) as [c|]; [|done]. by injection Hv as <-.
Qed.

Lemma waiting_shows u h v x :
  us_handles u !! x = Some h → shows u h v →
  waiting x u = length (queued (delegate (vsn_delegate v))).
Proof. intros Hx Hv. unfold waiting. by rewrite Hx, Hv. Qed.
End session.

(** ** A connected program is an endpoint *)

Section simulation.
Context `{Crates, !CratesLaws, Codec ChunkedData, TextCodecs, Codec ConnectionData}.
Implicit Types (u : User) (h : Handle) (v : Endpoint) (p : Running).

(** The values a connected program owns: that of [main] and, while it is there, that of
    the printing task. *)
Definition holds (conn : N) h p : Prop :=
  rn_printer p ≠ Some conn ∧
  us_handles (rn_user p) =
    match rn_printer p with Some x => <[x := h]> {[conn := h]} | None => {[conn := h]} end.

Lemma holds_main conn h p : holds conn h p → us_handles (rn_user p) !! conn = Some h.
Proof.
  intros [Hne ->]. destruct (rn_printer p) as [x|] eqn:Hx; [|apply lookup_singleton_eq].
  rewrite lookup_insert_ne by congruence. apply lookup_singleton_eq.
Qed.

Lemma holds_printer conn h p x :
  holds conn h p → rn_printer p = Some x →
  x ≠ conn ∧ us_handles (rn_user p) !! x = Some h ∧
  delete x (us_handles (rn_user p)) = {[conn := h]}.
Proof.
  intros [Hne Hh] Hx. rewrite Hh. rewrite Hx in *. assert (x ≠ conn) by congruence.
  split_and!; [done|apply lookup_insert_eq|]. rewrite delete_insert_eq, delete_id; [done|].
  by apply lookup_singleton_ne.
Qed.

(** [p] is connected, and its values are values of the session [v]. *)
Record talks h v p : Prop := {
  tk_ok : user_ok (rn_user p);
  tk_main : ∃ conn, rn_main p = Talking conn ∧ holds conn h p;
  tk_shows : shows (rn_user p) h v;
}.

(** The steps an input may be at the endpoint. *)
Definition net_steps (i : Input) : list NetStep :=
  match i with
  | ISend waker data => [NSend waker data]
  | IPrint waker fresh => [NReceive waker fresh]
  | IHappens e => [NEvent (event_of e)]
  | ITransmit => [NTransmit]
  | _ => []
  end.

Lemma talks_world h v p w :
  talks h v p → talks h (with_world w v) (with_rn_user (with_us_world w (rn_user p)) p).
Proof.
  intros [Hok Hmain Hv]. split; simpl; [by apply (user_ok_cells (rn_user p))|done|].
  by apply shows_with_world.
Qed.

Lemma talks_put_back h v v' p :
  talks h v p → fixed v' = fixed v → talks h v' (with_rn_user (put_back h v' (rn_user p)) p).
Proof.
  intros [Hok Hmain Hv] Hf. split; simpl; [by apply user_ok_put_back|done|].
  by apply (shows_put_back _ _ v).
Qed.

(** Leaving [main] drops the values of the session: its connection is closed, once. *)
Lemma main_end_closes h v p :
  talks h v p →
  let p' := (main_end (E := Error) p).1 in
  let b := siu_session (delegate (vsn_delegate v)) in
  rn_main p' = Ended ∧ us_handles (rn_user p') = ∅ ∧
  us_world (rn_user p') =
    with_closers (closers (world_of v) ++ [(bds_id b, bds_one_time_id b)]) (world_of v).
Proof.
  intros [Hok (conn & Hmain & Hholds) Hv]. unfold main_end.
  erewrite M_bind_step by reflexivity. rewrite Hmain. destruct (rn_printer p) as [x|] eqn:Hx.
  - destruct (holds_printer _ _ _ _ Hholds Hx) as (Hne & Hxh & Hdel).
    destruct (drop_other (E := Error) (rn_user p) h v conn x Hok (not_eq_sym Hne)
      (holds_main _ _ _ Hholds) Hxh Hv) as (u' & Hdrop & Hok' & Hh & Hv').
    erewrite M_bind_step; [|unfold on_user, zoom; rewrite Hdrop; reflexivity].
    erewrite M_bind_step by reflexivity. simpl. rewrite Hx.
    destruct (drop_last (E := Error) u' h v x Hok') as (u'' & Hdrop' & Hh' & Hw); [|done|].
    { destruct Hholds as [_ Hhold]. rewrite Hh, Hhold, Hx, delete_insert_ne by done.
      by rewrite delete_singleton_eq. }
    erewrite M_bind_step; [|unfold on_user, zoom; simpl; rewrite Hdrop'; reflexivity].
    by split_and!.
  - destruct Hholds as [_ Hhold]. rewrite Hx in Hhold.
    destruct (drop_last (E := Error) (rn_user p) h v conn Hok Hhold Hv) as (u' & Hdrop & Hh & Hw).
    erewrite M_bind_step; [|unfold on_user, zoom; rewrite Hdrop; reflexivity].
    erewrite M_bind_step by reflexivity. simpl. rewrite Hx. by split_and!.
Qed.

(** The printing task ends: its value is dropped, and the session stays. *)
Lemma talks_printer_ends h v p x :
  talks h v p → rn_printer p = Some x →
  talks h v (on_user (E := Error) (VeqSession_drop x) (with_rn_printer None p)).1.
Proof.
  intros [Hok (conn & Hmain & Hholds) Hv] Hx.
  destruct (holds_printer _ _ _ _ Hholds Hx) as (Hne & Hxh & Hdel).
  destruct (drop_other (E := Error) (rn_user p) h v x conn Hok Hne Hxh (holds_main _ _ _ Hholds) Hv)
    as (u' & Hdrop & Hok' & Hh & Hv').
  unfold on_user, zoom. simpl. rewrite Hdrop. split; [done| |done].
  exists conn. split; [done|]. split; [done|]. simpl. by rewrite Hh.
Qed.

Lemma talks_send h v p conn waker data :
  talks h v p → rn_main p = Talking conn →
  let p' := turn (main_send conn waker data) p in
  rn_main p' = Ended ∨ talks h (run_net_step (NSend waker data) v).1 p'.
Proof.
  intros Hp Hmain. pose proof Hp as [Hok (conn' & Hmain' & Hholds) Hv].
  assert (conn' = conn) as -> by congruence. pose proof (holds_main _ _ _ Hholds) as Hconn.
  cbn [run_net_step]. unfold turn, main_send, on_user, zoom, unwrapped, user_send.
  rewrite (on_session_shows _ h v) by done.
  pose proof (fixed_send data (by_task waker 0 v)) as Hf.
  destruct (VeqSession_send data (by_task waker 0 v)) as [v' r]. simpl in *.
  pose proof (talks_put_back h v v' p Hp Hf) as Hp'.
  destruct r; simpl; first [by right|left; by eapply main_end_closes].
Qed.

Lemma talks_print h v p x waker fresh :
  talks h v p → rn_printer p = Some x →
  ∃ p' r, print_turn x waker fresh p = (p', Ok r) ∧
    (run_net_step (NReceive waker fresh) v).2 = [Received r] ∧
    talks h (run_net_step (NReceive waker fresh) v).1 p' ∧ rn_main p' = rn_main p ∧
    rn_printer p' = match r with Ok _ | Pending => Some x | _ => None end.
Proof.
  intros Hp Hprint. pose proof Hp as [Hok (conn & Hmain & Hholds) Hv].
  destruct (holds_printer _ _ _ _ Hholds Hprint) as (_ & Hxh & _). unfold print_turn, user_recv.
  rewrite (waiting_shows _ h v), (on_session_shows _ h v) by done. cbn [run_net_step].
  unfold receive. change (queued (delegate (vsn_delegate (by_task waker fresh v)))) with
    (queued (delegate (vsn_delegate v))).
  set (turns := S (length (queued (delegate (vsn_delegate v))))).
  pose proof (fixed_recv turns (by_task waker fresh v)) as Hf.
  destruct (VeqSession_recv (by_task waker fresh v)) as [v' r]. simpl in Hf.
  pose proof (talks_put_back h v v' p Hp Hf) as Hp'.
  destruct r; (eexists _, _; split; [reflexivity|]; split; [reflexivity|]);
    (split; [first [exact Hp'|by apply (talks_printer_ends h v')]|]);
    first [by split|unfold on_user, zoom; by destruct (VeqSession_drop _ _)].
Qed.

(** An input is a step of the endpoint, or none. *)
Lemma talks_input h v p i :
  talks h v p →
  ∃ ss, ss `sublist_of` net_steps i ∧ (run_net ss v).2 = (run_input i p).2 ∧
    (rn_main (run_input i p).1 = Ended ∨ talks h (run_net ss v).1 (run_input i p).1).
Proof.
  intros Hp. pose proof Hp as [Hok (conn & Hmain & _) Hv]. unfold run_input.
  rewrite Hmain.
  assert (∀ i, ∃ ss, ss `sublist_of` net_steps i ∧ (run_net ss v).2 = [] ∧
    (rn_main p = Ended ∨ talks h (run_net ss v).1 p)) as Hnone.
  { intros j. exists []. split; [apply sublist_nil_l|]. split; [done|by right]. }
  destruct i as [rng o line|waker|waker data| |waker fresh|e|]; [apply (Hnone (ILine rng o line))
    |apply (Hnone (IPoll waker))| | | | |].
  - exists [NSend waker data]. split; [done|]. split; [done|]. by apply talks_send.
  - exists []. split; [done|]. split; [done|]. left. by eapply main_end_closes.
  - destruct (rn_printer p) as [x|] eqn:Hprint; [|apply (Hnone (IPrint waker fresh))].
    destruct (talks_print h v p x waker fresh Hp Hprint) as (p' & r & -> & Hout & Hp' & _).
    exists [NReceive waker fresh]. split; [done|]. cbn [run_net].
    destruct (run_net_step (NReceive waker fresh) v) as [v' out]. simpl in *. subst.
    split; [done|by right].
  - exists [NEvent (event_of e)]. split; [done|]. split; [done|]. right.
    rewrite (shows_world _ _ _ Hv). by apply talks_world.
  - exists [NTransmit]. split; [done|]. rewrite (shows_world _ _ _ Hv). simpl.
    destruct (recv_outgoing (world_of v)) as [w r]. simpl. rewrite app_nil_r.
    split; [done|]. right. by apply talks_world.
Qed.

Lemma ended_silent inputs p : rn_main p = Ended → (run_program inputs p).2 = [].
Proof.
  intros Hp. induction inputs as [|i inputs IH]; simpl; [done|].
  assert (run_input i p = (p, [])) as -> by (unfold run_input; by rewrite Hp).
  by destruct (run_program inputs p) as [p' out].
Qed.

(** What a connected program shows is what its endpoint shows. *)
Lemma program_is_endpoint h v p inputs :
  talks h v p →
  ∃ ss, ss `sublist_of` (inputs ≫= net_steps) ∧ (run_net ss v).2 = (run_program inputs p).2.
Proof.
  revert v p. induction inputs as [|i inputs IH]; intros v p Hp; simpl; [by exists []|].
  destruct (talks_input h v p i Hp) as (ss & Hss & Hout & Hp').
  destruct (run_input i p) as [p1 out1]. simpl in *. subst out1.
  assert (∃ ss', ss' `sublist_of` (inputs ≫= net_steps) ∧
    (run_net ss' (run_net ss v).1).2 = (run_program inputs p1).2) as (ss' & Hss' & Hout').
  { destruct Hp' as [Hend|Hp1]; [|by apply IH]. exists []. split; [apply sublist_nil_l|].
    by rewrite ended_silent. }
  exists (ss ++ ss'). split; [by apply sublist_app|]. rewrite run_net_app.
  destruct (run_program inputs p1) as [p2 out2]. simpl in *. subst out2.
  by destruct (run_net ss v) as [v1 o1], (run_net ss' _) as [v2 o2].
Qed.
End simulation.

(** ** The end of a connection *)

Section ending.
Context `{Crates, !CratesLaws, Codec ChunkedData, !CodecLaws ChunkedData, !ChunkLayout}.
Implicit Types (v : Endpoint).

(** The session of [v] is dead. *)
Definition over v : Prop :=
  ∃ id o s c, siu_session (delegate (vsn_delegate v)) = mkBidirectionalSession id o ∧
    established (world_of v) !! id = Some (o, s) ∧
    cores (runtime (world_of v)) !! s_core s = Some c ∧ dead c = true.

Lemma over_send data v :
  over v → (0 < chunk_size (vsn_delegate v) < u64_modulus)%N →
  (current_group (vsn_delegate v) + 1 < u64_modulus)%N →
  (N.of_nat (length data) < u64_modulus)%N → data ≠ [] →
  ∃ v', VeqSession_send (H := Chunker_Bidirectional 0) data v = (v', Err Disconnected) ∧
    siu_session (delegate (vsn_delegate v')) = siu_session (delegate (vsn_delegate v)) ∧
    world_of v' = world_of v.
Proof.
  intros (id & o & s & c & Hb & He & Hc & Hd) Hn Hg Hlen Hdata.
  unfold VeqSession_send, zoom. simpl. rewrite Chunker_send_eq by done.
  destruct (packets _ _ data) as [|x xs] eqn:Hps.
  { by apply packets_ne in Hps; [|lia|done|lia|done]. }
  simpl. unfold mbind, M_bind, zoom. simpl.
  destruct v as [[[b w k f] n g m q] addr]. unfold world_of in *. simpl in *. subst b.
  rewrite (dead_session_send id o s c) by done. by eexists.
Qed.

Lemma over_receive v :
  over v → completed_chunks (vsn_delegate v) = [] →
  (receive v).2 = [Received (Err Disconnected)].
Proof.
  intros (id & o & s & c & Hb & He & Hc & Hd) Hq. unfold receive, VeqSession_recv, zoom.
  cbn [brecv Chunker_Bidirectional]. rewrite recv_turn_eq, Hq.
  destruct v as [[[b w k f] n g m q] addr]. unfold world_of in *. simpl in *. subst b.
  destruct (dead_session_recv id o s c w k f He Hc Hd) as (d & Hr & _). by rewrite Hr.
Qed.
End ending.

(** C32. A connected program whose session has died.  The printing task finds out at its
    next turn that has no message left: the [unwrap] ends it, silently, and [main] reads
    on.  An empty line goes unnoticed, as it makes no packet.  The next other line ends
    the program: the [unwrap] of [Disconnected] panics, and on the way out, as at the
    end of the input, every value of the session is dropped and the removal of its
    connection is spawned, once. *)
Theorem disconnect_ends_program `{Crates, !CratesLaws, Codec ChunkedData,
    !CodecLaws ChunkedData, TextCodecs, Codec ConnectionData} (h : Handle) (v : Endpoint)
    (p : Running) (waker : Waker) (fresh : N) :
  talks h v p → over v → completed_chunks (vsn_delegate v) = [] →
  chunk_size (vsn_delegate v) = 4096%N →
  (current_group (vsn_delegate v) + 1 < u64_modulus)%N →
  let w := us_world (rn_user p) in
  let b := siu_session (delegate (vsn_delegate v)) in
  let stopped p' := rn_main p' = Ended ∧ us_handles (rn_user p') = ∅ ∧
    us_world (rn_user p') = with_closers (closers w ++ [(bds_id b, bds_one_time_id b)]) w in
  (∀ x, rn_printer p = Some x →
     ∃ p', run_input (IPrint waker fresh) p = (p', [Received (Err Disconnected)]) ∧
       rn_printer p' = None ∧ rn_main p' = rn_main p) ∧
  (∃ p', run_input (ISend waker []) p = (p', []) ∧ rn_main p' = rn_main p ∧
     us_world (rn_user p') = w) ∧
  (∀ data, data ≠ [] → (N.of_nat (length data) < u64_modulus)%N →
     ∃ p', run_input (ISend waker data) p = (p', []) ∧ stopped p') ∧
  ∃ p', run_input IEnd p = (p', []) ∧ stopped p'.
Proof.
  intros Hp Hover Hq Hsize Hgroup w b stopped.
  pose proof Hp as [Hok (conn & Hmain & Hholds) Hv]. pose proof (holds_main _ _ _ Hholds) as Hconn.
  pose proof (shows_world _ _ _ Hv) as Hw. unfold run_input. rewrite Hmain. split_and!.
  - intros x Hx. rewrite Hx.
    destruct (talks_print h v p x waker fresh Hp Hx) as (p' & r & -> & Hout & _ & Hm & Hx').
    cbn [run_net_step] in Hout. rewrite over_receive in Hout by done. injection Hout as <-.
    exists p'. by rewrite Hm.
  - unfold turn, main_send, on_user, zoom, unwrapped, user_send.
    rewrite (on_session_shows _ h v) by done. unfold VeqSession_send, zoom. simpl.
    rewrite Chunker_send_eq by (simpl; rewrite ?Hsize; unfold u64_modulus in *; simpl; lia).
    eexists. split; [reflexivity|]. unfold w. by rewrite Hw.
  - intros data Hdata Hlen.
    destruct (over_send data (by_task waker 0 v)) as (v' & Hsend & Hb' & Hw'); try done.
    { simpl. by rewrite Hsize. }
    assert (fixed v' = fixed (by_task waker 0 v)) as Hf
      by (rewrite <- (fixed_send data (by_task waker 0 v)); by rewrite Hsend).
    pose proof (main_end_closes _ _ _ (talks_put_back h v v' p Hp Hf)) as Hend.
    eexists. split; [reflexivity|]. unfold turn, main_send, on_user, zoom, unwrapped, user_send.
    rewrite (on_session_shows _ h v) by done. rewrite Hsend. simpl.
    rewrite Hb', Hw' in Hend. unfold stopped, w. by rewrite Hw.
  - eexists. split; [reflexivity|]. unfold stopped, w. rewrite Hw. by apply (main_end_closes h).
Qed.

(** ** The way to a connection *)

Section opening.
Context `{Crates, !CratesLaws, Codec ChunkedData, TextCodecs, Codec ConnectionData}.
Implicit Types (u : User) (h : Handle) (p : Running) (w : World).

Abbreviation handler_of p := (us_world (rn_user p)).

Lemma main_start_spec `{Udp, !Discovery} {E} rng args p s :
  main_start (E := E) rng args = Ok (p, s) →
  ∃ keys, SnowKeypair_new rng = Ok keys ∧
    p = mkRunning (rn_socket p) (User_new keys) Prompting None ∧
    public_key (connection_info (rn_socket p)) = public keys ∧
    connection_string (E := E) (own_data (rn_socket p)) = Ok s.
Proof.
  unfold main_start, bind, bind_with_keypair, from_socket.
  destruct (SnowKeypair_new rng) as [keys| | | |]; simpl; try done.
  destruct (io_error _) as [socket| | | |]; simpl; try done.
  destruct (discover_ips socket) as [addrs| | | |]; simpl; try done.
  destruct (connection_string _) as [str| | | |] eqn:Hs; simpl; try done.
  intros [= <- <-]. exists keys. by simpl.
Qed.

(** The inputs between the line and the connection. *)
Lemma run_happenings hs p :
  rn_main p ≠ Ended →
  run_program (IHappens <$> hs) p =
    (with_rn_user (with_us_world (run_events (event_of <$> hs) (handler_of p)) (rn_user p)) p, []).
Proof.
  revert p. induction hs as [|e hs IH]; intros p Hp; simpl.
  { by destruct p as [s [] m x]. }
  assert (run_input (IHappens e) p = (with_rn_user (with_us_world
    (run_event (event_of e) (handler_of p)) (rn_user p)) p, [])) as ->.
  { unfold run_input. by destruct (rn_main p). }
  by rewrite IH.
Qed.

Lemma program_line rng o line d p w r :
  rn_main p = Prompting → read_connection_string (E := Error) line = Ok d →
  connect_start (rn_socket p) rng o (cn_id d) (conn_info d) (handler_of p) = (w, Ok r) →
  run_input (ILine rng o line) p =
    (with_rn_main (Connecting r) (with_rn_user (with_us_world w (rn_user p)) p), []).
Proof.
  intros Hp Hd Hc. unfold run_input, turn, main_line. rewrite Hp, Hd. unfold_monad.
  unfold on_user, zoom, unwrapped. by rewrite Hc.
Qed.

(** The poll that returns the session: the program talks through it. *)
Lemma program_poll p r waker w id o addr :
  rn_main p = Connecting r → user_ok (rn_user p) → us_handles (rn_user p) = ∅ →
  connect_resume r waker (handler_of p) =
    (w, Ok (inr (mkVeqSession (Chunker_new (mkBidirectionalSession id o) 4096) addr))) →
  ∃ h p', run_input (IPoll waker) p = (p', []) ∧ talks h (in_use id o addr w waker 0) p'.
Proof.
  intros Hp Hok Hnone Hc. set (v := mkVeqSession _ _) in Hc. set (u := with_us_world w (rn_user p)).
  assert (user_ok u) as Hu by (by apply (user_ok_cells (rn_user p))).
  set (h := mkHandle (us_next u) 4096 (us_next u) addr).
  destruct (user_ok_new_session (E := Error) u v Hu) as (u1 & Hnew & Hu1 & Hw1).
  assert (us_handles u1 = {[us_next u := h]} ∧ shows u1 h (in_use id o addr w waker 0))
    as [Hall Hv1].
  { injection Hnew as <-. split; [simpl; by rewrite Hnone|]. apply (view_shows _ waker 0).
    unfold view. simpl. by rewrite !lookup_insert_eq. }
  assert (us_handles u1 !! us_next u = Some h) as Hh1 by (rewrite Hall; apply lookup_singleton_eq).
  destruct (shows_clone (E := Error) u1 h _ (us_next u) Hu1 Hh1 Hv1)
    as (u2 & Hclone & Hu2 & Hh2 & Hne & Hv2).
  eexists h, _. split.
  { unfold run_input, turn. rewrite Hp. unfold main_poll.
    assert (user_connect r waker (rn_user p) = (u1, Ok (inr (us_next u)))) as Hcon.
    { unfold user_connect. unfold_monad. unfold zoom. rewrite Hc. fold u.
      by injection Hnew as <-. }
    unfold_monad. unfold on_user, zoom, unwrapped. rewrite Hcon. simpl.
    change (us_next (rn_user p)) with (us_next u). rewrite Hclone. reflexivity. }
  split; simpl; [done| |exact Hv2].
  exists (us_next u). split; [done|]. split; simpl; [intros [= Heq]; by apply Hne|by rewrite Hh2, Hall].
Qed.
End opening.

(** The views of the two ends of a session that was just connected. *)
Section views.
Context `{Crates, !CratesLaws}.
Implicit Types (w : World).

Definition first_words : list (N * Message) := [(0%N, Keepalive)].

Lemma speaking_opened w id s st st' k :
  reachable_wf w →
  cores (runtime w) !! s_core s =
    Some (mkSessionCore (with_next_nonce 1 (from_stateless st)) true false ∅ chan_new) →
  opened id st' (s_core s) (runtime w) → (1 + k ≤ u64_max)%N →
  speaking (s_core s) id st st' k first_words (runtime w).
Proof.
  intros Hw Hc [Hwire Htasks] Hk. split.
  - eexists. split; [exact Hc|]. split_and!; [done|exact Hk|by repeat constructor].
  - by repeat constructor.
  - by apply reachable_wf_open.
  - eapply Forall_impl; [exact Hwire|]. intros x Hx Hid. destruct (Hx Hid) as [Hno|Hcar].
    + left. intros e n c Hde. by destruct (Hno e).
    + right. exists 0%N, Keepalive. split; [by left|done].
  - split; [|by destruct (reachable_wf_world _ Hw) as [[]]].
    intros l id' addr core Hl ->. by eapply Htasks.
Qed.

Lemma hearing_up w s st :
  cores (runtime w) !! s_core s = Some (mkSessionCore
    (with_received (window_last (Some 0%N)) (from_stateless st)) true false ∅ chan_new) →
  hearing (s_core s) st first_words [] [] (runtime w).
Proof.
  intros Hc. split; [done|]. eexists. split; [exact Hc|].
  split; [done| |apply chan_new_open|apply chan_new_contents].
  exists (Some 0%N), []. split_and!; [by split|apply sublist_nil_l|done|constructor].
Qed.
End views.

Section two_programs.
Context `{Crates, !CratesLaws, Codec ChunkedData, TextCodecs, Codec ConnectionData}.
Implicit Types (p : Running) (w : World) (hs : list Happening).

Abbreviation handler_of p := (us_world (rn_user p)).

(** The packet on its way to [dst] whose datagram is [data]. *)
Definition sends p (dst : SocketAddr) (data : bytes) : Prop :=
  ∃ packet, on_wire (handler_of p) dst packet data.

Lemma run_program_app inputs inputs' p :
  run_program (inputs ++ inputs') p =
    let '(p1, out1) := run_program inputs p in
    let '(p2, out2) := run_program inputs' p1 in (p2, out1 ++ out2).
Proof.
  revert p. induction inputs as [|i inputs IH]; intros p; simpl; [by destruct (run_program inputs' p)|].
  destruct (run_input i p) as [p1 out1]. rewrite IH.
  destruct (run_program inputs p1) as [p2 out2], (run_program inputs' p2) as [p3 out3].
  by rewrite app_assoc.
Qed.

(** From the line to the poll that finds the connection made. *)
Lemma program_opens p rng o line d w1 r hs :
  rn_main p = Prompting → read_connection_string (E := Error) line = Ok d →
  connect_start (rn_socket p) rng o (cn_id d) (conn_info d) (handler_of p) = (w1, Ok r) →
  let q := (run_program (ILine rng o line :: (IHappens <$> hs)) p).1 in
  run_program (ILine rng o line :: (IHappens <$> hs)) p = (q, []) ∧
  handler_of q = run_events (event_of <$> hs) w1 ∧ rn_main q = Connecting r ∧
  us_handles (rn_user q) = us_handles (rn_user p) ∧ (user_ok (rn_user p) → user_ok (rn_user q)).
Proof.
  intros Hp Hd Hc. cbn [run_program]. erewrite program_line by done.
  rewrite run_happenings by done. split_and!; [done..|]. simpl. intros Hok.
  by apply (user_ok_cells (rn_user p)).
Qed.

Lemma program_world p rng o line d w1 r hs :
  rn_main p = Prompting → read_connection_string (E := Error) line = Ok d →
  connect_start (rn_socket p) rng o (cn_id d) (conn_info d) (handler_of p) = (w1, Ok r) →
  handler_of (run_program (ILine rng o line :: (IHappens <$> hs)) p).1 =
    run_events (event_of <$> hs) w1.
Proof. intros Hp Hd Hc. by apply (program_opens p rng o line d w1 r hs Hp Hd Hc). Qed.

(** A program of which the endpoint is [v]: what its inputs make of it. *)
Lemma typed_steps inputs : messages_sent (inputs ≫= net_steps) = typed inputs.
Proof.
  unfold messages_sent, typed. induction inputs as [|i inputs IH]; [done|].
  cbn [mbind list_bind]. rewrite omap_app, IH. by destruct i.
Qed.

Lemma messages_sent_sublist ss ss' :
  ss `sublist_of` ss' → messages_sent ss `sublist_of` messages_sent ss'.
Proof.
  unfold messages_sent. induction 1 as [|[] ? ? ? IH|[] ? ? ? IH]; simpl; try done.
  - by apply sublist_skip.
  - by apply sublist_cons.
Qed.

Lemma steps_cost_sublist ss ss' : ss `sublist_of` ss' → (steps_cost ss ≤ steps_cost ss')%N.
Proof. induction 1; simpl in *; lia. Qed.

(** The nonces the inputs may take. *)
Definition inputs_cost (inputs : list Input) : N := steps_cost (inputs ≫= net_steps).

Lemma steps_may_inputs id core (P : SessionPacket → Prop) (ss : list NetStep) inputs :
  ss `sublist_of` (inputs ≫= net_steps) →
  (∀ src data packet, IHappens (Arrives src data) ∈ inputs → deserialize data = Some packet →
     sp_id packet = id → P packet) →
  steps_may id core P ss.
Proof.
  intros Hss HP e He. eapply elem_of_sublist in He; [|exact Hss].
  apply list_elem_of_bind in He as (i & He & Hi).
  destruct i as [| | | | |h|]; simpl in He; try by apply not_elem_of_nil in He.
  all: apply list_elem_of_singleton in He as [= ->].
  destruct h as [src data|l|k]; simpl; [|done..]. intros packet Hde Hid. by eapply HP.
Qed.
End two_programs.

Section connecting.
Context `{Crates, !CratesLaws, Codec ChunkedData, !CodecLaws ChunkedData, !ChunkLayout,
  TextCodecs, Codec ConnectionData}.

(** One program on its way: what it has done at the prompt, by the packets, and by the
    poll, given what its handler does. *)
Lemma program_connects (p : Running) rng o line d w1 r hs waker w b addr :
  rn_main p = Prompting → user_ok (rn_user p) → us_handles (rn_user p) = ∅ →
  read_connection_string (E := Error) line = Ok d →
  connect_start (rn_socket p) rng o (cn_id d) (conn_info d) (us_world (rn_user p)) =
    (w1, Ok r) →
  connect_resume r waker (run_events (event_of <$> hs) w1) =
    (w, Ok (inr (mkVeqSession (Chunker_new b 4096) addr))) →
  ∃ h p',
    run_program ((ILine rng o line :: (IHappens <$> hs)) ++ [IPoll waker]) p = (p', []) ∧
    talks h (in_use (bds_id b) (bds_one_time_id b) addr w waker 0) p'.
Proof.
  intros Hp Hok Hnone Hd Hstart Hres.
  destruct (program_opens p rng o line d w1 r hs Hp Hd Hstart) as (Hrun & Hw & Hmain & Hh & Hq).
  rewrite Hnone in Hh.
  set (q := (run_program _ p).1) in *. destruct b as [id ot].
  destruct (program_poll q r waker w id ot addr Hmain (Hq Hok) Hh) as (h & p' & Hpoll & Htalks).
  { by rewrite Hw. }
  exists h, p'. split; [|done]. rewrite run_program_app, Hrun. simpl. by rewrite Hpoll.
Qed.

(** [pA] and [pB] connect and are then [pA'] and [pB']: each reads its line; a task of
    the first sends the initiation to [dst], a task of the second the response, a task of
    the first the first keepalive, and each arrives; a poll of [connect] ends it. *)
Definition three_packets (ephA ephB : N) (oA oB : OneTimeId) (lineA lineB : string)
    (dst srcA srcB : SocketAddr) (wakA wakB : Waker) (pA pB pA' pB' : Running) : Prop :=
  ∃ lA lB lK d1 d2 d3,
    let inputsA hs := ILine ephA oA lineA :: (IHappens <$> hs) in
    let inputsB hs := ILine ephB oB lineB :: (IHappens <$> hs) in
    sends (run_program (inputsA [Turn lA]) pA).1 dst d1 ∧
    sends (run_program (inputsB [Arrives srcA d1; Turn lB]) pB).1 srcA d2 ∧
    sends (run_program (inputsA [Turn lA; Arrives srcB d2; Turn lK]) pA).1 srcB d3 ∧
    run_program (inputsA [Turn lA; Arrives srcB d2; Turn lK] ++ [IPoll wakA]) pA = (pA', []) ∧
    run_program (inputsB [Arrives srcA d1; Turn lB; Arrives srcA d3] ++ [IPoll wakB]) pB =
      (pB', []).

(** Two programs that start connect: what each has then. *)
Lemma programs_connect `{!NoiseLaws NOISE_PARAMS} (sockA sockB : VeqSocket) (rngA rngB ephA ephB : N)
    (keysA keysB : SnowKeypair) (oA oB : OneTimeId) (lineA lineB : string)
    (dst srcA srcB : SocketAddr) (wakA wakB : Waker) :
  SnowKeypair_new rngA = Ok keysA → SnowKeypair_new rngB = Ok keysB →
  public_key (connection_info sockA) = public keysA →
  public_key (connection_info sockB) = public keysB →
  read_connection_string (E := Error) lineA = Ok (own_data sockB) →
  read_connection_string (E := Error) lineB = Ok (own_data sockA) →
  is_initiator sockA (connection_info sockB) = true →
  dst ∈ addresses (connection_info sockB) →
  ∃ stA stB hA hB pA' pB' wA wB sA sB,
    three_packets ephA ephB oA oB lineA lineB dst srcA srcB wakA wakB
      (mkRunning sockA (User_new keysA) Prompting None)
      (mkRunning sockB (User_new keysB) Prompting None) pA' pB' ∧
    talks hA (in_use 0 oA srcB wA wakA 0) pA' ∧ talks hB (in_use 0 oB srcA wB wakB 0) pB' ∧
    sealed_for stA stB ∧ s_id sA = 0%N ∧
    (∀ k, (1 + k ≤ u64_max)%N →
       at_end 0 oA sA (speaking (s_core sA) 0 stA stB k first_words) wA) ∧
    at_end 0 oB sB (hearing (s_core sB) stB first_words [] []) wB.
Proof.
  intros HkA HkB HpkA HpkB HlineA HlineB Hfirst Hdst.
  assert (∀ keys, reachable_wf (Handler_new keys)) as Hnew by (intros keys; by exists keys, []).
  destruct (users_connect sockA sockB (Handler_new keysA) (Handler_new keysB) rngA rngB ephA ephB
    keysA keysB oA oB 0 dst srcA srcB wakA wakB) as
    (wA1 & rA & wB1 & rB & lA & wA2 & p1 & d1 & wB2 & lB & wB3 & p2 & d2 & wA3 & lK & wA4 &
     p3 & d3 & wB4 & wA5 & wB5 & stA & stB & Hsteps & HrA5 & (sA & HsA & HidA & _ & HcA) & HrB5 &
     (sB & HsB & _ & _ & HcB) & Hseal & Hopen); [done..|].
  destruct Hsteps as (HA1 & HB1 & HA2 & Hw1 & HB2 & HB3 & Hw2 & HA3 & HA4 & Hw3 & HB4 & HA5 & HB5).
  set (pA := mkRunning sockA (User_new keysA) Prompting None).
  set (pB := mkRunning sockB (User_new keysB) Prompting None).
  assert (run_events (event_of <$> [Turn lA; Arrives srcB d2; Turn lK]) wA1 = wA4) as EA
    by (simpl; rewrite HA2; simpl; rewrite HA3; simpl; by rewrite HA4).
  assert (run_events (event_of <$> [Arrives srcA d1; Turn lB; Arrives srcA d3]) wB1 = wB4) as EB
    by (simpl; rewrite HB2; simpl; rewrite HB3; simpl; by rewrite HB4).
  destruct (program_connects pA ephA oA lineA (own_data sockB) wA1 rA
    [Turn lA; Arrives srcB d2; Turn lK] wakA wA5
    (mkBidirectionalSession 0 oA) srcB eq_refl (user_ok_new keysA) eq_refl HlineA HA1)
    as (hA & pA' & HrunA & HtA); [by rewrite EA|].
  destruct (program_connects pB ephB oB lineB (own_data sockA) wB1 rB
    [Arrives srcA d1; Turn lB; Arrives srcA d3] wakB wB5
    (mkBidirectionalSession 0 oB) srcA eq_refl (user_ok_new keysB) eq_refl HlineB HB1)
    as (hB & pB' & HrunB & HtB); [by rewrite EB|].
  exists stA, stB, hA, hB, pA', pB', wA5, wB5, sA, sB. split_and!; [|done..| |].
  - exists lA, lB, lK, d1, d2, d3. split_and!; [..|exact HrunA|exact HrunB].
    + exists p1. rewrite (program_world pA _ _ _ _ _ _ _ eq_refl HlineA HA1). simpl. by rewrite HA2.
    + exists p2. rewrite (program_world pB _ _ _ _ _ _ _ eq_refl HlineB HB1). simpl.
      rewrite HB2. simpl. by rewrite HB3.
    + exists p3. by rewrite (program_world pA _ _ _ _ _ _ _ eq_refl HlineA HA1), EA.
  - intros k Hk. apply (reachable_at_end wA5 0 oA sA); [done|done|].
    apply speaking_opened; [done|done| |done]. by apply (Hopen (silent_new 0 keysA) oA).
  - apply (reachable_at_end wB5 0 oB sB); [done|done|]. by apply hearing_up.
Qed.

(** Two connected programs and the network between them. *)
Lemma programs_talk hA hB (pA pB : Running) wA wB oA oB (sA sB : Session) addrA addrB stA stB
    wakA wakB moreA moreB :
  talks hA (in_use 0 oA addrA wA wakA 0) pA → talks hB (in_use 0 oB addrB wB wakB 0) pB →
  sealed_for stA stB → s_id sA = 0%N →
  at_end 0 oA sA (speaking (s_core sA) 0 stA stB (inputs_cost moreA) first_words) wA →
  at_end 0 oB sB (hearing (s_core sB) stB first_words [] []) wB →
  Forall (λ d, (N.of_nat (length d) ≤ alloc_slots)%N) (typed moreA) →
  let outA := (run_program moreA pA).2 in
  let outB := (run_program moreB pB).2 in
  (∀ src data packet, IHappens (Arrives src data) ∈ moreB →
     deserialize data = Some packet → sp_id packet = 0%N →
     heard stB first_words packet ∨ ∃ dest ttl, (dest, packet, ttl) ∈ transmissions outA) →
  Forall answer_ok (answers_of outB) ∧ messages_received outB `sublist_of` typed moreA.
Proof.
  intros HtA HtB Hseal Hsid HwA HwB Hfit outA outB Harr.
  destruct (program_is_endpoint hA _ pA moreA HtA) as (ssA & HssA & HoutA).
  destruct (program_is_endpoint hB _ pB moreB HtB) as (ssB & HssB & HoutB).
  unfold outA, outB in *. rewrite <- HoutA in Harr. rewrite <- HoutB.
  assert (messages_sent ssA `sublist_of` typed moreA) as Hsent
    by (rewrite <- typed_steps; by apply messages_sent_sublist).
  destruct (two_ends wA wB 0 oA oB sA sB stA stB first_words addrA addrB wakA wakB 0 0 ssA ssB
    Hseal eq_refl Hsid) as [Hans Hsub].
  - eapply at_end_weaken; [|exact HwA]. by apply speaking_weaken, steps_cost_sublist.
  - exact HwB.
  - rewrite Forall_forall in *. intros d Hd. apply Hfit. by eapply elem_of_sublist.
  - by eapply steps_may_inputs.
  - by eapply steps_may_inputs.
  - split; [exact Hans|]. by etrans.
Qed.
End connecting.

(** C1. Two users run the program and paste each other's connection string, however the
    lines are wrapped; the one with the lesser key initiates.  Both ask for session 0.
    Once the initiation, the response and the first keepalive, each sent by a task of
    its program, have arrived, a poll of [connect] finds both connected.  From then on,
    whatever both programs do (read lines, print, run their tasks, come to the end of
    their input) and whatever the network does to what the first sends (it arrives any
    number of times, in any order or never, with packets in between that do not open
    under the key of the session), every [recv] of the second's printing task returns a
    message, waits, or finds the session over, and the messages it prints are,
    unchanged and in order, lines typed at the first, each at most once. *)
Theorem programs_connect_and_print `{Crates, !CratesLaws, !NoiseLaws NOISE_PARAMS, Codec ChunkedData,
    !CodecLaws ChunkedData, !ChunkLayout, TextCodecs, !TextLaws, Codec ConnectionData,
    WellFormed ConnectionData, !CodecLaws ConnectionData, Udp, !Discovery}
    (rngA rngB ephA ephB : N) (argsA argsB : Args) (pA pB : Running)
    (strA strB lineA lineB : string) (oA oB : OneTimeId) (dst srcA srcB : SocketAddr)
    (wakA wakB : Waker) :
  main_start (E := Error) rngA argsA = Ok (pA, strA) →
  main_start (E := Error) rngB argsB = Ok (pB, strB) →
  wf (own_data (rn_socket pA)) → wf (own_data (rn_socket pB)) →
  blanks_added strB lineA → blanks_added strA lineB →
  is_initiator (rn_socket pA) (connection_info (rn_socket pB)) = true →
  dst ∈ addresses (connection_info (rn_socket pB)) →
  ∃ st pA' pB',
    three_packets ephA ephB oA oB lineA lineB dst srcA srcB wakA wakB pA pB pA' pB' ∧
    (∃ connA connB, rn_main pA' = Talking connA ∧ rn_main pB' = Talking connB) ∧
    ∀ moreA moreB,
      (1 + inputs_cost moreA ≤ u64_max)%N →
      Forall (λ d, (N.of_nat (length d) ≤ alloc_slots)%N) (typed moreA) →
      let outA := (run_program moreA pA').2 in
      let outB := (run_program moreB pB').2 in
      (∀ src data packet, IHappens (Arrives src data) ∈ moreB →
         deserialize data = Some packet → sp_id packet = 0%N →
         heard st first_words packet ∨ ∃ dest ttl, (dest, packet, ttl) ∈ transmissions outA) →
      Forall answer_ok (answers_of outB) ∧
      messages_received outB `sublist_of` typed moreA.
Proof.
  intros HstartA HstartB HwfA HwfB HlineA HlineB Hfirst Hdst.
  destruct (main_start_spec _ _ _ _ HstartA) as (keysA & HkA & HpA & HpkA & HstrA).
  destruct (main_start_spec _ _ _ _ HstartB) as (keysB & HkB & HpB & HpkB & HstrB).
  pose proof (read_back (F := Error) _ _ _ HwfA HstrA HlineB) as HreadA.
  pose proof (read_back (F := Error) _ _ _ HwfB HstrB HlineA) as HreadB.
  destruct (programs_connect (rn_socket pA) (rn_socket pB) rngA rngB ephA ephB keysA keysB oA oB
    lineA lineB dst srcA srcB wakA wakB) as
    (stA & stB & hA & hB & pA' & pB' & wA & wB & sA & sB & Hthree & HtA & HtB & Hseal & Hsid &
     HwA & HwB); [done..|].
  rewrite <- HpA, <- HpB in Hthree. exists stB, pA', pB'. split_and!; [exact Hthree| |].
  - destruct (tk_main _ _ _ HtA) as (cA & HcA & _), (tk_main _ _ _ HtB) as (cB & HcB & _).
    by exists cA, cB.
  - intros moreA moreB Hroom Hfit.
    apply (programs_talk hA hB pA' pB' wA wB oA oB sA sB srcB srcA stA stB wakA wakB moreA moreB
      HtA HtB Hseal Hsid (HwA _ Hroom) HwB Hfit).
Qed.

(** ** Two programs, run by the kernel *)

Section demo.
#[local] Existing Instance crates.
#[local] Existing Instance crates_laws.
#[local] Existing Instance chunk_codec.
#[local] Existing Instance list_udp.
#[local] Existing Instance demo_discovery.
#[local] Existing Instance hex_codecs.
#[local] Instance data_codec : Codec ConnectionData := countable_codec ConnectionData.

Definition demo_start (n : N) : outcome Error (Running * string) :=
  main_start n (mkArgs n).
Definition started (r : outcome Error (Running * string)) : Running * string :=
  match r with
  | Ok x => x
  | _ => (mkRunning (demo_socket 0) (User_new (demo_keys 0)) Ended None, EmptyString)
  end.
Definition has_started (r : outcome Error (Running * string)) : bool :=
  match r with Ok _ => true | _ => false end.

Lemma started_ok r : has_started r = true → r = Ok ((started r).1, (started r).2).
Proof. by destruct r as [[p s]| | | |]. Qed.

Definition demo_program (n : N) : Running := (started (demo_start n)).1.

(** The line a terminal makes of the string of program [n]. *)
Definition demo_line (n : N) : string :=
  (started (demo_start n)).2 +:+ String (Ascii.ascii_of_nat 10) EmptyString.

(** The datagrams of a run, as they arrive from [src]. *)
Definition arriving (src : SocketAddr) (out : list Output) : list Input :=
  omap (λ x : Outgoing, (λ d, IHappens (Arrives src d)) <$> serialize x.1.2) (transmissions out).

(** The handshake; then the first program sends two lines and comes to the end of its
    input, and the second prints them. *)
Definition demo_A1 := run_program [ILine 3 100 (demo_line 2); IHappens (Turn 0); ITransmit]
  (demo_program 1).
Definition demo_B1 := run_program (ILine 4 200 (demo_line 1) ::
  arriving (SocketAddrV4 1 1) demo_A1.2 ++ [IHappens (Turn 2); ITransmit]) (demo_program 2).
Definition demo_A2 := run_program (arriving (SocketAddrV4 1 2) demo_B1.2 ++
  [IHappens (Turn 3); ITransmit; IPoll 31]) demo_A1.1.
Definition demo_B2 := run_program (arriving (SocketAddrV4 1 1) demo_A2.2 ++ [IPoll 32]) demo_B1.1.
Definition demo_A3 := run_program [ISend 31 [x01; x02]; ISend 31 [x03]; ITransmit; ITransmit;
  IEnd; ISend 31 [x04]; ITransmit] demo_A2.1.
Definition demo_B3 := run_program (IPrint 33 0 :: arriving (SocketAddrV4 1 1) demo_A3.2 ++
  [IPrint 33 1; IPrint 33 2; IPrint 33 3]) demo_B2.1.

Example demo_programs_print :
  demo_B3.2 = [Received Pending; Received (Ok [x01; x02]); Received (Ok [x03]); Received Pending].
Proof. vm_compute. reflexivity. Qed.

Lemma blanks_added_refl s : blanks_added s s.
Proof. induction s as [|c s IH]; by constructor. Qed.

Lemma blanks_added_newline s :
  blanks_added s (s +:+ String (Ascii.ascii_of_nat 10) EmptyString).
Proof. induction s as [|c s IH]; [|by apply added_char]. by apply added_blank; [|constructor]. Qed.

Lemma programs_connect_and_print_witness :
  ∃ pA' pB',
    three_packets 3 4 100 200 (demo_line 2) (demo_line 1) (SocketAddrV4 2130706433 2)
      (SocketAddrV4 1 1) (SocketAddrV4 1 2) 31 32 (demo_program 1) (demo_program 2) pA' pB' ∧
    messages_received (run_program [IPrint 33 0; IPrint 33 1] pB').2 `sublist_of` [[x01]; [x02]].
Proof.
  destruct (@programs_connect_and_print crates crates_laws engine_laws chunk_codec
    chunk_codec_laws chunk_layout hex_codecs hex_laws data_codec any_data countable_codec_laws
    list_udp demo_discovery 1 2 3 4 (mkArgs 1) (mkArgs 2)
    (demo_program 1) (demo_program 2) (started (demo_start 1)).2 (started (demo_start 2)).2
    (demo_line 2) (demo_line 1) 100 200 (SocketAddrV4 2130706433 2) (SocketAddrV4 1 1)
    (SocketAddrV4 1 2) 31 32) as (st & pA' & pB' & Hthree & _ & Hprint).
  - apply started_ok. vm_compute. reflexivity.
  - apply started_ok. vm_compute. reflexivity.
  - exact I.
  - exact I.
  - apply blanks_added_newline.
  - apply blanks_added_newline.
  - vm_compute. reflexivity.
  - apply (bool_decide_eq_true_1 _). vm_compute. reflexivity.
  - exists pA', pB'. split; [exact Hthree|].
    apply (Hprint [ISend 31 [x01]; ISend 31 [x02]; IEnd] [IPrint 33 0; IPrint 33 1]).
    + apply N.leb_le. vm_compute. reflexivity.
    + change (typed _) with [[x01]; [x02]].
      repeat (apply Forall_cons; split); try apply Forall_nil; try exact I; discriminate.
    + intros src data packet Hin. repeat (apply elem_of_cons in Hin as [Hin|Hin]; [discriminate Hin|]).
      by apply not_elem_of_nil in Hin.
Defined.

(** A connected program, after the heartbeat missed two keepalives. *)
Definition demo_user : User :=
  demo_run (demo_steps ++ [UEvent (EvTask 4); UEvent (EvTask 4)]).
Definition demo_disconnected : Running :=
  mkRunning (demo_socket 1) demo_user (Talking 0) (Some 1%N).
Definition demo_view : Endpoint :=
  default (in_use 7 100 (SocketAddrV4 1 2) (us_world demo_user) 31 0)
    (view demo_user 31 0 demo_handle).

Lemma demo_disconnected_talks : talks demo_handle demo_view demo_disconnected.
Proof.
  split.
  - apply user_reachable_inv. by eexists (demo_keys 1), _.
  - exists 0%N. split; [done|]. by split.
  - apply (view_shows _ 31 0). unfold demo_view.
    assert (match view demo_user 31 0 demo_handle with Some _ => true | None => false end = true)
      as Hview by (vm_compute; reflexivity).
    simpl rn_user. destruct (view demo_user 31 0 demo_handle); [reflexivity|discriminate].
Qed.

Lemma disconnect_ends_program_witness :
  (run_input (IPrint 33 0) demo_disconnected).2 = [Received (Err Disconnected)] ∧
  rn_main (run_input (ISend 31 []) demo_disconnected).1 = Talking 0 ∧
  rn_main (run_input (ISend 31 [x01]) demo_disconnected).1 = Ended.
Proof.
  destruct (@disconnect_ends_program crates crates_laws chunk_codec chunk_codec_laws hex_codecs
    data_codec demo_handle demo_view demo_disconnected 33 0)
    as (Hprint & _ & _ & _); [..|
  destruct (@disconnect_ends_program crates crates_laws chunk_codec chunk_codec_laws hex_codecs
    data_codec demo_handle demo_view demo_disconnected 31 0)
    as (_ & Hempty & Hsend & _)].
  1, 6: exact demo_disconnected_talks.
  1, 5: exists 7%N, 100%N, (mkSession 7 (SocketAddrV4 1 2) 2), (core_of (us_world demo_user) 2);
    split_and!; reflexivity.
  1-6: reflexivity.
  split; [|split].
  - destruct (Hprint 1%N eq_refl) as (p' & -> & _). reflexivity.
  - destruct Hempty as (p' & -> & Hm & _). exact Hm.
  - destruct (Hsend [x01]) as (p' & -> & Hm & _); [discriminate|reflexivity|exact Hm].
Defined.
End demo.
