(* ===== verification/UnitTests.v ===== *)
(** * The unit tests, run on the model

    The [tests] modules of [src/snow_types.rs], [src/transform.rs] and
    [src/ip_discovery/mod.rs], translated statement by statement and run by the
    kernel on the concrete crates.  A test is an outcome: [Ok] if it passes, [Panic] if
    an [unwrap] or an assertion of it fails. *)

From S2P Require Import Prelude Std Externals Layout Engine SnowTypes Transport Transform Reassembly.
From S2P Require Import Session Concrete DualStack IpDiscovery.

#[local] Existing Instance crates.
#[local] Existing Instance chunk_codec.
#[local] Existing Instance list_udp.
#[local] Existing Instance demo_discovery.

(** [unwrap] of a [Result], and [assert_eq!]. *)
Definition unwrap_result {E F A} (r : outcome E A) : outcome F A :=
  match r with
  | Ok a => Ok a
  | Err _ => Panic
  | Panic => Panic
  | Pending => Pending
  | OutOfFuel => OutOfFuel
  end.
Definition assert_eq {E A} `{EqDecision A} (x y : A) : outcome E unit :=
  if decide (x = y) then Ok tt else Panic.

(** ** snow_types.rs *)

(** The statements the tests begin with: [transport1] and [transport2]. *)
Definition test_transports : outcome Error (LossyTransportState * LossyTransportState) :=
  keypair1 ← unwrap_result (SnowKeypair_new 1);
  keypair2 ← unwrap_result (SnowKeypair_new 2);
  initiator ← unwrap_result (SnowInitiator_new 3 keypair1 (public keypair2));
  responder ← unwrap_result (SnowResponder_new 4 keypair2 (public keypair1));
  '(transport2, resp) ← unwrap_result (response responder (initiation initiator));
  received ← unwrap_result (receive_response initiator resp);
  transport1 ← ReceiveResponseResult_unwrap received;
  mret (transport1, transport2).

(** A message written by [from], and read and compared by [to]. *)
Definition test_message (data : bytes) (from to : LossyTransportState)
    : outcome Error (LossyTransportState * LossyTransportState * bytes) :=
  let '((from, encrypted_buf), len) := write_message data (from, replicate noise_max x00) in
  len ← unwrap_result len;
  sealed ← slice_to len encrypted_buf;
  let '((to, result_buf), len) := read_message sealed (to, replicate noise_max x00) in
  len ← unwrap_result len;
  result ← slice_to len result_buf;
  _ ← assert_eq data result;
  mret (from, to, sealed).

Definition data1 : bytes := [x01; x02; x03; x04].
Definition data2 : bytes := [x05; x06; x07; x08].

Definition test_initiator_to_responder : outcome Error unit :=
  '(transport1, transport2) ← test_transports;
  '(transport1, transport2, _) ← test_message data1 transport1 transport2;
  _ ← test_message data2 transport1 transport2;
  mret tt.

Definition test_responder_to_initiator : outcome Error unit :=
  '(transport1, transport2) ← test_transports;
  '(transport2, transport1, _) ← test_message data1 transport2 transport1;
  _ ← test_message data2 transport2 transport1;
  mret tt.

Definition test_bidirectional : outcome Error unit :=
  '(transport1, transport2) ← test_transports;
  '(transport1, transport2, _) ← test_message data1 transport1 transport2;
  _ ← test_message data2 transport2 transport1;
  mret tt.

(** It should panic: the packet is read twice. *)
Definition test_nonce_rejects : outcome Error unit :=
  '(transport1, transport2) ← test_transports;
  '(_, transport2, sealed) ← test_message data1 transport1 transport2;
  let '(_, len) := read_message sealed (transport2, replicate noise_max x00) in
  _ ← unwrap_result len;
  mret tt.

(** ** transform.rs *)

Definition one_to_eight : bytes := [x01; x02; x03; x04; x05; x06; x07; x08].
Definition nine_to_sixteen : bytes := [x09; x0a; x0b; x0c; x0d; x0e; x0f; x10].

Definition test_send_recv : outcome VeqError unit :=
  let chunker := Chunker_new ([] : list bytes) 3 in
  let '(chunker, sent) := Chunker_send one_to_eight chunker in
  _ ← unwrap_result sent;
  received ← unwrap_result (Chunker_recv 10 chunker).2;
  assert_eq one_to_eight received.

(** The delegate the test keeps is the one of the chunker. *)
Definition test_send_recv_lossy : outcome VeqError unit :=
  let chunker := Chunker_new ([] : list bytes) 3 in
  let '(chunker, sent) := Chunker_send one_to_eight chunker in
  _ ← unwrap_result sent;
  let '(delegate, stolen) := brecv (delegate chunker) in
  _ ← unwrap_result stolen;
  let '(chunker, sent) := Chunker_send nine_to_sixteen (with_delegate delegate chunker) in
  _ ← unwrap_result sent;
  received ← unwrap_result (Chunker_recv 10 chunker).2;
  assert_eq nine_to_sixteen received.

(** ** ip_discovery/mod.rs *)

(** [0.0.0.0] and [127.0.0.1] with the port the socket was bound to. *)
Definition test_ifs : outcome Error unit :=
  udp_socket ← unwrap (udp_bind (SocketAddrV4 0 9));
  addr ← unwrap (udp_local_addr udp_socket);
  ips ← unwrap_result (discover_ips (V4 udp_socket));
  let port := match addr with SocketAddrV4 _ p | SocketAddrV6 _ p _ _ => p end in
  _ ← assert_eq (bool_decide (SocketAddrV4 0 port ∈ ips)) false;
  assert_eq (bool_decide (SocketAddrV4 2130706433 port ∈ ips)) true.

(** ** They pass *)

Theorem unit_tests_pass :
  test_initiator_to_responder = Ok tt ∧ test_responder_to_initiator = Ok tt ∧
  test_bidirectional = Ok tt ∧ test_nonce_rejects = Panic ∧
  test_send_recv = Ok tt ∧ test_send_recv_lossy = Ok tt ∧ test_ifs = Ok tt.
Proof. split_and!; vm_compute; reflexivity. Qed.
