(* ===== verification/Scenarios.v ===== *)
(** * The integration tests, run on the model

    The tests of [src/lib.rs], translated statement by statement and run by the kernel
    on the concrete crates: two sockets whose handlers, loops, tasks and network are
    those of the model.  The runtime is one schedule: whenever a test waits, every
    task of both handlers has a turn, the removals that were spawned run, the transmit
    loops empty their queues, and the receive loops read what arrived.  The host is one
    machine, so that every address of a socket reaches it.  [test_large_payload] is
    run with a smaller payload; [messages_end_to_end] covers its length. *)

From S2P Require Import Prelude Std Externals Layout Engine SnowTypes Transport Transform Reassembly Delegates.
From S2P Require Import Session SessionFacts Concrete SessionProps Handler Table HandlerFacts Reachable HandlerProps Wire Connection DualStack IpDiscovery Veq VeqProps Receive Lifecycle Handles Program.

#[local] Existing Instance crates.
#[local] Existing Instance chunk_codec.
#[local] Existing Instance list_udp.
#[local] Existing Instance demo_discovery.

(** ** The network *)

(** What a socket sent, taken from it, and what arrives at it. *)
Class Simulated (S : Type) := {
  sim_flush : S → S * list bytes;
  sim_arrive : SocketAddr → bytes → S → S;
}.

Definition flush_list (s : ListSocket) : ListSocket * list bytes :=
  (mkListSocket (ls_addr s) (ls_inbox s) [] (ls_ttl s), (ls_outbox s).*1).
Definition arrive_list (src : SocketAddr) (d : bytes) (s : ListSocket) : ListSocket :=
  mkListSocket (ls_addr s) (ls_inbox s ++ [(d, src)]) (ls_outbox s) (ls_ttl s).

#[local] Instance versioned_simulated : Simulated VersionedSocket := {|
  sim_flush s := match s with
    | V4 u => let '(u, ds) := flush_list u in (V4 (u : UdpSocket), ds)
    | V6 u => let '(u, ds) := flush_list u in (V6 (u : UdpSocket), ds)
    end;
  sim_arrive src d s := match s with
    | V4 u => V4 (arrive_list src d u : UdpSocket)
    | V6 u => V6 (arrive_list src d u : UdpSocket)
    end;
|}.

(** Everything arrives over IPv4 at a pair of sockets. *)
#[local] Instance dual_simulated : Simulated (DualSocket VersionedSocket VersionedSocket) := {|
  sim_flush s :=
    let '(a, ds) := sim_flush (v4_socket s) in
    let '(b, es) := sim_flush (v6_socket s) in
    (mkDualSocket a b, ds ++ es);
  sim_arrive src d s := mkDualSocket (sim_arrive src d (v4_socket s)) (v6_socket s);
|}.

(** A socket with its handler and the values its program owns. *)
Record Side (T : Type) := mkSide {
  sd_socket : T;
  sd_addr : SocketAddr;
  sd_veq : VeqSocket;
  sd_user : User;
  sd_clock : nat;
}.
#[global] Arguments mkSide {T}.
#[global] Arguments sd_socket {T}.
#[global] Arguments sd_addr {T}.
#[global] Arguments sd_veq {T}.
#[global] Arguments sd_user {T}.
#[global] Arguments sd_clock {T}.

Section side.
Context {T : Type} `{BidirSocket T, Simulated T}.

Definition with_sd_user (u : User) (d : Side T) : Side T :=
  mkSide (sd_socket d) (sd_addr d) (sd_veq d) u (sd_clock d).
Definition with_sd_socket (s : T) (d : Side T) : Side T :=
  mkSide s (sd_addr d) (sd_veq d) (sd_user d) (sd_clock d).

Definition on_user {E A} (m : M User E A) : M (Side T) E A := zoom sd_user with_sd_user m.
Definition on_world {E A} (m : M World E A) : M (Side T) E A :=
  on_user (zoom us_world with_us_world m).
Definition on_loop {E A} (m : M (T * World) E A) : M (Side T) E A :=
  zoom (λ d, (sd_socket d, us_world (sd_user d)))
    (λ '(s, w) d, with_sd_socket s (with_sd_user (with_us_world w (sd_user d)) d)) m.

(** A second passes: a turn of every task whose interval has elapsed ([interval] of
    1000 ms, of 5000 ms in the heartbeat), then the removals that were spawned. *)
Definition due (clock : nat) (t : Task) : bool :=
  match t with HeartbeatTask _ => bool_decide (clock mod 5 = 0) | _ => true end.

Definition side_tasks (d : Side T) : Side T :=
  let w := us_world (sd_user d) in
  let ts := map_to_list (filter (λ t, due (sd_clock d) t.2) (tasks (runtime w))) in
  let w := run_events (EvTask <$> ts.*1) w in
  let w := run_events (replicate (length (closers w)) (EvRunCloser 0)) w in
  mkSide (sd_socket d) (sd_addr d) (sd_veq d) (with_us_world w (sd_user d)) (S (sd_clock d)).

(** The transmit loop, until it waits. *)
Fixpoint side_transmit (fuel : nat) (d : Side T) : Side T :=
  match fuel with
  | O => d
  | S fuel =>
      match on_loop (E := Error) transmit_turn d with
      | (d, Ok _) => side_transmit fuel d
      | (d, _) => d
      end
  end.

Definition side_flush (d : Side T) : Side T * list bytes :=
  let '(s, ds) := sim_flush (sd_socket d) in (with_sd_socket s d, ds).

(** A datagram arrives and the receive loop reads it. *)
Definition side_receive (src : SocketAddr) (d : Side T) (data : bytes) : Side T :=
  (on_loop (E := Error) (receive_turn [true]) (with_sd_socket (sim_arrive src data (sd_socket d)) d)).1.
End side.

(** ** Two sockets on one host *)

Section net.
Context {S1 S2 : Type} `{BidirSocket S1, Simulated S1, BidirSocket S2, Simulated S2}.

Abbreviation Net := (Side S1 * Side S2)%type.

Definition round (n : Net) : Net :=
  let '(a, ps) := side_flush (side_transmit 100 (side_tasks n.1)) in
  let '(b, qs) := side_flush (side_transmit 100 (side_tasks n.2)) in
  (foldl (side_receive (sd_addr b)) a qs, foldl (side_receive (sd_addr a)) b ps).

(** The statements of a test run on either socket. *)
Definition at1 {E A} (m : M (Side S1) E A) : M Net E A := zoom fst (λ a n, (a, n.2)) m.
Definition at2 {E A} (m : M (Side S2) E A) : M Net E A := zoom snd (λ b n, (n.1, b)) m.

(** [m.await]: the schedule runs while [m] waits, for at most [fuel] rounds. *)
Fixpoint await {E A} (fuel : nat) (m : M Net E A) : M Net E A := λ n,
  match fuel with
  | O => (n, OutOfFuel)
  | S fuel =>
      match m n with
      | (n, Pending) => await fuel m (round n)
      | result => result
      end
  end.

(** [m.unwrap()] and [m.is_err()] *)
Definition unwrapped {E A} (m : M Net E A) : M Net Error A := λ n,
  match m n with
  | (n, Ok a) => (n, Ok a)
  | (n, Pending) => (n, Pending)
  | (n, OutOfFuel) => (n, OutOfFuel)
  | (n, _) => (n, Panic)
  end.
Definition is_err {E A} (m : M Net E A) : M Net Error bool := λ n,
  match m n with
  | (n, Ok _) => (n, Ok false)
  | (n, Err _) => (n, Ok true)
  | (n, Panic) => (n, Panic)
  | (n, Pending) => (n, Pending)
  | (n, OutOfFuel) => (n, OutOfFuel)
  end.

(** [assert!] *)
Definition assert (b : bool) : M Net Error unit := lift (if b then Ok tt else Panic).
End net.

(** *** Tests *)

Section tests.
Context {S1 S2 : Type} `{BidirSocket S1, Simulated S1, BidirSocket S2, Simulated S2}.

Abbreviation Net := (Side S1 * Side S2)%type.

(** [join!] of the two futures of [connect], polled in turn. *)
Fixpoint join (fuel : nat) (p1 p2 : SessionReady + N) : M Net Error (N * N) :=
  match fuel, p1, p2 with
  | _, inr x1, inr x2 => mret (x1, x2)
  | O, _, _ => lift OutOfFuel
  | S fuel, _, _ =>
      p1 ← match p1 with inl r => at1 (on_user (user_connect r 31)) | done => mret done end;
      p2 ← match p2 with inl r => at2 (on_user (user_connect r 32)) | done => mret done end;
      modify round;;
      join fuel p1 p2
  end.

(** [join!(socket1.connect(id, info2), socket2.connect(id, info1))], unwrapped; [rng]
    seeds what the calls draw. *)
Definition connect_both (rng : N) (id : SessionId) : M Net Error (N * N) :=
  info1 ← gets (λ n, connection_info (sd_veq n.1));
  info2 ← gets (λ n, connection_info (sd_veq n.2));
  s1 ← gets (λ n, sd_veq n.1);
  s2 ← gets (λ n, sd_veq n.2);
  unwrapped (
    r1 ← at1 (on_world (connect_start s1 rng (rng + 100) id info2));
    r2 ← at2 (on_world (connect_start s2 (rng + 1) (rng + 200) id info1));
    join 20 (inl r1) (inl r2)).

(** [send(..).await.unwrap()], [recv().await] and [drop] on either side. *)
Definition send1 (x : N) (d : bytes) : M Net Error unit := unwrapped (at1 (on_user (user_send x 31 d))).
Definition send2 (x : N) (d : bytes) : M Net Error unit := unwrapped (at2 (on_user (user_send x 32 d))).
Definition recv1 (x : N) : M Net VeqError bytes := await 20 (at1 (on_user (user_recv x 31 0 50))).
Definition recv2 (x : N) : M Net VeqError bytes := await 20 (at2 (on_user (user_recv x 32 0 50))).
Definition drop1 (x : N) : M Net Error unit := at1 (on_user (VeqSession_drop x)).
Definition drop2 (x : N) : M Net Error unit := at2 (on_user (VeqSession_drop x)).

Definition assert_recv1 (x : N) (data : bytes) : M Net Error unit :=
  received ← unwrapped (recv1 x); assert (bool_decide (data = received)).
Definition assert_recv2 (x : N) (data : bytes) : M Net Error unit :=
  received ← unwrapped (recv2 x); assert (bool_decide (data = received)).
End tests.

(** ** The tests *)

Definition unspecified4 : SocketAddr := SocketAddrV4 0 9.
Definition unspecified6 : SocketAddr := SocketAddrV6 0 7 0 0.

(** The addresses packets of the two sockets come from. *)
Definition host1 : SocketAddr := SocketAddrV4 2130706433 9.
Definition host2 : SocketAddr := SocketAddrV4 2130706433 8.

Definition dualstack_side (rng : N) : outcome Error (Side (DualSocket VersionedSocket VersionedSocket)) :=
  '(s, w) ← dualstack rng (Some unspecified4) (Some unspecified6);
  socket ← io_error (DualSocket_dualstack unspecified4 unspecified6);
  mret (mkSide socket host1 s (mkUser w ∅ ∅ ∅ 0) 0).

Definition bind_side (rng : N) (addr host : SocketAddr) : outcome Error (Side VersionedSocket) :=
  '(s, w) ← bind rng (Some addr);
  socket ← io_error (VersionedSocket_bind (Some addr));
  mret (mkSide socket host s (mkUser w ∅ ∅ ∅ 0) 0).

(** The two sessions of [get_conns], and a test that uses them. *)
Definition with_conns
    (test : N → N → M (Side (DualSocket VersionedSocket VersionedSocket) * Side VersionedSocket) Error unit)
    : outcome Error unit :=
  socket1 ← dualstack_side 1;
  socket2 ← bind_side 2 (SocketAddrV4 0 8) host2;
  snd (('(conn1, conn2) ← connect_both 3 7; test conn1 conn2) (socket1, socket2)).

Definition data1 : bytes := [x00; x01; x02; x03].
Definition data2 : bytes := [x05; x06; x07; x08].

Definition test_bidirectional_small : outcome Error unit := with_conns (λ conn1 conn2,
  send1 conn1 data1;;
  assert_recv2 conn2 data1;;
  send2 conn2 data2;;
  assert_recv1 conn1 data2).

Definition test_no_premature_drop : outcome Error unit := with_conns (λ conn1_temp conn2,
  conn1 ← at1 (on_user (VeqSession_clone conn1_temp));
  drop1 conn1_temp;;
  send1 conn1 data1;;
  assert_recv2 conn2 data1;;
  send2 conn2 data2;;
  assert_recv1 conn1 data2;;
  drop1 conn1;;
  failed ← is_err (recv2 conn2);
  assert failed).

Definition test_queued_small : outcome Error unit := with_conns (λ conn1 conn2,
  let data1 := [x00; x01; x02; x03] in
  let data2 := [x05; x04; x03; x02] in
  let data3 := [x07; x08; x09; x0a] in
  send1 conn1 data1;;
  send1 conn1 data2;;
  send1 conn1 data3;;
  assert_recv2 conn2 data1;;
  assert_recv2 conn2 data2;;
  assert_recv2 conn2 data3).

(** [(1..n).map(|n| (n % 256) as u8)]; [bytes_from k m] are the [m] bytes from [k] on. *)
Fixpoint bytes_from (k : N) (m : nat) : bytes :=
  match m with
  | O => []
  | S m => default x00 (Byte.of_N (k mod 256)) :: bytes_from (k + 1) m
  end.
Definition large_payload (n : N) : bytes := bytes_from 1 (N.to_nat (n - 1)).

Definition test_large_payload (n : N) : outcome Error unit := with_conns (λ conn1 conn2,
  send1 conn1 (large_payload n);;
  assert_recv2 conn2 (large_payload n)).

Definition test_session_id_reuse : outcome Error unit :=
  socket1 ← bind_side 1 (SocketAddrV4 0 9) host1;
  socket2 ← bind_side 2 (SocketAddrV4 0 8) host2;
  snd ((
    '(session1, session2) ← connect_both 3 7;
    send1 session1 [x00; x01; x02; x03];;
    assert_recv2 session2 [x00; x01; x02; x03];;
    drop1 session1;;
    drop2 session2;;
    '(session1, session2) ← connect_both 5 7;
    send1 session1 [x04; x05; x06; x07];;
    assert_recv2 session2 [x04; x05; x06; x07]) (socket1, socket2)).

Definition test_drop_session : outcome Error unit := with_conns (λ conn1 conn2,
  drop1 conn1;;
  failed ← is_err (recv2 conn2);
  assert failed).

(** The port the socket was bound to is that of its addresses. *)
Definition test_bind_port : outcome Error unit :=
  '(socket, _) ← bind 1 (Some (SocketAddrV4 0 54783));
  bound ← unwrap (head (elements (addresses (connection_info socket))));
  match bound with
  | SocketAddrV4 _ p | SocketAddrV6 _ p _ _ => if decide (p = 54783)%N then Ok tt else Panic
  end.

Definition same_key (s1 s2 : VeqSocket) : outcome Error unit :=
  if decide (public_key (connection_info s1) = public_key (connection_info s2))
  then Ok tt else Panic.

Definition test_bind_with_key : outcome Error unit :=
  keypair ← SnowKeypair_new 1;
  '(socket1, _) ← bind_with_keypair (Some (SocketAddrV4 0 9)) keypair;
  '(socket2, _) ← bind_with_keypair (Some (SocketAddrV4 0 8)) keypair;
  same_key socket1 socket2.

Definition test_dualstack_with_key : outcome Error unit :=
  keypair ← SnowKeypair_new 1;
  '(socket1, _) ← dualstack_with_keypair unspecified4 unspecified6 keypair;
  '(socket2, _) ← dualstack_with_keypair unspecified4 unspecified6 keypair;
  same_key socket1 socket2.

(** ** They pass

    Connecting, both directions, several messages, a message of several chunks, clones
    and drops, and an identifier that is used again. *)
Theorem sessions_pass :
  test_bidirectional_small = Ok tt ∧ test_queued_small = Ok tt ∧
  test_no_premature_drop = Ok tt ∧ test_drop_session = Ok tt ∧
  test_session_id_reuse = Ok tt ∧ test_large_payload 20000 = Ok tt.
Proof. split_and!; vm_compute; reflexivity. Qed.

Theorem sockets_pass :
  test_bind_port = Ok tt ∧ test_bind_with_key = Ok tt ∧ test_dualstack_with_key = Ok tt.
Proof. split_and!; vm_compute; reflexivity. Qed.
